(* ===== verification/_CoqProject ===== *)
-Q . S2P
Prelude.v
Collectors.v
Float64.v
Table.v
Logging.v
Queue.v
RateLimit.v
Transactions.v
Replicas.v
SharedLimiter.v
Kms.v
Filter.v
Paging.v
Directory.v
Integrity.v
Acme.v
Certificates.v
Webhook.v
Dispatcher.v
Storage.v
Maildir.v
Deliverer.v
Fleet.v
Retention.v
Lifecycle.v
Smtp.v
Url.v
InternalApi.v
Imap.v
Wire.v
ApiAuth.v
AuditLog.v
Mailbuild.v
Mime.v
Api.v
Routes.v
Sending.v
Journeys.v
Process.v
