(* ===== verification/Prelude.v ===== *)
(** * Envelope: a verification library

    Envelope is a mail service in one Go binary.  Mail for hosted domains
    (vhosts) enters over SMTP, is judged by a filter and filed in mailboxes that
    IMAP reads; authenticated users submit mail over SMTP or a REST API, which
    signs it, stages a copy per recipient and queues a delivery job; workers
    drain the queue to other mail servers, retry and bounce.  Events go to
    webhooks through a second queue.  Everything durable is in PostgreSQL, DKIM
    keys and webhook secrets encrypted.  A process runs any subset of the roles;
    an SMTP or IMAP role alone in its process can reach the data over an
    internal HTTP API instead of the database.

    This library translates that code and proves it correct.  Source paths below
    are relative to src/.

    ** How the code is modelled

    A component is a set of functions in the state monad [M W A := W -> A * W]
    over an abstract world [W]: the order of calls is the order of the source,
    and what a call does to the world is what its interface says.  Go's
    [(value, error)] is [res], error values are the data of [goerr], so that
    errors.Is is a function; early returns are [let?] and [let!].  Go's clock,
    UUIDs and random numbers are operations of the world.  Interfaces of the
    source are type classes ([Directory], [MessageStore], [QueueBackend],
    [Encryptor], [Limiter], ...), with a second class for the laws clients rely on
    ([StoreSpec], [QueueSpec], [EncryptorSpec], ...); implementations are
    instances and are proved to satisfy the laws.  SQL tables are the class
    [Table] with the laws [TableSpec]; every statement may fail.  Interleavings
    (the delivery workers, the dispatcher, processes sharing a database) are step
    relations or explicit lists of steps.  A float64 is computed exactly and
    rounded ([Float64]); durations, counters and shifts keep the width where the
    code can reach it (backoff, quotas, retention windows).  A context carries
    its error and the correlation ID; deadlines are not modelled.  The metrics
    are operations of the world ([Metrics]), called where the source calls them.

    ** The files

    - [Prelude]: errors, the monad and its loops, strings, sorting, the tactics
      the files share ([go_simpl], [split_match], [quiet_calls]).
    - [Float64]: binary64 arithmetic.  [Table]: gorm and PostgreSQL as statements
      with laws, rows as maps ([kview]), the list instance of the witnesses.
      [Paging]: the cursor query of every list endpoint.  [Url]: net/url.
    - [Collectors]: internal/metrics.  [Logging]: internal/logging.  [Kms]: internal/kms and the re-encryption loop
      of the two key rotations; module [Base64] is encoding/base64.
    - [Queue]: internal/queue; the queue of internal/webhook is a second instance
      of the same generic operations, in [Webhook].
    - [RateLimit]: internal/ratelimit.
    - [Transactions]: transactions of several processes on one database, their
      statements interleaved.  [Replicas] and [SharedLimiter]: the claims of the
      queues and the shared limiter as such transactions.
    - [Directory]: internal/directory (service.go, migrate.go, memory/).
      [Integrity]: the invariant of its tables.  [Acme]: internal/acme.
      [Certificates]: the TLS configurations of internal/platform/selfsigned.go
      and main.go's acmeTLSConfig.
    - [Webhook], [Dispatcher]: internal/webhook (stores, signatures and queues;
      the dispatcher).
    - [Storage], [Maildir]: internal/storage (contract and postgres/; maildir/,
      over a file system of directories and files whose calls may fail).
    - [Filter]: internal/filter with its rspamd client.  [Smtp]:
      internal/platform/smtp, sessions as sequences of commands.
    - [Imap]: internal/platform/imap.
    - [Deliverer]: internal/deliverer, the workers of a process as a step
      relation.  [Fleet]: several such processes on one queue, starting and dying
      at any point.  [Wire]: what its SMTP client's calls put on the wire.
    - [Retention]: internal/retention.
    - [Lifecycle]: internal/platform's App and HeadlessApp, and the background
      loops of the deliverer, the dispatcher, the purger and the HTTP instances
      under their shutdown (Loop and Group are the interfaces between them).
    - [InternalApi]: internal/internalapi, both ends of the wire.
    - [ApiAuth], [AuditLog], [Mailbuild], [Api]: internal/apiauth, internal/audit,
      internal/mailbuild and internal/api, from the DTOs to the controllers.
      [Mime]: a reader of what [Mailbuild] composes, after RFC 5322 and 2046.
      [Routes]: the route table, the module tree and internal/app.  [Sending]:
      the API's message route as the submission loop it runs.
    - [Journeys]: submission (SMTP or API) to wire or bounce, remote server to
      mailbox reader, and deactivation, across the files above.
    - [Process]: cmd/envelope/main.go, internal/db, internal/storage/migrations.

    An operation has the source's name, with a prefix where one file holds
    several implementations ([pst_] and [mst_] for the Postgres and memory
    webhook stores, [pg_] and [mem_] elsewhere, [client_] for internal API
    clients, [VhostController_] and the like for controllers).

    ** What is proved

    - The system (C1-C3): a message accepted over SMTP or the API is never lost
      silently, even if delivering processes die, but in one window; received
      mail is readable by its recipient; a deactivated vhost stays closed.
    - Message composition (C4): what the API composes, a MIME reader reads back.
    - Queues (C5-C8): both backends refine one contract and count their jobs, any
      number of processes on one database hand a job out once between releases,
      backoff is in range at every attempt number.
    - Rate limits (C9): what processes that share the limiter's table get without
      a row lock, and one bucket per key with exact bursts when the tries of a key
      do not overlap.
    - Directory (C10-C14): vhosts appear whole, authentication is exact, pages
      are complete, key rotation is resumable, the tables stay well formed.
    - Shutdown (C15): a graceful shutdown waits for the loop, never gets stuck
      and ends within the work in flight.
    - Webhooks (C16-C19): subscriptions round-trip, an event becomes exactly the
      jobs of its subscribers, one signed request per attempt decides from the
      answer whether a job is completed, dead-lettered or rescheduled (and
      when), and no job is sent more often than the maximum, dispatchers
      dying at any point.
    - Storage (C20-C22): Postgres and maildir refine one contract, whatever file
      system call fails; listings terminate.
    - Delivery (C23-C26): the outcome of a job (sent, bounced, or deferred to when),
      error classification, what a bounce may write and to whom, and the
      exclusion of workers and the per-domain cap across processes.
    - Retention (C27).  Inbound filter (C28): the verdict as a function of what
      SPF, DKIM, DMARC and rspamd answered.  SMTP (C29-C34): recipients, events,
      filing, limits, no relay without authentication, submission.
    - Internal API (C35-C36): who is served and who refused, with which code; and
      remote calls as local ones, but for what the wire drops (a vhost's account,
      a webhook event's correlation ID).  IMAP (C37-C39): isolation of accounts
      whose local parts have no slash, exact fetches and exact flag updates.
    - Management API (C40): the tenant boundary of every route, and what a refused
      send tells.

    The system's theorems are proved against the interfaces, so they hold of
    each combination of backends: C1 joins [Smtp.Submission_Data_spec] or
    [Sending.message_sent], the fleet's step relation, [Wire.attempt_transmits]
    and the store's contract by an invariant of a job's life
    ([Journeys.accounted]) that every step keeps, the rest of the system working
    between the steps; C2 joins [Smtp.Inbound_Data_spec] and
    [Imap.fetch_from_spec] through the store's contract; C3 joins
    [Integrity.deactivation_final] with the SMTP session and the bounces.

    Beside these, [Queue.claim_exclusive], [RateLimit.bucket_invariant],
    [RateLimit.burst_exact], [RateLimit.postgres_limiter_refines_bucket],
    [Deliverer.pool_exclusive_and_capped], [Deliverer.depth_exact],
    [Collectors.registered_distinct], [Certificates.self_signed_valid],
    [Certificates.acme_asks_directory], [Logging.correlated],
    [Routes.routes_unambiguous], [Routes.routes_handled],
    [Process.instances_distinct],
    [Directory.deactivate_immediate], [Directory.mailbox_isolation],
    [Retention.sweep_visits_all] and [Filter.outage_quarantines] say what their
    names say, [Fleet.lost_claim_stays] that a job claimed by a process that died
    is never taken up again, [ApiAuth.StoreSpec] and [AuditLog.StoreSpec] hold of
    both backends, [Api.audit_trail] says every reported change was attempted to be
    recorded under its caller, [Directory.backfill_idempotent] that the account
    backfill can be rerun, [Lifecycle.deliverer_app] and
    [Lifecycle.dispatcher_app] that no job is shared while a process runs and no
    goroutine is left after it, [Lifecycle.shutdown_loses_outcome] and
    [Lifecycle.early_shutdown_lost] what a shutdown gets wrong,
    [Mailbuild.build_no_injection] and [Mailbuild.wrapped_round_trip] that
    composed headers cannot be forged by values and attachments survive,
    [Process.activated_isolated], [Process.activated_instances] and
    [Process.direct_instances] that a process on the internal API depends on no
    database credential, and [Process.rotate_master_key_resumable] that the
    rotation tool can be rerun.

    ** Fuel and bounds

    Only five functions take fuel. The MIME reader's is the number of lines of
    the message (C4); the maildir walk gets one more than the
    longest path of the tree ([Maildir.walk_fuel_enough]); the retention sweep
    and the cursor walks of a client one more than the number of rows (C12 and
    [Retention.sweep_visits_all]); line wrapping gets the length of the text
    ([Mailbuild.wrapped_round_trip]). Each is proved to be enough. The shared
    limiter's retry counter is the code's own maxAttempts. The unbounded loops
    (Run of the deliverer, the dispatcher, the purger) are their iteration or
    transition system, proved for every number of iterations and every
    interleaving.

    ** What is not modelled

    Parameters with named laws: PostgreSQL and gorm, the file system under
    Maildir, DNS, outbound SMTP and HTTP, the mail-authentication and DKIM
    libraries, RSA, AES-GCM, HMAC, SHA-256 and bcrypt, JSON encodings,
    net/mail's address parser, strconv.Quote and ParseFloat, time formats, x509,
    certmagic and the Prometheus client. Left out: the log calls, which nothing
    reads (the logger itself is [Logging]); the goose framework (matching and
    binding requests, containers, the kernel); the TLS handshake; the SMTP and
    IMAP protocol engines above the session callbacks; gorm's own logger; the
    branch of Dequeue for SQLite, which has no row locks to skip; test
    support (internal/dbtest) and packages of comments only. A timestamp comes back
    from PostgreSQL as it was stored, not rounded to its microseconds, and a day
    of a retention window is 24 hours. A process dies in
    [Fleet] before an attempt or between the calls a delivery makes after it, not
    inside an SMTP dialogue or a statement; processes that serve SMTP or HTTP do
    not die in the middle of a request. Outside [Transactions]
    two database transactions never interleave within one operation; the bodies
    whose row locks matter, Dequeue and tryAllow, are proved to be the ones
    interleaved there ([Replicas.exec_claim_prog],
    [SharedLimiter.exec_try_prog]). *)

From Stdlib Require Export ZArith Lia.
From Stdlib Require Ascii String.
From stdpp Require Export sorting.
From stdpp Require Export base gmap strings list tactics.
Export stdpp.list_basics.list stdpp.list_relations.list stdpp.list_monad.list stdpp.list_misc.list.
Export (notations) Stdlib.Strings.Ascii.
Export Stdlib.Strings.Ascii (ascii(..)).

Open Scope Z_scope.

(** ** Notation scope of the development *)

Declare Scope go_scope.
Delimit Scope go_scope with go.
Open Scope go_scope.

(** ** Go error values

    The error values the code builds.  [Errorf] is [fmt.Errorf]: the format,
    the operands printed by its verbs; [ErrorfW] also has the operand of [%w].
    [Sentinel] is a package-level error variable compared with [errors.Is]. *)
Inductive goerr : Type :=
| ErrNew (msg : string)
| Errorf (format : string) (args : list string)
| ErrorfW (format : string) (args : list string) (wrapped : goerr)
| Sentinel (name : string)
| SMTPError (Code : Z) (EnhancedCode : Z * Z * Z) (Message : string)
| DNSError (IsNotFound : bool)
| DeliveryError (err : goerr) (permanent : bool)
| IMAPError (text : string).

#[export] Instance goerr_eq_dec : EqDecision goerr.
Proof. solve_decision. Defined.

(** [errors.Is err target] for a sentinel target: the chain of [%w] and
    [Unwrap] is walked until the sentinel is met. *)
Fixpoint errors_Is (target : string) (e : goerr) : bool :=
  match e with
  | Sentinel n => String.eqb n target
  | ErrorfW _ _ w => errors_Is target w
  | DeliveryError w _ => errors_Is target w
  | _ => false
  end.

(** gorm's [ErrRecordNotFound]. *)
Definition ErrRecordNotFound : goerr := Sentinel "gorm.ErrRecordNotFound".

(** ** Results and the state monad *)

Inductive res (A : Type) : Type :=
| Ok (a : A)
| Err (e : goerr).
Arguments Ok {A} a.
Arguments Err {A} e.

#[export] Instance res_eq_dec {A} `{EqDecision A} : EqDecision (res A).
Proof. solve_decision. Defined.

Definition is_Ok {A} (r : res A) : bool :=
  match r with Ok _ => true | Err _ => false end.

Definition map_err {A} (f : goerr → goerr) (r : res A) : res A :=
  match r with Ok a => Ok a | Err e => Err (f e) end.

Definition M (W A : Type) : Type := W → A * W.

Definition ret {W A} (a : A) : M W A := λ w, (a, w).

Definition bind {W A B} (m : M W A) (k : A → M W B) : M W B :=
  λ w, let '(a, w') := m w in k a w'.

(** [mtry m k]: Go's [if err != nil { return ..., err }]. *)
Definition mtry {W A B} (m : M W (res A)) (k : A → M W (res B)) : M W (res B) :=
  λ w, match m w with
       | (Ok a, w') => k a w'
       | (Err e, w') => (Err e, w')
       end.

(** [wrap f m]: the error of [m], if any, wrapped by [f]. *)
Definition wrap {W A} (f : goerr → goerr) (m : M W (res A)) : M W (res A) :=
  λ w, let '(r, w') := m w in (map_err f r, w').

Definition get {W} : M W W := λ w, (w, w).

Notation "'let*' x ':=' m 'in' k" := (bind m (λ x, k))
  (at level 10, x name, m at level 100, k at level 200,
   format "'[v' 'let*'  x  ':='  m  'in' '/' k ']'") : go_scope.
Notation "'let?' x ':=' m 'in' k" := (mtry m (λ x, k))
  (at level 10, x name, m at level 100, k at level 200,
   format "'[v' 'let?'  x  ':='  m  'in' '/' k ']'") : go_scope.
Notation "m ';;' k" := (bind m (λ _, k))
  (at level 100, k at level 200, right associativity) : go_scope.

(** A [for] loop over a slice whose body may return early from the enclosing
    function: [inl] is the early return, [inr] the accumulator carried on. *)
Fixpoint mfor {W A B R} (l : list A) (body : A → B → M W (R + B)) (acc : B) : M W (R + B) :=
  match l with
  | [] => ret (inr acc)
  | a :: l => λ w, match body a acc w with
                   | (inl r, w') => (inl r, w')
                   | (inr acc', w') => mfor l body acc' w'
                   end
  end.

(** The loop rule: [P] holds of the elements visited so far, [Q] of every early
    return. *)
Lemma mfor_rule {W A B R} (P : list A → B → W → Prop) (Q : R → W → Prop) (body : A → B → M W (R + B)) l :
  (∀ pre a acc w, (∃ post, l = pre ++ a :: post) → P pre acc w →
     match body a acc w with (inl r, w') => Q r w' | (inr acc', w') => P (pre ++ [a]) acc' w' end) →
  ∀ acc w, P [] acc w →
  match mfor l body acc w with (inl r, w') => Q r w' | (inr acc', w') => P l acc' w' end.
Proof.
  intros Hstep. assert (Hgen : ∀ post pre, l = pre ++ post → ∀ acc w, P pre acc w →
    match mfor post body acc w with (inl r, w') => Q r w' | (inr acc', w') => P l acc' w' end).
  { induction post as [|a post IH]; intros pre Hl acc w HP; simpl.
    - by rewrite app_nil_r in Hl; subst l.
    - specialize (Hstep pre a acc w (ex_intro _ post Hl) HP).
      destruct (body a acc w) as [[r|acc'] w']; [done|]. apply (IH (pre ++ [a])); [|done].
      by rewrite <-app_assoc. }
  intros acc w HP. by apply (Hgen l []).
Qed.

(** A loop whose body never returns early. *)
Fixpoint mfold {W A B} (l : list A) (body : A → B → M W B) (acc : B) : M W B :=
  match l with
  | [] => ret acc
  | a :: l => let* acc' := body a acc in mfold l body acc'
  end.

(** ** Contexts

    What the code observes of a [context.Context]: its error, non-nil once it
    is cancelled, and the correlation ID [internal/logging] attaches. *)
Record Ctx := mkCtx { ctx_Err : option goerr; ctx_CorrelationID : string }.

Definition Background : Ctx := mkCtx None "".

(** [if ctx.Err() != nil { return ctx.Err() }] *)
Definition guard_ctx {W A} (ctx : Ctx) (k : M W (res A)) : M W (res A) :=
  match ctx_Err ctx with
  | Some e => ret (Err e)
  | None => k
  end.

(** ** Time

    [time.Time] as nanoseconds since its zero value, [time.Duration] as
    nanoseconds.  [IsZero] is the test on the zero value. *)
Definition Time : Type := Z.
Definition Duration : Type := Z.
Definition After (t u : Time) : bool := u <? t.
Definition Before (t u : Time) : bool := t <? u.
Definition IsZero (t : Time) : bool := t =? 0.
(** [t.Sub(u)], which saturates at the range of int64. *)
Definition Sub (t u : Time) : Duration := Z.max (- 2 ^ 63) (Z.min (2 ^ 63 - 1) (t - u)).
Definition Second : Duration := 1000000000.
Definition Minute : Duration := 60 * Second.
Definition Hour : Duration := 60 * Minute.

(** The collectors of internal/metrics; [MessagesReceivedTotal] has a label. *)
Inductive metric :=
| SpamScorerUnavailableTotal
| MessagesReceivedTotal (verdict : string)
| QueueDepth
| DeliveryLatencySeconds
| BouncesTotal
| WebhookDeliveryFailuresTotal
| RetentionPurgedTotal.

#[export] Instance metric_eq_dec : EqDecision metric.
Proof. solve_decision. Defined.

(** What the Prometheus client does with them: a counter's Inc, a gauge's Set, a
    histogram's Observe. *)
Class Metrics (W : Type) := {
  Inc : metric → M W unit;
  Set_ : metric → Z → M W unit;
  Observe : metric → Duration → M W unit;
}.

(** A counter that only one branch of the code counts on. *)
Definition Inc_if {W} `{Metrics W} (b : bool) (c : metric) : M W unit := if b then Inc c else ret tt.

(** Collectors nobody reads. *)
Definition unread {W} : Metrics W := {| Inc _ := ret tt; Set_ _ _ := ret tt; Observe _ _ := ret tt |}.

(** What a process has around it: the clock, fresh UUIDs, its collectors. *)
Class Env (W : Type) := {
  #[global] env_metrics :: Metrics W;
  now : M W Time;
  uuid_NewString : M W string;
}.

(** A component of type [S] held in a larger state [W]. *)
Class Has (W S : Type) := {
  getS : W → S;
  setS : S → W → W;
  getS_setS : ∀ s w, getS (setS s w) = s;
}.

Definition lift {W S A} `{Has W S} (m : M S A) : M W A :=
  λ w, let '(a, s') := m (getS w) in (a, setS s' w).

Lemma lift_inv {W S A} `{Has W S} (m : M S A) (w : W) a w' :
  lift m w = (a, w') → ∃ s', m (getS w) = (a, s') ∧ getS (S := S) w' = s'.
Proof.
  unfold lift. destruct (m (getS w)) as [b s']. intros [= <- <-].
  eexists. split; [done|]. apply getS_setS.
Qed.

#[export] Program Instance has_self {S} : Has S S := { getS := id; setS s _ := s }.
Next Obligation. done. Qed.

(** [reading] is the value of a counter: its Inc adds one. *)
Definition counts {W} `{Metrics W} (c : metric) (reading : W → Z) : Prop :=
  ∀ w, reading (snd (Inc c w)) = reading w + 1.

(** [m] leaves the observation [view] of the state alone. *)
Class Preserves {W X A} (view : W → X) (m : M W A) : Prop :=
  preserves : ∀ w, view (snd (m w)) = view w.

Lemma preserves_eq {W X A} (view : W → X) (m : M W A) `{!Preserves view m} w a w' :
  m w = (a, w') → view w' = view w.
Proof. intros E. pose proof (preserves (view := view) (m := m) w) as Hp. by rewrite E in Hp. Qed.

(** ** Programs that leave a component alone *)

Section Quiet.
Context {W X : Type} (inv : W → Prop) (view : W → X).

(** [m] leaves the invariant and the observation alone. *)
Definition quiet {A} (m : M W A) : Prop :=
  ∀ w a w', m w = (a, w') → (inv w → inv w') ∧ view w' = view w.

Lemma quiet_ret {A} (a : A) : quiet (ret a).
Proof. by intros w b w' [= _ <-]. Qed.

Lemma quiet_bind {A B} (m : M W A) (k : A → M W B) : quiet m → (∀ a, quiet (k a)) → quiet (bind m k).
Proof.
  intros Hm Hk w b w'. unfold bind. destruct (m w) as [a w1] eqn:E. intros E2.
  destruct (Hm _ _ _ E) as [Hi Hv], (Hk _ _ _ _ E2) as [Hi2 Hv2]. split; [auto|congruence].
Qed.

Lemma Inc_if_quiet `{Metrics W} b c : quiet (Inc c) → quiet (Inc_if b c).
Proof. intros Hc. destruct b; [done|]. apply quiet_ret. Qed.

Lemma quiet_mtry {A B} (m : M W (res A)) (k : A → M W (res B)) : quiet m → (∀ a, quiet (k a)) → quiet (mtry m k).
Proof.
  intros Hm Hk w b w'. unfold mtry. destruct (m w) as [[a|e] w1] eqn:E; destruct (Hm _ _ _ E) as [Hi Hv].
  - intros E2. destruct (Hk _ _ _ _ E2) as [Hi2 Hv2]. split; [auto|congruence].
  - by intros [= _ <-].
Qed.

Lemma quiet_wrap {A} f (m : M W (res A)) : quiet m → quiet (wrap f m).
Proof.
  intros Hm w b w'. unfold wrap. destruct (m w) as [a w1] eqn:E. intros [= _ <-]. by eapply Hm.
Qed.
End Quiet.

(** Break a program into its calls, whose quietness is known. *)
Ltac quiet_calls :=
  repeat match goal with
    | |- forall _, _ => intros
    | |- quiet _ _ (ret _) => apply quiet_ret
    | |- quiet _ _ (bind _ _) => apply quiet_bind
    | |- quiet _ _ (mtry _ _) => apply quiet_mtry
    | |- quiet _ _ (Inc_if _ _) => apply Inc_if_quiet
    | |- quiet _ _ (wrap _ _) => apply quiet_wrap
    | |- quiet _ _ (match ?x with _ => _ end) => destruct x
    end.

(** ** Programs that move the state along a preorder *)

Section Along.
Context {W : Type} (R : relation W) `{!PreOrder R}.

(** Wherever [m] starts and ends, the states are related. *)
Definition along {A} (m : M W A) : Prop := ∀ w a w', m w = (a, w') → R w w'.

Lemma along_ret {A} (a : A) : along (ret a).
Proof. by intros w b w' [= _ <-]. Qed.

Lemma along_bind {A B} (m : M W A) (k : A → M W B) : along m → (∀ a, along (k a)) → along (bind m k).
Proof.
  intros Hm Hk w b w'. unfold bind. destruct (m w) as [a w1] eqn:E. intros E2.
  etransitivity; [by eapply Hm|by eapply Hk].
Qed.

Lemma along_mtry {A B} (m : M W (res A)) (k : A → M W (res B)) : along m → (∀ a, along (k a)) → along (mtry m k).
Proof.
  intros Hm Hk w b w'. unfold mtry. destruct (m w) as [[a|e] w1] eqn:E; pose proof (Hm _ _ _ E).
  - intros E2. etransitivity; [done|by eapply Hk].
  - by intros [= _ <-].
Qed.

Lemma along_wrap {A} f (m : M W (res A)) : along m → along (wrap f m).
Proof. intros Hm w b w'. unfold wrap. destruct (m w) as [a w1] eqn:E. intros [= _ <-]. by eapply Hm. Qed.
End Along.

(** Break a program into its calls, which are known to move along. *)
Ltac along_calls :=
  repeat match goal with
    | |- forall _, _ => intros
    | |- along _ (ret _) => apply along_ret
    | |- along _ (bind _ _) => apply along_bind
    | |- along _ (mtry _ _) => apply along_mtry
    | |- along _ (wrap _ _) => apply along_wrap
    | |- along _ (match ?x with _ => _ end) => destruct x
    end.

(** ** Strings *)

Fixpoint str_drop (n : nat) (s : string) : string :=
  match n, s with
  | O, _ => s
  | S n, String _ s => str_drop n s
  | S _, EmptyString => EmptyString
  end.

Definition HasPrefix (s p : string) : bool := String.prefix p s.

(** [strings.TrimPrefix]. *)
Definition TrimPrefix (s p : string) : string :=
  if HasPrefix s p then str_drop (String.length p) s else s.

(** [strings.Cut]: the text before and after the first [sep], and whether
    [sep] occurs. *)
Fixpoint Cut (s sep : string) : string * string * bool :=
  if HasPrefix s sep then ("", str_drop (String.length sep) s, true)
  else match s with
       | EmptyString => ("", "", false)
       | String c s' =>
           let '(b, a, f) := Cut s' sep in (String c b, a, f)
       end.

(** [strings.ReplaceAll s old new] for one-byte [old] and [new]. *)
Fixpoint replace_byte (o n : ascii) (s : string) : string :=
  match s with
  | EmptyString => EmptyString
  | String c s => String (if decide (c = o) then n else c) (replace_byte o n s)
  end.

Definition is_space (c : ascii) : bool :=
  match c with
  | "009"%char | "010"%char | "011"%char | "012"%char | "013"%char | " "%char => true
  | _ => false
  end.

Fixpoint TrimLeft (s : string) : string :=
  match s with
  | String c s' => if is_space c then TrimLeft s' else s
  | EmptyString => EmptyString
  end.

Fixpoint TrimRight (s : string) : string :=
  match s with
  | EmptyString => EmptyString
  | String c s' =>
      match TrimRight s' with
      | EmptyString => if is_space c then EmptyString else String c EmptyString
      | r => String c r
      end
  end.

(** [strings.TrimSpace] on ASCII space. *)
Definition TrimSpace (s : string) : string := TrimRight (TrimLeft s).

Definition lower_ascii (c : ascii) : ascii :=
  let n := Ascii.nat_of_ascii c in
  if ((65 <=? n) && (n <=? 90))%nat then Ascii.ascii_of_nat (n + 32) else c.

(** [strings.ToLower] on ASCII letters. *)
Fixpoint ToLower (s : string) : string :=
  match s with
  | EmptyString => EmptyString
  | String c s => String (lower_ascii c) (ToLower s)
  end.

Definition upper_ascii (c : ascii) : ascii :=
  let n := Ascii.nat_of_ascii c in
  if ((97 <=? n) && (n <=? 122))%nat then Ascii.ascii_of_nat (n - 32) else c.

Fixpoint ToUpper (s : string) : string :=
  match s with
  | EmptyString => EmptyString
  | String c s => String (upper_ascii c) (ToUpper s)
  end.

(** [strings.Join]. *)
Fixpoint Join (l : list string) (sep : string) : string :=
  match l with
  | [] => ""
  | [s] => s
  | s :: l => s +:+ sep +:+ Join l sep
  end.

(** [strings.Split] on a one-byte separator: never the empty list. *)
Fixpoint SplitByte (s : string) (sep : ascii) : list string :=
  match s with
  | EmptyString => [""]
  | String c s =>
      if decide (c = sep) then "" :: SplitByte s sep
      else match SplitByte s sep with
           | [] => [String c ""]
           | h :: t => String c h :: t
           end
  end.

Fixpoint str_in (c : ascii) (s : string) : bool :=
  match s with
  | EmptyString => false
  | String d s => bool_decide (c = d) || str_in c s
  end.

Lemma str_in_app c s t : str_in c (s +:+ t) = str_in c s || str_in c t.
Proof. induction s as [|d s IH]; simpl; [done|]. by rewrite IH, orb_assoc. Qed.

Section Split.
Context (sep : ascii).

Lemma SplitByte_not_nil s : SplitByte s sep ≠ [].
Proof. destruct s as [|c s]; simpl; [done|]. case_decide; [done|]. by destruct (SplitByte s sep). Qed.

Lemma SplitByte_app s t :
  str_in sep s = false → SplitByte (s +:+ String sep t) sep = s :: SplitByte t sep.
Proof.
  induction s as [|c s IH]; simpl; [by rewrite decide_True|]. intros [Hc Hs]%orb_false_iff.
  apply bool_decide_eq_false in Hc. rewrite decide_False by done. by rewrite IH.
Qed.

Lemma SplitByte_plain s : str_in sep s = false → SplitByte s sep = [s].
Proof.
  induction s as [|c s IH]; simpl; [done|]. intros [Hc Hs]%orb_false_iff.
  apply bool_decide_eq_false in Hc. rewrite decide_False by done. by rewrite IH.
Qed.

Lemma SplitByte_pieces s : Forall (λ t, str_in sep t = false) (SplitByte s sep).
Proof.
  induction s as [|c s IH]; simpl; [by repeat constructor|]. case_decide as Hc.
  - by constructor.
  - destruct (SplitByte s sep) as [|h t]; apply Forall_cons in IH || clear IH; constructor; simpl.
    + rewrite bool_decide_false by done. done.
    + done.
    + rewrite bool_decide_false by done. naive_solver.
    + naive_solver.
Qed.

Lemma SplitByte_Join l :
  l ≠ [] → Forall (λ t, str_in sep t = false) l → SplitByte (Join l (String sep "")) sep = l.
Proof.
  destruct l as [|t ts]; [done|]. intros _. revert t.
  induction ts as [|u ts IH]; intros t Hf; apply Forall_cons in Hf as [Ht Hf].
  - by apply SplitByte_plain.
  - change (Join (t :: u :: ts) (String sep "")) with (t +:+ String sep (Join (u :: ts) (String sep ""))).
    by rewrite SplitByte_app, IH.
Qed.

Lemma Join_SplitByte s : Join (SplitByte s sep) (String sep "") = s.
Proof.
  induction s as [|c s IH]; simpl; [done|]. pose proof (SplitByte_not_nil s) as Hn. case_decide as Hc.
  - subst c. destruct (SplitByte s sep); [done|]. simpl in *. by rewrite IH.
  - destruct (SplitByte s sep) as [|h [|h' t]]; [done|..]; simpl in IH |- *; by rewrite <-IH.
Qed.
End Split.

Definition str_ltb (a b : string) : bool := String.ltb a b.
Definition str_leb (a b : string) : bool := String.leb a b.

(** ** Lists *)

Lemma filter_all {A} (P : A → Prop) `{∀ x, Decision (P x)} (l : list A) :
  Forall P l → filter P l = l.
Proof. induction 1 as [|x l Hx _ IH]; [done|]. rewrite filter_cons_True by done. by f_equal. Qed.

Lemma Forall_filter_weaken {A} (P Q : A → Prop) `{∀ x, Decision (P x)} (l : list A) :
  Forall Q l → Forall Q (filter P l).
Proof. rewrite !Forall_forall. intros Hf x [_ Hx]%list_elem_of_filter. by apply Hf. Qed.

(** ** Orders and sorting *)

(** A total preorder, as a boolean comparison. *)
Record total_order {A} (le : A → A → bool) : Prop := {
  le_total : ∀ a b, le a b = true ∨ le b a = true;
  le_trans : ∀ a b c, le a b = true → le b c = true → le a c = true;
}.

Definition sorted_by {A} (le : A → A → bool) (l : list A) : Prop :=
  StronglySorted (λ a b, le a b = true) l.

Fixpoint insert_by {A} (o : A → A → bool) (r : A) (l : list A) : list A :=
  match l with
  | [] => [r]
  | x :: l' => if o r x then r :: l else x :: insert_by o r l'
  end.

Definition sort_by {A} (o : A → A → bool) (l : list A) : list A := foldr (insert_by o) [] l.

Lemma insert_by_perm {A} o (r : A) l : insert_by o r l ≡ₚ r :: l.
Proof.
  induction l as [|x l IH]; simpl; [done|]. case_match; [done|].
  rewrite IH. apply Permutation_swap.
Qed.

Lemma sort_by_perm {A} o (l : list A) : sort_by o l ≡ₚ l.
Proof.
  induction l as [|x l IH]; simpl; [done|]. by rewrite insert_by_perm, IH.
Qed.

Lemma insert_by_sorted {A} o (r : A) l :
  total_order o → sorted_by o l → sorted_by o (insert_by o r l).
Proof.
  intros [Ht Htr]. unfold sorted_by. induction 1 as [|x l Hs IH Hf]; simpl.
  { repeat constructor. }
  destruct (o r x) eqn:E.
  - constructor; [by constructor|]. constructor; [done|].
    eapply Forall_impl; [exact Hf|]. intros y Hy. by apply Htr with x.
  - constructor; [done|]. rewrite insert_by_perm. constructor; [|done].
    destruct (Ht r x); congruence.
Qed.

Lemma sort_by_sorted {A} o (l : list A) : total_order o → sorted_by o (sort_by o l).
Proof.
  intros Ho. induction l as [|x l IH]; simpl; [constructor|]. by apply insert_by_sorted.
Qed.

(** ** Tactics *)

(** Unfold the monad and split every match in the goal or a hypothesis. *)
Ltac unfold_m := cbv [bind mtry ret wrap get guard_ctx map_err] in *.
Ltac split_match :=
  repeat (case_match; simplify_eq/=; try done).
Ltac go_simpl := unfold_m; simplify_eq/=; split_match.

(** Rewrite with the map lookups known in the context. *)
Ltac use_lookup :=
  repeat match goal with E : _ !! _ = _ |- _ => rewrite E in *; clear E end; simpl in *.
