(* ===== verification/Collectors.v ===== *)
(** * The metrics (internal/metrics)

    The collectors' options and their registration.  What moves them is in the
    components' files; the client library behind a collector is the [Metrics]
    class of the prelude. *)

From stdpp Require Import base list strings.
From S2P Require Import Prelude.

Inductive collector_kind := Counter | CounterVec (labels : list string) | Gauge | Histogram (buckets : list Z).

#[export] Instance collector_kind_eq_dec : EqDecision collector_kind.
Proof. solve_decision. Defined.

Record Collector := mkCollector { co_Name : string; co_Help : string; co_kind : collector_kind }.

#[export] Instance collector_eq_dec : EqDecision Collector.
Proof. solve_decision. Defined.

Section Options.
(** [prometheus.DefBuckets]. *)
Context (DefBuckets : list Z).

Definition collector (m : metric) : Collector :=
  match m with
  | SpamScorerUnavailableTotal =>
      mkCollector "envelope_spam_scorer_unavailable_total"
        "Inbound messages accepted via the FR-2.6 fail-open path because rspamd was unreachable." Counter
  | MessagesReceivedTotal _ =>
      mkCollector "envelope_messages_received_total"
        "Inbound messages accepted or quarantined, labeled by verdict." (CounterVec ["verdict"])
  | QueueDepth =>
      mkCollector "envelope_queue_depth"
        "Current number of outbound jobs not yet delivered or dead-lettered." Gauge
  | DeliveryLatencySeconds =>
      mkCollector "envelope_delivery_latency_seconds"
        "Duration of one outbound delivery attempt (MX lookup through SMTP transaction)." (Histogram DefBuckets)
  | BouncesTotal =>
      mkCollector "envelope_bounces_total"
        "Outbound messages that generated a bounce (DSN) — permanent failure or attempts exhausted." Counter
  | WebhookDeliveryFailuresTotal =>
      mkCollector "envelope_webhook_delivery_failures_total"
        "Failed webhook delivery attempts (non-2xx response or transport error)." Counter
  | RetentionPurgedTotal =>
      mkCollector "envelope_retention_purged_total"
        "Messages deleted by the NFR-COMP-1 retention purge for exceeding their retention window." Counter
  end.

(** [init]'s argument list. *)
Definition registered : list Collector :=
  collector <$> [SpamScorerUnavailableTotal; MessagesReceivedTotal ""; QueueDepth; DeliveryLatencySeconds;
                 BouncesTotal; WebhookDeliveryFailuresTotal; RetentionPurgedTotal].

(** The registry refuses a second collector of a name, and the package's init
    panics when it does: no two have the same name, and every collector the code
    moves is registered. *)
Lemma registered_distinct : NoDup (co_Name <$> registered) ∧ ∀ m, ∃ c, c ∈ registered ∧ co_Name c = co_Name (collector m).
Proof.
  split; [by apply (bool_decide_unpack _); vm_compute|].
  intros []; eexists; (split; [|reflexivity]); unfold registered; simpl; rewrite !elem_of_cons; eauto 10.
Qed.
End Options.
