(* ===== verification/Float64.v ===== *)
(** * float64 arithmetic

    The IEEE 754 binary64 operations the code uses (rate limits, spam
    thresholds, backoff).  Every finite binary64 value is a multiple of the
    smallest subnormal 2^-1074, so a finite value is represented by that
    integer multiple: [FFin k] is k * 2^-1074.  Comparison is comparison of
    integers and every operation is the exact one followed by [round], the
    round-to-nearest-even of the standard.  The two zeros are one value: the
    code never divides by a float or reads a sign bit. *)

From S2P Require Import Prelude.

Inductive float64 : Type :=
| FNaN
| FInf (neg : bool)
| FFin (k : Z).

#[export] Instance float64_eq_dec : EqDecision float64.
Proof. solve_decision. Defined.

(** 1 in units of 2^-1074, and the first power of two out of range. *)
Definition unit_one : Z := Eval vm_compute in 2 ^ 1074.
Definition overflow_bound : Z := Eval vm_compute in 2 ^ 2098.

Lemma unit_one_eq : unit_one = 2 ^ 1074.
Proof. by vm_compute. Qed.

Lemma overflow_bound_eq : overflow_bound = 2 ^ 2098.
Proof. by vm_compute. Qed.

(** Round half to even of [a / d], for [0 <= a] and [0 < d]. *)
Definition div_rne (a d : Z) : Z :=
  let q := a / d in
  let r := a mod d in
  if (d <? 2 * r) || ((2 * r =? d) && Z.odd q) then q + 1 else q.

(** Exponent of the last place kept when rounding [a] units to 53 bits. *)
Definition ulp_exp (a : Z) : Z := Z.max 0 (Z.log2 a - 52).

(** Magnitude of the binary64 value nearest to [n / d] units. *)
Definition round_mag (a d : Z) : Z :=
  let e := ulp_exp (a / d) in div_rne a (d * 2 ^ e) * 2 ^ e.

Definition round (n d : Z) : float64 :=
  let k := round_mag (Z.abs n) d in
  if overflow_bound <=? k then FInf (n <? 0)
  else FFin (Z.sgn n * k).

Definition of_int (n : Z) : float64 := round (n * unit_one) 1.

Definition fadd (x y : float64) : float64 :=
  match x, y with
  | FNaN, _ | _, FNaN => FNaN
  | FInf a, FInf b => if Bool.eqb a b then FInf a else FNaN
  | FInf a, _ | _, FInf a => FInf a
  | FFin a, FFin b => round (a + b) 1
  end.

Definition fneg (x : float64) : float64 :=
  match x with FNaN => FNaN | FInf a => FInf (negb a) | FFin k => FFin (- k) end.

Definition fsub (x y : float64) : float64 := fadd x (fneg y).

Definition fmul (x y : float64) : float64 :=
  match x, y with
  | FNaN, _ | _, FNaN => FNaN
  | FInf a, FInf b => FInf (xorb a b)
  | FInf a, FFin k | FFin k, FInf a =>
      if k =? 0 then FNaN else FInf (xorb a (k <? 0))
  | FFin a, FFin b => round (a * b) unit_one
  end.

(** Division by a positive integer constant that is exact in binary64. *)
Definition fdiv_int (x : float64) (c : Z) : float64 :=
  match x with FFin k => round k c | _ => x end.

Definition flt (x y : float64) : bool :=
  match x, y with
  | FFin a, FFin b => a <? b
  | FInf true, FInf true => false
  | FInf true, (FFin _ | FInf false) => true
  | FFin _, FInf false => true
  | _, _ => false
  end.

Definition fle (x y : float64) : bool :=
  match x, y with
  | FFin a, FFin b => a <=? b
  | FInf true, (FFin _ | FInf _) => true
  | (FFin _ | FInf false), FInf false => true
  | _, _ => false
  end.

Definition fgt (x y : float64) : bool := flt y x.
Definition fge (x y : float64) : bool := fle y x.

Definition F0 : float64 := FFin 0.
Definition F1 : float64 := FFin unit_one.

Arguments unit_one : simpl never.
Arguments overflow_bound : simpl never.
Arguments F1 : simpl never.
Arguments round : simpl never.

(** [math.Pow(2, float64(n))] for a non-negative integer [n]. *)
Definition pow2 (n : Z) : float64 :=
  if n <? 1024 then FFin (2 ^ (1074 + n)) else FInf false.

(** [int64(x)] for a finite [x] whose integer part fits. *)
Definition trunc (x : float64) : option Z :=
  match x with
  | FFin k => let n := Z.quot k unit_one in
              if (- 2 ^ 63 <=? n) && (n <? 2 ^ 63) then Some n else None
  | _ => None
  end.

(** [time.Duration.Seconds]. *)
Definition Seconds (d : Duration) : float64 :=
  fadd (of_int (Z.quot d Second)) (fdiv_int (of_int (Z.rem d Second)) 1000000000).

(** [k] units is a binary64 value: 53 significant bits suffice. *)
Definition repr (k : Z) : Prop :=
  ∃ m e, 0 ≤ e ∧ Z.abs m < 2 ^ 53 ∧ k = m * 2 ^ e.

#[global] Opaque unit_one overflow_bound.

(** ** Rounding *)

Lemma pow2_pos e : 0 ≤ e → 0 < 2 ^ e.
Proof. intros. apply Z.pow_pos_nonneg; lia. Qed.

Lemma ulp_exp_nonneg a : 0 ≤ ulp_exp a.
Proof. unfold ulp_exp. lia. Qed.

Lemma div_rne_nonneg a d : 0 ≤ a → 0 < d → 0 ≤ div_rne a d.
Proof.
  intros Ha Hd. unfold div_rne. pose proof (Z.div_pos a d Ha Hd).
  case_match; lia.
Qed.

Lemma div_rne_exact k d : 0 < d → div_rne (k * d) d = k.
Proof.
  intros Hd. unfold div_rne. rewrite Z.div_mul, Z.mod_mul by lia.
  assert ((d <? 2 * 0) = false) as -> by lia.
  assert ((2 * 0 =? d) = false) as -> by lia. done.
Qed.

Lemma div_rne_le a d k : 0 < d → a ≤ k * d → div_rne a d ≤ k.
Proof.
  intros Hd Hle. unfold div_rne.
  pose proof (Z.div_mod a d ltac:(lia)) as Hdm.
  pose proof (Z.mod_pos_bound a d Hd) as Hr.
  set (q := a / d) in *. set (r := a mod d) in *.
  destruct (decide (r = 0)) as [H0|H0].
  - rewrite H0 in *. replace ((d <? 2 * 0) || (2 * 0 =? d) && Z.odd q) with false by lia.
    nia.
  - assert (q + 1 ≤ k) by nia. case_match; lia.
Qed.

Lemma round_mag_nonneg a d : 0 ≤ a → 0 < d → 0 ≤ round_mag a d.
Proof.
  intros Ha Hd. unfold round_mag. pose proof (ulp_exp_nonneg (a / d)).
  pose proof (pow2_pos (ulp_exp (a / d)) ltac:(lia)).
  apply Z.mul_nonneg_nonneg; [|lia]. apply div_rne_nonneg; nia.
Qed.

(** A representable upper bound of [a / d] is a multiple of the unit in the
    last place kept when [a / d] is rounded. *)
Lemma repr_multiple_ulp a d k :
  0 ≤ a → 0 < d → repr k → a ≤ k * d → ∃ j, k = j * 2 ^ ulp_exp (a / d).
Proof.
  intros Ha Hd (m & e & He & Hm & ->) Hle. unfold ulp_exp.
  destruct (decide (Z.log2 (a / d) ≤ 52)) as [Hs|Hs].
  { exists (m * 2 ^ e). rewrite Z.max_l by lia. simpl. lia. }
  rewrite Z.max_r by lia.
  assert (Hq : 0 < a / d).
  { destruct (decide (0 < a / d)); [done|]. exfalso.
    assert (Z.log2 (a / d) = 0) by (apply Z.log2_nonpos; lia). lia. }
  pose proof (Z.log2_spec _ Hq) as [Hlo _].
  set (L := Z.log2 (a / d)) in *.
  assert (HL : 2 ^ L ≤ m * 2 ^ e).
  { assert (d * (a / d) ≤ a) by (apply Z.mul_div_le; lia). nia. }
  assert (He' : L < 53 + e).
  { apply (Z.pow_lt_mono_r_iff 2); [lia|lia|]. rewrite Z.pow_add_r by lia.
    pose proof (pow2_pos e He). nia. }
  exists (m * 2 ^ (e - (L - 52))).
  rewrite <-Z.mul_assoc, <-Z.pow_add_r by lia. do 2 f_equal. lia.
Qed.

Lemma round_mag_le a d k :
  0 ≤ a → 0 < d → repr k → a ≤ k * d → round_mag a d ≤ k.
Proof.
  intros Ha Hd Hk Hle. destruct (repr_multiple_ulp a d k Ha Hd Hk Hle) as [j Hj].
  unfold round_mag. pose proof (ulp_exp_nonneg (a / d)).
  pose proof (pow2_pos (ulp_exp (a / d)) ltac:(lia)).
  rewrite Hj at 1. apply Z.mul_le_mono_nonneg_r; [lia|].
  apply div_rne_le; nia.
Qed.

Lemma round_mag_exact k d : 0 ≤ k → 0 < d → repr k → round_mag (k * d) d = k.
Proof.
  intros Hk Hd Hr.
  destruct (repr_multiple_ulp (k * d) d k) as [j Hj]; [nia|done|done|lia|].
  unfold round_mag. pose proof (ulp_exp_nonneg (k * d / d)).
  pose proof (pow2_pos (ulp_exp (k * d / d)) ltac:(lia)).
  set (e := ulp_exp (k * d / d)) in *. rewrite Hj at 1.
  replace (j * 2 ^ e * d) with (j * (d * 2 ^ e)) by lia.
  rewrite div_rne_exact by nia. by rewrite <-Hj.
Qed.

Lemma repr_opp k : repr k → repr (- k).
Proof. intros (m & e & ? & ? & ->). exists (- m), e. split_and!; lia. Qed.

Lemma repr_shift n e : 0 ≤ e → Z.abs n < 2 ^ 53 → repr (n * 2 ^ e).
Proof. intros. by exists n, e. Qed.

(** A representable value in range is its own rounding. *)
Lemma round_exact k d :
  0 < d → repr k → Z.abs k < overflow_bound → round (k * d) d = FFin k.
Proof.
  intros Hd Hr Hb. unfold round.
  rewrite Z.abs_mul, (Z.abs_eq d) by lia.
  rewrite round_mag_exact; [|lia|done|].
  2:{ destruct (decide (0 ≤ k)); [by rewrite Z.abs_eq by lia|].
      rewrite Z.abs_neq by lia. by apply repr_opp. }
  assert ((overflow_bound <=? Z.abs k) = false) as -> by lia.
  f_equal. rewrite Z.sgn_mul. replace (Z.sgn d) with 1 by lia.
  rewrite Z.mul_1_r.
  destruct (Z.sgn_spec k) as [[? ->]|[[? ->]|[? ->]]]; lia.
Qed.

Lemma round_overflow k d :
  0 < d → repr k → overflow_bound ≤ k → round (k * d) d = FInf false.
Proof.
  intros Hd Hr Hb. assert (0 < overflow_bound) by (by vm_compute).
  unfold round. rewrite Z.abs_eq, round_mag_exact by (done || nia).
  assert ((overflow_bound <=? k) = true) as -> by lia.
  by assert ((k * d <? 0) = false) as -> by nia.
Qed.

(** The rounding of a non-negative quantity below a representable [k] stays
    in [0, k]. *)
Lemma round_bounds n d k :
  0 ≤ n → 0 < d → repr k → n ≤ k * d → k < overflow_bound →
  ∃ j, round n d = FFin j ∧ 0 ≤ j ≤ k.
Proof.
  intros Hn Hd Hk Hle Hb. unfold round. rewrite Z.abs_eq by lia.
  pose proof (round_mag_le n d k Hn Hd Hk Hle).
  pose proof (round_mag_nonneg n d Hn Hd).
  assert ((overflow_bound <=? round_mag n d) = false) as -> by lia.
  eexists. split; [done|]. nia.
Qed.

(** Rounding keeps the sign. *)
Lemma round_nonneg n d :
  0 ≤ n → 0 < d → round n d = FInf false ∨ ∃ j, round n d = FFin j ∧ 0 ≤ j.
Proof.
  intros Hn Hd. unfold round. rewrite Z.abs_eq by lia.
  pose proof (round_mag_nonneg n d Hn Hd).
  case_match; [left; by assert ((n <? 0) = false) as -> by lia|right].
  eexists. split; [done|]. nia.
Qed.

(** A quantity of at least one unit does not round to zero. *)
Lemma round_mag_pos a d : 0 < d → d ≤ a → 0 < round_mag a d.
Proof.
  intros Hd Ha. unfold round_mag.
  assert (Hq : 0 < a / d) by (apply Z.div_str_pos; lia).
  set (q := a / d) in *. pose proof (ulp_exp_nonneg q) as He.
  pose proof (pow2_pos (ulp_exp q) He) as Hp.
  apply Z.mul_pos_pos; [|done].
  assert (Hle : 1 ≤ a / (d * 2 ^ ulp_exp q)).
  { rewrite <-Z.div_div by lia. fold q. apply Z.div_le_lower_bound; [done|].
    rewrite Z.mul_1_r. transitivity (2 ^ Z.log2 q); [|by apply Z.log2_spec].
    pose proof (Z.log2_nonneg q). apply Z.pow_le_mono_r; [lia|]. unfold ulp_exp. lia. }
  unfold div_rne. case_match; lia.
Qed.

Lemma round_pos n d j : 0 < d → d ≤ n → round n d = FFin j → 0 < j.
Proof.
  intros Hd Hn. unfold round. rewrite Z.abs_eq by lia. pose proof (round_mag_pos n d Hd Hn).
  case_match; [done|]. intros [= <-]. nia.
Qed.

Lemma of_int_exact n : Z.abs n < 2 ^ 53 → of_int n = FFin (n * unit_one).
Proof.
  intros Hn. unfold of_int.
  replace (round (n * unit_one) 1) with (round (n * unit_one * 1) 1) by (f_equal; lia).
  apply round_exact; [lia| |].
  - rewrite unit_one_eq. by apply repr_shift.
  - rewrite unit_one_eq, overflow_bound_eq. rewrite Z.abs_mul, (Z.abs_eq (2 ^ 1074)) by lia.
    apply Z.lt_trans with (2 ^ 53 * 2 ^ 1074); [|by vm_compute].
    apply Z.mul_lt_mono_pos_r; [by vm_compute|done].
Qed.

Lemma of_int_nonneg n :
  0 ≤ n → of_int n = FInf false ∨ ∃ j, of_int n = FFin j ∧ 0 ≤ j.
Proof. intros. apply round_nonneg; [|lia]. rewrite unit_one_eq. nia. Qed.

Lemma trunc_int n :
  - 2 ^ 63 ≤ n < 2 ^ 63 → trunc (FFin (n * unit_one)) = Some n.
Proof.
  intros Hn. unfold trunc. rewrite Z.quot_mul by (by vm_compute).
  assert ((- 2 ^ 63 <=? n) && (n <? 2 ^ 63) = true) as -> by lia. done.
Qed.

Lemma unit_one_pos : 0 < unit_one.
Proof. by vm_compute. Qed.

(** Comparison of integers held as floats. *)
Lemma flt_int a b : flt (FFin (a * unit_one)) (FFin (b * unit_one)) = (a <? b).
Proof.
  simpl. pose proof unit_one_pos. destruct (Z.ltb_spec a b).
  - apply Z.ltb_lt. nia.
  - apply Z.ltb_ge. nia.
Qed.

Lemma fle_int_F0 u : fle (FFin (u * unit_one)) F0 = (u <=? 0).
Proof.
  simpl. pose proof unit_one_pos. destruct (Z.leb_spec u 0).
  - apply Z.leb_le. nia.
  - apply Z.leb_gt. nia.
Qed.

(** The product of an integer and a power of two is exact, or infinite when
    it is past the range. *)
Lemma fmul_int_pow2 b a :
  0 < b < 2 ^ 53 → 0 ≤ a →
  fmul (of_int b) (pow2 a) = FFin (b * 2 ^ a * unit_one) ∧ b * 2 ^ a < 2 ^ 1024 ∨
  fmul (of_int b) (pow2 a) = FInf false ∧ 2 ^ 1024 ≤ b * 2 ^ a.
Proof.
  intros Hb Ha. rewrite of_int_exact by lia. unfold pow2.
  pose proof unit_one_pos. pose proof (pow2_pos a Ha).
  destruct (Z.ltb_spec a 1024) as [Hlt|Hge].
  - assert (Hk : b * unit_one * 2 ^ (1074 + a) = (b * 2 ^ a * unit_one) * unit_one).
    { rewrite Z.pow_add_r by lia. rewrite unit_one_eq. ring. }
    assert (Hr : repr (b * 2 ^ a * unit_one)).
    { rewrite <-Z.mul_assoc. rewrite unit_one_eq. rewrite <-Z.pow_add_r by lia.
      apply repr_shift; lia. }
    assert (Ho : overflow_bound = 2 ^ 1024 * unit_one) by (by vm_compute).
    cbn [fmul]. rewrite Hk. destruct (Z.lt_ge_cases (b * 2 ^ a) (2 ^ 1024)) as [Hs|Hs]; [left|right].
    + split; [|done]. apply round_exact; [done..|]. rewrite Z.abs_eq by nia. rewrite Ho. by apply Z.mul_lt_mono_pos_r.
    + split; [|done]. apply round_overflow; [done..|]. rewrite Ho. by apply Z.mul_le_mono_nonneg_r; [lia|].
  - right. split.
    + cbn [fmul]. assert ((b * unit_one =? 0) = false) as -> by nia.
      by assert ((b * unit_one <? 0) = false) as -> by nia.
    + assert (2 ^ 1024 ≤ 2 ^ a) by (apply Z.pow_le_mono_r; lia). nia.
Qed.

Lemma unit_one_repr : repr unit_one.
Proof. replace unit_one with (1 * 2 ^ 1074) by (rewrite unit_one_eq; lia). apply repr_shift; lia. Qed.

Lemma repr_int n : Z.abs n < 2 ^ 53 → repr (n * unit_one).
Proof. intros. rewrite unit_one_eq. by apply repr_shift. Qed.
