(* ===== verification/Table.v ===== *)
(** * The database as the code uses it

    gorm and PostgreSQL are not part of the repository: a table is a type
    class of the statements the code issues, and [TableSpec] states the
    documented SQL behaviour the theorems rely on (a statement that reports
    success did what it says, a statement that fails changed nothing, a
    transaction is all or nothing).  Nothing forces a statement to succeed.
    [ListTable] is an executable instance, used by the witnesses. *)

From S2P Require Import Prelude.

(** goose's [sql.BaseEntity], embedded in every row: the columns the code
    reads.  [row_data] holds the columns the row type declares itself. *)
Record Row (D : Type) := mkRow {
  row_Id : string;
  row_CreatedAt : option Time;
  row_data : D;
}.
Arguments mkRow {D} _ _ _.
Arguments row_Id {D} _.
Arguments row_CreatedAt {D} _.
Arguments row_data {D} _.

(** [WHERE], [ORDER BY] and [LIMIT] of a [Find]. *)
Record Query (D : Type) := mkQuery {
  q_where : Row D → bool;
  q_order : Row D → Row D → bool;
  q_limit : option nat;
}.
Arguments mkQuery {D} _ _ _.
Arguments q_where {D} _ _.
Arguments q_order {D} _ _ _.
Arguments q_limit {D} _.

Definition limit_rows {A} (n : option nat) (l : list A) : list A :=
  match n with Some n => take n l | None => l end.

Class Table (W D : Type) := {
  tbl_Create : Ctx → Row D → M W (res (Row D));
  tbl_First : Ctx → (Row D → bool) → (Row D → Row D → bool) → M W (res (Row D));
  tbl_Find : Ctx → Query D → M W (res (list (Row D)));
  tbl_Updates : Ctx → (Row D → bool) → (D → D) → M W (res Z);
  tbl_Delete : Ctx → (Row D → bool) → M W (res Z);
}.

Class Db (W : Type) := {
  db_Transaction : ∀ A, A → M W (A * option goerr) → M W (A * option goerr);
}.
Arguments db_Transaction {W _ A} init body _.

(** [db.Transaction(func(tx) error)]: the body shares the variables [A] of the
    enclosing function, [init] before it runs; a body that returns an error is
    rolled back, and the transaction can fail by itself.  [tx] is the common
    use, where the variables are read only on success. *)
Definition tx_body {W A} (m : M W (res A)) : M W (option A * option goerr) :=
  λ w, match m w with
       | (Ok a, w') => ((Some a, None), w')
       | (Err e, w') => ((None, Some e), w')
       end.

Definition tx {W A} `{Db W} (m : M W (res A)) : M W (res A) :=
  let* r := db_Transaction None (tx_body m) in
  ret (match r with
       | (_, Some e) => Err e
       | (Some a, None) => Ok a
       | (None, None) => Err (ErrNew "unreachable")
       end).

(** A Postgres error with its SQLSTATE, matched with errors.As. *)
Definition PgError (code : string) : goerr := Sentinel ("pgconn.PgError " +:+ code).

(** The effect of [UPDATE ... WHERE p] on one row. *)
Definition update_row {D} (p : Row D → bool) (f : D → D) (r : Row D) : Row D :=
  if p r then mkRow (row_Id r) (row_CreatedAt r) (f (row_data r)) else r.

(** [WHERE id = ?]. *)
Definition by_id {D} (id : string) (r : Row D) : bool := String.eqb (row_Id r) id.

Lemma update_row_Id {D} (p : Row D → bool) f r : row_Id (update_row p f r) = row_Id r.
Proof. unfold update_row. by destruct (p r). Qed.

Class TableSpec (W D : Type) `{Db W, Table W D} := {
  tbl_rows : W → list (Row D);
  Create_ok : ∀ ctx r w r' w', tbl_Create ctx r w = (Ok r', w') →
    ¬ (row_Id r' ∈ row_Id <$> tbl_rows w) ∧ row_data r' = row_data r ∧
    row_Id r' ≠ "" ∧ (row_Id r ≠ "" → row_Id r' = row_Id r) ∧ tbl_rows w' ≡ₚ r' :: tbl_rows w;
  Create_err : ∀ ctx r w e w', tbl_Create ctx r w = (Err e, w') → tbl_rows w' = tbl_rows w;
  First_ok : ∀ ctx p o w r w', tbl_First ctx p o w = (Ok r, w') →
    r ∈ tbl_rows w ∧ p r = true ∧
    (∀ r', r' ∈ tbl_rows w → p r' = true → total_order o → o r r' = true);
  First_missing : ∀ ctx p o w e w', tbl_First ctx p o w = (Err e, w') →
    errors_Is "gorm.ErrRecordNotFound" e = true → ∀ r, r ∈ tbl_rows w → p r = false;
  First_frame : ∀ ctx p o w x w', tbl_First ctx p o w = (x, w') → tbl_rows w' = tbl_rows w;
  Find_ok : ∀ ctx q w l w', tbl_Find ctx q w = (Ok l, w') → total_order (q_order q) →
    ∃ l', l' ≡ₚ filter (λ r, q_where q r = true) (tbl_rows w) ∧
          sorted_by (q_order q) l' ∧ l = limit_rows (q_limit q) l';
  Find_frame : ∀ ctx q w x w', tbl_Find ctx q w = (x, w') → tbl_rows w' = tbl_rows w;
  Updates_ok : ∀ ctx p f w n w', tbl_Updates ctx p f w = (Ok n, w') →
    n = Z.of_nat (length (filter (λ r, p r = true) (tbl_rows w))) ∧
    tbl_rows w' ≡ₚ (update_row p f <$> tbl_rows w);
  Updates_err : ∀ ctx p f w e w', tbl_Updates ctx p f w = (Err e, w') → tbl_rows w' = tbl_rows w;
  Delete_ok : ∀ ctx p w n w', tbl_Delete ctx p w = (Ok n, w') →
    n = Z.of_nat (length (filter (λ r, p r = true) (tbl_rows w))) ∧
    tbl_rows w' ≡ₚ filter (λ r, p r = false) (tbl_rows w);
  Delete_err : ∀ ctx p w e w', tbl_Delete ctx p w = (Err e, w') → tbl_rows w' = tbl_rows w;
  Transaction_ok : ∀ A (i : A) m w a w', db_Transaction i m w = ((a, None), w') →
    ∃ w1, m w = ((a, None), w1) ∧ tbl_rows w' = tbl_rows w1;
  Transaction_err : ∀ A (i : A) m w a e w', db_Transaction i m w = ((a, Some e), w') →
    tbl_rows w' = tbl_rows w;
}.

(** A unique index on [key]: an insert that repeats a key fails. *)
Class UniqueIndex (W D K : Type) `{TableSpec W D} (key : D → K) : Prop :=
  unique_Create : ∀ ctx r w r' w', tbl_Create ctx r w = (Ok r', w') →
    key (row_data r') ∉ (λ x, key (row_data x)) <$> tbl_rows w.

(** Primary keys are unique. *)
Definition ids_unique {D} (l : list (Row D)) : Prop := NoDup (row_Id <$> l).

(** ** Ordering helpers *)

Definition order_by {A} (key : A → string) (a b : A) : bool := str_leb (key a) (key b).

Lemma str_leb_total a b : str_leb a b = true ∨ str_leb b a = true.
Proof. apply String.leb_total. Qed.

Lemma str_leb_trans a b c : str_leb a b = true → str_leb b c = true → str_leb a c = true.
Proof.
  intros H1 H2. assert (String.le a c) as H3; [|by apply Is_true_eq_true].
  transitivity b; by apply Is_true_eq_left.
Qed.

Lemma str_leb_antisym a b : str_leb a b = true → str_leb b a = true → a = b.
Proof. apply String.leb_antisym. Qed.

Lemma str_ltb_negb a b : str_ltb a b = negb (str_leb b a).
Proof.
  unfold str_ltb, str_leb, String.ltb, String.leb.
  rewrite (String.compare_antisym a b). by destruct (String.compare b a).
Qed.

Lemma order_by_total {A} (key : A → string) : total_order (order_by key).
Proof.
  split.
  - intros a b. apply str_leb_total.
  - intros a b c. apply str_leb_trans.
Qed.

Lemma order_by_Z_total {A} (key : A → Z) : total_order (λ a b, key a <=? key b).
Proof. split; intros; lia. Qed.

#[export] Hint Resolve order_by_total order_by_Z_total : core.

(** ** Rows as a map

    [kview k v l]: the rows of [l] as a map from the key [k] to the value
    [v], where the key is unique. *)
Section KView.
Context {D K V : Type} `{Countable K}.
Context (k : Row D → K) (v : Row D → V).
Implicit Types l : list (Row D).

Definition kview l : gmap K V := list_to_map ((λ r, (k r, v r)) <$> l).

Lemma kview_lookup l i x :
  NoDup (k <$> l) → kview l !! i = Some x ↔ ∃ r, r ∈ l ∧ k r = i ∧ x = v r.
Proof.
  intros Hu. unfold kview. rewrite <-elem_of_list_to_map.
  - rewrite list_elem_of_fmap. naive_solver.
  - rewrite <-list_fmap_compose. exact Hu.
Qed.

Lemma kview_size l : NoDup (k <$> l) → size (kview l) = length l.
Proof.
  unfold kview. induction l as [|r l IH]; [done|]. rewrite !fmap_cons. intros [Hr Hl]%NoDup_cons. simpl.
  rewrite map_size_insert_None; [by rewrite IH|]. apply not_elem_of_list_to_map. by rewrite <-list_fmap_compose.
Qed.

Lemma kview_row l r : NoDup (k <$> l) → r ∈ l → kview l !! k r = Some (v r).
Proof. intros Hu Hr. apply kview_lookup; eauto. Qed.

Lemma kview_None l i : NoDup (k <$> l) → kview l !! i = None ↔ ∀ r, r ∈ l → k r ≠ i.
Proof.
  intros Hu. rewrite eq_None_not_Some. split.
  - intros Hn r Hr <-. apply Hn. eexists. by apply kview_row.
  - intros Hn [x (r & Hr & Hk & _)%kview_lookup]; [|done]. by eapply Hn.
Qed.

Lemma kview_perm l l' : l ≡ₚ l' → NoDup (k <$> l) → kview l = kview l'.
Proof.
  intros Hp Hu. apply map_eq. intros i. apply option_eq. intros x.
  rewrite !kview_lookup; [|by rewrite <-Hp|done]. by setoid_rewrite Hp.
Qed.

Lemma kview_key_inj l r r' :
  NoDup (k <$> l) → r ∈ l → r' ∈ l → k r = k r' → r = r'.
Proof.
  induction l as [|x l IH]; intros Hn Hr Hr' He; [set_solver|].
  rewrite fmap_cons in Hn. apply NoDup_cons in Hn as [Hx Hn].
  apply elem_of_cons in Hr as [->|Hr]; apply elem_of_cons in Hr' as [->|Hr'];
    [done| | |by apply IH].
  - exfalso. apply Hx. rewrite He. by apply list_elem_of_fmap_2.
  - exfalso. apply Hx. rewrite <-He. by apply list_elem_of_fmap_2.
Qed.

Lemma kview_keys_update l p f :
  (∀ r, k (update_row p f r) = k r) → k <$> (update_row p f <$> l) = k <$> l.
Proof. intros Hk. rewrite <-list_fmap_compose. apply list_fmap_ext. intros. apply Hk. Qed.

(** An update that hits exactly one row. *)
Lemma kview_update l p f r :
  NoDup (k <$> l) → (∀ r, k (update_row p f r) = k r) → r ∈ l → p r = true →
  (∀ r', r' ∈ l → p r' = true → r' = r) →
  kview (update_row p f <$> l) = <[k r := v (update_row p f r)]> (kview l).
Proof.
  intros Hu Hk Hr Hp Honly. apply map_eq. intros i. apply option_eq. intros x.
  rewrite kview_lookup by (by rewrite kview_keys_update).
  setoid_rewrite list_elem_of_fmap. rewrite lookup_insert. case_decide as Hi.
  - subst i. split.
    + intros (y & (z & -> & Hz) & Hy & ->). rewrite Hk in Hy.
      by rewrite (kview_key_inj l z r).
    + intros [= <-]. exists (update_row p f r). rewrite Hk. eauto.
  - rewrite kview_lookup by done.
    assert (Hno : ∀ z, z ∈ l → k z ≠ k r → update_row p f z = z).
    { intros z Hz Hne. unfold update_row. destruct (p z) eqn:E; [|done].
      by rewrite (Honly z) in Hne. }
    split.
    + intros (y & (z & -> & Hz) & Hy & ->). rewrite Hk in Hy. rewrite Hno by congruence. eauto.
    + intros (y & Hy & Hi' & ->). exists y. split_and!; [|done..].
      exists y. rewrite Hno by congruence. eauto.
Qed.

Lemma kview_delete l (p : Row D → bool) i :
  NoDup (k <$> l) → (∀ r, r ∈ l → p r = true ↔ k r = i) →
  kview (filter (λ r, p r = false) l) = delete i (kview l).
Proof.
  intros Hu Hp. apply map_eq. intros j. apply option_eq. intros x.
  rewrite lookup_delete_Some, !kview_lookup; [|done|].
  2:{ eapply sublist_NoDup; [exact Hu|]. by apply fmap_sublist, sublist_filter. }
  setoid_rewrite list_elem_of_filter. setoid_rewrite <-not_true_iff_false.
  split.
  - intros (r & [Hn Hr] & <- & ->). split; [|by eauto]. intros ->. by apply Hn, Hp.
  - intros (Hne & r & Hr & <- & ->). exists r. split_and!; [|done..].
    intros Hx. apply Hp in Hx; [|done]. done.
Qed.
End KView.

(** ** Facts the clients share *)

Section Spec.
Context {W D : Type} `{TableSpec W D}.

Lemma Tx_ok {A} (m : M W (res A)) w a w' : tx m w = (Ok a, w') →
  ∃ w1, m w = (Ok a, w1) ∧ tbl_rows w' = tbl_rows w1.
Proof.
  unfold tx, bind, ret. destruct (db_Transaction _ _ w) as [[[b|] [e|]] w1] eqn:E;
    try by intros [=]. intros [= -> <-].
  apply Transaction_ok in E as (w2 & E & ->). unfold tx_body in E.
  destruct (m w) as [[b|e] w3]; simplify_eq/=. eauto.
Qed.

Lemma Tx_err {A} (m : M W (res A)) w e w' : tx m w = (Err e, w') → tbl_rows w' = tbl_rows w.
Proof.
  unfold tx, bind, ret. destruct (db_Transaction _ _ w) as [[o [e1|]] w1] eqn:E.
  - apply Transaction_err in E. by destruct o; intros [= _ <-].
  - destruct o as [b|]; [by intros [=]|]. intros [= _ <-]. exfalso.
    apply Transaction_ok in E as (w2 & E & _). unfold tx_body in E.
    destruct (m w) as [[b|e2] w3]; by simplify_eq/=.
Qed.

(** A row with a given primary key is unique. *)
Lemma ids_unique_eq (l : list (Row D)) r r' :
  ids_unique l → r ∈ l → r' ∈ l → row_Id r = row_Id r' → r = r'.
Proof. apply kview_key_inj. Qed.

Lemma ids_unique_update (l : list (Row D)) p f :
  ids_unique l → ids_unique (update_row p f <$> l).
Proof.
  unfold ids_unique. rewrite kview_keys_update; [done|]. apply update_row_Id.
Qed.

Lemma ids_unique_perm (l l' : list (Row D)) : l ≡ₚ l' → ids_unique l → ids_unique l'.
Proof. unfold ids_unique. by intros ->. Qed.

Lemma ids_unique_filter (P : Row D → Prop) `{∀ r, Decision (P r)} (l : list (Row D)) :
  ids_unique l → ids_unique (filter P l).
Proof.
  unfold ids_unique. intros Hn. eapply sublist_NoDup; [done|].
  by apply fmap_sublist, sublist_filter.
Qed.

(** [RowsAffected] of an update by primary key is 0 or 1. *)
Lemma filter_id_length (l : list (Row D)) id :
  ids_unique l →
  (length (filter (λ r, String.eqb (row_Id r) id = true) l) ≤ 1)%nat.
Proof.
  unfold ids_unique. induction l as [|x l IH]; intros Hn; [simpl; lia|].
  rewrite fmap_cons in Hn. apply NoDup_cons in Hn as [Hx Hn].
  rewrite filter_cons. case_decide as Hd; [|auto].
  apply String.eqb_eq in Hd. simpl.
  enough (filter (λ r, String.eqb (row_Id r) id = true) l = []) as -> by (simpl; lia).
  apply elem_of_nil_inv. intros y Hy. apply list_elem_of_filter in Hy as [Hy1 Hy2].
  apply String.eqb_eq in Hy1. apply Hx. rewrite Hd, <-Hy1. by apply list_elem_of_fmap_2.
Qed.
End Spec.

(** Statements on the table of [D1] leave the table of [D2] alone. *)
Class Separate (W D1 D2 : Type) `{Table W D1, TableSpec W D2} : Prop := {
  sep_Create : ∀ ctx (r : Row D1), Preserves (tbl_rows (D := D2)) (tbl_Create ctx r);
  sep_First : ∀ ctx p o, Preserves (tbl_rows (D := D2)) (tbl_First (D := D1) ctx p o);
  sep_Find : ∀ ctx q, Preserves (tbl_rows (D := D2)) (tbl_Find (D := D1) ctx q);
  sep_Updates : ∀ ctx p f, Preserves (tbl_rows (D := D2)) (tbl_Updates (D := D1) ctx p f);
  sep_Delete : ∀ ctx p, Preserves (tbl_rows (D := D2)) (tbl_Delete (D := D1) ctx p);
}.
#[export] Existing Instances sep_Create sep_First sep_Find sep_Updates sep_Delete.

(** ** An executable instance

    Tables held in lists, whose statements fail only on a duplicate primary key
    or a missing row; a transaction that fails restores the whole state. *)
Module ListTable.

(** The unique indexes of a row type: whether two rows may not coexist. *)
Class Conflicts (D : Type) := conflicts : D → D → bool.

Section Impl.
Context {D : Type} `{Conflicts D}.

Definition ErrDuplicate : goerr := PgError "23505".

Definition new_id (l : list (Row D)) (id : string) : string :=
  if String.eqb id "" then fresh ("" :: (row_Id <$> l)) else id.

Definition Create (ctx : Ctx) (r : Row D) : M (list (Row D)) (res (Row D)) := λ l,
  let id := new_id l (row_Id r) in
  if decide (id ∈ row_Id <$> l) then (Err ErrDuplicate, l)
  else if existsb (λ x, conflicts (row_data r) (row_data x)) l then (Err ErrDuplicate, l)
  else let r' := mkRow id (row_CreatedAt r) (row_data r) in (Ok r', r' :: l).

Definition First (ctx : Ctx) (p : Row D → bool) (o : Row D → Row D → bool)
  : M (list (Row D)) (res (Row D)) := λ l,
  match sort_by o (filter (λ r, p r = true) l) with
  | [] => (Err ErrRecordNotFound, l)
  | r :: _ => (Ok r, l)
  end.

Definition Find (ctx : Ctx) (q : Query D) : M (list (Row D)) (res (list (Row D))) := λ l,
  (Ok (limit_rows (q_limit q) (sort_by (q_order q) (filter (λ r, q_where q r = true) l))), l).

Definition Updates (ctx : Ctx) (p : Row D → bool) (f : D → D)
  : M (list (Row D)) (res Z) := λ l,
  (Ok (Z.of_nat (length (filter (λ r, p r = true) l))), update_row p f <$> l).

Definition Delete (ctx : Ctx) (p : Row D → bool) : M (list (Row D)) (res Z) := λ l,
  (Ok (Z.of_nat (length (filter (λ r, p r = true) l))), filter (λ r, p r = false) l).

Lemma first_is_least (o : Row D → Row D → bool) p (l : list (Row D)) r l' :
  sort_by o (filter (λ r, p r = true) l) = r :: l' →
  r ∈ l ∧ p r = true ∧ (∀ r', r' ∈ l → p r' = true → total_order o → o r r' = true).
Proof.
  intros Hs.
  assert (Hmem : ∀ x, x ∈ r :: l' ↔ p x = true ∧ x ∈ l).
  { intros x. rewrite <-Hs, sort_by_perm. by rewrite list_elem_of_filter. }
  destruct (proj1 (Hmem r)) as [? ?]; [set_solver|]. split_and!; [done..|].
  intros r' Hr' Hp Ho. pose proof (sort_by_sorted o (filter (λ r, p r = true) l) Ho) as Hso.
  rewrite Hs in Hso. apply StronglySorted_inv in Hso as [_ Hf].
  assert (Hx : r' ∈ r :: l') by (by apply Hmem).
  apply elem_of_cons in Hx as [->|Hx]; [by destruct (le_total _ Ho r r)|].
  rewrite Forall_forall in Hf. by apply Hf.
Qed.
End Impl.

Section Instances.
Context {W : Type}.

#[global] Instance db : Db W := {
  db_Transaction A init m := λ w,
    match m w with
    | ((a, None), w') => ((a, None), w')
    | ((a, Some e), _) => ((a, Some e), w)
    end;
}.

Context {D : Type} `{Conflicts D, !Has W (list (Row D))}.

#[global] Instance table : Table W D := {
  tbl_Create ctx r := lift (Create ctx r); tbl_First ctx p o := lift (First ctx p o);
  tbl_Find ctx q := lift (Find ctx q); tbl_Updates ctx p f := lift (Updates ctx p f);
  tbl_Delete ctx p := lift (Delete ctx p);
}.

#[global] Program Instance table_spec : TableSpec W D := {
  tbl_rows := getS;
}.
Next Obligation.
  simpl. intros ctx r w r' w' (l & Hm & ->)%lift_inv. revert Hm. unfold Create, new_id.
  intros. case_decide; [done|]. case_match; simplify_eq/=.
  assert (Hf : fresh ("" :: (row_Id <$> getS w)) ∉ "" :: (row_Id <$> getS w)) by apply infinite_is_fresh.
  split_and!; [done|done| | |done]; destruct (String.eqb_spec (row_Id r) ""); set_solver.
Qed.
Next Obligation.
  simpl. intros ctx r w e w' (l & Hm & ->)%lift_inv. revert Hm. unfold Create.
  intros. repeat case_match; by simplify_eq/=.
Qed.
Next Obligation.
  simpl. intros ctx p o w r w' (l & Hm & _)%lift_inv. revert Hm. unfold First.
  case_match eqn:E; [done|]. intros [= -> _]. by apply first_is_least in E.
Qed.
Next Obligation.
  simpl. intros ctx p o w e w' (l & Hm & _)%lift_inv _ r Hr. revert Hm. unfold First.
  case_match eqn:E; [|done]. intros _. destruct (p r) eqn:Hp; [|done]. exfalso.
  assert (Hx : r ∈ sort_by o (filter (λ r, p r = true) (getS w))).
  { rewrite sort_by_perm. by apply list_elem_of_filter. }
  rewrite E in Hx. set_solver.
Qed.
Next Obligation.
  simpl. intros ctx p o w x w' (l & Hm & ->)%lift_inv. revert Hm. unfold First.
  case_match; by intros [= _ <-].
Qed.
Next Obligation.
  simpl. intros ctx q w l w' (l2 & Hm & _)%lift_inv Ho. revert Hm. unfold Find.
  intros [= <- _]. eexists. split_and!; [| |done].
  - apply sort_by_perm.
  - by apply sort_by_sorted.
Qed.
Next Obligation.
  simpl. intros ctx q w x w' (l & Hm & ->)%lift_inv. revert Hm. unfold Find. by intros [= _ <-].
Qed.
Next Obligation.
  simpl. intros ctx p f w n w' (l & Hm & ->)%lift_inv. revert Hm. unfold Updates.
  by intros [= <- <-].
Qed.
Next Obligation. simpl. intros ctx p f w e w' (l & Hm & _)%lift_inv. done. Qed.
Next Obligation.
  simpl. intros ctx p w n w' (l & Hm & ->)%lift_inv. revert Hm. unfold Delete.
  by intros [= <- <-].
Qed.
Next Obligation. simpl. intros ctx p w e w' (l & Hm & _)%lift_inv. done. Qed.
Next Obligation.
  simpl. intros A i m w a w' Ht. destruct (m w) as [[b [e|]] l'] eqn:E; simplify_eq/=. eauto.
Qed.
Next Obligation.
  simpl. intros A i m w a e w' Ht. destruct (m w) as [[b [?|]] l'] eqn:E; by simplify_eq/=.
Qed.
End Instances.

(** A conflict check on equal keys is a unique index. *)
Lemma unique_index_intro {W D K : Type} `{!Has W (list (Row D)), Conflicts D} (key : D → K) :
  (∀ a b, key a = key b → conflicts a b = true) →
  UniqueIndex W D K key.
Proof.
  intros Hc ctx r w r' w' (l & Hm & _)%lift_inv. revert Hm. unfold Create.
  case_decide; [done|]. case_match eqn:Ex; [done|]. intros [= <- _]. simpl.
  intros (x & Hk & Hx)%list_elem_of_fmap. revert Ex. apply not_false_iff_true.
  apply existsb_exists. exists x. split; [by apply list_elem_of_In|by apply Hc].
Qed.

(** Two tables in different components of the state. *)
Section Separation.
Context {W D1 D2 : Type} `{Conflicts D1, Conflicts D2, !Has W (list (Row D1)), !Has W (list (Row D2))}.

Lemma separate_intro :
  (∀ (l : list (Row D1)) (w : W), getS (S := list (Row D2)) (setS l w) = getS w) →
  Separate W D1 D2.
Proof.
  intros Hs. split; intros; intros w; simpl; unfold lift; try case_match; apply Hs.
Qed.
End Separation.
End ListTable.
