(* ===== verification/Logging.v ===== *)
(** * Correlation IDs and logging (internal/logging/logging.go)

    The correlation ID travels on the context ([Prelude.Ctx]).  A logger is the
    chain of handlers a record goes through; what is modelled of log/slog is its
    documented handler contract, down to the attributes of the line written.  No
    component reads the log, so the rest of the development leaves it out. *)

From stdpp Require Import base list strings.
From S2P Require Import Prelude.

Definition NewCorrelationID {W} `{Env W} : M W string := uuid_NewString.

Definition WithCorrelationID (ctx : Ctx) (id : string) : Ctx :=
  if String.eqb id "" then ctx else mkCtx (ctx_Err ctx) id.

Definition GetCorrelationID (ctx : Ctx) : string := ctx_CorrelationID ctx.

(** ** Levels *)

Inductive Level := LevelDebug | LevelInfo | LevelWarn | LevelError.

(** slog's values. *)
Definition Level_value (l : Level) : Z :=
  match l with LevelDebug => -4 | LevelInfo => 0 | LevelWarn => 4 | LevelError => 8 end.

Definition LevelFromEnv (v : string) : Level :=
  let v := ToLower (TrimSpace v) in
  if String.eqb v "debug" then LevelDebug
  else if String.eqb v "warn" || String.eqb v "warning" then LevelWarn
  else if String.eqb v "error" then LevelError
  else LevelInfo.

(** ** Handlers *)

Definition attr : Type := string * string.

(** What [With] and [WithGroup] have added to a JSON handler, in order. *)
Inductive scope := SAttrs (l : list attr) | SGroup (name : string).

Record JSONHandler := mkJSONHandler { jh_Level : Level; jh_scopes : list scope }.

Definition json_WithAttrs (attrs : list attr) (h : JSONHandler) : JSONHandler :=
  mkJSONHandler (jh_Level h) (jh_scopes h ++ [SAttrs attrs]).
Definition json_WithGroup (name : string) (h : JSONHandler) : JSONHandler :=
  mkJSONHandler (jh_Level h) (jh_scopes h ++ [SGroup name]).

(** The attributes of the line, each under the groups open where it was added;
    the record's come last. *)
Fixpoint line_attrs (groups : list string) (scopes : list scope) (attrs : list attr) : list (list string * attr) :=
  match scopes with
  | [] => pair groups <$> attrs
  | SAttrs l :: scopes => (pair groups <$> l) ++ line_attrs groups scopes attrs
  | SGroup name :: scopes => line_attrs (groups ++ [name]) scopes attrs
  end.

(** [contextHandler] embeds the handler it wraps. *)
Record contextHandler := mkContextHandler { ch_Handler : JSONHandler }.

(** The attributes of a record after [contextHandler.Handle]. *)
Definition Handle_attrs (ctx : Ctx) (attrs : list attr) : list attr :=
  if String.eqb (GetCorrelationID ctx) "" then attrs
  else attrs ++ [("correlation_id", GetCorrelationID ctx)].

Definition ctx_Handle (h : contextHandler) (ctx : Ctx) (attrs : list attr) : list (list string * attr) :=
  line_attrs [] (jh_scopes (ch_Handler h)) (Handle_attrs ctx attrs).

Definition ctx_WithAttrs (attrs : list attr) (h : contextHandler) : contextHandler :=
  mkContextHandler (json_WithAttrs attrs (ch_Handler h)).

Definition ctx_WithGroup (name : string) (h : contextHandler) : contextHandler :=
  mkContextHandler (json_WithGroup name (ch_Handler h)).

Definition NewJSONLogger (level : Level) : contextHandler := mkContextHandler (mkJSONHandler level []).

(** A logging call: the line it writes, if its level is enabled. *)
Definition log_record (h : contextHandler) (ctx : Ctx) (level : Level) (attrs : list attr) : option (list (list string * attr)) :=
  if Level_value (jh_Level (ch_Handler h)) <=? Level_value level then Some (ctx_Handle h ctx attrs) else None.

(** ** Facts *)

Lemma WithCorrelationID_Err ctx id : ctx_Err (WithCorrelationID ctx id) = ctx_Err ctx.
Proof. unfold WithCorrelationID. by destruct (String.eqb id ""). Qed.

(** Re-attaching the ID a job carries is what the enqueuing context had, unless
    the worker's own context already has one and the job none. *)
Lemma WithCorrelationID_get ctx id : id ≠ "" → GetCorrelationID (WithCorrelationID ctx id) = id.
Proof. unfold WithCorrelationID. by destruct (String.eqb_spec id ""). Qed.

(** A logger derived from [NewJSONLogger]. *)
Inductive derived (level : Level) : contextHandler → list string → Prop :=
| derived_new : derived level (NewJSONLogger level) []
| derived_attrs h gs attrs : derived level h gs → derived level (ctx_WithAttrs attrs h) gs
| derived_group h gs name : derived level h gs → derived level (ctx_WithGroup name h) (gs ++ [name]).

(** The groups a chain leaves open. *)
Fixpoint open_groups (scopes : list scope) : list string :=
  match scopes with
  | [] => []
  | SAttrs _ :: scopes => open_groups scopes
  | SGroup name :: scopes => name :: open_groups scopes
  end.

Lemma open_groups_app l1 l2 : open_groups (l1 ++ l2) = open_groups l1 ++ open_groups l2.
Proof. induction l1 as [|[] l1 IH]; simpl; [done|done|by rewrite IH]. Qed.

Lemma derived_open level h gs : derived level h gs → jh_Level (ch_Handler h) = level ∧ open_groups (jh_scopes (ch_Handler h)) = gs.
Proof.
  induction 1 as [|h gs attrs _ [IHl IHg]|h gs name _ [IHl IHg]]; [done|..]; simpl; rewrite open_groups_app, IHg; [|done].
  by rewrite app_nil_r.
Qed.

Lemma line_attrs_record groups scopes attrs a : a ∈ attrs →
  (groups ++ open_groups scopes, a) ∈ line_attrs groups scopes attrs.
Proof.
  intros Ha. revert groups. induction scopes as [|[l|name] scopes IH]; intros groups; simpl.
  - rewrite app_nil_r. by apply list_elem_of_fmap_2.
  - apply elem_of_app. right. apply IH.
  - specialize (IH (groups ++ [name])). by rewrite <-app_assoc in IH.
Qed.

(** NFR-OBS-2: every line at an enabled level that any derived logger writes
    with a context that carries an ID has it, under the groups the logger was
    derived with. *)
Lemma correlated level h gs ctx l attrs : derived level h gs → Level_value level ≤ Level_value l →
  ∃ line, log_record h ctx l attrs = Some line ∧
    (GetCorrelationID ctx ≠ "" → (gs, ("correlation_id", GetCorrelationID ctx)) ∈ line).
Proof.
  intros Hd Hl. apply derived_open in Hd as [Hlev Ho]. unfold log_record. rewrite Hlev.
  destruct (Z.leb_spec (Level_value level) (Level_value l)); [|lia]. eexists. split; [done|].
  intros Hne%String.eqb_neq. unfold ctx_Handle, Handle_attrs. rewrite Hne, <-Ho.
  apply (line_attrs_record []), elem_of_app. right. by left.
Qed.
