(* ===== verification/Queue.v ===== *)
(** * Claim queues (internal/queue, and the queues of internal/webhook)

    [queue.Backend] and [webhook.EventQueue] have one shape: a durable set of
    jobs, each unclaimed or claimed by one consumer, claimed earliest-due
    first and released by Complete (removed) or Fail (rescheduled).  The
    operations are generic in the job type [J]; [queue.Job] is instantiated
    here and [webhook.DeliveryJob] in [Webhook].  [QueueSpec] is the abstract
    contract; the memory and the Postgres backend are shown to refine it. *)

From S2P Require Import Prelude Float64 Table.

(** ** Jobs (jobs.go) *)

Record Job := mkJob {
  ID : string;
  Vhost : string;
  From : string;
  To : string;
  BodyRef : string;
  Attempts : Z;
  NextAttemptAt : Time;
  LastError : string;
  CorrelationID : string;
}.

#[export] Instance Job_eq_dec : EqDecision Job.
Proof. solve_decision. Defined.

(** The fields a queue reads and writes.  [j_retry] is the update of Fail:
    attempts + 1, the new due time, and the error text when there is one. *)
Class QJob (J : Type) := {
  j_ID : J → string;
  j_Next : J → Time;
  j_Attempts : J → Z;
  j_retry : option string → Time → J → J;
  j_retry_ID : ∀ e t j, j_ID (j_retry e t j) = j_ID j;
  j_retry_Next : ∀ e t j, j_Next (j_retry e t j) = t;
  j_retry_Attempts : ∀ e t j, j_Attempts (j_retry e t j) = j_Attempts j + 1;
}.

(** The message texts, which differ between the two packages. *)
Class QText (J : Type) := {
  txt_ID_required : string;
  txt_not_found : string;
  txt_enqueue : string;
  txt_dequeue : string;
  txt_count : string;
  txt_complete : string;
  txt_fail : string;
}.
Arguments txt_ID_required J {_}.
Arguments txt_not_found J {_}.
Arguments txt_enqueue J {_}.
Arguments txt_dequeue J {_}.
Arguments txt_count J {_}.
Arguments txt_complete J {_}.
Arguments txt_fail J {_}.

Definition Job_retry (e : option string) (t : Time) (job : Job) : Job :=
  mkJob (ID job) (Vhost job) (From job) (To job) (BodyRef job) (Attempts job + 1) t
    (default (LastError job) e) (CorrelationID job).

#[export] Program Instance Job_QJob : QJob Job := {
  j_ID := ID; j_Next := NextAttemptAt; j_Attempts := Attempts; j_retry := Job_retry;
}.
Solve Obligations with done.

#[export] Instance Job_QText : QText Job := {
  txt_ID_required := "queue: job ID is required";
  txt_not_found := "queue: job %q not found";
  txt_enqueue := "queue: enqueue job %q: %w";
  txt_dequeue := "queue: dequeue: %w";
  txt_count := "queue: count: %w";
  txt_complete := "queue: complete job %q: %w";
  txt_fail := "queue: fail job %q: %w";
}.

(** [err.Error()]: the text of an error value. *)
Class ErrorText := Error : goerr → string.

(** ** The contract (backend.go, delivery.go) *)

Class QueueBackend (W J : Type) := {
  q_Enqueue : Ctx → J → M W (res unit);
  q_Dequeue : Ctx → M W (res (option J));
  q_Complete : Ctx → string → M W (res unit);
  q_Fail : Ctx → string → option goerr → Time → M W (res unit);
}.

(** The abstract state: every job not yet completed, with its claim. *)
Abbreviation QView J := (gmap string (J * bool)).

Class QueueSpec (W J : Type) `{QJob J, QueueBackend W J, ErrorText, Env W}
  (q_inv : W → Prop) (q_view : W → QView J) : Prop := {
  q_keyed : ∀ w id j c, q_inv w → q_view w !! id = Some (j, c) → j_ID j = id;
  Enqueue_inv : ∀ ctx j w r w', q_inv w → q_Enqueue ctx j w = (r, w') → q_inv w';
  Enqueue_ok : ∀ ctx j w w', q_inv w → q_Enqueue ctx j w = (Ok tt, w') →
    q_view w !! j_ID j = None →
    j_ID j ≠ "" ∧ q_view w' = <[j_ID j := (j, false)]> (q_view w);
  Enqueue_other : ∀ ctx j w w' id, q_inv w → q_Enqueue ctx j w = (Ok tt, w') →
    id ≠ j_ID j → q_view w' !! id = q_view w !! id;
  Enqueue_err : ∀ ctx j w e w', q_inv w → q_Enqueue ctx j w = (Err e, w') →
    q_view w' = q_view w;
  Dequeue_inv : ∀ ctx w r w', q_inv w → q_Dequeue ctx w = (r, w') → q_inv w';
  Dequeue_some : ∀ ctx w j w', q_inv w → q_Dequeue ctx w = (Ok (Some j), w') →
    q_view w !! j_ID j = Some (j, false) ∧
    q_view w' = <[j_ID j := (j, true)]> (q_view w) ∧
    j_Next j ≤ fst (now w) ∧
    ∀ id j', q_view w !! id = Some (j', false) → j_Next j ≤ j_Next j';
  Dequeue_none : ∀ ctx w w', q_inv w → q_Dequeue ctx w = (Ok None, w') →
    q_view w' = q_view w ∧
    ∀ id j', q_view w !! id = Some (j', false) → fst (now w) < j_Next j';
  Dequeue_err : ∀ ctx w e w', q_inv w → q_Dequeue ctx w = (Err e, w') → q_view w' = q_view w;
  Complete_inv : ∀ ctx id w r w', q_inv w → q_Complete ctx id w = (r, w') → q_inv w';
  Complete_ok : ∀ ctx id w w', q_inv w → q_Complete ctx id w = (Ok tt, w') →
    is_Some (q_view w !! id) ∧ q_view w' = delete id (q_view w);
  Complete_err : ∀ ctx id w e w', q_inv w → q_Complete ctx id w = (Err e, w') →
    q_view w' = q_view w;
  Fail_inv : ∀ ctx id c t w r w', q_inv w → q_Fail ctx id c t w = (r, w') → q_inv w';
  Fail_ok : ∀ ctx id c t w w', q_inv w → q_Fail ctx id c t w = (Ok tt, w') →
    ∃ j b, q_view w !! id = Some (j, b) ∧
           q_view w' = <[id := (j_retry (Error <$> c) t j, false)]> (q_view w);
  Fail_err : ∀ ctx id c t w e w', q_inv w → q_Fail ctx id c t w = (Err e, w') →
    q_view w' = q_view w;
}.

(** The fifth method of queue.Backend, which webhook's queue does not have: the
    number of jobs not completed, claimed or not. *)
Class QueueCounter (W : Type) := q_Count : Ctx → M W (res Z).

Class CounterSpec (W : Type) {J : Type} `{QueueCounter W} (q_inv : W → Prop) (q_view : W → QView J) : Prop := {
  Count_quiet : ∀ ctx, quiet q_inv q_view (q_Count ctx);
  Count_ok : ∀ ctx w n w', q_inv w → q_Count ctx w = (Ok n, w') → n = Z.of_nat (size (q_view w));
}.

(** ** The end of a delivery

    Whoever works on a claimed job closes it with one operation: it is removed,
    or rescheduled with a cause. *)
Inductive closing := Removed (id : string) | Rescheduled (id : string) (cause : goerr) (next : Time).

Section Closing.
Context {W J : Type} {HJ : QJob J} {HQ : QueueBackend W J} {HT : ErrorText} {HE : Env W}.

Definition close_job (ctx : Ctx) (c : closing) : M W (res unit) :=
  match c with
  | Removed id => q_Complete ctx id
  | Rescheduled id cause next => q_Fail ctx id (Some cause) next
  end.

(** What it does when it succeeds. *)
Definition closed_view (c : closing) (v : QView J) : QView J :=
  match c with
  | Removed id => delete id v
  | Rescheduled id cause next => alter (λ x, (j_retry (Some (Error cause)) next x.1, false)) id v
  end.

Context (q_inv : W → Prop) (q_view : W → QView J) {QS : QueueSpec W J q_inv q_view}.

(** Between [w] and [w'] this operation was performed once, on the queue as it
    is in [w], and it is all that happened to the queue: nothing if it failed. *)
Definition closes (ctx : Ctx) (c : closing) (w w' : W) : Prop :=
  ∃ w1 r w2, q_inv w1 ∧ q_view w1 = q_view w ∧ close_job ctx c w1 = (r, w2) ∧ q_view w' = q_view w2 ∧
    q_view w2 = if is_Ok r then closed_view c (q_view w) else q_view w.

Lemma closes_intro ctx c (w w1 : W) r w2 w' : q_inv w1 → q_view w1 = q_view w → close_job ctx c w1 = (r, w2) →
  q_view w' = q_view w2 → q_inv w2 ∧ closes ctx c w w'.
Proof.
  intros Hi Hv E Hv'. unfold closes. rewrite <-Hv. split.
  - destruct c; simpl in E; [by eapply Complete_inv|by eapply Fail_inv].
  - exists w1, r, w2. split_and!; [done..|]. destruct c as [id|id cause next], r as [[]|e]; simpl in *.
    + by apply Complete_ok in E as [_ ?].
    + by apply Complete_err in E.
    + apply Fail_ok in E as (j & b & Hl & ->); [|done]. apply map_eq. intros i. rewrite lookup_insert, lookup_alter.
      case_decide as Hd; [subst i|done]. by rewrite Hl.
    + by apply Fail_err in E.
Qed.

(** The queue as it was, or without the job, or with it rescheduled. *)
Lemma closes_cases ctx c (w w' : W) : closes ctx c w w' → q_view w' = q_view w ∨
  match c with
  | Removed id => q_view w' = delete id (q_view w)
  | Rescheduled id cause next => ∃ j b, q_view w !! id = Some (j, b) ∧
      q_view w' = <[id := (j_retry (Some (Error cause)) next j, false)]> (q_view w)
  end.
Proof.
  intros (w1 & r & w2 & _ & _ & _ & -> & ->). destruct (is_Ok r); [|by left].
  destruct c as [id|id cause next]; simpl; [by right|].
  destruct (q_view w !! id) as [[j b]|] eqn:Hl.
  - right. exists j, b. split; [done|]. apply map_eq. intros i. rewrite lookup_insert, lookup_alter.
    case_decide as Hd; [subst i|done]. by rewrite Hl.
  - left. apply map_eq. intros i. rewrite lookup_alter. case_decide as Hd; [subst i|done]. by rewrite Hl.
Qed.
End Closing.

(** ** Several jobs enqueued *)

Section AddJobs.
Context {J : Type} `{QJob J}.

(** The view with [jobs] enqueued. *)
Definition add_jobs (v : QView J) (jobs : list J) : QView J :=
  foldl (λ v j, <[j_ID j := (j, false)]> v) v jobs.

Definition new_ids (v : QView J) (jobs : list J) : Prop :=
  NoDup (j_ID <$> jobs) ∧ Forall (λ j, v !! j_ID j = None) jobs.

Lemma new_ids_nil v : new_ids v [].
Proof. split; constructor. Qed.

Lemma new_ids_cons v j jobs :
  v !! j_ID j = None → new_ids (<[j_ID j := (j, false)]> v) jobs → new_ids v (j :: jobs).
Proof.
  intros Hj [Hn Hf]. rewrite Forall_forall in Hf.
  assert (Hx : ∀ x, x ∈ jobs → j_ID x ≠ j_ID j ∧ v !! j_ID x = None).
  { intros x Hx. specialize (Hf x Hx). rewrite lookup_insert in Hf. case_decide; [done|]. done. }
  split.
  - rewrite fmap_cons. apply NoDup_cons. split; [|done].
    intros (x & He & Hin)%list_elem_of_fmap. by destruct (Hx x Hin).
  - apply Forall_cons. split; [done|]. apply Forall_forall. intros x Hin. by apply Hx.
Qed.

Lemma add_jobs_lookup v jobs id :
  new_ids v jobs →
  add_jobs v jobs !! id = match List.find (λ j, String.eqb (j_ID j) id) jobs with
                          | Some j => Some (j, false)
                          | None => v !! id
                          end.
Proof.
  revert v. induction jobs as [|j jobs IH]; intros v [Hn Hf]; simpl; [done|].
  rewrite fmap_cons in Hn. apply NoDup_cons in Hn as [Hj Hn]. apply Forall_cons in Hf as [Hv Hf].
  rewrite IH.
  2:{ split; [done|]. rewrite Forall_forall in Hf. apply Forall_forall. intros x Hx.
      rewrite lookup_insert_ne; [by apply Hf|]. intros He. apply Hj. rewrite He.
      by apply list_elem_of_fmap_2. }
  destruct (String.eqb_spec (j_ID j) id) as [<-|Hne].
  - destruct (List.find _ jobs) as [x|] eqn:Ex; [|by rewrite lookup_insert_eq].
    apply find_some in Ex as [Hx He%String.eqb_eq]. exfalso. apply Hj. rewrite <-He.
    apply list_elem_of_fmap_2. by apply list_elem_of_In.
  - case_match; [done|]. by rewrite lookup_insert_ne.
Qed.

Lemma add_jobs_in v jobs j : new_ids v jobs → j ∈ jobs → add_jobs v jobs !! j_ID j = Some (j, false).
Proof.
  intros Hn Hj. rewrite add_jobs_lookup by done. destruct (List.find _ jobs) as [x|] eqn:Ex.
  - apply find_some in Ex as [Hx He%String.eqb_eq]. apply list_elem_of_In in Hx. destruct Hn as [Hn _].
    apply list_elem_of_lookup in Hx as [i Hx], Hj as [k Hj].
    assert (i = k) as ->; [|congruence]. eapply NoDup_lookup; [exact Hn|..]; rewrite list_lookup_fmap.
    + by rewrite Hx.
    + by rewrite Hj; simpl; rewrite He.
  - apply list_elem_of_In, (find_none _ _ Ex) in Hj. by rewrite String.eqb_refl in Hj.
Qed.

Lemma add_jobs_keeps v jobs id x : new_ids v jobs → v !! id = Some x → add_jobs v jobs !! id = Some x.
Proof.
  intros Hn Hx. rewrite add_jobs_lookup by done. destruct (List.find _ jobs) as [j|] eqn:Ej; [|done].
  apply find_some in Ej as [Hj <-%String.eqb_eq]. apply list_elem_of_In in Hj. destruct Hn as [_ Hn].
  rewrite Forall_forall in Hn. by rewrite Hn in Hx.
Qed.
End AddJobs.

(** ** Backoff (backoff.go) *)

Class Rand (W : Type) := Int63n : Z → M W Z.

(** math/rand's contract for [Int63n]. *)
Class RandSpec (W : Type) `{Rand W} :=
  Int63n_range : ∀ n w, 0 < n → 0 ≤ fst (Int63n n w) < n.

Definition panic_Int63n : goerr := ErrNew "invalid argument to Int63n".

Section Backoff.
Context {W : Type} `{Rand W}.

(** [FullJitter]; [Err] is the panic of [Int63n] on a non-positive bound, or
    a bound [int64] cannot represent. *)
Definition FullJitter (attempt : Z) (base maxDelay : Duration) : M W (res Duration) :=
  let attempt := if attempt <? 0 then 0 else attempt in
  let upper := fmul (of_int base) (pow2 attempt) in
  let upper :=
    if fgt upper (of_int maxDelay) || bool_decide (upper = FInf false)
    then of_int maxDelay else upper in
  if fle upper F0 then ret (Ok 0)
  else match trunc upper with
       | Some n => if 0 <? n then let* d := Int63n n in ret (Ok d)
                   else ret (Err panic_Int63n)
       | None => ret (Err panic_Int63n)
       end.
End Backoff.

(** ** The memory backends (queue/memory.go, webhook/memory_queue.go) *)

Section Memory.
Context {J : Type} `{QJob J, QText J, ErrorText}.

Record MemoryBackend := mkMemory {
  jobs : gmap string J;
  claimed : gset string;  (* the keys of [claimed map[string]bool] *)
}.

Definition NewMemoryBackend : MemoryBackend := mkMemory ∅ ∅.

Definition err_ID_required : goerr := ErrNew (txt_ID_required J).
Definition err_not_found (id : string) : goerr := Errorf (txt_not_found J) [id].

Definition mem_Enqueue (ctx : Ctx) (job : J) : M MemoryBackend (res unit) :=
  guard_ctx ctx (
    if String.eqb (j_ID job) "" then ret (Err err_ID_required)
    else λ m, (Ok tt, mkMemory (<[j_ID job := job]> (jobs m)) (claimed m))).

(** One iteration of Dequeue's loop over [m.jobs]. *)
Definition dequeue_better (cl : gset string) (t : Time) (best : option J) (kv : string * J)
  : option J :=
  let '(id, job) := kv in
  if decide (id ∈ cl) then best
  else if After (j_Next job) t then best
  else match best with
       | None => Some job
       | Some b => if Before (j_Next job) (j_Next b) then Some job else best
       end.

(** [order] is the iteration order of the map, which Go leaves open, and [t]
    the time read by [time.Now]. *)
Definition mem_Dequeue (order : gmap string J → list (string * J)) (t : Time) (ctx : Ctx)
  : M MemoryBackend (res (option J)) :=
  guard_ctx ctx (λ m,
    match foldl (dequeue_better (claimed m) t) None (order (jobs m)) with
    | None => (Ok None, m)
    | Some best => (Ok (Some best), mkMemory (jobs m) ({[j_ID best]} ∪ claimed m))
    end).

Definition mem_Empty (m : MemoryBackend) : bool := bool_decide (jobs m = ∅).

Definition mem_Count (ctx : Ctx) : M MemoryBackend (res Z) :=
  guard_ctx ctx (λ m, (Ok (Z.of_nat (size (jobs m))), m)).

Definition mem_Complete (ctx : Ctx) (id : string) : M MemoryBackend (res unit) :=
  guard_ctx ctx (λ m,
    match jobs m !! id with
    | None => (Err (err_not_found id), m)
    | Some _ => (Ok tt, mkMemory (delete id (jobs m)) (claimed m ∖ {[id]}))
    end).

Definition mem_Fail (ctx : Ctx) (id : string) (cause : option goerr) (nextAttemptAt : Time)
  : M MemoryBackend (res unit) :=
  guard_ctx ctx (λ m,
    match jobs m !! id with
    | None => (Err (err_not_found id), m)
    | Some job =>
        (Ok tt, mkMemory (<[id := j_retry (Error <$> cause) nextAttemptAt job]> (jobs m))
                         (claimed m ∖ {[id]}))
    end).

(** Every job is stored under its own ID, and only stored jobs are claimed. *)
Definition mem_wf (m : MemoryBackend) : Prop :=
  (∀ id j, jobs m !! id = Some j → j_ID j = id) ∧ claimed m ⊆ dom (jobs m).

Definition mem_view (m : MemoryBackend) : QView J :=
  map_imap (λ id j, Some (j, bool_decide (id ∈ claimed m))) (jobs m).

Lemma mem_view_lookup (m : MemoryBackend) id :
  mem_view m !! id = (λ j, (j, bool_decide (id ∈ claimed m))) <$> jobs m !! id.
Proof. unfold mem_view. rewrite map_lookup_imap. by destruct (jobs m !! id). Qed.

Lemma mem_view_size (m : MemoryBackend) : size (mem_view m) = size (jobs m).
Proof.
  rewrite <-!size_dom. f_equal. apply set_eq. intros id. rewrite !elem_of_dom, mem_view_lookup.
  by rewrite fmap_is_Some.
Qed.
End Memory.
Arguments MemoryBackend J : clear implicits.

(** ** The memory backend refines the contract *)

Section MemoryRefines.
Context {J : Type} `{QJob J, QText J, ErrorText}.
Implicit Types m : MemoryBackend J.

Definition eligible (cl : gset string) (t : Time) (kv : string * J) : Prop :=
  kv.1 ∉ cl ∧ j_Next kv.2 ≤ t.

Definition is_best (cl : gset string) (t : Time) (l : list (string * J)) (b : option J) : Prop :=
  match b with
  | None => ∀ kv, kv ∈ l → ¬ eligible cl t kv
  | Some b => (∃ id, (id, b) ∈ l ∧ eligible cl t (id, b)) ∧
              ∀ kv, kv ∈ l → eligible cl t kv → j_Next b ≤ j_Next kv.2
  end.

Lemma dequeue_better_best cl t l b kv :
  is_best cl t l b → is_best cl t (l ++ [kv]) (dequeue_better cl t b kv).
Proof.
  destruct kv as [id j]. unfold dequeue_better, After, Before. intros Hb.
  assert (Hsnoc : ∀ x, x ∈ l ++ [(id, j)] ↔ x ∈ l ∨ x = (id, j)).
  { intros x. rewrite elem_of_app, list_elem_of_singleton. done. }
  destruct (decide (id ∈ cl)) as [Hc|Hc]; [|destruct (t <? j_Next j) eqn:Ht].
  1,2: assert (Hne : ¬ eligible cl t (id, j)) by (unfold eligible; simpl; (tauto || lia));
    destruct b as [b|]; simpl in *; [destruct Hb as [(i & Hi & He) Hm]; split|];
    [exists i; split; [by apply Hsnoc; left|done]| |];
    intros kv [?| ->]%Hsnoc; eauto; done.
  assert (Hel : eligible cl t (id, j)) by (split; [done|simpl; lia]).
  destruct b as [b|]; simpl in *.
  - destruct Hb as [(i & Hi & He) Hm]. destruct (j_Next j <? j_Next b) eqn:E; split.
    + exists id. split; [apply Hsnoc; by right|done].
    + intros kv [Hk| ->]%Hsnoc Hek; [|simpl; lia]. specialize (Hm _ Hk Hek). lia.
    + exists i. split; [apply Hsnoc; by left|done].
    + intros kv [Hk| ->]%Hsnoc Hek; [by apply Hm|simpl; lia].
  - split; [exists id; split; [apply Hsnoc; by right|done]|].
    intros kv [Hk| ->]%Hsnoc Hek; [by destruct (Hb kv Hk)|done].
Qed.

Lemma dequeue_fold_best cl t l :
  is_best cl t l (foldl (dequeue_better cl t) None l).
Proof.
  induction l as [|kv l IH] using rev_ind; [by intros kv; set_solver|].
  rewrite foldl_snoc. by apply dequeue_better_best.
Qed.

Lemma mem_wf_new : mem_wf (NewMemoryBackend (J := J)).
Proof. split; simpl; [by intros; simplify_map_eq|set_solver]. Qed.

Lemma mem_view_keyed m id j c : mem_wf m → mem_view m !! id = Some (j, c) → j_ID j = id.
Proof.
  intros [Hk _]. rewrite mem_view_lookup. intros Hl.
  destruct (jobs m !! id) eqn:E; simplify_eq/=. eauto.
Qed.

Ltac mem_op := unfold guard_ctx, ret; intros; repeat case_match; simplify_eq/=; try done.

Lemma mem_Enqueue_wf ctx j m r m' :
  mem_wf m → mem_Enqueue ctx j m = (r, m') → mem_wf m'.
Proof.
  unfold mem_Enqueue. intros Hwf. mem_op. destruct Hwf as [Hk Hc]. split; simpl.
  - intros id j'. rewrite lookup_insert. case_decide; [naive_solver|eauto].
  - set_solver.
Qed.

Lemma mem_Enqueue_ok ctx j m m' :
  mem_wf m → mem_Enqueue ctx j m = (Ok tt, m') → mem_view m !! j_ID j = None →
  j_ID j ≠ "" ∧ mem_view m' = <[j_ID j := (j, false)]> (mem_view m).
Proof.
  unfold mem_Enqueue. intros [Hk Hc] Hop Hnone. revert Hop. mem_op.
  split; [by apply String.eqb_neq|].
  rewrite mem_view_lookup, fmap_None in Hnone.
  apply map_eq. intros id. rewrite mem_view_lookup. simpl.
  destruct (decide (j_ID j = id)) as [<-|Hne].
  - rewrite !lookup_insert_eq. simpl. do 2 f_equal.
    apply bool_decide_eq_false_2. intros Hin. apply Hc, elem_of_dom in Hin as [? ?].
    congruence.
  - by rewrite !lookup_insert_ne, mem_view_lookup.
Qed.

Lemma mem_Enqueue_other ctx j m m' id :
  mem_Enqueue ctx j m = (Ok tt, m') → id ≠ j_ID j → mem_view m' !! id = mem_view m !! id.
Proof.
  unfold mem_Enqueue. intros Hop Hne. revert Hop. mem_op.
  rewrite !mem_view_lookup. simpl. by rewrite lookup_insert_ne.
Qed.

Lemma mem_Enqueue_err ctx j m e m' : mem_Enqueue ctx j m = (Err e, m') → m' = m.
Proof. unfold mem_Enqueue. mem_op. Qed.

Lemma mem_Dequeue_some ord t ctx m j m' :
  (∀ jm, ord jm ≡ₚ map_to_list jm) →
  mem_wf m → mem_Dequeue ord t ctx m = (Ok (Some j), m') →
  mem_wf m' ∧ mem_view m !! j_ID j = Some (j, false) ∧
  mem_view m' = <[j_ID j := (j, true)]> (mem_view m) ∧ j_Next j ≤ t ∧
  ∀ id j', mem_view m !! id = Some (j', false) → j_Next j ≤ j_Next j'.
Proof.
  intros Hord [Hk Hc]. unfold mem_Dequeue, guard_ctx. case_match; [done|].
  pose proof (dequeue_fold_best (claimed m) t (ord (jobs m))) as Hb.
  case_match; intros; simplify_eq/=. destruct Hb as [(id & Hin & Hcl & Hdue) Hmin].
  rewrite Hord in Hin. apply elem_of_map_to_list in Hin. simpl in *.
  pose proof (Hk _ _ Hin). subst id.
  split_and!; [split; simpl; [done|]|..].
  - assert (j_ID j ∈ dom (jobs m)) by (by apply elem_of_dom_2 in Hin). set_solver.
  - rewrite mem_view_lookup, Hin. simpl. do 2 f_equal. by apply bool_decide_eq_false_2.
  - apply map_eq. intros id. rewrite mem_view_lookup. simpl.
    destruct (decide (j_ID j = id)) as [<-|Hne].
    + rewrite lookup_insert_eq, Hin. simpl. do 2 f_equal. apply bool_decide_eq_true_2. set_solver.
    + rewrite lookup_insert_ne, mem_view_lookup by done. destruct (jobs m !! id); simpl; [|done].
      do 2 f_equal. apply bool_decide_ext. set_solver.
  - done.
  - intros id j'. rewrite mem_view_lookup. intros Hl.
    destruct (jobs m !! id) as [j2|] eqn:E; [|done].
    injection Hl as -> Hcl'%bool_decide_eq_false.
    destruct (decide (j_Next j' ≤ t)); [|lia].
    apply (Hmin (id, j')).
    + rewrite Hord. by apply elem_of_map_to_list.
    + by split.
Qed.

Lemma mem_Dequeue_none ord t ctx m m' :
  (∀ jm, ord jm ≡ₚ map_to_list jm) →
  mem_Dequeue ord t ctx m = (Ok None, m') →
  m' = m ∧ ∀ id j', mem_view m !! id = Some (j', false) → t < j_Next j'.
Proof.
  intros Hord. unfold mem_Dequeue, guard_ctx. case_match; [done|].
  pose proof (dequeue_fold_best (claimed m) t (ord (jobs m))) as Hb.
  case_match; intros; simplify_eq/=. split; [done|].
  intros id j'. rewrite mem_view_lookup. intros Hl.
  destruct (jobs m' !! id) as [j2|] eqn:E; [|done].
  injection Hl as -> Hcl'%bool_decide_eq_false.
  destruct (decide (j_Next j' ≤ t)); [|lia]. destruct (Hb (id, j')); [|done].
  rewrite Hord. by apply elem_of_map_to_list.
Qed.

Lemma mem_Dequeue_err ord t ctx m e m' :
  mem_Dequeue ord t ctx m = (Err e, m') → m' = m.
Proof. unfold mem_Dequeue. mem_op. Qed.

Lemma mem_view_delete m id cl :
  cl = claimed m ∖ {[id]} →
  mem_view (mkMemory (delete id (jobs m)) cl) = delete id (mem_view m).
Proof.
  intros ->. apply map_eq. intros i. rewrite mem_view_lookup. simpl.
  destruct (decide (id = i)) as [<-|Hne]; [by rewrite !lookup_delete_eq|].
  rewrite !lookup_delete_ne, mem_view_lookup by done. destruct (jobs m !! i); simpl; [|done].
  do 2 f_equal. apply bool_decide_ext. set_solver.
Qed.

Lemma mem_view_release m id j :
  mem_view (mkMemory (<[id := j]> (jobs m)) (claimed m ∖ {[id]})) = <[id := (j, false)]> (mem_view m).
Proof.
  apply map_eq. intros i. rewrite mem_view_lookup. simpl.
  destruct (decide (id = i)) as [<-|Hne].
  - rewrite !lookup_insert_eq. simpl. do 2 f_equal. apply bool_decide_eq_false_2. set_solver.
  - rewrite !lookup_insert_ne, mem_view_lookup by done. destruct (jobs m !! i); simpl; [|done].
    do 2 f_equal. apply bool_decide_ext. set_solver.
Qed.

Lemma mem_Complete_ok ctx id m m' :
  mem_Complete ctx id m = (Ok tt, m') →
  is_Some (mem_view m !! id) ∧ mem_view m' = delete id (mem_view m).
Proof.
  unfold mem_Complete. mem_op. rewrite mem_view_lookup. split; [use_lookup; eauto|].
  by apply mem_view_delete.
Qed.

Lemma mem_Complete_err ctx id m e m' : mem_Complete ctx id m = (Err e, m') → m' = m.
Proof. unfold mem_Complete. mem_op. Qed.

Lemma mem_Complete_wf ctx id m r m' :
  mem_wf m → mem_Complete ctx id m = (r, m') → mem_wf m'.
Proof.
  unfold mem_Complete. intros Hwf. mem_op. destruct Hwf as [Hk Hc]. split; simpl.
  - intros i j'. rewrite lookup_delete_Some. naive_solver.
  - set_solver.
Qed.

Lemma mem_Fail_ok ctx id c t m m' :
  mem_Fail ctx id c t m = (Ok tt, m') →
  ∃ j b, mem_view m !! id = Some (j, b) ∧
         mem_view m' = <[id := (j_retry (Error <$> c) t j, false)]> (mem_view m).
Proof.
  unfold mem_Fail. mem_op. do 2 eexists. rewrite mem_view_lookup. split.
  - by use_lookup.
  - apply mem_view_release.
Qed.

Lemma mem_Fail_err ctx id c t m e m' : mem_Fail ctx id c t m = (Err e, m') → m' = m.
Proof. unfold mem_Fail. mem_op. Qed.

Lemma mem_Fail_wf ctx id c t m r m' : mem_wf m → mem_Fail ctx id c t m = (r, m') → mem_wf m'.
Proof.
  unfold mem_Fail. intros Hwf. mem_op. destruct Hwf as [Hk Hc]. split; simpl.
  - intros i j'. rewrite lookup_insert. case_decide; [|eauto].
    intros [= <-]. rewrite j_retry_ID. subst. eauto.
  - set_solver.
Qed.
End MemoryRefines.

(** The memory backend inside a larger state. *)
Section MemoryInstance.
Context {W J : Type} `{QJob J, QText J, ErrorText, Env W, !Has W (MemoryBackend J)}.
Context (order : gmap string J → list (string * J)).

Definition MemoryQueue : QueueBackend W J := {|
  q_Enqueue ctx job := lift (mem_Enqueue ctx job);
  q_Dequeue ctx := guard_ctx ctx (let* t := now in lift (mem_Dequeue order t ctx));
  q_Complete ctx id := lift (mem_Complete ctx id);
  q_Fail ctx id cause t := lift (mem_Fail ctx id cause t);
|}.

Definition MemoryCounter : QueueCounter W := λ ctx, lift (mem_Count ctx).

Definition memq_inv (w : W) : Prop := mem_wf (getS (S := MemoryBackend J) w).
Definition memq_view (w : W) : QView J := mem_view (getS (S := MemoryBackend J) w).

Lemma memq_Dequeue_inv ctx (w : W) r w' :
  Preserves (getS (S := MemoryBackend J)) (now (W := W)) →
  q_Dequeue (QueueBackend := MemoryQueue) ctx w = (r, w') →
  ∃ s', mem_Dequeue order (fst (now w)) ctx (getS w) = (r, s') ∧
        getS (S := MemoryBackend J) w' = s'.
Proof.
  intros Hp. simpl. unfold mem_Dequeue, guard_ctx. destruct (ctx_Err ctx) eqn:Hc.
  { intros [= <- <-]. eauto. }
  unfold bind. destruct (now w) as [t w1] eqn:En.
  pose proof (preserves_eq _ _ _ _ _ En) as Hg. simpl. intros Hl.
  apply lift_inv in Hl as (s' & Hm & Hs). rewrite Hg in Hm. simpl in Hm.
  eauto.
Qed.
End MemoryInstance.


Lemma memq_count {W J : Type} `{QJob J, !Has W (MemoryBackend J)} :
  let _ := MemoryCounter (W := W) (J := J) in CounterSpec W (memq_inv (J := J)) memq_view.
Proof.
  intros QC. split; unfold memq_inv, memq_view.
  - intros ctx w r w' (s & Hm & ->)%lift_inv. unfold mem_Count, guard_ctx in Hm. by destruct (ctx_Err ctx); injection Hm as _ <-.
  - intros ctx w n w' Hi (s & Hm & _)%lift_inv. unfold mem_Count, guard_ctx in Hm. destruct (ctx_Err ctx); [done|].
    injection Hm as <- _. by rewrite mem_view_size.
Qed.

Lemma memq_spec {W J : Type} `{QJob J, QText J, ErrorText, Env W, !Has W (MemoryBackend J)}
    (order : gmap string J → list (string * J)) :
  (∀ jm, order jm ≡ₚ map_to_list jm) →
  Preserves (getS (S := MemoryBackend J)) (now (W := W)) →
  let _ := MemoryQueue (W := W) order in
  QueueSpec W J memq_inv memq_view.
Proof.
  intros Hord Hnow QB. subst QB. split; unfold memq_inv, memq_view.
  - intros *. apply mem_view_keyed.
  - intros * Hi (s & Hm & ->)%lift_inv. by eapply mem_Enqueue_wf.
  - intros * Hi (s & Hm & ->)%lift_inv. by eapply mem_Enqueue_ok.
  - intros * Hi (s & Hm & ->)%lift_inv ?. by eapply mem_Enqueue_other.
  - intros * Hi (s & Hm & ->)%lift_inv. by apply mem_Enqueue_err in Hm as ->.
  - intros * Hi (s & Hm & ->)%memq_Dequeue_inv; [|done].
    destruct r as [[j|]|e]; [by apply mem_Dequeue_some in Hm as []| |].
    + by apply mem_Dequeue_none in Hm as [-> ?].
    + by apply mem_Dequeue_err in Hm as ->.
  - intros * Hi (s & Hm & ->)%memq_Dequeue_inv; [|done].
    apply mem_Dequeue_some in Hm; naive_solver.
  - intros * Hi (s & Hm & ->)%memq_Dequeue_inv; [|done].
    apply mem_Dequeue_none in Hm as [-> ?]; naive_solver.
  - intros * Hi (s & Hm & ->)%memq_Dequeue_inv; [|done]. by apply mem_Dequeue_err in Hm as ->.
  - intros * Hi (s & Hm & ->)%lift_inv. by eapply mem_Complete_wf.
  - intros * Hi (s & Hm & ->)%lift_inv. by eapply mem_Complete_ok.
  - intros * Hi (s & Hm & ->)%lift_inv. by apply mem_Complete_err in Hm as ->.
  - intros * Hi (s & Hm & ->)%lift_inv. by eapply mem_Fail_wf.
  - intros * Hi (s & Hm & ->)%lift_inv. by eapply mem_Fail_ok.
  - intros * Hi (s & Hm & ->)%lift_inv. by apply mem_Fail_err in Hm as ->.
Qed.

(** ** The Postgres backends (queue/postgres.go, webhook/postgres_queue.go) *)

(** A job as a table row: the columns besides sql.BaseEntity, the claim among
    them. *)
Class QRow (J D : Type) `{QJob J} := {
  r_make : J → D;
  r_job : Row D → J;
  r_Claimed : D → bool;
  r_Next : D → Time;
  r_claim : bool → D → D;
  r_fail : option string → Time → D → D;
  r_job_ID : ∀ r, j_ID (r_job r) = row_Id r;
  r_job_Next : ∀ r, j_Next (r_job r) = r_Next (row_data r);
  r_make_job : ∀ j c, r_job (mkRow (j_ID j) c (r_make j)) = j;
  r_make_Claimed : ∀ j, r_Claimed (r_make j) = false;
  r_claim_job : ∀ i c b d, r_job (mkRow i c (r_claim b d)) = r_job (mkRow i c d);
  r_claim_Claimed : ∀ b d, r_Claimed (r_claim b d) = b;
  r_fail_job : ∀ i c e t d, r_job (mkRow i c (r_fail e t d)) = j_retry e t (r_job (mkRow i c d));
  r_fail_Claimed : ∀ e t d, r_Claimed (r_fail e t d) = false;
}.

(** [jobRow], less the embedded sql.BaseEntity. *)
Record jobRow := mkJobRow {
  jr_Vhost : string;
  jr_From : string;
  jr_To : string;
  jr_BodyRef : string;
  jr_Attempts : Z;
  jr_NextAttemptAt : Time;
  jr_LastError : string;
  jr_Claimed : bool;
  jr_CorrelationID : string;
}.

Definition jobRow_of (job : Job) : jobRow :=
  mkJobRow (Vhost job) (From job) (To job) (BodyRef job) (Attempts job) (NextAttemptAt job)
    (LastError job) false (CorrelationID job).

Definition job_of_row (r : Row jobRow) : Job :=
  let d := row_data r in
  mkJob (row_Id r) (jr_Vhost d) (jr_From d) (jr_To d) (jr_BodyRef d) (jr_Attempts d)
    (jr_NextAttemptAt d) (jr_LastError d) (jr_CorrelationID d).

Definition jobRow_claim (b : bool) (d : jobRow) : jobRow :=
  mkJobRow (jr_Vhost d) (jr_From d) (jr_To d) (jr_BodyRef d) (jr_Attempts d)
    (jr_NextAttemptAt d) (jr_LastError d) b (jr_CorrelationID d).

(** The [updates] map of Fail. *)
Definition jobRow_fail (cause : option string) (nextAttemptAt : Time) (d : jobRow) : jobRow :=
  mkJobRow (jr_Vhost d) (jr_From d) (jr_To d) (jr_BodyRef d) (jr_Attempts d + 1)
    nextAttemptAt (default (jr_LastError d) cause) false (jr_CorrelationID d).

#[export] Program Instance Job_QRow : QRow Job jobRow := {
  r_make := jobRow_of; r_job := job_of_row; r_Claimed := jr_Claimed;
  r_Next := jr_NextAttemptAt; r_claim := jobRow_claim; r_fail := jobRow_fail;
}.
Next Obligation. done. Qed.
Next Obligation. done. Qed.
Next Obligation. by intros []. Qed.
Next Obligation. done. Qed.
Next Obligation. done. Qed.
Next Obligation. done. Qed.
Next Obligation. done. Qed.
Next Obligation. done. Qed.

Section Postgres.
Context {W J D : Type} `{QRow J D, QText J, ErrorText, Env W, Db W, Table W D}.

(** [WHERE claimed = false AND next_attempt_at <= t ORDER BY
    next_attempt_at ASC LIMIT 1]; rows deleted by gorm are not rows. *)
Definition due_query (t : Time) : Query D :=
  mkQuery (λ r, negb (r_Claimed (row_data r)) && (r_Next (row_data r) <=? t))
    (λ a b, r_Next (row_data a) <=? r_Next (row_data b)) (Some 1%nat).

Definition pg_Enqueue (ctx : Ctx) (job : J) : M W (res unit) :=
  if String.eqb (j_ID job) "" then ret (Err (ErrNew (txt_ID_required J)))
  else let? _ := wrap (ErrorfW (txt_enqueue J) [j_ID job])
                   (tbl_Create ctx (mkRow (j_ID job) None (r_make job))) in
       ret (Ok tt).

(** The transaction body of Dequeue: the row it claimed, if any. *)
Definition pg_claim (ctx : Ctx) : M W (res (option (Row D))) :=
  let* t := now in
  let? rows := tbl_Find ctx (due_query t) in
  match rows with
  | [] => ret (Ok None)
  | row :: _ =>
      let? _ := tbl_Updates ctx (by_id (row_Id row)) (r_claim true) in
      ret (Ok (Some (mkRow (row_Id row) (row_CreatedAt row) (r_claim true (row_data row)))))
  end.

Definition pg_Dequeue (ctx : Ctx) : M W (res (option J)) :=
  let? found := wrap (ErrorfW (txt_dequeue J) []) (tx (pg_claim ctx)) in
  ret (Ok (r_job <$> found)).

Definition pg_Count (ctx : Ctx) : M W (res Z) :=
  let? rows := wrap (ErrorfW (txt_count J) [])
                 (tbl_Find ctx (mkQuery (λ _, true) (λ _ _, true) None)) in
  ret (Ok (Z.of_nat (length rows))).

Definition pg_Complete (ctx : Ctx) (id : string) : M W (res unit) :=
  let? n := wrap (ErrorfW (txt_complete J) [id]) (tbl_Delete ctx (by_id id)) in
  if n =? 0 then ret (Err (Errorf (txt_not_found J) [id])) else ret (Ok tt).

Definition pg_Fail (ctx : Ctx) (id : string) (cause : option goerr) (nextAttemptAt : Time)
  : M W (res unit) :=
  let? n := wrap (ErrorfW (txt_fail J) [id])
              (tbl_Updates ctx (by_id id) (r_fail (Error <$> cause) nextAttemptAt)) in
  if n =? 0 then ret (Err (Errorf (txt_not_found J) [id])) else ret (Ok tt).

Definition PostgresQueue : QueueBackend W J := {|
  q_Enqueue := pg_Enqueue; q_Dequeue := pg_Dequeue;
  q_Complete := pg_Complete; q_Fail := pg_Fail;
|}.

Definition PostgresCounter : QueueCounter W := pg_Count.

(** The jobs a table holds. *)
Definition rows_view (l : list (Row D)) : QView J :=
  kview row_Id (λ r, (r_job r, r_Claimed (row_data r))) l.
End Postgres.

(** ** The Postgres backend refines the contract *)

Section RowsView.
Context {J D : Type} `{QRow J D}.
Implicit Types l : list (Row D).

Lemma rows_view_lookup l id x :
  ids_unique l →
  rows_view l !! id = Some x ↔
  ∃ r, r ∈ l ∧ row_Id r = id ∧ x = (r_job r, r_Claimed (row_data r)).
Proof. apply kview_lookup. Qed.

Lemma rows_view_row l r :
  ids_unique l → r ∈ l → rows_view l !! row_Id r = Some (r_job r, r_Claimed (row_data r)).
Proof. intros. by apply (kview_row row_Id (λ r, (r_job r, r_Claimed (row_data r)))). Qed.

Lemma rows_view_perm l l' : l ≡ₚ l' → ids_unique l → rows_view l = rows_view l'.
Proof. apply kview_perm. Qed.

(** Updating the one row with a primary key. *)
Lemma rows_view_update l (f : D → D) r :
  ids_unique l → r ∈ l →
  let r' := mkRow (row_Id r) (row_CreatedAt r) (f (row_data r)) in
  rows_view (update_row (by_id (row_Id r)) f <$> l)
  = <[row_Id r := (r_job r', r_Claimed (row_data r'))]> (rows_view l).
Proof.
  intros Hu Hr r'. unfold rows_view. rewrite (kview_update _ _ _ _ _ r); [|done| |done|..].
  - unfold update_row, by_id. by rewrite String.eqb_refl.
  - apply update_row_Id.
  - apply String.eqb_refl.
  - intros r2 Hr2 He%String.eqb_eq. by eapply ids_unique_eq.
Qed.

Lemma rows_view_delete l id :
  ids_unique l →
  rows_view (filter (λ r, by_id id r = false) l) = delete id (rows_view l).
Proof. intros Hu. apply kview_delete; [done|]. intros r _. apply String.eqb_eq. Qed.

Lemma by_id_none l id :
  length (filter (λ r, by_id id r = true) l) = 0%nat → ∀ r, r ∈ l → row_Id r ≠ id.
Proof.
  intros Hl r Hr <-. apply length_zero_iff_nil in Hl.
  enough (r ∈ filter (λ r', by_id (row_Id r) r' = true) l) by (rewrite Hl in *; set_solver).
  apply list_elem_of_filter. unfold by_id. by rewrite String.eqb_refl.
Qed.

Lemma by_id_some l id :
  length (filter (λ r, by_id id r = true) l) ≠ 0%nat → ∃ r, r ∈ l ∧ row_Id r = id.
Proof.
  intros Hl. destruct (filter (λ r, by_id id r = true) l) as [|r l'] eqn:E; [done|].
  assert (Hr : r ∈ filter (λ r, by_id id r = true) l) by (rewrite E; set_solver).
  apply list_elem_of_filter in Hr as [Hr%String.eqb_eq Hin]. eauto.
Qed.
End RowsView.

Section PostgresRefines.
Context {W J D : Type} `{QRow J D, QText J, ErrorText, Env W, TableSpec W D}.
Context {now_frame : Preserves tbl_rows (now (W := W))}.

Definition pgq_inv (w : W) : Prop := ids_unique (tbl_rows w).
Definition pgq_view (w : W) : QView J := rows_view (tbl_rows w).

Lemma pg_Enqueue_spec ctx (j : J) w r w' :
  pgq_inv w → pg_Enqueue ctx j w = (r, w') →
  match r with
  | Ok tt => j_ID j ≠ "" ∧ pgq_inv w' ∧ pgq_view w' = <[j_ID j := (j, false)]> (pgq_view w)
  | Err _ => tbl_rows w' = tbl_rows w
  end.
Proof.
  unfold pg_Enqueue. intros Hu.
  destruct (String.eqb_spec (j_ID j) ""); [by intros [= <- <-]|].
  unfold mtry, wrap. destruct (tbl_Create _ _ _) as [[row|e] w1] eqn:E; simpl; intros [= <- <-].
  2:{ by eapply Create_err. }
  apply Create_ok in E as (Hnew & Hd & _ & Hid & Hp); [|done..]. simpl in *.
  specialize (Hid ltac:(done)).
  assert (Hu' : ids_unique (row :: tbl_rows w)).
  { unfold ids_unique. rewrite fmap_cons. by apply NoDup_cons. }
  split_and!; [done|unfold pgq_inv; by eapply ids_unique_perm|].
  unfold pgq_view. rewrite <-(rows_view_perm _ _ (symmetry Hp)) by done.
  unfold rows_view at 1. unfold kview at 1. simpl. fold (kview row_Id (λ r, (r_job r, r_Claimed (row_data r))) (tbl_rows w)).
  destruct row as [i c d]. simpl in *. subst. by rewrite r_make_job, r_make_Claimed.
Qed.

Lemma due_query_total t : total_order (q_order (due_query (D := D) t)).
Proof. split; simpl; intros; lia. Qed.

Lemma tbl_Updates_id_spec ctx id f (w : W) n w' :
  pgq_inv w → tbl_Updates ctx (by_id id) f w = (Ok n, w') →
  pgq_inv w' ∧
  (n = 0 → tbl_rows w' ≡ₚ tbl_rows w) ∧
  (n ≠ 0 → ∃ r, r ∈ tbl_rows w ∧ row_Id r = id) ∧
  (∀ r, r ∈ tbl_rows w → row_Id r = id →
     let r' := mkRow id (row_CreatedAt r) (f (row_data r)) in
     pgq_view w' = <[id := (r_job r', r_Claimed (row_data r'))]> (pgq_view w)).
Proof.
  unfold pgq_inv, pgq_view. intros Hu Hop.
  apply Updates_ok in Hop as [-> Hp].
  assert (Hu' : ids_unique (update_row (by_id id) f <$> tbl_rows w)) by
    (by apply ids_unique_update).
  split_and!.
  - eapply ids_unique_perm; [|exact Hu']. done.
  - intros Hz. pose proof (by_id_none (tbl_rows w) id ltac:(lia)) as Hno.
    rewrite Hp. erewrite list_fmap_ext; [by rewrite list_fmap_id|].
    intros i r Hr. unfold update_row, by_id.
    apply list_elem_of_lookup_2, Hno, String.eqb_neq in Hr. by rewrite Hr.
  - intros Hz. apply by_id_some. lia.
  - intros r Hr <-. rewrite (rows_view_perm _ _ Hp) by (by eapply ids_unique_perm).
    by apply rows_view_update.
Qed.

Lemma pg_Fail_spec ctx id c t (w : W) r w' :
  pgq_inv w → pg_Fail ctx id c t w = (r, w') →
  pgq_inv w' ∧
  match r with
  | Ok tt => ∃ (j : J) b, pgq_view w !! id = Some (j, b) ∧
      pgq_view w' = <[id := (j_retry (Error <$> c) t j, false)]> (pgq_view w)
  | Err _ => pgq_view w' = pgq_view w
  end.
Proof.
  unfold pg_Fail, mtry, wrap. intros Hu.
  destruct (tbl_Updates _ _ _ _) as [[n|e] w1] eqn:E; simpl.
  2:{ intros [= <- <-]. apply Updates_err in E. unfold pgq_inv, pgq_view. by rewrite E. }
  apply tbl_Updates_id_spec in E as (Hu' & Hz & Hnz & Hv); [|done].
  destruct (Z.eqb_spec n 0) as [->|Hn]; intros [= <- <-]; (split; [done|]).
  - unfold pgq_view. by apply rows_view_perm; [apply Hz|].
  - destruct (Hnz Hn) as (r & Hr & <-). rewrite (Hv r) by done. do 2 eexists. split.
    + by apply rows_view_row.
    + simpl. rewrite r_fail_job, r_fail_Claimed. by destruct r.
Qed.

Lemma pg_Complete_spec ctx id (w : W) r w' :
  pgq_inv w → pg_Complete (J := J) ctx id w = (r, w') →
  pgq_inv w' ∧
  match r with
  | Ok tt => is_Some (pgq_view w !! id) ∧ pgq_view w' = delete id (pgq_view w)
  | Err _ => pgq_view w' = pgq_view w
  end.
Proof.
  unfold pg_Complete, mtry, wrap. intros Hu.
  destruct (tbl_Delete _ _ _) as [[n|e] w1] eqn:E; simpl.
  2:{ intros [= <- <-]. apply Delete_err in E. unfold pgq_inv, pgq_view. by rewrite E. }
  apply Delete_ok in E as [-> Hp].
  assert (Hu' : pgq_inv w1).
  { eapply ids_unique_perm; [symmetry; exact Hp|]. by apply ids_unique_filter. }
  assert (Hv : pgq_view w1 = delete id (pgq_view w)).
  { unfold pgq_view. rewrite (rows_view_perm _ _ Hp) by done. by apply rows_view_delete. }
  destruct (Z.eqb_spec (Z.of_nat (length (filter (λ r, by_id id r = true) (tbl_rows w)))) 0)
    as [Hz|Hn]; intros [= <- <-]; (split; [done|]).
  - rewrite Hv. apply delete_id. unfold pgq_view. apply eq_None_not_Some.
    intros [x (r & Hr & Hid & _)%rows_view_lookup]; [|done].
    by eapply (by_id_none (tbl_rows w) id); [lia|done|].
  - split; [|done]. destruct (by_id_some (tbl_rows w) id ltac:(lia)) as (r & Hr & <-).
    eexists. by apply rows_view_row.
Qed.

Lemma pg_Dequeue_spec ctx (w : W) r w' :
  pgq_inv w → pg_Dequeue ctx w = (r, w') →
  pgq_inv w' ∧
  match r with
  | Ok (Some j) =>
      pgq_view w !! j_ID j = Some (j, false) ∧
      pgq_view w' = <[j_ID j := (j, true)]> (pgq_view w) ∧
      j_Next j ≤ fst (now w) ∧
      ∀ id j', pgq_view w !! id = Some (j', false) → j_Next j ≤ j_Next j'
  | Ok None => pgq_view w' = pgq_view w ∧
      ∀ id j', pgq_view w !! id = Some (j', false) → fst (now w) < j_Next j'
  | Err _ => pgq_view w' = pgq_view w
  end.
Proof.
  unfold pg_Dequeue, mtry, wrap. intros Hu.
  destruct (tx (pg_claim ctx) w) as [[o|e] w1] eqn:E; simpl.
  2:{ intros [= <- <-]. apply Tx_err in E. unfold pgq_inv, pgq_view. by rewrite E. }
  intros [= <- <-]. apply Tx_ok in E as (w2 & E & Heq).
  replace (pgq_view w1) with (pgq_view w2) by (unfold pgq_view; by rewrite Heq).
  replace (pgq_inv w1) with (pgq_inv w2) by (unfold pgq_inv; by rewrite Heq).
  clear w1 Heq.
  revert E. unfold pg_claim, bind, mtry.
  destruct (now w) as [t w3] eqn:En. simpl.
  pose proof (preserves_eq _ _ _ _ _ En) as Hn3.
  destruct (tbl_Find ctx (due_query t) w3) as [[rows|e] w4] eqn:Ef; [|done].
  pose proof (Find_frame _ _ _ _ _ Ef) as Hn4.
  apply Find_ok in Ef as (l & Hl & Hs & ->); [|apply due_query_total].
  rewrite Hn3 in Hl.
  assert (Hmem : ∀ r, r ∈ l ↔ r ∈ tbl_rows w ∧ r_Claimed (row_data r) = false ∧
                            r_Next (row_data r) ≤ t).
  { intros r. rewrite Hl, list_elem_of_filter. simpl.
    rewrite andb_true_iff, negb_true_iff, Z.leb_le. naive_solver. }
  destruct l as [|row l]; simpl.
  - intros [= <- <-]. simpl. unfold pgq_inv, pgq_view. rewrite Hn4, Hn3.
    split_and!; [done..|]. intros id j' (r & Hr & _ & Hx)%rows_view_lookup; [|done].
    injection Hx as -> Hc. rewrite r_job_Next.
    destruct (decide (r_Next (row_data r) ≤ t)); [|lia].
    enough (r ∈ []) by set_solver. by apply Hmem.
  - destruct (tbl_Updates _ _ _ _) as [[n|e] w5] eqn:Eu; [|done].
    intros [= <- <-]. simpl.
    assert (Hu4 : pgq_inv w4) by (unfold pgq_inv; by rewrite Hn4, Hn3).
    apply tbl_Updates_id_spec in Eu as (Hu5 & _ & _ & Hv); [|done].
    destruct (proj1 (Hmem row) ltac:(set_solver)) as (Hrow & Hc & Hdue).
    split; [done|].
    set (j := r_job _).
    assert (Hj : j = r_job row).
    { unfold j. rewrite r_claim_job. by destruct row. }
    assert (HjID : j_ID j = row_Id row) by (rewrite Hj; apply r_job_ID).
    assert (Hrow4 : row ∈ tbl_rows w4) by (by rewrite Hn4, Hn3).
    rewrite HjID. split_and!.
    + unfold pgq_view. rewrite rows_view_row by done. by rewrite Hj, Hc.
    + rewrite (Hv row) by done. simpl.
      rewrite r_claim_Claimed. unfold pgq_view. by rewrite Hn4, Hn3.
    + rewrite Hj, r_job_Next. done.
    + intros id j' (r & Hr & _ & Hx)%rows_view_lookup; [|done].
      injection Hx as -> Hc'. rewrite Hj, !r_job_Next.
      destruct (decide (r_Next (row_data r) ≤ t)); [|lia].
      assert (Hin : r ∈ row :: l) by (by apply Hmem).
      apply elem_of_cons in Hin as [->|Hin]; [done|].
      apply StronglySorted_inv in Hs as [_ Hs]. rewrite Forall_forall in Hs.
      apply Hs in Hin. simpl in Hin. lia.
Qed.
End PostgresRefines.

Lemma pgq_count {W J D : Type} `{QRow J D, QText J, TableSpec W D} :
  let _ := PostgresCounter (W := W) (J := J) in CounterSpec W pgq_inv (pgq_view (J := J)).
Proof.
  intros QC. split; intros ctx w r w'; unfold q_Count, QC, PostgresCounter, pg_Count, mtry, wrap, ret, pgq_inv, pgq_view;
    destruct (tbl_Find _ _ w) as [[rows|e] w1] eqn:E; simpl.
  1-2: intros [= _ <-]; by rewrite (Find_frame _ _ _ _ _ E).
  - intros Hi [= <- _]. apply Find_ok in E as (l' & Hp & _ & ->); [|by split; intros; auto]. simpl in *. f_equal.
    unfold rows_view. rewrite kview_size by done. by rewrite Hp, filter_all by by apply Forall_true.
  - done.
Qed.


Lemma pgq_spec {W J D : Type} `{QRow J D, QText J, ErrorText, Env W, TableSpec W D} :
  Preserves tbl_rows (now (W := W)) →
  let _ := PostgresQueue (W := W) (J := J) in
  QueueSpec W J pgq_inv pgq_view.
Proof.
  intros Hnow QB. subst QB. split; simpl.
  - intros w id j c Hi (r & Hr & <- & [= -> _])%rows_view_lookup; [|done]. apply r_job_ID.
  - intros ctx j w r w' Hi E%pg_Enqueue_spec; [|done]. destruct r as [[]|e].
    + by destruct E as (_ & ? & _).
    + unfold pgq_inv. by rewrite E.
  - intros * Hi E%pg_Enqueue_spec; [|done]. naive_solver.
  - intros * Hi E%pg_Enqueue_spec Hne; [|done]. destruct E as (_ & _ & ->).
    by rewrite lookup_insert_ne.
  - intros * Hi E%pg_Enqueue_spec; [|done]. unfold pgq_view. by rewrite E.
  - intros * Hi E%pg_Dequeue_spec; naive_solver.
  - intros * Hi E%pg_Dequeue_spec; naive_solver.
  - intros * Hi E%pg_Dequeue_spec; naive_solver.
  - intros * Hi E%pg_Dequeue_spec; naive_solver.
  - intros * Hi E%pg_Complete_spec; naive_solver.
  - intros * Hi E%pg_Complete_spec; naive_solver.
  - intros * Hi E%pg_Complete_spec; naive_solver.
  - intros * Hi E%pg_Fail_spec; naive_solver.
  - intros * Hi E%pg_Fail_spec; naive_solver.
  - intros * Hi E%pg_Fail_spec; naive_solver.
Qed.

(** ** A sequence of atomic operations

    Both backends run each operation atomically (a mutex, a transaction), so
    every interleaving of the workers is one sequence of operations. *)
Section Runs.
Context {W J : Type} `{QueueBackend W J}.

Inductive QOp :=
| OpEnqueue (ctx : Ctx) (job : J)
| OpDequeue (ctx : Ctx)
| OpComplete (ctx : Ctx) (id : string)
| OpFail (ctx : Ctx) (id : string) (cause : option goerr) (t : Time).

(** The job one operation hands out, if it is a Dequeue that finds one. *)
Definition run_op (o : QOp) : M W (option J) :=
  match o with
  | OpEnqueue ctx job => q_Enqueue ctx job;; ret None
  | OpDequeue ctx =>
      let* r := q_Dequeue ctx in
      ret (match r with Ok o => o | Err _ => None end)
  | OpComplete ctx id => q_Complete (J := J) ctx id;; ret None
  | OpFail ctx id cause t => q_Fail (J := J) ctx id cause t;; ret None
  end.

Fixpoint run_ops (ops : list QOp) : M W (list J) :=
  match ops with
  | [] => ret []
  | o :: ops =>
      let* r := run_op o in
      let* rs := run_ops ops in
      ret (match r with Some j => j :: rs | None => rs end)
  end.

(** Operations that can release the claim on job [id]. *)
Definition releases `{QJob J} (id : string) (o : QOp) : bool :=
  match o with
  | OpEnqueue _ job => String.eqb (j_ID job) id
  | OpDequeue _ => false
  | OpComplete _ id' | OpFail _ id' _ _ => String.eqb id' id
  end.
End Runs.
Arguments QOp J : clear implicits.

Section RunFacts.
Context {W J : Type} `{QueueSpec W J}.

Lemma run_op_claimed o id j (w : W) r w' :
  q_inv w → q_view w !! id = Some (j, true) → releases id o = false →
  run_op o w = (r, w') →
  q_inv w' ∧ (∃ j', q_view w' !! id = Some (j', true)) ∧ (∀ j', r = Some j' → j_ID j' ≠ id).
Proof.
  intros Hi Hc Hr. destruct o as [ctx job|ctx|ctx i|ctx i c t]; simpl in *; unfold bind, ret.
  - destruct (q_Enqueue ctx job w) as [[[]|e] w1] eqn:E; intros [= <- <-].
    all: pose proof (Enqueue_inv _ _ _ _ _ Hi E); split_and!; [done| |done]; exists j.
    + apply String.eqb_neq in Hr. by erewrite Enqueue_other.
    + by apply Enqueue_err in E as ->.
  - destruct (q_Dequeue ctx w) as [[[j'|]|e] w1] eqn:E; intros [= <- <-].
    all: pose proof (Dequeue_inv _ _ _ _ Hi E); split; [done|].
    + apply Dequeue_some in E as (Hu & -> & _); [|done].
      assert (id ≠ j_ID j') by congruence. rewrite lookup_insert_ne by done.
      split; [eauto|]. intros ? [= <-]. congruence.
    + apply Dequeue_none in E as [-> _]; eauto.
    + apply Dequeue_err in E as ->; eauto.
  - apply String.eqb_neq in Hr.
    destruct (q_Complete ctx i w) as [[[]|e] w1] eqn:E; intros [= <- <-].
    all: pose proof (Complete_inv _ _ _ _ _ Hi E); split_and!; [done| |done]; exists j.
    + apply Complete_ok in E as [_ ->]; [|done]. by rewrite lookup_delete_ne.
    + by apply Complete_err in E as ->.
  - apply String.eqb_neq in Hr.
    destruct (q_Fail ctx i c t w) as [[[]|e] w1] eqn:E; intros [= <- <-].
    all: pose proof (Fail_inv _ _ _ _ _ _ _ Hi E); split_and!; [done| |done]; exists j.
    + apply Fail_ok in E as (? & ? & _ & ->); [|done]. by rewrite lookup_insert_ne.
    + by apply Fail_err in E as ->.
Qed.

Lemma run_ops_claimed ops id j (w : W) rs w' :
  q_inv w → q_view w !! id = Some (j, true) →
  Forall (λ o, releases id o = false) ops →
  run_ops ops w = (rs, w') → ∀ j', j' ∈ rs → j_ID j' ≠ id.
Proof.
  revert j w rs w'. induction ops as [|o ops IH]; simpl; unfold bind, ret; intros j w rs w' Hi Hc.
  { intros _ [= <- <-]. set_solver. }
  intros [Ho Hf]%Forall_cons. destruct (run_op o w) as [r w1] eqn:E1.
  destruct (run_ops ops w1) as [rs1 w2] eqn:E2. intros [= <- <-].
  pose proof (run_op_claimed _ _ _ _ _ _ Hi Hc Ho E1) as (Hi1 & (j1 & Hc1) & Hr).
  pose proof (IH _ _ _ _ Hi1 Hc1 Hf E2) as Hrs.
  destruct r as [j0|]; [|done]. intros j' [->|Hj]%elem_of_cons; [by apply Hr|by apply Hrs].
Qed.
End RunFacts.

(** The upper bound FullJitter draws below, for sane durations. *)
Lemma jitter_upper a base maxDelay :
  0 ≤ a → 1 ≤ base < 2 ^ 53 → 1 ≤ maxDelay < 2 ^ 53 →
  (if fgt (fmul (of_int base) (pow2 a)) (of_int maxDelay)
      || bool_decide (fmul (of_int base) (pow2 a) = FInf false)
   then of_int maxDelay else fmul (of_int base) (pow2 a))
  = FFin (Z.min maxDelay (base * 2 ^ a) * unit_one).
Proof.
  intros Ha Hb Hm. assert (2 ^ 53 ≤ 2 ^ 1024) by (by vm_compute).
  rewrite (of_int_exact maxDelay) by lia.
  destruct (fmul_int_pow2 base a) as [[-> Hx]|[-> Hx]]; [lia|done| |].
  - rewrite bool_decide_eq_false_2 by done. rewrite orb_false_r. unfold fgt. rewrite flt_int.
    destruct (Z.ltb_spec maxDelay (base * 2 ^ a)); do 2 f_equal; lia.
  - rewrite bool_decide_eq_true_2, orb_true_r by done. do 2 f_equal. lia.
Qed.

Lemma FullJitter_spec {W : Type} `{RandSpec W} attempt base maxDelay (w : W) :
  1 ≤ base < 2 ^ 53 → 1 ≤ maxDelay < 2 ^ 53 →
  ∃ d w', FullJitter attempt base maxDelay w = (Ok d, w') ∧
          0 ≤ d < Z.min maxDelay (base * 2 ^ Z.max 0 attempt).
Proof.
  intros Hb Hm. unfold FullJitter.
  replace (if attempt <? 0 then 0 else attempt) with (Z.max 0 attempt)
    by (destruct (attempt <? 0) eqn:?; lia).
  set (a := Z.max 0 attempt). assert (Ha : 0 ≤ a) by lia. clearbody a.
  cbv zeta. rewrite (jitter_upper a base maxDelay Ha Hb Hm).
  pose proof (pow2_pos a Ha). set (u := Z.min _ _). assert (1 ≤ u < 2 ^ 53) by nia.
  rewrite fle_int_F0, trunc_int by lia. assert ((u <=? 0) = false) as -> by lia.
  assert ((0 <? u) = true) as -> by lia.
  unfold bind. pose proof (Int63n_range u w ltac:(lia)).
  destruct (Int63n u w) as [d w']. simpl in *. do 2 eexists. split; [done|lia].
Qed.

(** A world for the witnesses: the queue is the whole state and the clock
    stands at 10. *)
Module Example.
#[export] Instance no_conflicts : ListTable.Conflicts jobRow := λ _ _, false.
#[export] Instance env : Env (MemoryBackend Job) := { env_metrics := unread; now := ret 10; uuid_NewString := ret "u" }.
#[export] Instance text : ErrorText := λ _, "error".
#[export] Instance env_rows : Env (list (Row jobRow)) := { env_metrics := unread; now := ret 10; uuid_NewString := ret "u" }.
#[export] Instance rand : Rand unit := λ n, ret (n - 1).
#[export] Instance rand_spec : RandSpec unit.
Proof. intros n w Hn. simpl. lia. Qed.

Definition job (id : string) (t : Time) : Job := mkJob id "v" "a@v" "b@x" "ref" 0 t "" "c".
Definition order (m : gmap string Job) : list (string * Job) := map_to_list m.
End Example.
Import Example.

(** ** Properties *)

(** C5: the in-memory queue (queue.MemoryBackend, and webhook's
    MemoryEventQueue at its own job type) implements the contract of
    [QueueSpec], whatever order Go iterates the map in: Dequeue claims an
    earliest-due unclaimed due job and answers "none" only when there is none,
    Complete removes a job, Fail reschedules it and releases its claim, Count is
    the number of jobs not completed, a failing operation changes nothing. *)
Theorem memory_refines_contract {W J : Type}
    `{QJob J, QText J, ErrorText, Env W, !Has W (MemoryBackend J)}
    (order : gmap string J → list (string * J)) :
  (∀ jm, order jm ≡ₚ map_to_list jm) →
  Preserves (getS (S := MemoryBackend J)) (now (W := W)) →
  let _ := MemoryQueue (W := W) order in let _ := MemoryCounter (W := W) (J := J) in
  QueueSpec W J memq_inv memq_view ∧ CounterSpec W (memq_inv (J := J)) memq_view.
Proof. intros Hord Hnow. split; [by apply memq_spec|apply memq_count]. Qed.

Lemma memory_refines_contract_witness :
  let QB := MemoryQueue (W := MemoryBackend Job) (J := Job) Example.order in
  QueueSpec (MemoryBackend Job) Job (memq_inv (J := Job)) (memq_view (J := Job)) ∧
  fst (mem_Count Background (snd (run_ops [OpEnqueue Background (Example.job "a" 5); OpEnqueue Background (Example.job "b" 3);
         OpDequeue Background] NewMemoryBackend))) = Ok 2 ∧
  fst (run_ops [OpEnqueue Background (Example.job "a" 5); OpEnqueue Background (Example.job "b" 3);
                OpDequeue Background; OpDequeue Background; OpDequeue Background]
         NewMemoryBackend) = [Example.job "b" 3; Example.job "a" 5].
Proof.
  intros QB. split; [|by split; vm_compute].
  apply (memory_refines_contract (W := MemoryBackend Job) Example.order); [done|by intros w].
Defined.

(** C6: the Postgres queue (queue.PostgresBackend, and webhook's
    PostgresEventQueue at its own job type) implements the same contract, for
    any table that behaves as [TableSpec] says: a failed statement or
    transaction changes nothing, whatever statement fails. *)
Theorem postgres_refines_contract
    {W J D : Type} `{QRow J D, QText J, ErrorText, Env W, TableSpec W D} :
  Preserves tbl_rows (now (W := W)) →
  let _ := PostgresQueue (W := W) (J := J) in let _ := PostgresCounter (W := W) (J := J) in
  QueueSpec W J pgq_inv pgq_view ∧ CounterSpec W pgq_inv (pgq_view (J := J)).
Proof. intros Hnow. split; [by apply pgq_spec|apply pgq_count]. Qed.

Lemma postgres_refines_contract_witness :
  let QB := PostgresQueue (W := list (Row jobRow)) (J := Job) in
  QueueSpec (list (Row jobRow)) Job pgq_inv (pgq_view (J := Job)) ∧
  fst (run_ops [OpEnqueue Background (Example.job "a" 5); OpEnqueue Background (Example.job "b" 3);
                OpDequeue Background; OpFail Background "b" None 7; OpDequeue Background;
                OpDequeue Background] ([] : list (Row jobRow)))
  = [Example.job "b" 3; Example.job "a" 5;
     mkJob "b" "v" "a@v" "b@x" "ref" 1 7 "" "c"].
Proof.
  intros QB. split; [|by vm_compute].
  apply (postgres_refines_contract (W := list (Row jobRow)) (J := Job)). by intros w.
Defined.

(** A claim is exclusive and lasts.  Once Dequeue has handed out a job, no
    sequence of queue operations hands out a job with that ID again, unless
    the sequence completes it, fails it or enqueues that ID anew; in
    particular nothing else ever returns a claimed job to the queue, so a job
    whose worker stops between Dequeue and Complete/Fail stays claimed. *)
Theorem claim_exclusive {W J : Type} `{QueueSpec W J} ctx (w : W) j w1 ops rs w2 :
  q_inv w → q_Dequeue ctx w = (Ok (Some j), w1) →
  Forall (λ o, releases (j_ID j) o = false) ops →
  run_ops ops w1 = (rs, w2) →
  ∀ j', j' ∈ rs → j_ID j' ≠ j_ID j.
Proof.
  intros Hi E Hf Hr. pose proof (Dequeue_inv _ _ _ _ Hi E) as Hi1.
  apply Dequeue_some in E as (_ & Hv & _); [|done].
  eapply run_ops_claimed; [exact Hi1| |done..].
  by rewrite Hv, lookup_insert_eq.
Qed.

Lemma claim_exclusive_witness :
  let QB := PostgresQueue (W := list (Row jobRow)) (J := Job) in
  let w := [mkRow "a" None (jobRow_of (Example.job "a" 5)); mkRow "b" None (jobRow_of (Example.job "b" 7))] in
  let w1 := snd (q_Dequeue (J := Job) Background w) in
  Forall (λ j', j_ID j' ≠ j_ID (Example.job "a" 5))
    (fst (run_ops [OpDequeue Background; OpDequeue Background] w1)).
Proof.
  intros QB w w1.
  assert (QS : QueueSpec (list (Row jobRow)) Job pgq_inv (pgq_view (J := Job))) by (by apply pgq_spec; intros x).
  apply Forall_forall.
  apply (claim_exclusive (J := Job) Background w (Example.job "a" 5) w1
           [OpDequeue Background; OpDequeue Background] _
           (snd (run_ops (J := Job) [OpDequeue Background; OpDequeue Background] w1))).
  - unfold pgq_inv, ids_unique. simpl. repeat constructor; set_solver.
  - by vm_compute.
  - by repeat constructor.
  - by vm_compute.
Defined.

(** C8: FullJitter is total on the configured range and bounded: for a base
    and a cap of 1 ns to 2^53 ns (104 days) and any attempt number, negative
    or past the float64 range, it never hits Int63n's panic and returns a
    delay in [0, min(cap, base * 2^attempt)). *)
Theorem FullJitter_range {W : Type} `{RandSpec W} attempt base maxDelay (w : W) :
  1 ≤ base < 2 ^ 53 → 1 ≤ maxDelay < 2 ^ 53 →
  ∃ d w', FullJitter attempt base maxDelay w = (Ok d, w') ∧
          0 ≤ d < Z.min maxDelay (base * 2 ^ Z.max 0 attempt).
Proof. apply FullJitter_spec. Qed.

Lemma FullJitter_range_witness :
  (∃ d w', FullJitter (W := unit) 3 Second Hour tt = (Ok d, w') ∧
           0 ≤ d < Z.min Hour (Second * 2 ^ Z.max 0 3)) ∧
  FullJitter (W := unit) 3 Second Hour tt = (Ok (8 * Second - 1), tt) ∧
  FullJitter (W := unit) 5000 Second Hour tt = (Ok (Hour - 1), tt).
Proof.
  split; [apply (FullJitter_range 3 Second Hour tt); unfold Hour, Minute, Second; lia|].
  split; by vm_compute.
Defined.
