(* ===== verification/RateLimit.v ===== *)
(** * Rate limiting (internal/ratelimit)

    [TokenBucket] is the in-process bucket, [PostgresLimiter] the same math
    with one row per key in the rate_limit_buckets table. *)

From S2P Require Import Prelude Float64 Table.

Arguments Seconds : simpl never.
Arguments fsub : simpl never.

(** ** The bucket (tokenbucket.go) *)

Record TokenBucket := mkBucket {
  capacity : float64;
  tokens : float64;
  refillRate : float64;
  last : Time;
}.

Section Bucket.
Context {W : Type} `{Env W, !Has W TokenBucket}.

Definition NewTokenBucket (cap refillPerSecond : float64) : M W TokenBucket :=
  let* t := now in ret (mkBucket cap cap refillPerSecond t).

(** [refill] at the time [t] read from the clock. *)
Definition refill (t : Time) (b : TokenBucket) : TokenBucket :=
  let elapsed := Seconds (Sub t (last b)) in
  if fle elapsed F0 then b
  else
    let tk := fadd (tokens b) (fmul elapsed (refillRate b)) in
    let tk := if fgt tk (capacity b) then capacity b else tk in
    mkBucket (capacity b) tk (refillRate b) t.

(** The critical section of [Allow]. *)
Definition allow (t : Time) (b : TokenBucket) : bool * TokenBucket :=
  let b := refill t b in
  if flt (tokens b) F1 then (false, b)
  else (true, mkBucket (capacity b) (fsub (tokens b) F1) (refillRate b) (last b)).

Definition Allow : M W bool :=
  let* t := now in lift (allow t).
End Bucket.

(** ** Bounds of the elapsed time *)

Lemma fneg_round n d : 0 < d → round (- n) d = fneg (round n d).
Proof.
  intros Hd. unfold round. rewrite Z.abs_opp, Z.sgn_opp.
  destruct (Z.leb_spec overflow_bound (round_mag (Z.abs n) d)) as [Hle|Hlt]; simpl.
  - assert (n ≠ 0).
    { intros ->. change (Z.abs 0) with 0 in Hle. assert (0 < overflow_bound) by (by vm_compute).
      pose proof (round_mag_exact 0 d) as Hz. rewrite Z.mul_0_l in Hz.
      rewrite Hz in Hle; [lia|lia|done|]. exists 0, 0. split_and!; lia. }
    f_equal. destruct (Z.ltb_spec (- n) 0), (Z.ltb_spec n 0); simpl; lia.
  - f_equal. lia.
Qed.

Lemma Seconds_opp d : Z.abs d ≤ 2 ^ 63 → Seconds (- d) = fneg (Seconds d).
Proof.
  intros Hd. unfold Seconds, Second. rewrite Z.quot_opp_l, Z.rem_opp_l by lia.
  assert (Hq : Z.abs (Z.quot d 1000000000) < 2 ^ 53).
  { rewrite <-Z.quot_abs by lia. simpl. rewrite Z.quot_div_nonneg by lia.
    apply Z.div_lt_upper_bound; lia. }
  assert (Hr : Z.abs (Z.rem d 1000000000) < 2 ^ 53).
  { pose proof (Z.rem_bound_abs d 1000000000 ltac:(lia)). lia. }
  rewrite !of_int_exact by lia. simpl. rewrite !Z.mul_opp_l, fneg_round by lia.
  destruct (round _ 1000000000) as [|i|k]; simpl; [done..|].
  rewrite <-fneg_round by lia. f_equal. lia.
Qed.

(** The elapsed time of a non-negative Duration is finite and non-negative. *)
Lemma Seconds_nonneg d : 0 ≤ d ≤ 2 ^ 63 → ∃ j, Seconds d = FFin j ∧ 0 ≤ j.
Proof.
  intros Hd. unfold Seconds, Second. rewrite Z.quot_div_nonneg, Z.rem_mod_nonneg by lia.
  pose proof (Z.mod_pos_bound d 1000000000 ltac:(lia)).
  assert (0 ≤ d / 1000000000) by (apply Z.div_pos; lia).
  assert (d / 1000000000 < 2 ^ 53) by (apply Z.div_lt_upper_bound; lia).
  rewrite !of_int_exact by lia. simpl. pose proof unit_one_pos.
  assert (Hbig : 2 ^ 53 * unit_one < overflow_bound) by (by vm_compute).
  destruct (round_bounds (d mod 1000000000 * unit_one) 1000000000 unit_one) as (j & -> & Hj).
  - nia.
  - lia.
  - apply unit_one_repr.
  - nia.
  - nia.
  - destruct (round_bounds (d / 1000000000 * unit_one + j) 1 (2 ^ 53 * unit_one)) as (k & -> & Hk);
      [nia|lia| |nia|lia|eauto with lia].
    rewrite unit_one_eq. rewrite <-Z.pow_add_r by lia.
    replace (2 ^ (53 + 1074)) with (1 * 2 ^ (53 + 1074)) by lia. apply repr_shift; lia.
Qed.

Lemma Seconds_pos d : 0 < d ≤ 2 ^ 63 → fle (Seconds d) F0 = false.
Proof.
  intros Hd. destruct (Seconds_nonneg d) as (j & Hj & _); [lia|]. rewrite Hj.
  enough (0 < j) by (simpl; lia). revert Hj.
  unfold Seconds, Second. rewrite Z.quot_div_nonneg, Z.rem_mod_nonneg by lia.
  pose proof (Z.mod_pos_bound d 1000000000 ltac:(lia)).
  pose proof (Z.div_mod d 1000000000 ltac:(lia)).
  assert (0 ≤ d / 1000000000) by (apply Z.div_pos; lia).
  assert (d / 1000000000 < 2 ^ 53) by (apply Z.div_lt_upper_bound; lia).
  rewrite !of_int_exact by lia. simpl. pose proof unit_one_pos.
  assert (1000000000 ≤ unit_one) by (by vm_compute).
  destruct (round_nonneg (d mod 1000000000 * unit_one) 1000000000) as [->|(k & Hk & ?)];
    [nia|lia|done|].
  rewrite Hk. apply round_pos; [lia|].
  destruct (decide (d mod 1000000000 = 0)) as [Hz|Hz].
  - assert (1 ≤ d / 1000000000) by lia. nia.
  - apply round_pos in Hk; [|lia|nia]. nia.
Qed.

Lemma Sub_range t u : - 2 ^ 63 ≤ Sub t u ≤ 2 ^ 63 - 1.
Proof. unfold Sub. lia. Qed.

(** A refill that happens sees a positive finite elapsed time. *)
Lemma elapsed_pos t u :
  fle (Seconds (Sub t u)) F0 = false → ∃ j, Seconds (Sub t u) = FFin j ∧ 0 < j.
Proof.
  pose proof (Sub_range t u) as Hr. set (d := Sub t u) in *. intros Hf.
  destruct (Z.lt_ge_cases d 0) as [Hn|Hp].
  - exfalso. replace d with (- - d) in Hf by lia. rewrite Seconds_opp in Hf by lia.
    destruct (Seconds_nonneg (- d)) as (j & Hj & ?); [lia|]. rewrite Hj in Hf. simpl in Hf. lia.
  - destruct (Seconds_nonneg d) as (j & Hj & ?); [lia|]. rewrite Hj in *. simpl in Hf.
    exists j. split; [done|lia].
Qed.

(** ** The bucket invariant *)

(** A finite non-negative float. *)
Definition fnonneg (x : float64) : Prop := ∃ k, x = FFin k ∧ 0 ≤ k ∧ repr k ∧ k < overflow_bound.

Definition bucket_ok (b : TokenBucket) : Prop :=
  ∃ c k, capacity b = FFin c ∧ tokens b = FFin k ∧ 0 ≤ k ≤ c ∧ repr c ∧ c < overflow_bound ∧
         (∃ r, refillRate b = FFin r ∧ 0 ≤ r).

Lemma refill_ok t b : bucket_ok b → bucket_ok (refill t b).
Proof.
  intros Hok. unfold refill. destruct (fle _ F0) eqn:Hf; [done|].
  apply elapsed_pos in Hf as (j & -> & Hj).
  destruct Hok as (c & k & Hc & Hk & Hkc & Hr & Ho & r & Hrt & Hr0).
  rewrite Hc, Hk, Hrt. cbn [fmul]. unfold bucket_ok. simpl.
  pose proof unit_one_pos.
  destruct (round_nonneg (j * r) unit_one) as [->|(p & -> & Hp)]; [nia|done| |]; simpl.
  { exists c, c. split_and!; eauto; lia. }
  destruct (round_nonneg (k + p) 1) as [->|(q & -> & Hq)]; [lia|done| |]; simpl.
  { exists c, c. split_and!; eauto; lia. }
  unfold fgt, flt. destruct (Z.ltb_spec c q).
  - exists c, c. split_and!; eauto; lia.
  - exists c, q. split_and!; try done. eauto.
Qed.

Lemma allow_ok t b r b' : bucket_ok b → allow t b = (r, b') → bucket_ok b'.
Proof.
  intros Hok. unfold allow. pose proof (refill_ok t b Hok) as Hok'.
  set (b1 := refill t b) in *.
  destruct (flt (tokens b1) F1) eqn:Hlt; intros [= <- <-]; [done|].
  destruct Hok' as (c & k & Hc & Hk & Hkc & Hr & Ho & Hrt).
  rewrite Hk in Hlt. simpl in Hlt. apply Z.ltb_ge in Hlt. pose proof unit_one_pos.
  unfold bucket_ok. simpl. rewrite Hk. unfold fsub. simpl.
  destruct (round_bounds (k + - unit_one) 1 c) as (q & -> & Hq); [lia|lia|done|lia|done|].
  exists c, q. split_and!; try done; lia.
Qed.

(** ** Requests at one instant *)

(** [n] requests at time [t]: how many are allowed. *)
Fixpoint burst (t : Time) (n : nat) (b : TokenBucket) : Z * TokenBucket :=
  match n with
  | O => (0, b)
  | S n =>
      let '(r, b) := allow t b in
      let '(k, b) := burst t n b in
      ((if r : bool then 1 else 0) + k, b)
  end.

Lemma Seconds_0 : Seconds 0 = F0.
Proof. by vm_compute. Qed.

(** No refill is due at [t]. *)
Definition settled (t : Time) (b : TokenBucket) : Prop :=
  fle (Seconds (Sub t (last b))) F0 = true.

Lemma refill_settled t b : settled t (refill t b).
Proof.
  unfold settled, refill. destruct (fle (Seconds (Sub t (last b))) F0) eqn:Hf; [done|]. cbn [last].
  assert (Sub t t = 0) as -> by (unfold Sub; lia). by rewrite Seconds_0.
Qed.

Lemma refill_id t b : settled t b → refill t b = b.
Proof. unfold settled, refill. by intros ->. Qed.

(** Taking one token from at most 2^53 is exact. *)
Lemma take_token_repr k :
  unit_one ≤ k ≤ 2 ^ 53 * unit_one → repr k → repr (k - unit_one).
Proof.
  intros [Hlo Hhi] (m & e & He & Hm & Hk). pose proof unit_one_pos.
  destruct (Z.le_gt_cases e 1074) as [Hs|Hb].
  - exists (m - 2 ^ (1074 - e)), e.
    assert (Hu : unit_one = 2 ^ (1074 - e) * 2 ^ e)
      by (rewrite <-Z.pow_add_r by lia; rewrite unit_one_eq; f_equal; lia).
    pose proof (pow2_pos e He). pose proof (pow2_pos (1074 - e) ltac:(lia)).
    split_and!; [done| |rewrite Hk, Hu at 1; lia].
    assert (2 ^ (1074 - e) ≤ m) by nia. lia.
  - exists (m * 2 ^ (e - 1074) - 1), 1074.
    assert (Hp : k = m * 2 ^ (e - 1074) * unit_one).
    { rewrite Hk, <-Z.mul_assoc. rewrite unit_one_eq. rewrite <-Z.pow_add_r by lia.
      do 2 f_equal. lia. }
    rewrite <-unit_one_eq. set (n := m * 2 ^ (e - 1074)) in *.
    assert (n ≤ 2 ^ 53) by nia. assert (1 ≤ n) by nia. split_and!; lia.
Qed.

Lemma take_token_exact k :
  unit_one ≤ k ≤ 2 ^ 53 * unit_one → repr k → fsub (FFin k) F1 = FFin (k - unit_one).
Proof.
  intros Hk Hr. unfold fsub, F1. cbn [fneg fadd].
  replace (k + - unit_one) with ((k - unit_one) * 1) by lia.
  apply round_exact; [lia|by apply take_token_repr|].
  rewrite Z.abs_eq by lia. assert (2 ^ 53 * unit_one < overflow_bound) by (by vm_compute). lia.
Qed.

Lemma burst_count t n b k :
  settled t b → tokens b = FFin k → 0 ≤ k ≤ 2 ^ 53 * unit_one → repr k →
  fst (burst t n b) = Z.min (Z.of_nat n) (k / unit_one).
Proof.
  pose proof unit_one_pos as Hu. revert b k. induction n as [|n IH]; intros b k Hs Hk Hb Hr.
  { simpl. pose proof (Z.div_pos k unit_one). lia. }
  cbn [burst]. unfold allow. rewrite refill_id by done. rewrite Hk.
  change (flt (FFin k) F1) with (k <? unit_one).
  destruct (Z.ltb_spec k unit_one) as [Hlt|Hge].
  - rewrite Z.div_small by lia. specialize (IH b k Hs Hk Hb Hr).
    rewrite Z.div_small in IH by lia. destruct (burst t n b). simpl in *. lia.
  - rewrite take_token_exact by (done || lia). set (b' := mkBucket _ _ _ _).
    specialize (IH b' (k - unit_one)).
    destruct (burst t n b') as [z b2]. simpl in *. rewrite IH; [|done..|lia|].
    + replace (k / unit_one) with ((k - unit_one) / unit_one + 1); [lia|].
      replace k with (k - unit_one + 1 * unit_one) at 2 by lia. by rewrite Z.div_add by lia.
    + apply take_token_repr; [lia|done].
Qed.

(** The refill due at [t] is done by the first request. *)
Lemma burst_refill t n b : fst (burst t n (refill t b)) = fst (burst t n b).
Proof.
  destruct n as [|n]; [done|]. cbn [burst]. unfold allow. rewrite (refill_id t (refill t b)) by apply refill_settled. done.
Qed.

(** ** The shared bucket (postgres.go) *)

(** [bucketRow], less the embedded sql.BaseEntity. *)
Record bucketRow := mkBucketRow { Key : string; Tokens : float64; LastRefill : Time }.

Definition isUniqueViolation (err : goerr) : bool := errors_Is "pgconn.PgError 23505" err.
Definition gormNotFound (err : goerr) : bool := errors_Is "gorm.ErrRecordNotFound" err.

Section Limiter.
Context {W : Type} `{Env W, Db W, Table W bucketRow}.

Definition key_is (key : string) (r : Row bucketRow) : bool := String.eqb (Key (row_data r)) key.

(** The row [tryAllow] writes back for a known key, and its verdict. *)
Definition bump (cap refillPerSecond : float64) (t : Time) (d : bucketRow) : bool * bucketRow :=
  let elapsed := Seconds (Sub t (LastRefill d)) in
  let tk :=
    if fgt elapsed F0 then
      let tk := fadd (Tokens d) (fmul elapsed refillPerSecond) in
      if fgt tk cap then cap else tk
    else Tokens d in
  if flt tk F1 then (false, mkBucketRow (Key d) tk t)
  else (true, mkBucketRow (Key d) (fsub tk F1) t).

(** The transaction body; [allowed] is a variable of the enclosing
    function. *)
Definition try_body (ctx : Ctx) (key : string) (cap refillPerSecond : float64)
  : M W (bool * option goerr) :=
  let* found := tbl_First ctx (key_is key) (order_by row_Id) in
  let* t := now in
  match found with
  | Ok row =>
      let '(allowed, d) := bump cap refillPerSecond t (row_data row) in
      let* r := tbl_Updates ctx (λ x, String.eqb (row_Id x) (row_Id row))
                  (λ x, mkBucketRow (Key x) (Tokens d) (LastRefill d)) in
      ret (allowed, match r with Ok _ => None | Err e => Some e end)
  | Err findErr =>
      if gormNotFound findErr then
        let* r := tbl_Create ctx (mkRow "" None (mkBucketRow key (fsub cap F1) t)) in
        ret (true, match r with Ok _ => None | Err e => Some e end)
      else ret (false, Some findErr)
  end.

(** [tryAllow] returns (allowed, retry, err). *)
Definition tryAllow (ctx : Ctx) (key : string) (cap refillPerSecond : float64)
  : M W (bool * bool * option goerr) :=
  let* r := db_Transaction false (try_body ctx key cap refillPerSecond) in
  let '(allowed, err) := r in
  match err with
  | Some e => if isUniqueViolation e then ret (false, true, err) else ret (allowed, false, err)
  | None => ret (allowed, false, err)
  end.

(** The retry loop of [Allow], [n] attempts left. *)
Fixpoint allow_attempts (n : nat) (ctx : Ctx) (key : string) (cap refillPerSecond : float64)
  (lastErr : option goerr) : M W (bool * option goerr) :=
  match n with
  | O => ret (false, Some (match lastErr with
                           | Some e => ErrorfW "ratelimit: too many conflicting inserts for key %q: %w" [key] e
                           | None => Errorf "ratelimit: too many conflicting inserts for key %q: %w" [key]
                           end))
  | S n =>
      let* r := tryAllow ctx key cap refillPerSecond in
      let '(allowed, retry, err) := r in
      if retry : bool then allow_attempts n ctx key cap refillPerSecond err
      else ret (allowed, err)
  end.

Definition maxAttempts : nat := 3.

Definition PgAllow (ctx : Ctx) (key : string) (cap refillPerSecond : float64)
  : M W (bool * option goerr) :=
  allow_attempts maxAttempts ctx key cap refillPerSecond None.
End Limiter.

(** ** The shared bucket refines the in-process one *)

Section LimiterFacts.
Context {W : Type} `{Env W, TableSpec W bucketRow}.
Context {now_frame : Preserves tbl_rows (now (W := W))}.

Definition lim_inv (w : W) : Prop :=
  ids_unique (tbl_rows w) ∧ NoDup ((λ r, Key (row_data r)) <$> tbl_rows w).

(** The buckets the table holds, by key. *)
Definition buckets (w : W) : gmap string bucketRow :=
  kview (λ r, Key (row_data r)) row_data (tbl_rows w).

Definition bump_bucket (cap rate : float64) (key : string) (t : Time) (d : option bucketRow)
  : bool * bucketRow :=
  match d with
  | Some d => bump cap rate t d
  | None => (true, mkBucketRow key (fsub cap F1) t)
  end.

Lemma bump_Key cap rate t d : Key (snd (bump cap rate t d)) = Key d.
Proof. unfold bump. by case_match. Qed.

Lemma try_body_ok ctx key cap rate w b w' :
  lim_inv w → try_body ctx key cap rate w = ((b, None), w') →
  lim_inv w' ∧ ∃ t w0, fst (now w0) = t ∧
    let '(b', d') := bump_bucket cap rate key t (buckets w !! key) in
    b = b' ∧ buckets w' = <[key := d']> (buckets w).
Proof.
  intros [Hid Hkey]. unfold try_body, bind, ret.
  destruct (tbl_First _ _ _ w) as [found w1] eqn:Ef.
  pose proof (First_frame _ _ _ _ _ _ Ef) as Hw1.
  destruct (now w1) as [t w2] eqn:En. pose proof (preserves_eq _ _ _ _ _ En) as Hw2.
  destruct found as [row|e].
  - apply First_ok in Ef as (Hrow & Hk%String.eqb_eq & _).
    destruct (bump cap rate t (row_data row)) as [al d] eqn:Eb.
    destruct (tbl_Updates _ _ _ w2) as [[n|e] w3] eqn:Eu; intros [= -> <-].
    apply Updates_ok in Eu as [_ Hp]. rewrite Hw2, Hw1 in Hp.
    assert (Hkeep : ∀ p f (r : Row bucketRow), (∀ x, Key (f x) = Key x) →
               Key (row_data (update_row p f r)) = Key (row_data r)).
    { intros p f r Hf. unfold update_row. destruct (p r); [apply Hf|done]. }
    assert (Hk' : NoDup ((λ r, Key (row_data r)) <$> tbl_rows w3)).
    { rewrite Hp, (kview_keys_update (λ r, Key (row_data r))); [done|].
      intros r. by apply Hkeep. }
    split; [split; [|done]|].
    { eapply ids_unique_perm; [symmetry; exact Hp|]. by apply ids_unique_update. }
    exists t, w1. rewrite En. split; [done|]. unfold buckets.
    assert (Hl : kview (λ r, Key (row_data r)) row_data (tbl_rows w) !! key
                 = Some (row_data row)) by (apply kview_lookup; eauto).
    rewrite Hl. simpl. rewrite Eb. split; [done|].
    rewrite (kview_perm _ _ _ _ Hp) by done.
    rewrite (kview_update _ _ _ _ _ row); [|done| |done|apply String.eqb_refl|].
    + rewrite Hk. f_equal. unfold update_row. rewrite String.eqb_refl. simpl.
      pose proof (bump_Key cap rate t (row_data row)) as HK. rewrite Eb in HK. simpl in HK.
      rewrite <-HK. by destruct d.
    + intros r. by apply Hkeep.
    + intros r Hr He%String.eqb_eq. by eapply ids_unique_eq.
  - destruct (gormNotFound e) eqn:Enf; [|done].
    pose proof (First_missing _ _ _ _ _ _ Ef Enf) as Hmiss.
    destruct (tbl_Create _ _ w2) as [[r|e2] w3] eqn:Ec; intros [= <- <-].
    apply Create_ok in Ec as (Hnew & Hd & _ & _ & Hp). rewrite Hw2, Hw1 in *. simpl in Hd.
    assert (Hno : ∀ r, r ∈ tbl_rows w → Key (row_data r) ≠ key).
    { intros r' Hr'. by apply String.eqb_neq, Hmiss. }
    assert (Hk' : NoDup ((λ r, Key (row_data r)) <$> (r :: tbl_rows w))).
    { rewrite fmap_cons. apply NoDup_cons. split; [|done]. rewrite Hd. simpl.
      intros (r' & Hr' & Hin)%list_elem_of_fmap. by eapply Hno. }
    split; [split|].
    + eapply ids_unique_perm; [symmetry; exact Hp|].
      unfold ids_unique. rewrite fmap_cons. by apply NoDup_cons.
    + by rewrite Hp.
    + exists t, w1. rewrite En. split; [done|]. unfold buckets.
      assert (kview (λ r, Key (row_data r)) row_data (tbl_rows w) !! key = None) as ->
        by (by apply kview_None).
      simpl. split; [done|]. rewrite (kview_perm _ _ _ _ Hp) by (by rewrite Hp).
      unfold kview at 1. simpl. by rewrite Hd.
Qed.

Lemma tryAllow_frame ctx key cap rate w b retry e w' :
  tryAllow ctx key cap rate w = ((b, retry, Some e), w') → tbl_rows w' = tbl_rows w.
Proof.
  unfold tryAllow, bind, ret. destruct (db_Transaction _ _ w) as [[a [e1|]] w1] eqn:E; [|done].
  apply Transaction_err in E. case_match; by intros [= _ _ _ <-].
Qed.

Lemma tryAllow_ok ctx key cap rate w b retry w' :
  lim_inv w → tryAllow ctx key cap rate w = ((b, retry, None), w') →
  retry = false ∧ lim_inv w' ∧ ∃ t w0, fst (now w0) = t ∧
    let '(b', d') := bump_bucket cap rate key t (buckets w !! key) in
    b = b' ∧ buckets w' = <[key := d']> (buckets w).
Proof.
  intros Hi. unfold tryAllow, bind, ret.
  destruct (db_Transaction _ _ w) as [[a [e1|]] w1] eqn:E; [by case_match|].
  intros [= <- <- <-]. split; [done|].
  apply Transaction_ok in E as (w2 & E & Hr). apply try_body_ok in E; [|done].
  unfold lim_inv, buckets in *. by rewrite Hr.
Qed.

Lemma allow_attempts_ok n ctx key cap rate le w b w' :
  lim_inv w → allow_attempts n ctx key cap rate le w = ((b, None), w') →
  lim_inv w' ∧ ∃ t w0, fst (now w0) = t ∧
    let '(b', d') := bump_bucket cap rate key t (buckets w !! key) in
    b = b' ∧ buckets w' = <[key := d']> (buckets w).
Proof.
  revert le w. induction n as [|n IH]; simpl; unfold bind, ret; intros le w Hi; [done|].
  destruct (tryAllow ctx key cap rate w) as [[[a retry] [e|]] w1] eqn:E.
  - destruct retry; [|done]. apply tryAllow_frame in E.
    intros Ha. replace (buckets w) with (buckets w1) by (unfold buckets; by rewrite E).
    apply IH in Ha; [done|]. unfold lim_inv. by rewrite E.
  - apply tryAllow_ok in E as (-> & Hi' & Ht); [|done]. by intros [= <- <-].
Qed.
End LimiterFacts.

(** The row math is the bucket's, but for the timestamp it leaves behind. *)
Lemma bump_allow cap rate t d :
  let b := mkBucket cap (Tokens d) rate (LastRefill d) in
  let '(r, d') := bump cap rate t d in
  LastRefill d' = t ∧
  allow t b = (r, mkBucket cap (Tokens d') rate
                    (if fle (Seconds (Sub t (LastRefill d))) F0 then LastRefill d else t)).
Proof.
  unfold bump, allow, refill. cbn [last tokens capacity refillRate].
  destruct (fle (Seconds (Sub t (LastRefill d))) F0) eqn:Hf.
  - assert (fgt (Seconds (Sub t (LastRefill d))) F0 = false) as ->.
    { revert Hf. unfold fgt, flt, fle. destruct (Seconds _) as [|[]|]; try done; simpl; lia. }
    cbn [tokens]. by destruct (flt (Tokens d) F1).
  - apply elapsed_pos in Hf as (j & Hj & Hpos). rewrite Hj.
    assert (fgt (FFin j) F0 = true) as -> by (unfold fgt, F0; simpl; lia).
    cbn [tokens]. set (tk := if fgt _ cap then _ else _). by destruct (flt tk F1).
Qed.

Lemma fle_nonpos_time t u : t ≤ u → fle (Seconds (Sub t u)) F0 = true.
Proof.
  intros Hle. set (d := Sub t u). assert (Hd : - 2 ^ 63 ≤ d ≤ 0) by (unfold d, Sub; lia).
  replace d with (- - d) by lia. rewrite Seconds_opp by lia.
  destruct (Seconds_nonneg (- d)) as (j & -> & ?); [lia|]. simpl. lia.
Qed.

(** With a clock that has not gone back, the row is the bucket. *)
Lemma bump_allow_forward cap rate t d r d' :
  LastRefill d ≤ t → bump cap rate t d = (r, d') →
  allow t (mkBucket cap (Tokens d) rate (LastRefill d))
  = (r, mkBucket cap (Tokens d') rate (LastRefill d')).
Proof.
  intros Hle Eb. pose proof (bump_allow cap rate t d) as Ha. simpl in Ha. rewrite Eb in Ha.
  destruct Ha as [-> ->]. do 2 f_equal.
  destruct (decide (t = LastRefill d)) as [<-|Hne]; [by case_match|].
  rewrite Seconds_pos; [done|]. unfold Sub. lia.
Qed.

Module Example.
#[export] Instance key_index : ListTable.Conflicts bucketRow := λ a b, String.eqb (Key a) (Key b).
#[export] Instance env : Env (list (Row bucketRow)) := { env_metrics := unread; now := ret 10; uuid_NewString := ret "u" }.
Definition full (n : Z) : TokenBucket := mkBucket (of_int n) (of_int n) F1 0.
Definition stored : list (Row bucketRow) := [mkRow "1" None (mkBucketRow "ip:a" (of_int 3) 4)].
End Example.
Import Example.

(** ** Properties *)

(** The token bucket invariant.  Whatever clock readings a sequence of
    Allow calls sees, also ones that go back, a bucket with a finite
    non-negative capacity and rate keeps 0 <= tokens <= capacity: no NaN, no
    infinity and no overdraft reaches the state. *)
Theorem bucket_invariant (ts : list Time) (b : TokenBucket) :
  bucket_ok b → bucket_ok (foldl (λ b t, snd (allow t b)) b ts).
Proof.
  revert b. induction ts as [|t ts IH]; intros b Hb; simpl; [done|]. apply IH.
  destruct (allow t b) eqn:E. by eapply allow_ok.
Qed.

Lemma full_ok n : 0 ≤ n < 2 ^ 53 → bucket_ok (full n).
Proof.
  intros Hn. unfold bucket_ok, full. simpl. rewrite of_int_exact by lia. pose proof unit_one_pos.
  assert (2 ^ 53 * unit_one < overflow_bound) by (by vm_compute).
  exists (n * unit_one), (n * unit_one). split_and!; [done|done|nia|lia| |nia|].
  - apply repr_int; lia.
  - exists unit_one. split; [done|lia].
Qed.

Lemma bucket_invariant_witness :
  bucket_ok (foldl (λ b t, snd (allow t b)) (full 2) [5; 3; 2000000000; 7]).
Proof. apply (bucket_invariant [5; 3; 2000000000; 7] (full 2)). apply full_ok. lia. Defined.

(** The burst bound, exactly.  Of n requests that arrive at one instant,
    the bucket allows the smaller of n and the whole tokens it holds after the
    refill due then; in particular never more than its capacity.  Decrementing
    a float64 loses nothing on the way (capacity up to 2^53). *)
Lemma burst_exact (t : Time) (n : nat) (b : TokenBucket) c k :
  bucket_ok b → capacity b = FFin c → c ≤ 2 ^ 53 * unit_one →
  tokens (refill t b) = FFin k → repr k →
  fst (burst t n (refill t b)) = Z.min (Z.of_nat n) (k / unit_one) ∧
  fst (burst t n (refill t b)) ≤ c / unit_one.
Proof.
  intros Hok Hc Hcap Hk Hr. pose proof (refill_ok t b Hok) as (c' & k' & Hc' & Hk' & Hb & _).
  rewrite Hk in Hk'. injection Hk' as <-.
  assert (c' = c) as ->.
  { revert Hc'. unfold refill. case_match; simpl; congruence. }
  rewrite (burst_count t n _ k); [|apply refill_settled|done|lia|done].
  split; [done|]. pose proof unit_one_pos.
  pose proof (Z.div_le_mono k c unit_one ltac:(lia) ltac:(lia)). lia.
Qed.

Lemma burst_exact_witness :
  let r := burst 1000000000 5 (refill 1000000000 (full 3)) in
  fst r = Z.min 5 (3 * unit_one / unit_one) ∧ fst r ≤ 3 * unit_one / unit_one ∧ fst r = 3.
Proof.
  intros r. destruct (burst_exact 1000000000 5 (full 3) (3 * unit_one) (3 * unit_one)) as [H1 H2].
  - apply full_ok. lia.
  - by vm_compute.
  - by apply Z.leb_le; vm_compute.
  - by vm_compute.
  - apply repr_int; lia.
  - split; [exact H1|]. split; [exact H2|by vm_compute].
Defined.

(** The shared limiter refines the bucket.  When PostgresLimiter.Allow
    answers without error it has made one step, at one reading t of the clock:
    for a key with a row that is not dated after t, verdict and new row are
    exactly TokenBucket.Allow's on that row, a new key starts with
    capacity - 1 tokens and is allowed, other keys are untouched, and the table
    keeps one row per key.  The tries that lost an insert race left no trace. *)
Theorem postgres_limiter_refines_bucket {W : Type} `{Env W, TableSpec W bucketRow}
    ctx key cap rate (w : W) b w' :
  Preserves tbl_rows (now (W := W)) → lim_inv w →
  PgAllow ctx key cap rate w = ((b, None), w') →
  lim_inv w' ∧
  ∃ t w0 d', fst (now w0) = t ∧ buckets w' = <[key := d']> (buckets w) ∧ LastRefill d' = t ∧
    match buckets w !! key with
    | None => b = true ∧ Tokens d' = fsub cap F1
    | Some d => LastRefill d ≤ t →
        allow t (mkBucket cap (Tokens d) rate (LastRefill d))
        = (b, mkBucket cap (Tokens d') rate (LastRefill d'))
    end.
Proof.
  intros Hn Hi E. apply allow_attempts_ok in E as (Hi' & t & w0 & Ht & Hb); [|done..].
  split; [done|]. destruct (bump_bucket cap rate key t (buckets w !! key)) as [b' d'] eqn:Eb.
  destruct Hb as [-> Hv]. exists t, w0, d'. split_and!; [done|done|..];
    destruct (buckets w !! key) as [d|]; simpl in Eb.
  - pose proof (bump_allow cap rate t d) as Ha. simpl in Ha. rewrite Eb in Ha. by destruct Ha.
  - by injection Eb as <- <-.
  - intros Hle. by apply bump_allow_forward.
  - by injection Eb as <- <-.
Qed.

Lemma postgres_limiter_refines_bucket_witness :
  let r := PgAllow Background "ip:a" (of_int 5) F1 stored in
  fst r = (true, None) ∧
  ∃ t w0 d', fst (now (W := list (Row bucketRow)) w0) = t ∧
    buckets (snd r) = <["ip:a" := d']> (buckets stored) ∧ LastRefill d' = t.
Proof.
  intros r. split; [by vm_compute|].
  destruct (postgres_limiter_refines_bucket Background "ip:a" (of_int 5) F1 stored true (snd r))
    as (_ & t & w0 & d' & Ht & Hb & Hl & _).
  - by intros w.
  - split; simpl; repeat constructor; set_solver.
  - by vm_compute.
  - exists t, w0, d'. exact (conj Ht (conj Hb Hl)).
Defined.

(** A replica whose clock is behind pulls the row's timestamp back, so the
    next request refills the same interval again; the in-process bucket keeps
    its timestamp. *)
Lemma skewed_replica_refills_twice :
  let d := mkBucketRow "k" F1 10000000000 in
  let '(_, d1) := bump (of_int 5) F1 9000000000 d in      (* a replica 1 s behind *)
  let '(r2, _) := bump (of_int 5) F1 10000000000 d1 in
  let b := mkBucket (of_int 5) F1 F1 10000000000 in
  r2 = true ∧
  fst (allow 10000000000 (snd (allow 9000000000 b))) = false.
Proof. by vm_compute. Qed.
