(* ===== verification/Transactions.v ===== *)
(** * Transactions of several processes, statement by statement

    [db_Transaction] runs the body of a transaction in one step.  Here the body
    is a program whose statements other connections can come between: the
    processes of a deployment share one PostgreSQL.  [exec] runs such a program
    in one step, as [Table] does; [txstep] interleaves the statements of any
    number of connections.  What PostgreSQL promises under READ COMMITTED is
    [TxSpec]: an uncommitted change is seen by nobody else, a statement that
    locks or changes a row succeeds only while no other transaction holds it, SKIP
    LOCKED passes over held rows, and a commit publishes all changes at once.
    A statement is one step: changes that others commit while it runs, after
    which ORDER BY with a locking clause may be out of order, are not modelled.
    [ListTx] is an executable instance for the witnesses. *)

From S2P Require Import Prelude Table.

Abbreviation Tid := nat.

(** ** Bodies as programs *)

Inductive prog (D A : Type) : Type :=
| Return (a : A)
| Clock (k : Time → prog D A)
| Find (q : Query D) (k : res (list (Row D)) → prog D A)
| First (p : Row D → bool) (o : Row D → Row D → bool) (k : res (Row D) → prog D A)
| Updates (p : Row D → bool) (f : D → D) (k : res Z → prog D A)
| Create (r : Row D) (k : res (Row D) → prog D A).
Arguments Return {D A} a.
Arguments Clock {D A} k.
Arguments Find {D A} q k.
Arguments First {D A} p o k.
Arguments Updates {D A} p f k.
Arguments Create {D A} r k.

(** The program in one step. *)
Fixpoint exec {W D A : Type} `{Env W, Table W D} (ctx : Ctx) (p : prog D A) : M W A :=
  match p with
  | Return a => ret a
  | Clock k => let* t := now in exec ctx (k t)
  | Find q k => let* r := tbl_Find ctx q in exec ctx (k r)
  | First p o k => let* r := tbl_First ctx p o in exec ctx (k r)
  | Updates p f k => let* r := tbl_Updates ctx p f in exec ctx (k r)
  | Create r k => let* r' := tbl_Create ctx r in exec ctx (k r')
  end.

(** ** Statements inside a transaction *)

Class TxTable (W D : Type) := {
  tx_Find : Tid → Query D → M W (res (list (Row D)));      (* FOR UPDATE SKIP LOCKED *)
  tx_First : Tid → (Row D → bool) → (Row D → Row D → bool) → M W (res (Row D));
  tx_Updates : Tid → (Row D → bool) → (D → D) → M W (res Z);
  tx_Create : Tid → Row D → M W (res (Row D));
  tx_Commit : Tid → M W (option goerr);
  tx_Rollback : Tid → M W unit;
}.

(** Who holds a row, and the new versions a transaction has written. *)
Abbreviation locks := (gmap string Tid).
Abbreviation changes D := (gmap Tid (gmap string (Row D))).

Definition lock_all {D} (t : Tid) (l : list (Row D)) (m : locks) : locks :=
  foldr (λ r, <[row_Id r := t]>) m l.
Definition unlock (t : Tid) (m : locks) : locks := filter (λ x, x.2 ≠ t) m.
Definition available (t : Tid) (m : locks) (id : string) : Prop := m !! id = None ∨ m !! id = Some t.
#[export] Instance available_dec t m id : Decision (available t m id).
Proof. unfold available. apply _. Defined.

Definition hits {D} (p : Row D → bool) (l : list (Row D)) : list (Row D) := filter (λ r, p r = true) l.

(** The laws.  [hint] says whether the query of [tx_First] locks the row it
    returns.  They speak of transactions that read and then write, as those of
    this program do: a statement's effect is given for a transaction that has
    changed nothing yet. *)
Class TxSpec (W D : Type) `{Env W, TableSpec W D, !TxTable W D} (hint : bool) := {
  tx_locks : W → locks;
  tx_changes : W → changes D;
  tx_now : ∀ w t w', now w = (t, w') →
    tbl_rows w' = tbl_rows w ∧ tx_locks w' = tx_locks w ∧ tx_changes w' = tx_changes w;
  tx_Find_ok : ∀ t q w l w', tx_Find t q w = (Ok l, w') → tx_changes w !! t = None → total_order (q_order q) →
    (∃ l', l' ≡ₚ filter (λ r, q_where q r = true ∧ available t (tx_locks w) (row_Id r)) (tbl_rows w) ∧
       sorted_by (q_order q) l' ∧ l = limit_rows (q_limit q) l') ∧
    tbl_rows w' = tbl_rows w ∧ tx_locks w' = lock_all t l (tx_locks w) ∧ tx_changes w' = tx_changes w;
  tx_Find_err : ∀ t q w e w', tx_Find t q w = (Err e, w') →
    tbl_rows w' = tbl_rows w ∧ tx_locks w' = tx_locks w ∧ tx_changes w' = tx_changes w;
  tx_First_ok : ∀ t p o w r w', tx_First t p o w = (Ok r, w') → tx_changes w !! t = None →
    r ∈ tbl_rows w ∧ p r = true ∧
    tbl_rows w' = tbl_rows w ∧ tx_changes w' = tx_changes w ∧
    (hint = true → available t (tx_locks w) (row_Id r) ∧ tx_locks w' = <[row_Id r := t]> (tx_locks w)) ∧
    (hint = false → tx_locks w' = tx_locks w);
  tx_First_err : ∀ t p o w e w', tx_First t p o w = (Err e, w') →
    (tx_changes w !! t = None → errors_Is "gorm.ErrRecordNotFound" e = true → ∀ r, r ∈ tbl_rows w → p r = false) ∧
    tbl_rows w' = tbl_rows w ∧ tx_locks w' = tx_locks w ∧ tx_changes w' = tx_changes w;
  tx_Updates_ok : ∀ t p f w n w', tx_Updates t p f w = (Ok n, w') → tx_changes w !! t = None →
    (∀ r, r ∈ hits p (tbl_rows w) → available t (tx_locks w) (row_Id r)) ∧
    tbl_rows w' = tbl_rows w ∧ tx_locks w' = lock_all t (hits p (tbl_rows w)) (tx_locks w) ∧
    tx_changes w' = <[t := kview row_Id (update_row p f) (hits p (tbl_rows w))]> (tx_changes w);
  tx_Updates_err : ∀ t p f w e w', tx_Updates t p f w = (Err e, w') →
    tbl_rows w' = tbl_rows w ∧ tx_locks w' = tx_locks w ∧ tx_changes w' = tx_changes w;
  tx_Create_ok : ∀ t r w r' w', tx_Create t r w = (Ok r', w') → tx_changes w !! t = None →
    row_data r' = row_data r ∧ ¬ (row_Id r' ∈ row_Id <$> tbl_rows w) ∧
    (∀ t' m, tx_changes w !! t' = Some m → m !! row_Id r' = None) ∧
    tbl_rows w' = tbl_rows w ∧ tx_locks w' = tx_locks w ∧
    tx_changes w' = <[t := {[row_Id r' := r']}]> (tx_changes w);
  tx_Create_err : ∀ t r w e w', tx_Create t r w = (Err e, w') →
    tbl_rows w' = tbl_rows w ∧ tx_locks w' = tx_locks w ∧ tx_changes w' = tx_changes w;
  tx_Commit_ok : ∀ t w w', tx_Commit t w = (None, w') → ids_unique (tbl_rows w) →
    ids_unique (tbl_rows w') ∧
    kview row_Id id (tbl_rows w') = default ∅ (tx_changes w !! t) ∪ kview row_Id id (tbl_rows w) ∧
    tx_locks w' = unlock t (tx_locks w) ∧ tx_changes w' = delete t (tx_changes w);
  tx_Commit_err : ∀ t w e w', tx_Commit t w = (Some e, w') →
    tbl_rows w' = tbl_rows w ∧ tx_locks w' = unlock t (tx_locks w) ∧ tx_changes w' = delete t (tx_changes w);
  tx_Rollback_ok : ∀ t w w', tx_Rollback t w = (tt, w') →
    tbl_rows w' = tbl_rows w ∧ tx_locks w' = unlock t (tx_locks w) ∧ tx_changes w' = delete t (tx_changes w);
  (* A statement outside a transaction commits by itself. *)
  auto_Create : ∀ ctx r w x w', tbl_Create (D := D) ctx r w = (x, w') →
    tx_locks w' = tx_locks w ∧ tx_changes w' = tx_changes w ∧
    ∀ r', x = Ok r' → ∀ t m, tx_changes w !! t = Some m → m !! row_Id r' = None;
  auto_Updates : ∀ ctx p f w x w', tbl_Updates (D := D) ctx p f w = (x, w') →
    tx_locks w' = tx_locks w ∧ tx_changes w' = tx_changes w ∧
    ∀ n, x = Ok n → ∀ r, r ∈ hits p (tbl_rows w) → tx_locks w !! row_Id r = None;
  auto_Delete : ∀ ctx p w x w', tbl_Delete (D := D) ctx p w = (x, w') →
    tx_locks w' = tx_locks w ∧ tx_changes w' = tx_changes w ∧
    ∀ n, x = Ok n → ∀ r, r ∈ hits p (tbl_rows w) → tx_locks w !! row_Id r = None;
}.

(** A unique index sees the keys of uncommitted rows too: the insert waits for
    the other transaction, and fails if that one commits. *)
Class TxUnique (W D K : Type) `{TxSpec W D hint} (key : D → K) : Prop :=
  tx_unique : ∀ t r w r' w', tx_Create t r w = (Ok r', w') →
    (∀ x, x ∈ tbl_rows w → key (row_data x) ≠ key (row_data r)) ∧
    ∀ t' m id x, tx_changes w !! t' = Some m → m !! id = Some x → key (row_data x) ≠ key (row_data r).

(** ** Interleaving *)

(** The shared database and the transactions in progress.  A body returns the
    variables [B] of the function around it and the error that decides between
    commit and rollback. *)
Record sys (W D B : Type) := mkSys {
  sys_world : W;
  sys_runs : gmap Tid (prog D (B * option goerr));
}.
Arguments mkSys {W D B} _ _.
Arguments sys_world {W D B} _.
Arguments sys_runs {W D B} _.

(** What is observed: a reading of the clock, a transaction that committed with
    its variables, an operation [O] outside a transaction that took effect. *)
Inductive label (B O : Type) :=
| LClock (t : Tid) (now : Time)
| LDone (t : Tid) (b : B)
| LOther (o : O).
Arguments LClock {B O} _ _.
Arguments LDone {B O} _ _.
Arguments LOther {B O} _.

Section Steps.
Context {W D B O : Type} `{Env W, Table W D, TxTable W D}.
(** The bodies that connections run, and the other operations: the label is
    [None] when the operation reported an error. *)
Context (start : Tid → prog D (B * option goerr) → Prop) (other : W → option O → W → Prop).

(** One statement of connection [t]. *)
Definition statement (t : Tid) (p : prog D (B * option goerr)) (w : W) :
    option (option (label B O) * prog D (B * option goerr) * W) :=
  match p with
  | Return _ => None
  | Clock k => let '(x, w') := now w in Some (Some (LClock t x), k x, w')
  | Find q k => let '(r, w') := tx_Find t q w in Some (None, k r, w')
  | First p o k => let '(r, w') := tx_First t p o w in Some (None, k r, w')
  | Updates p f k => let '(r, w') := tx_Updates t p f w in Some (None, k r, w')
  | Create r k => let '(r', w') := tx_Create t r w in Some (None, k r', w')
  end.

(** A transaction begins; runs a statement; ends its body and commits, which can
    fail, or rolls back; or its process dies, and the server rolls it back. *)
Inductive txstep : sys W D B → option (label B O) → sys W D B → Prop :=
| tx_begin w runs t p : runs !! t = None → start t p →
    txstep (mkSys w runs) None (mkSys w (<[t := p]> runs))
| tx_statement w runs t p l p' w' : runs !! t = Some p → statement t p w = Some (l, p', w') →
    txstep (mkSys w runs) l (mkSys w' (<[t := p']> runs))
| tx_committed w runs t b w' : runs !! t = Some (Return (b, None)) → tx_Commit t w = (None, w') →
    txstep (mkSys w runs) (Some (LDone t b)) (mkSys w' (delete t runs))
| tx_commit_failed w runs t b e w' : runs !! t = Some (Return (b, None)) → tx_Commit t w = (Some e, w') →
    txstep (mkSys w runs) None (mkSys w' (delete t runs))
| tx_rolled_back w runs t b e w' : runs !! t = Some (Return (b, Some e)) → tx_Rollback t w = (tt, w') →
    txstep (mkSys w runs) None (mkSys w' (delete t runs))
| tx_died w runs t p w' : runs !! t = Some p → tx_Rollback t w = (tt, w') →
    txstep (mkSys w runs) None (mkSys w' (delete t runs))
| tx_other w runs o w' : other w o w' → txstep (mkSys w runs) (LOther <$> o) (mkSys w' runs).
End Steps.

(** ** Traces and simulations *)

Section Traces.
Context {L : Type}.

Inductive ltrace {S : Type} (step : S → option L → S → Prop) : S → list L → S → Prop :=
| lt_nil s : ltrace step s [] s
| lt_step s l s' tr s'' : step s l s' → ltrace step s' tr s'' →
    ltrace step s (from_option (λ x, [x]) [] l ++ tr) s''.

Lemma ltrace_invariant {S} (step : S → option L → S → Prop) (I : S → Prop) s tr s' :
  (∀ s1 l s2, I s1 → step s1 l s2 → I s2) → ltrace step s tr s' → I s → I s'.
Proof. intros Hstep. induction 1; eauto. Qed.

(** A forward simulation carries traces over. *)
Lemma ltrace_simulation {S A} (step : S → option L → S → Prop) (astep : A → option L → A → Prop) (R : S → A → Prop) s tr s' :
  (∀ s1 l s2 a1, R s1 a1 → step s1 l s2 → ∃ a2, astep a1 l a2 ∧ R s2 a2) →
  ltrace step s tr s' → ∀ a, R s a → ∃ a', ltrace astep a tr a' ∧ R s' a'.
Proof.
  intros Hsim. induction 1 as [s|s l s1 tr s2 Hs _ IH]; intros a Ha; [exists a; by split; [constructor|]|].
  destruct (Hsim _ _ _ _ Ha Hs) as (a1 & Ha1 & HR). destruct (IH _ HR) as (a2 & Htr & HR2).
  exists a2. split; [by econstructor|done].
Qed.
End Traces.

(** ** Schedules, to run the interleaving *)

Inductive action : Type := Begin (t : Tid) | Run (t : Tid) | Kill (t : Tid).

Section Play.
Context {W D B O : Type} `{Env W, Table W D, TxTable W D} (body : Tid → prog D (B * option goerr)).

Definition play (a : action) (s : sys W D B) : option (option (label B O) * sys W D B) :=
  let w := sys_world s in let runs := sys_runs s in
  match a with
  | Begin t => match runs !! t with None => Some (None, mkSys w (<[t := body t]> runs)) | Some _ => None end
  | Run t =>
      match runs !! t with
      | Some (Return (b, None)) =>
          Some (match tx_Commit t w with
                | (None, w') => (Some (LDone t b), mkSys w' (delete t runs))
                | (Some _, w') => (None, mkSys w' (delete t runs))
                end)
      | Some (Return (b, Some e)) => Some (None, mkSys (snd (tx_Rollback t w)) (delete t runs))
      | Some p => match statement t p w with Some (l, p', w') => Some (l, mkSys w' (<[t := p']> runs)) | None => None end
      | None => None
      end
  | Kill t => match runs !! t with Some _ => Some (None, mkSys (snd (tx_Rollback t w)) (delete t runs)) | None => None end
  end.

Fixpoint plays (l : list action) (s : sys W D B) : option (list (label B O) * sys W D B) :=
  match l with
  | [] => Some ([], s)
  | a :: l =>
      match play a s with
      | Some (x, s') => match plays l s' with Some (tr, s'') => Some (from_option (λ y, [y]) [] x ++ tr, s'') | None => None end
      | None => None
      end
  end.

Lemma play_step (other : W → option O → W → Prop) a s x s' : play a s = Some (x, s') → txstep (λ t p, p = body t) other s x s'.
Proof.
  destruct s as [w runs]. destruct a as [t|t|t]; simpl; destruct (runs !! t) as [p|] eqn:Er; try done.
  - intros [= <- <-]. by constructor.
  - destruct p as [[b [e|]]|k|q k|p o k|p f k|r k].
    2:{ destruct (tx_Commit t w) as [[e|] w'] eqn:E; intros [= <- <-]; by econstructor. }
    1:{ destruct (tx_Rollback t w) as [[] w'] eqn:E. intros [= <- <-]. by eapply tx_rolled_back. }
    all: destruct (statement t _ w) as [[[l p'] w']|] eqn:E; [|done]; intros [= <- <-]; by eapply tx_statement.
  - destruct (tx_Rollback t w) as [[] w'] eqn:E. intros [= <- <-]. by eapply tx_died.
Qed.

Lemma plays_trace (other : W → option O → W → Prop) l s tr s' : plays l s = Some (tr, s') →
  ltrace (txstep (λ t p, p = body t) other) s tr s'.
Proof.
  revert s tr. induction l as [|a l IH]; intros s tr; simpl; [by intros [= <- <-]; constructor|].
  destruct (play a s) as [[x s1]|] eqn:Ep; [|done]. destruct (plays l s1) as [[tr1 s2]|] eqn:El; [|done]. intros [= <- <-].
  econstructor; [by eapply play_step|by apply IH].
Qed.
End Play.

(** ** What a statement leaves to the others *)

Section Locks.
Context {D : Type}.
Implicit Types (l : list (Row D)) (m : locks).

Lemma lock_all_in t l m id : id ∈ row_Id <$> l → lock_all t l m !! id = Some t.
Proof.
  induction l as [|r l IH]; [set_solver|]. rewrite fmap_cons, elem_of_cons. unfold lock_all. simpl. fold (lock_all t l m).
  rewrite lookup_insert. intros [->|Hid]; case_decide; auto; done.
Qed.

Lemma lock_all_out t l m id : id ∉ row_Id <$> l → lock_all t l m !! id = m !! id.
Proof.
  induction l as [|r l IH]; [done|]. rewrite fmap_cons, not_elem_of_cons. intros [Hne Hid]. unfold lock_all. simpl.
  fold (lock_all t l m). rewrite lookup_insert_ne by done. by apply IH.
Qed.

(** Nobody's lock is taken. *)
Lemma lock_all_other t t' l m id : t' ≠ t → (∀ r, r ∈ l → available t m (row_Id r)) →
  lock_all t l m !! id = Some t' ↔ m !! id = Some t'.
Proof.
  intros Ht Hav. destruct (decide (id ∈ row_Id <$> l)) as [Hin|Hout]; [|by rewrite lock_all_out].
  rewrite lock_all_in by done. apply list_elem_of_fmap in Hin as (r & -> & Hr). specialize (Hav r Hr).
  unfold available in Hav. split; [congruence|]. intros Hm. rewrite Hm in Hav. destruct Hav; congruence.
Qed.

Lemma unlock_lookup t m id t' : unlock t m !! id = Some t' ↔ m !! id = Some t' ∧ t' ≠ t.
Proof. unfold unlock. by rewrite map_lookup_filter_Some. Qed.
End Locks.

Section Frames.
Context {W D : Type} {hint : bool} `{TxSpec W D hint}.
Implicit Types (w : W) (r : Row D) (l : list (Row D)).

(** The uncommitted changes: each is to a row its transaction holds, or is a row
    nobody has, and no two transactions change the same row. *)
Definition tx_inv (w : W) : Prop :=
  ids_unique (tbl_rows (D := D) w) ∧
  (∀ t m id x, tx_changes w !! t = Some m → m !! id = Some x →
     row_Id x = id ∧ (tx_locks w !! id = Some t ∨ ¬ (id ∈ row_Id <$> tbl_rows (D := D) w))) ∧
  (∀ t1 t2 m1 m2 id, tx_changes w !! t1 = Some m1 → tx_changes w !! t2 = Some m2 → t1 ≠ t2 →
     is_Some (m1 !! id) → m2 !! id = None).

(** What transaction [t] relies on: its locks, its changes, the rows it holds. *)
Definition tx_frame (t : Tid) (w w' : W) : Prop :=
  (∀ id, tx_locks w' !! id = Some t ↔ tx_locks w !! id = Some t) ∧ tx_changes w' !! t = tx_changes w !! t ∧
  ∀ r : Row D, r ∈ tbl_rows w → tx_locks w !! row_Id r = Some t → r ∈ tbl_rows w'.

Definition tx_local (t : Tid) (w w' : W) : Prop := tx_inv w' ∧ ∀ t', t' ≠ t → tx_frame t' w w'.

Lemma same_frame w w' : tx_inv w → tbl_rows w' = tbl_rows w → tx_locks w' = tx_locks w → tx_changes w' = tx_changes w →
  tx_inv w' ∧ ∀ t, tx_frame t w w'.
Proof.
  intros Hi Hr Hl Hc. split; [unfold tx_inv; by rewrite Hr, Hl, Hc|].
  intros t. unfold tx_frame. rewrite Hr, Hl, Hc. by split_and!.
Qed.

Lemma same_local t w w' : tx_inv w → tbl_rows w' = tbl_rows w → tx_locks w' = tx_locks w → tx_changes w' = tx_changes w →
  tx_local t w w'.
Proof. intros Hi Hr Hl Hc. destruct (same_frame w w') as [? Hf]; [done..|]. split; auto. Qed.

(** Taking locks that are available. *)
Lemma lock_local t l w w' : tx_inv w → tbl_rows w' = tbl_rows w → tx_changes w' = tx_changes w →
  tx_locks w' = lock_all t l (tx_locks w) → (∀ r, r ∈ l → available t (tx_locks w) (row_Id r)) → tx_local t w w'.
Proof.
  intros (Hu & Hh & Hd) Hr Hc Hl Hav. split.
  - unfold tx_inv. rewrite Hr, Hc. split_and!; [done| |done]. intros t' m id x Hm Hx.
    destruct (Hh _ _ _ _ Hm Hx) as [Hid [Hlk|Hno]]; (split; [done|]); [left|by right]. rewrite Hl.
    destruct (decide (t' = t)) as [->|Hne]; [|by apply lock_all_other].
    destruct (decide (id ∈ row_Id <$> l)); [by apply lock_all_in|by rewrite lock_all_out].
  - intros t' Hne. unfold tx_frame. rewrite Hr, Hc, Hl. split_and!; [|done..]. intros id. by apply lock_all_other.
Qed.

Lemma rollback_local t w w' : tx_inv w → tbl_rows w' = tbl_rows w → tx_locks w' = unlock t (tx_locks w) →
  tx_changes w' = delete t (tx_changes w) → tx_local t w w'.
Proof.
  intros (Hu & Hh & Hd) Hr Hl Hc. split.
  - unfold tx_inv. rewrite Hr, Hc. split_and!; [done|..].
    + intros t' m id x (Hne & Hm)%lookup_delete_Some Hx. destruct (Hh _ _ _ _ Hm Hx) as [Hid [Hlk|Hno]]; (split; [done|]); [left|by right].
      rewrite Hl. apply unlock_lookup. by split.
    + intros t1 t2 m1 m2 id (_ & K1)%lookup_delete_Some (_ & K2)%lookup_delete_Some. by eapply Hd.
  - intros t' Hne. unfold tx_frame. rewrite Hr, Hl, Hc. split_and!; [|by rewrite lookup_delete_ne|done].
    intros id. rewrite unlock_lookup. naive_solver.
Qed.

Lemma now_local t w x w' : tx_inv w → now w = (x, w') → tx_local t w w'.
Proof. intros Hi (Hr & Hl & Hc)%tx_now. by apply same_local. Qed.

Lemma Find_available t q w l w' : tx_Find t q w = (Ok l, w') → tx_changes w !! t = None → total_order (q_order q) →
  ∀ r, r ∈ l → r ∈ tbl_rows w ∧ q_where q r = true ∧ available t (tx_locks w) (row_Id r).
Proof.
  intros E Hc Ho r Hr. apply tx_Find_ok in E as [(l' & Hp & _ & ->) _]; [|done..].
  assert (Hr' : r ∈ l').
  { unfold limit_rows in Hr. destruct (q_limit q); [|done]. by apply elem_of_take in Hr as (i & Hi%list_elem_of_lookup_2 & _). }
  rewrite Hp in Hr'. apply list_elem_of_filter in Hr' as [[K1 K2] K3]. by split_and!.
Qed.

Lemma Find_local t q w x w' : tx_inv w → tx_Find t q w = (x, w') → tx_changes w !! t = None → total_order (q_order q) →
  tx_local t w w'.
Proof.
  intros Hi E Hc Ho. destruct x as [l|e].
  - pose proof (Find_available _ _ _ _ _ E Hc Ho) as Hav. apply tx_Find_ok in E as (_ & Hr & Hl & Hc'); [|done..].
    apply (lock_local t l); [done..|]. intros r Hr'. by apply Hav.
  - apply tx_Find_err in E as (Hr & Hl & Hc'). by apply same_local.
Qed.

Lemma First_local t p o w x w' : tx_inv w → tx_First t p o w = (x, w') → tx_changes w !! t = None → tx_local t w w'.
Proof.
  intros Hi E Hc. destruct x as [r|e].
  - apply tx_First_ok in E as (_ & _ & Hr & Hc' & Hl & Hl'); [|done].
    destruct (Bool.bool_dec hint true) as [Eh|Eh%not_true_is_false]; [|by apply same_local; auto].
    destruct (Hl Eh) as [Hav Hl1]. apply (lock_local t [r]); [done..|].
    by intros r' ->%list_elem_of_singleton.
  - apply tx_First_err in E as (_ & Hr & Hl & Hc'). by apply same_local.
Qed.

Lemma hits_lookup p f w id x : ids_unique (tbl_rows (D := D) w) →
  kview row_Id (update_row p f) (hits p (tbl_rows w)) !! id = Some x ↔
  ∃ r, r ∈ tbl_rows w ∧ p r = true ∧ row_Id r = id ∧ x = update_row p f r.
Proof.
  intros Hu. rewrite kview_lookup; [|by apply ids_unique_filter]. unfold hits.
  split; [intros (r & [Hp Hr]%list_elem_of_filter & Hid & ->)|intros (r & Hr & Hp & Hid & ->)]; exists r.
  - by split_and!.
  - by rewrite list_elem_of_filter.
Qed.

Lemma Updates_local t p f w x w' : tx_inv w → tx_Updates t p f w = (x, w') → tx_changes w !! t = None → tx_local t w w'.
Proof.
  intros Hi E Hc. destruct x as [n|e]; [|apply tx_Updates_err in E as (Hr & Hl & Hc'); by apply same_local].
  apply tx_Updates_ok in E as (Hav & Hr & Hl & Hc'); [|done]. destruct Hi as (Hu & Hh & Hd). split.
  - unfold tx_inv. rewrite Hr, Hc'. split_and!; [done|..].
    + intros t' m id y. rewrite lookup_insert. case_decide as Ht.
      * intros [= <-] (r & Hin & Hp & <- & ->)%hits_lookup; [|done]. rewrite update_row_Id. split; [done|]. left. subst t'.
        rewrite Hl. apply lock_all_in, list_elem_of_fmap_2. by apply list_elem_of_filter.
      * intros Hm Hy. destruct (Hh _ _ _ _ Hm Hy) as [Hid [Hlk|Hno]]; (split; [done|]); [left|by right].
        rewrite Hl. by apply lock_all_other.
    + intros t1 t2 m1 m2 id. rewrite !lookup_insert. do 2 case_decide; subst.
      * intros _ _ ?; done.
      * intros [= <-] K2 _ [y (r & Hin & Hp & <- & _)%hits_lookup]; [|done]. destruct (m2 !! row_Id r) as [z|] eqn:Ez; [|done].
        exfalso. destruct (Hh _ _ _ _ K2 Ez) as [_ [Hlk|Hno]]; [|by apply Hno, list_elem_of_fmap_2].
        destruct (Hav r) as [Ha|Ha]; [by apply list_elem_of_filter| |]; congruence.
      * intros K1 [= <-] _ [z Ez]. apply eq_None_not_Some. intros [y (r & Hin & Hp & <- & _)%hits_lookup]; [|done].
        destruct (Hh _ _ _ _ K1 Ez) as [_ [Hlk|Hno]]; [|by apply Hno, list_elem_of_fmap_2].
        destruct (Hav r) as [Ha|Ha]; [by apply list_elem_of_filter| |]; congruence.
      * by apply Hd.
  - intros t' Hne. unfold tx_frame. rewrite Hr, Hc', Hl. split_and!; [|by rewrite lookup_insert_ne|done].
    intros id. by apply lock_all_other.
Qed.

Lemma Create_local t r w x w' : tx_inv w → tx_Create t r w = (x, w') → tx_changes w !! t = None → tx_local t w w'.
Proof.
  intros Hi E Hc. destruct x as [r'|e]; [|apply tx_Create_err in E as (Hr & Hl & Hc'); by apply same_local].
  apply tx_Create_ok in E as (_ & Hnew & Hfr & Hr & Hl & Hc'); [|done]. destruct Hi as (Hu & Hh & Hd). split.
  - unfold tx_inv. rewrite Hr, Hl, Hc'. split_and!; [done|..].
    + intros t' m id y. rewrite lookup_insert. case_decide as Ht; [|by apply Hh].
      intros [= <-] [<- <-]%lookup_singleton_Some. split; [done|by right].
    + intros t1 t2 m1 m2 id. rewrite !lookup_insert. do 2 case_decide; subst.
      * intros _ _ ?; done.
      * intros [= <-] K2 _ [y [<- <-]%lookup_singleton_Some]. by eapply Hfr.
      * intros K1 [= <-] _ [z Ez]. apply lookup_singleton_None. intros <-. rewrite (Hfr _ _ K1) in Ez. done.
      * by apply Hd.
  - intros t' Hne. unfold tx_frame. rewrite Hr, Hl, Hc'. split_and!; [done|by rewrite lookup_insert_ne|done].
Qed.

(** The rows after a commit. *)
Lemma commit_rows t w w' : tx_inv w → tx_Commit t w = (None, w') → ∀ r, r ∈ tbl_rows w' ↔
  default ∅ (tx_changes w !! t) !! row_Id r = Some r ∨
  (default ∅ (tx_changes w !! t) !! row_Id r = None ∧ r ∈ tbl_rows w).
Proof.
  intros (Hu & _) E r. apply tx_Commit_ok in E as (Hu' & Hv & _ & _); [|done].
  assert (Hin : ∀ l (x : Row D), ids_unique l → x ∈ l ↔ kview row_Id id l !! row_Id x = Some x).
  { intros l x Hl. rewrite kview_lookup by done. split; [by exists x|]. intros (y & Hy & _ & ->). done. }
  rewrite (Hin (tbl_rows w')), (Hin (tbl_rows w)), Hv by done. rewrite lookup_union.
  destruct (default ∅ _ !! row_Id r), (kview row_Id id _ !! row_Id r); simpl; naive_solver.
Qed.

Lemma Commit_local t w w' : tx_inv w → tx_Commit t w = (None, w') → tx_local t w w'.
Proof.
  intros Hi E. pose proof (commit_rows _ _ _ Hi E) as Hrows. destruct Hi as (Hu & Hh & Hd).
  apply tx_Commit_ok in E as (Hu' & _ & Hl & Hc); [|done].
  assert (Hkeep : ∀ t', t' ≠ t → ∀ r, r ∈ tbl_rows w → tx_locks w !! row_Id r = Some t' → r ∈ tbl_rows w').
  { intros t' Hne r Hr Hlk. apply Hrows. right. split; [|done]. destruct (tx_changes w !! t) as [m|] eqn:Em; [|done]. simpl.
    apply eq_None_not_Some. intros [x Hx]. destruct (Hh _ _ _ _ Em Hx) as [_ [Hlk'|Hno]]; [congruence|].
    by apply Hno, list_elem_of_fmap_2. }
  split.
  - unfold tx_inv. rewrite Hc. split_and!; [done|..].
    + intros t' m id x (Hne & Hm)%lookup_delete_Some Hx. destruct (Hh _ _ _ _ Hm Hx) as [Hid [Hlk|Hno]]; (split; [done|]).
      * left. rewrite Hl. by apply unlock_lookup.
      * right. intros (r & -> & Hr)%list_elem_of_fmap. apply Hrows in Hr as [Hr|[_ Hr]]; [|by apply Hno, list_elem_of_fmap_2].
        destruct (tx_changes w !! t) as [m'|] eqn:Em'; [|done]. simpl in Hr.
        assert (m !! row_Id r = None) by (eapply (Hd t t'); eauto). congruence.
    + intros t1 t2 m1 m2 id (_ & K1)%lookup_delete_Some (_ & K2)%lookup_delete_Some. by eapply Hd.
  - intros t' Hne. unfold tx_frame. rewrite Hl, Hc. split_and!; [|by rewrite lookup_delete_ne|by apply Hkeep].
    intros id. rewrite unlock_lookup. naive_solver.
Qed.

(** An update by primary key of a row the transaction holds. *)
Lemma Updates_by_id t r f w n w' : ids_unique (tbl_rows (D := D) w) → tx_Updates t (by_id (row_Id r)) f w = (Ok n, w') →
  tx_changes w !! t = None → r ∈ tbl_rows w → tx_locks w !! row_Id r = Some t →
  tbl_rows w' = tbl_rows w ∧ tx_locks w' = tx_locks w ∧
  tx_changes w' !! t = Some {[row_Id r := mkRow (row_Id r) (row_CreatedAt r) (f (row_data r))]}.
Proof.
  intros Hu E Hc Hin Hlk. apply tx_Updates_ok in E as (_ & Er & El & Ec); [|done].
  assert (Hid : by_id (row_Id r) r = true) by apply String.eqb_refl. split_and!; [done|..].
  - rewrite El. apply map_eq. intros id. destruct (decide (id ∈ row_Id <$> hits (by_id (row_Id r)) (tbl_rows w))) as [Hh|Hh].
    + rewrite lock_all_in by done. apply list_elem_of_fmap in Hh as (r' & -> & [Hr' _]%list_elem_of_filter).
      apply String.eqb_eq in Hr'. by rewrite Hr'.
    + by rewrite lock_all_out.
  - rewrite Ec, lookup_insert_eq. f_equal. apply map_eq. intros id.
    apply option_eq. intros x. rewrite hits_lookup, lookup_singleton_Some by done. split.
    + intros (r' & Hr' & Hp%String.eqb_eq & <- & ->). rewrite (ids_unique_eq (tbl_rows w) r' r) by done.
      split; [done|]. unfold update_row. by rewrite Hid.
    + intros [<- <-]. exists r. split_and!; [done..|]. unfold update_row. by rewrite Hid.
Qed.

(** An update by primary key. *)
Lemma Updates_row t x f w n w' : ids_unique (tbl_rows (D := D) w) → tx_Updates t (by_id (row_Id x)) f w = (Ok n, w') →
  tx_changes w !! t = None → x ∈ tbl_rows w →
  tbl_rows w' = tbl_rows w ∧ tx_locks w' !! row_Id x = Some t ∧
  tx_changes w' !! t = Some {[row_Id x := mkRow (row_Id x) (row_CreatedAt x) (f (row_data x))]}.
Proof.
  intros Hu E Hc Hin. apply tx_Updates_ok in E as (_ & Er & El & Ec); [|done].
  assert (Hid : by_id (row_Id x) x = true) by apply String.eqb_refl. split_and!; [done|..].
  - rewrite El. apply lock_all_in, list_elem_of_fmap_2. by apply list_elem_of_filter.
  - rewrite Ec, lookup_insert_eq. f_equal. apply map_eq. intros id.
    apply option_eq. intros y. rewrite hits_lookup, lookup_singleton_Some by done. split.
    + intros (r' & Hr' & Hp%String.eqb_eq & <- & ->). rewrite (ids_unique_eq (tbl_rows w) r' x) by done.
      split; [done|]. unfold update_row. by rewrite Hid.
    + intros [<- <-]. exists x. split_and!; [done..|]. unfold update_row. by rewrite Hid.
Qed.

(** Statements outside a transaction. *)
Lemma auto_Create_frame ctx r w x w' : tx_inv w → tbl_Create ctx r w = (x, w') → tx_inv w' ∧ ∀ t, tx_frame t w w'.
Proof.
  intros Hi E. pose proof (auto_Create _ _ _ _ _ E) as (Hl & Hc & Hfr).
  destruct x as [r'|e]; [|apply Create_err in E; by apply same_frame].
  destruct Hi as (Hu & Hh & Hd).
  apply Create_ok in E as (Hnew & _ & _ & _ & Hp). split.
  - unfold tx_inv. rewrite Hl, Hc. split_and!; [| |done].
    + eapply ids_unique_perm; [symmetry; exact Hp|]. unfold ids_unique. rewrite fmap_cons. by apply NoDup_cons.
    + intros t m id y Hm Hy. destruct (Hh _ _ _ _ Hm Hy) as [Hid [Hlk|Hno]]; (split; [done|]); [by left|right].
      rewrite Hp, fmap_cons, elem_of_cons. intros [->|Hin]; [|done]. specialize (Hfr _ eq_refl _ _ Hm). congruence.
  - intros t. unfold tx_frame. rewrite Hl, Hc. split_and!; [done..|]. intros r0 Hr0 _. rewrite Hp. by right.
Qed.

Lemma auto_Updates_frame ctx p f w x w' : tx_inv w → tbl_Updates ctx p f w = (x, w') → tx_inv w' ∧ ∀ t, tx_frame t w w'.
Proof.
  intros Hi E. pose proof (auto_Updates _ _ _ _ _ _ E) as (Hl & Hc & Hfr).
  destruct x as [n|e]; [|apply Updates_err in E; by apply same_frame].
  destruct Hi as (Hu & Hh & Hd).
  apply Updates_ok in E as (_ & Hp). split.
  - unfold tx_inv. rewrite Hl, Hc. split_and!; [| |done].
    + eapply ids_unique_perm; [symmetry; exact Hp|]. by apply ids_unique_update.
    + intros t m id y Hm Hy. rewrite Hp, kview_keys_update by apply update_row_Id. by eapply Hh.
  - intros t. unfold tx_frame. rewrite Hl, Hc. split_and!; [done..|]. intros r Hr Hlk. rewrite Hp.
    apply list_elem_of_fmap. exists r. split; [|done]. unfold update_row. destruct (p r) eqn:Ep; [|done].
    rewrite (Hfr n) in Hlk; [done..|]. by apply list_elem_of_filter.
Qed.

Lemma auto_Delete_frame ctx p w x w' : tx_inv w → tbl_Delete ctx p w = (x, w') → tx_inv w' ∧ ∀ t, tx_frame t w w'.
Proof.
  intros Hi E. pose proof (auto_Delete _ _ _ _ _ E) as (Hl & Hc & Hfr).
  destruct x as [n|e]; [|apply Delete_err in E; by apply same_frame].
  destruct Hi as (Hu & Hh & Hd).
  apply Delete_ok in E as (_ & Hp). split.
  - unfold tx_inv. rewrite Hl, Hc. split_and!; [| |done].
    + eapply ids_unique_perm; [symmetry; exact Hp|]. by apply ids_unique_filter.
    + intros t m id y Hm Hy. destruct (Hh _ _ _ _ Hm Hy) as [Hid [Hlk|Hno]]; (split; [done|]); [by left|right].
      rewrite Hp. intros (r & -> & [_ Hr]%list_elem_of_filter)%list_elem_of_fmap. by apply Hno, list_elem_of_fmap_2.
  - intros t. unfold tx_frame. rewrite Hl, Hc. split_and!; [done..|]. intros r Hr Hlk. rewrite Hp.
    apply list_elem_of_filter. split; [|done]. destruct (p r) eqn:Ep; [|done].
    rewrite (Hfr n) in Hlk; [done..|]. by apply list_elem_of_filter.
Qed.
End Frames.

(** ** Unique keys under interleaving *)

Section Keys.
Context {W D K : Type} {hint : bool} `{TxSpec W D hint, Countable K} (key : D → K) `{!TxUnique W D K key}.
Implicit Types (w : W) (r x : Row D).

(** The row [x] is an uncommitted change of [t]. *)
Definition changing (w : W) (t : Tid) (x : Row D) : Prop := ∃ m id, tx_changes w !! t = Some m ∧ m !! id = Some x.

(** A key has one row, or one uncommitted insert: the changes are new versions
    of rows under their old key, or rows with a key nobody has. *)
Definition key_inv (w : W) : Prop :=
  (∀ r1 r2, r1 ∈ tbl_rows w → r2 ∈ tbl_rows w → key (row_data r1) = key (row_data r2) → r1 = r2) ∧
  (∀ t x, changing w t x →
     (∃ r, r ∈ tbl_rows w ∧ row_Id r = row_Id x ∧ key (row_data r) = key (row_data x)) ∨
     (∀ r, r ∈ tbl_rows w → key (row_data r) ≠ key (row_data x))) ∧
  (∀ t1 t2 x1 x2, changing w t1 x1 → changing w t2 x2 → key (row_data x1) = key (row_data x2) → t1 = t2 ∧ x1 = x2).

Lemma key_inv_same w w' : tbl_rows w' = tbl_rows w → (∀ t x, changing w' t x → changing w t x) → key_inv w → key_inv w'.
Proof. intros Hr Hc (K1 & K2 & K3). unfold key_inv. rewrite Hr. split_and!; eauto. Qed.

Lemma changing_delete w w' t : tx_changes w' = delete t (tx_changes w) → ∀ t' x, changing w' t' x → changing w t' x ∧ t' ≠ t.
Proof.
  intros Hc t' x (m & id & Hm & Hx). rewrite Hc in Hm. apply lookup_delete_Some in Hm as [Hne Hm].
  split; [|done]. by exists m, id.
Qed.

Lemma changing_insert w w' t m : tx_changes w' = <[t := m]> (tx_changes w) → ∀ t' x, changing w' t' x →
  (t' = t ∧ ∃ id, m !! id = Some x) ∨ (t' ≠ t ∧ changing w t' x).
Proof.
  intros Hc t' x (m' & id & Hm & Hx). rewrite Hc in Hm. apply lookup_insert_Some in Hm as [[<- <-]|[Hne Hm]].
  - left. eauto.
  - right. split; [done|]. by exists m', id.
Qed.

(** An update that leaves the key alone. *)
Lemma key_Updates t p f w n w' : tx_inv w → key_inv w → tx_Updates t p f w = (Ok n, w') → tx_changes w !! t = None →
  (∀ d, key (f d) = key d) → key_inv w'.
Proof.
  intros (Hu & Hh & _) (K1 & K2 & K3) E Hc Hf. apply tx_Updates_ok in E as (Hav & Hr & _ & Hc'); [|done].
  assert (Hkey : ∀ r, key (row_data (update_row p f r)) = key (row_data r)) by (intros r; unfold update_row; by destruct (p r); simpl).
  assert (Hnew : ∀ t' x, changing w' t' x → (t' = t ∧ ∃ r, r ∈ tbl_rows w ∧ p r = true ∧ x = update_row p f r) ∨ (t' ≠ t ∧ changing w t' x)).
  { intros t' x [[-> [id Hx]]|?]%(changing_insert _ _ _ _ Hc'); [left|by right]. apply hits_lookup in Hx as (r & ? & ? & _ & ?); [|done].
    split; [done|]. by exists r. }
  assert (Hclash : ∀ t' x r, t' ≠ t → changing w t' x → r ∈ tbl_rows w → p r = true → key (row_data x) ≠ key (row_data r)).
  { intros t' x r Hne Hx Hin Hp Hk. destruct (K2 _ _ Hx) as [(r0 & Hr0 & Hid & Hk0)|Hno]; [|by destruct (Hno r Hin)].
    assert (r0 = r) as -> by (apply K1; congruence). destruct Hx as (m & id & Hm & Hx).
    destruct (Hh _ _ _ _ Hm Hx) as [Hid' [Hlk|Hno]].
    - destruct (Hav r) as [Ha|Ha]; [by apply list_elem_of_filter| |]; congruence.
    - apply Hno. rewrite <-Hid', <-Hid. by apply list_elem_of_fmap_2. }
  unfold key_inv. rewrite Hr. split_and!; [done|..].
  - intros t' x [(-> & r & Hin & Hp & ->)|[_ Hx]]%Hnew; [|by eapply K2]. left. exists r.
    by rewrite update_row_Id, Hkey.
  - intros t1 t2 x1 x2 [(-> & r1 & Hin1 & Hp1 & ->)|[Hne1 Hx1]]%Hnew [(-> & r2 & Hin2 & Hp2 & ->)|[Hne2 Hx2]]%Hnew; rewrite ?Hkey; intros Hk.
    + split; [done|]. f_equal. by apply K1.
    + by destruct (Hclash t2 x2 r1 Hne2 Hx2 Hin1 Hp1).
    + by destruct (Hclash t1 x1 r2 Hne1 Hx1 Hin2 Hp2).
    + by apply K3.
Qed.

Lemma key_Create t r w r' w' : key_inv w → tx_Create t r w = (Ok r', w') → tx_changes w !! t = None → key_inv w'.
Proof.
  intros (K1 & K2 & K3) E Hc. pose proof (tx_unique _ _ _ _ _ E) as [U1 U2].
  apply tx_Create_ok in E as (Hd & _ & _ & Hr & _ & Hc'); [|done].
  assert (Hnew : ∀ t' x, changing w' t' x → (t' = t ∧ x = r') ∨ (t' ≠ t ∧ changing w t' x)).
  { intros t' x [[-> [id Hx]]|?]%(changing_insert _ _ _ _ Hc'); [left|by right]. by apply lookup_singleton_Some in Hx as [_ ->]. }
  unfold key_inv. rewrite Hr. split_and!; [done|..].
  - intros t' x [[-> ->]|[_ Hx]]%Hnew; [|by eapply K2]. right. rewrite Hd. exact U1.
  - intros t1 t2 x1 x2 [[-> ->]|[Hne1 Hx1]]%Hnew [[-> ->]|[Hne2 Hx2]]%Hnew Hk; [done|..|by apply K3].
    + destruct Hx2 as (m & id & Hm & Hx2). destruct (U2 _ _ _ _ Hm Hx2). by rewrite <-Hk, Hd.
    + destruct Hx1 as (m & id & Hm & Hx1). destruct (U2 _ _ _ _ Hm Hx1). by rewrite Hk, Hd.
Qed.

Lemma key_Commit t w w' : tx_inv w → key_inv w → tx_Commit t w = (None, w') → key_inv w'.
Proof.
  intros Hi (K1 & K2 & K3) E. pose proof (commit_rows _ _ _ Hi E) as Hrows. destruct Hi as (Hu & Hh & Hd).
  apply tx_Commit_ok in E as (_ & _ & _ & Hc); [|done].
  assert (Hin : ∀ r, r ∈ tbl_rows w' → changing w t r ∨ (r ∈ tbl_rows w ∧ ∀ x, changing w t x → row_Id x ≠ row_Id r)).
  { intros r [Hr|[Hn Hr]]%Hrows; destruct (tx_changes w !! t) as [m|] eqn:Em; simpl in *; try done.
    - left. by exists m, (row_Id r).
    - right. split; [done|]. intros x (m' & id & Hm' & Hx) Hid. rewrite Em in Hm'. injection Hm' as <-.
      destruct (Hh _ _ _ _ Em Hx) as [Hid' _]. congruence.
    - right. split; [done|]. intros x (m' & id & Hm' & _). congruence. }
  split_and!.
  - intros r1 r2 [Hx1|[Hr1 Hn1]]%Hin [Hx2|[Hr2 Hn2]]%Hin Hk; [by apply (K3 t t)|..|by apply K1].
    + exfalso. destruct (K2 _ _ Hx1) as [(r & Hr & Hid & Hk')|Hno]; [|by apply (Hno r2)].
      assert (r = r2) as -> by (apply K1; congruence). by apply (Hn2 r1).
    + exfalso. destruct (K2 _ _ Hx2) as [(r & Hr & Hid & Hk')|Hno]; [|by apply (Hno r1)].
      assert (r = r1) as -> by (apply K1; congruence). by apply (Hn1 r2).
  - intros t' x [Hx Hne]%(changing_delete _ _ _ Hc). destruct (K2 _ _ Hx) as [(r & Hr & Hid & Hk)|Hno].
    + left. exists r. split; [|done]. apply Hrows. right. split; [|done].
      destruct (tx_changes w !! t) as [m|] eqn:Em; [|done]. simpl. destruct Hx as (m' & id & Hm' & Hx).
      destruct (Hh _ _ _ _ Hm' Hx) as [Hid' _]. rewrite Hid, Hid'. by eapply (Hd t' t).
    + right. intros r [Hx2|[Hr _]]%Hin; [|by apply Hno]. intros Hk. by destruct (K3 _ _ _ _ Hx2 Hx Hk).
  - intros t1 t2 x1 x2 [Hx1 _]%(changing_delete _ _ _ Hc) [Hx2 _]%(changing_delete _ _ _ Hc). by apply K3.
Qed.

Lemma key_inv_NoDup w : ids_unique (tbl_rows (D := D) w) → key_inv w → NoDup ((λ r, key (row_data r)) <$> tbl_rows w).
Proof.
  intros Hu (K1 & _). apply NoDup_fmap_2_strong; [|by apply (NoDup_fmap_1 row_Id)].
  intros x y Hx Hy. by apply K1.
Qed.

(** The table by key after the commit of one change, to a row there is or of a
    new row. *)
Lemma commit_one t x w w' : tx_inv w → key_inv w → tx_changes w !! t = Some {[row_Id x := x]} → tx_Commit t w = (None, w') →
  (∃ r, r ∈ tbl_rows w ∧ row_Id r = row_Id x ∧ key (row_data r) = key (row_data x)) ∨ ¬ (row_Id x ∈ row_Id <$> tbl_rows (D := D) w) →
  kview (λ r, key (row_data r)) row_data (tbl_rows w') =
  <[key (row_data x) := row_data x]> (kview (λ r, key (row_data r)) row_data (tbl_rows w)).
Proof.
  intros Hi Hk Hc E Hsame. pose proof (commit_rows _ _ _ Hi E) as Hrows. rewrite Hc in Hrows. simpl in Hrows.
  assert (Hx : changing w t x) by (exists {[row_Id x := x]}, (row_Id x); by rewrite lookup_singleton_eq).
  pose proof (key_Commit _ _ _ Hi Hk E) as Hk'. destruct Hi as (Hu & _).
  pose proof (tx_Commit_ok _ _ _ E Hu) as (Hu' & _).
  assert (Hold : ∀ r, r ∈ tbl_rows w → row_Id r = row_Id x ↔ key (row_data r) = key (row_data x)).
  { intros r Hr. pose proof Hk as (K1 & K2 & _). destruct Hsame as [(r0 & Hr0 & Hid & Hk0)|Hnew].
    - split; intros He.
      + rewrite (ids_unique_eq (tbl_rows w) r r0) by congruence. done.
      + rewrite (K1 r r0) by congruence. done.
    - assert (Hne : ∀ r, r ∈ tbl_rows w → row_Id r ≠ row_Id x) by (intros r' Hr' He; apply Hnew; rewrite <-He; by apply list_elem_of_fmap_2).
      split; intros He; [by destruct (Hne r)|]. destruct (K2 _ _ Hx) as [(r0 & Hr0 & Hid & _)|Hno]; [by destruct (Hne r0)|by destruct (Hno r)]. }
  assert (Hin : ∀ r, r ∈ tbl_rows w' ↔ r = x ∨ (r ∈ tbl_rows w ∧ row_Id r ≠ row_Id x)).
  { intros r. rewrite Hrows, lookup_singleton_Some, lookup_singleton_None. naive_solver. }
  apply map_eq. intros k. apply option_eq. intros d. rewrite lookup_insert_Some.
  rewrite !kview_lookup by (by apply key_inv_NoDup). setoid_rewrite Hin. split.
  - intros (r & [->|[Hr Hne]] & <- & ->); [by left|right]. split; [|by exists r]. intros He. by apply Hne, Hold.
  - intros [[<- <-]|(Hne & r & Hr & <- & ->)]; [by exists x; auto|]. exists r. split_and!; [|done..]. right. split; [done|].
    intros He. by apply Hne; symmetry; apply Hold.
Qed.
End Keys.

(** ** An executable instance

    Rows, locks and uncommitted changes in a record; a statement that would have
    to wait for another transaction fails, as under a lock timeout. *)
Module ListTx.
Record TxW (D : Type) := mkTxW { tw_now : Time; tw_rows : list (Row D); tw_locks : locks; tw_changes : changes D }.
Arguments mkTxW {D} _ _ _ _.
Arguments tw_now {D} _.
Arguments tw_rows {D} _.
Arguments tw_locks {D} _.
Arguments tw_changes {D} _.

Definition lock_timeout : goerr := PgError "55P03".

Section Instances.
Context {D : Type} `{ListTable.Conflicts D}.
Implicit Types (w : TxW D) (r x : Row D).

#[global] Instance tw_env : Env (TxW D) := { env_metrics := unread; now w := (tw_now w, w); uuid_NewString := ret "u" }.
#[global] Program Instance tw_has : Has (TxW D) (list (Row D)) :=
  { getS := tw_rows; setS l w := mkTxW (tw_now w) l (tw_locks w) (tw_changes w) }.
Next Obligation. done. Qed.

Definition free_of_locks (p : Row D → bool) w : bool :=
  forallb (λ r, bool_decide (tw_locks w !! row_Id r = None)) (hits p (tw_rows w)).

Definition auto_insert ctx r : M (TxW D) (res (Row D)) := λ w,
  match lift (ListTable.Create ctx r) w with
  | (Ok r', w') => if decide (map_Forall (λ _ m, m !! row_Id r' = None) (tw_changes w)) then (Ok r', w') else (Err lock_timeout, w)
  | (Err e, w') => (Err e, w')
  end.

#[global] Instance tw_table : Table (TxW D) D := {
  tbl_Create := auto_insert;
  tbl_First ctx p o := lift (ListTable.First ctx p o);
  tbl_Find ctx q := lift (ListTable.Find ctx q);
  tbl_Updates ctx p f := λ w, if free_of_locks p w then lift (ListTable.Updates ctx p f) w else (Err lock_timeout, w);
  tbl_Delete ctx p := λ w, if free_of_locks p w then lift (ListTable.Delete ctx p) w else (Err lock_timeout, w);
}.

#[global] Program Instance tw_table_spec : TableSpec (TxW D) D := { tbl_rows := tw_rows }.
Next Obligation.
  intros ctx r w r' w'. simpl. unfold auto_insert. destruct (lift _ w) as [[x|e] w1] eqn:E; [|done].
  case_decide; [|done]. intros [= <- <-]. exact (Create_ok (TableSpec := ListTable.table_spec) ctx r w x w1 E).
Qed.
Next Obligation.
  intros ctx r w e w'. simpl. unfold auto_insert. destruct (lift _ w) as [[x|e'] w1] eqn:E; [by case_decide; intros [= _ <-]|].
  intros [= _ <-]. exact (Create_err (TableSpec := ListTable.table_spec) ctx r w e' w1 E).
Qed.
Next Obligation. intros ctx p o w r w' E. exact (First_ok (TableSpec := ListTable.table_spec) ctx p o w r w' E). Qed.
Next Obligation. intros ctx p o w e w' E. exact (First_missing (TableSpec := ListTable.table_spec) ctx p o w e w' E). Qed.
Next Obligation. intros ctx p o w x w' E. exact (First_frame (TableSpec := ListTable.table_spec) ctx p o w x w' E). Qed.
Next Obligation. intros ctx q w l w' E. exact (Find_ok (TableSpec := ListTable.table_spec) ctx q w l w' E). Qed.
Next Obligation. intros ctx q w x w' E. exact (Find_frame (TableSpec := ListTable.table_spec) ctx q w x w' E). Qed.
Next Obligation. intros ctx p f w n w'. simpl. destruct (free_of_locks p w); [|done]. exact (Updates_ok (TableSpec := ListTable.table_spec) ctx p f w n w'). Qed.
Next Obligation. intros ctx p f w e w'. simpl. destruct (free_of_locks p w); [by intros [=]|by intros [= _ <-]]. Qed.
Next Obligation. intros ctx p w n w'. simpl. destruct (free_of_locks p w); [|done]. exact (Delete_ok (TableSpec := ListTable.table_spec) ctx p w n w'). Qed.
Next Obligation. intros ctx p w e w'. simpl. destruct (free_of_locks p w); [by intros [=]|by intros [= _ <-]]. Qed.
Next Obligation. intros A i m w a w'. exact (Transaction_ok (TableSpec := ListTable.table_spec) A i m w a w'). Qed.
Next Obligation. intros A i m w a e w'. exact (Transaction_err (TableSpec := ListTable.table_spec) A i m w a e w'). Qed.

(** Inside a transaction. *)
Definition put_locks (m : locks) w : TxW D := mkTxW (tw_now w) (tw_rows w) m (tw_changes w).
Definition put_changes (t : Tid) (m : gmap string (Row D)) w : TxW D :=
  mkTxW (tw_now w) (tw_rows w) (tw_locks w) (<[t := m]> (tw_changes w)).
Definition drop_tx (l : list (Row D)) (t : Tid) w : TxW D :=
  mkTxW (tw_now w) l (unlock t (tw_locks w)) (delete t (tw_changes w)).

Definition find_rows t (q : Query D) : M (TxW D) (res (list (Row D))) := λ w,
  let l := limit_rows (q_limit q) (sort_by (q_order q)
    (filter (λ r, q_where q r = true ∧ available t (tw_locks w) (row_Id r)) (tw_rows w))) in
  (Ok l, put_locks (lock_all t l (tw_locks w)) w).

Definition first_row_of (hint : bool) t p (o : Row D → Row D → bool) : M (TxW D) (res (Row D)) := λ w,
  match sort_by o (hits p (tw_rows w)) with
  | [] => (Err ErrRecordNotFound, w)
  | r :: _ =>
      if hint then
        if decide (available t (tw_locks w) (row_Id r)) then (Ok r, put_locks (<[row_Id r := t]> (tw_locks w)) w) else (Err lock_timeout, w)
      else (Ok r, w)
  end.

Definition update_rows t p (f : D → D) : M (TxW D) (res Z) := λ w,
  let l := hits p (tw_rows w) in
  if decide (Forall (λ r, available t (tw_locks w) (row_Id r)) l)
  then (Ok (Z.of_nat (length l)), put_changes t (kview row_Id (update_row p f) l) (put_locks (lock_all t l (tw_locks w)) w))
  else (Err lock_timeout, w).

(** The rows of uncommitted changes. *)
Definition pending w : list (Row D) := map_to_list (tw_changes w) ≫= λ c, snd <$> map_to_list c.2.

Definition insert_row t r : M (TxW D) (res (Row D)) := λ w,
  let all := tw_rows w ++ pending w in
  let id := ListTable.new_id all (row_Id r) in
  if decide (id ∈ row_Id <$> all ∨ map_Exists (λ _ m, is_Some (m !! id)) (tw_changes w)) then (Err ListTable.ErrDuplicate, w)
  else if existsb (λ x, ListTable.conflicts (row_data r) (row_data x)) all then (Err ListTable.ErrDuplicate, w)
  else let r' := mkRow id (row_CreatedAt r) (row_data r) in (Ok r', put_changes t {[id := r']} w).

Definition commit_changes t : M (TxW D) (option goerr) := λ w,
  let m := default ∅ (tw_changes w !! t) in
  if decide (map_Forall (λ id r, row_Id r = id) m)
  then (None, drop_tx (snd <$> map_to_list (m ∪ kview row_Id id (tw_rows w))) t w)
  else (Some (ErrNew "corrupt"), drop_tx (tw_rows w) t w).

Definition statements (hint : bool) : TxTable (TxW D) D := {|
  tx_Find := find_rows; tx_First := first_row_of hint; tx_Updates := update_rows; tx_Create := insert_row;
  tx_Commit := commit_changes; tx_Rollback t := λ w, (tt, drop_tx (tw_rows w) t w);
|}.

Lemma keyed_list (m : gmap string (Row D)) : map_Forall (λ id r, row_Id r = id) m →
  ids_unique (snd <$> map_to_list m) ∧ kview row_Id id (snd <$> map_to_list m) = m.
Proof.
  intros Hm.
  assert (Hk : (λ r, (row_Id r, id r)) <$> (snd <$> map_to_list m) = map_to_list m).
  { rewrite <-list_fmap_compose. rewrite <-(list_fmap_id (map_to_list m)) at 2. apply list_fmap_ext.
    intros i [k r] Hi. simpl. apply list_elem_of_lookup_2, elem_of_map_to_list, Hm in Hi. by rewrite Hi. }
  split; [|unfold kview; rewrite Hk; apply list_to_map_to_list].
  unfold ids_unique. assert (row_Id <$> (snd <$> map_to_list m) = fst <$> map_to_list m) as ->; [|apply NoDup_fst_map_to_list].
  transitivity (fst <$> ((λ r, (row_Id r, id r)) <$> (snd <$> map_to_list m))); [|by rewrite Hk].
  by rewrite <-(list_fmap_compose _ fst).
Qed.

Lemma commit_changes_ok t w w' : commit_changes t w = (None, w') → ids_unique (tw_rows w) →
  ids_unique (tw_rows w') ∧ kview row_Id id (tw_rows w') = default ∅ (tw_changes w !! t) ∪ kview row_Id id (tw_rows w) ∧
  tw_locks w' = unlock t (tw_locks w) ∧ tw_changes w' = delete t (tw_changes w).
Proof.
  unfold commit_changes. intros E Hu. case_decide as Hm; [|done]. injection E as <-. unfold drop_tx. simpl.
  set (m := default ∅ _) in *. destruct (keyed_list (m ∪ kview row_Id id (tw_rows w))) as [? ?]; [|by split_and!].
  intros id r [Hr|[_ Hr]]%lookup_union_Some_raw; [by apply Hm|].
  by apply kview_lookup in Hr as (r' & _ & <- & ->).
Qed.

Lemma auto_update_free p w : free_of_locks p w = true → ∀ r, r ∈ hits p (tw_rows w) → tw_locks w !! row_Id r = None.
Proof. unfold free_of_locks. rewrite forallb_forall. intros Hf r Hr%list_elem_of_In. by eapply bool_decide_eq_true, Hf. Qed.

Lemma lift_keeps {B} (m : M (list (Row D)) B) w b w' : lift m w = (b, w') →
  tw_locks w' = tw_locks w ∧ tw_changes w' = tw_changes w.
Proof. unfold lift. destruct (m (getS w)). by intros [= _ <-]. Qed.

#[global] Program Instance tx_spec (hint : bool) : @TxSpec (TxW D) D tw_env _ _ _ (statements hint) hint :=
  { tx_locks := tw_locks; tx_changes := tw_changes }.
Next Obligation. by intros hint w t w' [= _ <-]. Qed.
Next Obligation.
  intros hint t q w l w' [= <- <-] _ Ho. simpl. split; [|done]. eexists. split_and!; [apply sort_by_perm|by apply sort_by_sorted|done].
Qed.
Next Obligation. by intros hint t q w e w' [=]. Qed.
Next Obligation.
  intros hint t p o w r w' E _. simpl in E. unfold first_row_of in E. destruct (sort_by _ _) as [|r0 l] eqn:Es; [done|].
  destruct (ListTable.first_is_least o p (tw_rows w) r0 l Es) as (Hin & Hp & _).
  destruct hint; [case_decide; [|done]|]; injection E as <- <-; simpl; by split_and!.
Qed.
Next Obligation.
  intros hint t p o w e w' E. simpl in E. unfold first_row_of in E. destruct (sort_by _ _) as [|r0 l] eqn:Es.
  - injection E as <- <-. split_and!; [|done..]. intros _ _ r Hr. destruct (p r) eqn:Hp; [|done].
    assert (Hx : r ∈ sort_by o (hits p (tw_rows w))) by (rewrite sort_by_perm; by apply list_elem_of_filter).
    rewrite Es in Hx. by apply not_elem_of_nil in Hx.
  - destruct hint; [case_decide; [done|]|done]. by injection E as <- <-.
Qed.
Next Obligation.
  intros hint t p f w n w' E _. simpl in E. unfold update_rows in E. case_decide as Hd; [|done]. injection E as <- <-.
  simpl. split_and!; [|done..]. by rewrite Forall_forall in Hd.
Qed.
Next Obligation. intros hint t p f w e w' E. simpl in E. unfold update_rows in E. case_decide; [done|]. by injection E as <- <-. Qed.
Next Obligation.
  intros hint t r w r' w' E _. simpl in E. unfold insert_row in E. case_decide as Hd; [done|]. case_match; [done|]. injection E as <- <-.
  simpl. apply Decidable.not_or in Hd as [Hn Hp]. rewrite fmap_app, elem_of_app in Hn. split_and!; [done|by intros ?; apply Hn; left| |done..].
  intros t' m Hm. apply eq_None_not_Some. intros Hs. apply Hp. by exists t', m.
Qed.
Next Obligation.
  intros hint t r w e w' E. simpl in E. unfold insert_row in E. repeat case_match; try done; by injection E as <- <-.
Qed.
Next Obligation. intros hint t w w'. apply commit_changes_ok. Qed.
Next Obligation. intros hint t w e w' E. simpl in E. unfold commit_changes in E. case_decide; [done|]. by injection E as <- <-. Qed.
Next Obligation. intros hint t w w' E. by injection E as <-. Qed.
Next Obligation.
  intros hint ctx r w x w'. simpl. unfold auto_insert. destruct (lift _ w) as [[r'|e] w1] eqn:El; apply lift_keeps in El as [El Ec].
  - case_decide as Hd; intros [= <- <-]; split_and!; try done. intros r0 [= <-] t m Hm. by apply (Hd t m).
  - by intros [= <- <-].
Qed.
Next Obligation.
  intros hint ctx p f w x w'. simpl. destruct (free_of_locks p w) eqn:E; unfold lift; simpl; intros [= <- <-]; [|done].
  simpl. split_and!; [done..|]. intros n _. by apply auto_update_free.
Qed.
Next Obligation.
  intros hint ctx p w x w'. simpl. destruct (free_of_locks p w) eqn:E; unfold lift; simpl; intros [= <- <-]; [|done].
  simpl. split_and!; [done..|]. intros n _. by apply auto_update_free.
Qed.

Lemma tx_unique_intro {K} (key : D → K) hint : (∀ a b, key a = key b → ListTable.conflicts b a = true) →
  @TxUnique (TxW D) D K tw_env _ _ _ (statements hint) hint _ key.
Proof.
  intros Hk t r w r' w' E. simpl in E. unfold insert_row in E. case_decide; [done|]. case_match eqn:Ex; [done|]. clear E.
  assert (Hno : ∀ x, x ∈ tw_rows w ++ pending w → key (row_data x) ≠ key (row_data r)).
  { intros x Hx Hkey. revert Ex. apply not_false_iff_true. apply existsb_exists. exists x. split; [by apply list_elem_of_In|by apply Hk]. }
  split; [intros x Hx; apply Hno; apply elem_of_app; by left|]. intros t' m id x Hm Hx. apply Hno, elem_of_app. right.
  apply list_elem_of_bind. exists (t', m). split; [|by apply elem_of_map_to_list]. simpl.
  apply list_elem_of_fmap. exists (id, x). split; [done|by apply elem_of_map_to_list].
Qed.
End Instances.
End ListTx.
