(* ===== verification/Replicas.v ===== *)
(** * Replicas on one database

    The claims of internal/queue and internal/webhook and the shared limiter of
    internal/ratelimit exist so that several processes can work on one
    PostgreSQL.  Here their transactions are the programs of [Transactions],
    interleaved statement by statement, with processes that die in the middle. *)

From S2P Require Import Prelude Float64 Table Queue RateLimit Transactions.

(** ** Dequeue (queue/postgres.go, webhook/postgres_queue.go) *)

Section ClaimProg.
Context {J D : Type} `{QRow J D}.

Definition claimed_row (row : Row D) : Row D := mkRow (row_Id row) (row_CreatedAt row) (r_claim true (row_data row)).

(** The body of Dequeue's transaction; its variables are [claimed] and
    [found]. *)
Definition claim_set (row : Row D) (r : res Z) : prog D (option (Row D) * option goerr) :=
  match r with
  | Err e => Return (None, Some e)
  | Ok _ => Return (Some (claimed_row row), None)
  end.

Definition claim_found (r : res (list (Row D))) : prog D (option (Row D) * option goerr) :=
  match r with
  | Err e => Return (None, Some e)
  | Ok [] => Return (None, None)
  | Ok (row :: _) => Updates (by_id (row_Id row)) (r_claim true) (claim_set row)
  end.

Definition claim_prog : prog D (option (Row D) * option goerr) := Clock (λ t, Find (due_query t) claim_found).
End ClaimProg.

(** In one step it is the body of [pg_Dequeue]. *)
Lemma exec_claim_prog {W J D : Type} `{QRow J D, QText J, Env W, Table W D} ctx (w : W) :
  exec ctx claim_prog w =
  let '((o, e), w') := tx_body (pg_claim (D := D) ctx) w in ((match o with Some r => r | None => None end, e), w').
Proof.
  unfold claim_prog, tx_body, pg_claim, bind, mtry. simpl. unfold bind. destruct (now w) as [t w1].
  destruct (tbl_Find ctx (due_query t) w1) as [[[|row l]|e] w2]; simpl; [done| |done].
  unfold bind. by destruct (tbl_Updates ctx _ _ w2) as [[n|e] w3].
Qed.

(** *** The queue that several processes share *)

(** What the other operations do when they report success. *)
Inductive qevent (J : Type) : Type :=
| Put (j : J)
| Done (id : string)
| Retried (id : string) (cause : option goerr) (nextAttemptAt : Time).
Arguments Put {J} _.
Arguments Done {J} _.
Arguments Retried {J} _ _ _.

(** Where a Dequeue is. *)
Inductive phase : Type :=
| Looking (t : Time)
| Holding (id : string)
| Empty.

Section Spec.
Context {J D : Type} `{QRow J D, ErrorText}.
Implicit Types (v : QView J) (fl : gmap Tid phase).

(** No Dequeue in progress has chosen the job. *)
Definition unheld fl (id : string) : Prop := ∀ t, fl !! t ≠ Some (Holding id).

(** The queue as a set of jobs, and the Dequeues in progress.  Each chooses the
    job that has been due longest among those that are neither claimed nor chosen
    by another, and claims it when it commits. *)
Inductive qstep : QView J * gmap Tid phase → option (label (option (Row D)) (qevent J)) → QView J * gmap Tid phase → Prop :=
| q_stay v fl : qstep (v, fl) None (v, fl)
| q_read v fl t τ : fl !! t = None → qstep (v, fl) (Some (LClock t τ)) (v, <[t := Looking τ]> fl)
| q_choose v fl t τ (j : J) : fl !! t = Some (Looking τ) → v !! j_ID j = Some (j, false) → unheld fl (j_ID j) →
    j_Next j ≤ τ → (∀ id j', v !! id = Some (j', false) → unheld fl id → j_Next j ≤ j_Next j') →
    qstep (v, fl) None (v, <[t := Holding (j_ID j)]> fl)
| q_none v fl t τ : fl !! t = Some (Looking τ) →
    (∀ id j', v !! id = Some (j', false) → unheld fl id → τ < j_Next j') →
    qstep (v, fl) None (v, <[t := Empty]> fl)
| q_got v fl t row : fl !! t = Some (Holding (row_Id row)) → v !! row_Id row = Some (r_job row, false) →
    qstep (v, fl) (Some (LDone t (Some row))) (<[row_Id row := (r_job row, true)]> v, delete t fl)
| q_empty v fl t : fl !! t = Some Empty → qstep (v, fl) (Some (LDone t None)) (v, delete t fl)
| q_abort v fl t : qstep (v, fl) None (v, delete t fl)
| q_put v fl j : j_ID j ≠ "" → v !! j_ID j = None →
    qstep (v, fl) (Some (LOther (Put j))) (<[j_ID j := (j, false)]> v, fl)
| q_done v fl id : is_Some (v !! id) → unheld fl id → qstep (v, fl) (Some (LOther (Done id))) (delete id v, fl)
| q_retried v fl id c t j b : v !! id = Some (j, b) → unheld fl id →
    qstep (v, fl) (Some (LOther (Retried id c t))) (<[id := (j_retry (Error <$> c) t j, false)]> v, fl).

(** The label hands out, or releases, the job [id]. *)
Definition hands_out (id : string) (l : label (option (Row D)) (qevent J)) : Prop :=
  match l with LDone _ (Some row) => row_Id row = id | _ => False end.
Definition frees (id : string) (l : label (option (Row D)) (qevent J)) : Prop :=
  match l with LOther (Done id') => id' = id | LOther (Retried id' _ _) => id' = id | _ => False end.

#[export] Instance frees_dec id l : Decision (frees id l).
Proof. destruct l as [| |[]]; simpl; apply _. Defined.

Lemma qstep_claimed id (j : J) s l s' : qstep s l s' → s.1 !! id = Some (j, true) →
  (∀ x, l = Some x → ¬ hands_out id x) ∧ ((∀ x, l = Some x → ¬ frees id x) → s'.1 !! id = Some (j, true)).
Proof.
  intros Hs Hv. destruct Hs as [| | | |v fl t row _ Hr| | |v fl j' _ Hn|v fl i _ _|v fl i c t j' b _ _]; simpl in *;
    (split; [intros x; try done; intros [= <-]; simpl; first [tauto|congruence]|intros Hf; try done]).
  - rewrite lookup_insert_ne; [done|congruence].
  - rewrite lookup_insert_ne; [done|congruence].
  - specialize (Hf _ eq_refl). by rewrite lookup_delete_ne.
  - specialize (Hf _ eq_refl). by rewrite lookup_insert_ne.
Qed.

(** A claimed job is not handed out before it is released. *)
Lemma qtrace_claimed id (j : J) s tr s' : ltrace qstep s tr s' → s.1 !! id = Some (j, true) →
  ∀ b l c, tr = b ++ l :: c → hands_out id l → Exists (frees id) b.
Proof.
  induction 1 as [|s l s1 tr s2 Hs _ IH]; intros Hv b l' c E Hl; [by destruct b|].
  destruct (qstep_claimed id j s l s1 Hs Hv) as [Hh Hv'].
  destruct l as [x|]; simpl in E; [|by eapply IH; [apply Hv'|..]].
  destruct b as [|y b]; injection E as -> ->; [by destruct (Hh _ eq_refl)|].
  destruct (frees_dec id y) as [Hy|Hy]; [by constructor|]. apply Exists_cons_tl. eapply IH; [|done..].
  apply Hv'. by intros ? [= <-].
Qed.

(** Between two hand-outs of a job there is a release. *)
Lemma qtrace_exclusive s tr s' : ltrace qstep s tr s' → ∀ a l1 b l2 c id, tr = a ++ l1 :: b ++ l2 :: c →
  hands_out id l1 → hands_out id l2 → Exists (frees id) b.
Proof.
  induction 1 as [|s l s1 tr s2 Hs Ht IH]; intros a l1 b l2 c id E K1 K2; [by destruct a|].
  destruct l as [x|]; simpl in E; [|by eapply IH].
  destruct a as [|y a]; injection E as -> ->; [|by eapply IH].
  inversion Hs; subst; simpl in K1; try done. subst.
  eapply qtrace_claimed; [exact Ht| |done..]. simpl. by rewrite lookup_insert_eq.
Qed.
End Spec.

(** *** The processes implement it *)

Lemma rows_view_fmap {J D : Type} `{QRow J D} (l : list (Row D)) :
  rows_view l = (λ r, (r_job r, r_Claimed (row_data r))) <$> kview row_Id id l.
Proof. unfold rows_view, kview. rewrite <-list_to_map_fmap, <-list_fmap_compose. done. Qed.

Section Sim.
Context {W J D : Type} {hint : bool} `{QRow J D, QText J, ErrorText, TxSpec W D hint}.
Implicit Types (w : W) (r : Row D) (l : list (Row D)).

(** The operations outside a transaction. *)
Inductive q_other : W → option (qevent J) → W → Prop :=
| other_enqueue ctx (j : J) w x w' : pg_Enqueue ctx j w = (x, w') → q_other w (if is_Ok x then Some (Put j) else None) w'
| other_complete ctx id w x w' : pg_Complete (J := J) ctx id w = (x, w') →
    q_other w (if is_Ok x then Some (Done id) else None) w'
| other_fail ctx id c t w x w' : pg_Fail (J := J) ctx id c t w = (x, w') →
    q_other w (if is_Ok x then Some (Retried id c t) else None) w'.

Definition q_start (t : Tid) (p : prog D (option (Row D) * option goerr)) : Prop := p = claim_prog.

(** A transaction holds the row of the job it has chosen. *)
Definition locked_by w t (ph : option phase) : Prop := ∀ id, tx_locks w !! id = Some t ↔ ph = Some (Holding id).

(** The point of its body each phase is at. *)
Inductive form w t : prog D (option (Row D) * option goerr) → option phase → Prop :=
| form_start : tx_changes w !! t = None → form w t claim_prog None
| form_looking τ : tx_changes w !! t = None → form w t (Find (due_query τ) claim_found) (Some (Looking τ))
| form_chosen r : tx_changes w !! t = None → r ∈ tbl_rows w → r_Claimed (row_data r) = false →
    form w t (Updates (by_id (row_Id r)) (r_claim true) (claim_set r)) (Some (Holding (row_Id r)))
| form_claimed r : tx_changes w !! t = Some {[row_Id r := claimed_row r]} → r ∈ tbl_rows w →
    r_Claimed (row_data r) = false → form w t (Return (Some (claimed_row r), None)) (Some (Holding (row_Id r)))
| form_empty : tx_changes w !! t = None → form w t (Return (None, None)) (Some Empty)
| form_failed e ph : tx_changes w !! t = None → form w t (Return (None, Some e)) ph.

Definition at_phase w t (p : option (prog D (option (Row D) * option goerr))) (ph : option phase) : Prop :=
  locked_by w t ph ∧ match p with Some p => form w t p ph | None => tx_changes w !! t = None ∧ ph = None end.

Lemma at_phase_frame w w' t p ph : tx_frame t w w' → at_phase w t p ph → at_phase w' t p ph.
Proof.
  intros (Hl & Hc & Hr) [Hk Hf]. split; [by intros id; rewrite Hl|].
  destruct p as [p|]; [|by rewrite Hc]. destruct Hf; constructor; try done; try (by rewrite Hc); by apply Hr; [|apply Hk].
Qed.

Definition sim (s : sys W D (option (Row D))) (a : QView J * gmap Tid phase) : Prop :=
  tx_inv (sys_world s) ∧ a.1 = pgq_view (sys_world s) ∧ ∀ t, at_phase (sys_world s) t (sys_runs s !! t) (a.2 !! t).

Lemma sim_step t w w' runs v fl p ph : sim (mkSys w runs) (v, fl) → tx_local t w w' → at_phase w' t p ph →
  sim (mkSys w' (partial_alter (λ _, p) t runs)) (pgq_view w', partial_alter (λ _, ph) t fl).
Proof.
  intros (_ & _ & Hs) [Hi Hf] Hp. split_and!; [done..|]. intros t'. simpl in *.
  destruct (base.decide (t' = t)) as [->|Hne]; [by rewrite !lookup_partial_alter_eq|].
  rewrite !lookup_partial_alter_ne by done. eapply at_phase_frame; [by apply Hf|apply Hs].
Qed.

Lemma sim_unheld w runs v fl id : sim (mkSys w runs) (v, fl) → unheld fl id ↔ tx_locks w !! id = None.
Proof.
  intros (_ & _ & Hs). simpl in Hs. split.
  - intros Hu. destruct (tx_locks w !! id) as [t|] eqn:E; [|done]. destruct (Hs t) as [Hk _]. destruct (Hu t). by apply Hk.
  - intros Hn t Ht. destruct (Hs t) as [Hk _]. apply Hk in Ht. congruence.
Qed.

Lemma same_view w w' : tbl_rows w' = tbl_rows w → pgq_view (J := J) w' = pgq_view w.
Proof. unfold pgq_view. by intros ->. Qed.

(** Choosing a job: the query passes over what others hold. *)
Lemma choose_sim w t τ runs v fl x w' : sim (mkSys w runs) (v, fl) →
  fl !! t = Some (Looking τ) → tx_changes w !! t = None → tx_Find t (due_query τ) w = (x, w') →
  ∃ ph, qstep (v, fl) None (v, partial_alter (λ _, ph) t fl) ∧ at_phase w' t (Some (claim_found x)) ph ∧
    tbl_rows w' = tbl_rows w.
Proof.
  intros Hs Hph Hc E. destruct (Hs) as ((Hu & _) & Hv & Hat). simpl in *. subst v. destruct (Hat t) as [Hk _].
  assert (Hno : ∀ id, tx_locks w !! id ≠ Some t) by (intros id Hx%Hk; congruence).
  destruct x as [l|e].
  2:{ apply tx_Find_err in E as (Er & El & Ec). exists None. split_and!; [apply q_abort| |done].
      split; [|constructor; by rewrite Ec]. intros id. rewrite El. split; [by intros ?%Hno|done]. }
  apply tx_Find_ok in E as ((l' & Hl' & Hso & ->) & Er & El & Ec); [|done|apply due_query_total].
  assert (Hmem : ∀ r, r ∈ l' ↔ r ∈ tbl_rows w ∧ r_Claimed (row_data r) = false ∧ r_Next (row_data r) ≤ τ ∧ tx_locks w !! row_Id r = None).
  { intros r. rewrite Hl', list_elem_of_filter. simpl. unfold available. rewrite andb_true_iff, negb_true_iff, Z.leb_le.
    specialize (Hno (row_Id r)). naive_solver. }
  assert (Hfree : ∀ id j', pgq_view (J := J) w !! id = Some (j', false) → unheld fl id →
    ∃ r, r ∈ tbl_rows w ∧ row_Id r = id ∧ j' = r_job r ∧ (r ∈ l' ∨ τ < r_Next (row_data r))).
  { intros id j'. intros (r & Hin & Hid & [= -> Hcl])%rows_view_lookup Hun%(sim_unheld _ _ _ _ _ Hs); [|done].
    exists r. split_and!; [done..|]. destruct (Z.le_gt_cases (r_Next (row_data r)) τ); [left|by right].
    apply Hmem. rewrite Hid. by split_and!. }
  destruct l' as [|r l']; simpl in *.
  - exists (Some Empty). split_and!; [|split|done].
    + eapply q_none; [done|]. intros id j' K1 K2. destruct (Hfree id j' K1 K2) as (r & _ & _ & -> & [[]%not_elem_of_nil|Hlt]).
      by rewrite r_job_Next.
    + intros id. rewrite El. split; [by intros ?%Hno|done].
    + constructor. by rewrite Ec.
  - destruct (proj1 (Hmem r)) as (Hin & Hcl & Hdue & Hun); [by left|].
    exists (Some (Holding (row_Id r))). rewrite <-(r_job_ID r). split_and!; [|rewrite r_job_ID; split|done].
    + apply (q_choose _ fl t τ (r_job r)); rewrite ?r_job_ID, ?r_job_Next; [done| |by eapply sim_unheld|done|].
      * unfold pgq_view. rewrite rows_view_row by done. by rewrite Hcl.
      * intros id j' K1 K2. destruct (Hfree id j' K1 K2) as (r' & _ & _ & -> & [Hx|Hlt]); rewrite r_job_Next; [|lia].
        apply elem_of_cons in Hx as [->|Hx]; [done|]. apply StronglySorted_inv in Hso as [_ Hso]. rewrite Forall_forall in Hso.
        apply Hso in Hx. simpl in Hx. lia.
    + intros id. rewrite El. unfold lock_all. simpl. rewrite lookup_insert. case_decide as Hd; [by subst|].
      split; [by intros ?%Hno|]. intros [=]. congruence.
    + constructor; [by rewrite Ec|by rewrite Er|done].
Qed.

(** Marking the chosen row. *)
Lemma set_at_phase w t r x w' : tx_inv w → at_phase w t (Some (Updates (by_id (row_Id r)) (r_claim true) (claim_set r))) (Some (Holding (row_Id r))) →
  tx_changes w !! t = None → r ∈ tbl_rows w → r_Claimed (row_data r) = false →
  tx_Updates t (by_id (row_Id r)) (r_claim true) w = (x, w') →
  at_phase w' t (Some (claim_set r x)) (Some (Holding (row_Id r))) ∧ tbl_rows w' = tbl_rows w.
Proof.
  intros (Hu & _) [Hk _] Hc Hin Hcl E. destruct x as [n|e].
  - apply Updates_by_id in E as (Er & El & Ec); [|done..|by apply Hk]. split; [|done]. split; [intros id; by rewrite El|].
    constructor; [done|by rewrite Er|done].
  - apply tx_Updates_err in E as (Er & El & Ec). split; [|done]. split; [intros id; by rewrite El|].
    constructor. by rewrite Ec.
Qed.

(** The claim is published. *)
Lemma commit_sim w t r runs v fl w' : sim (mkSys w runs) (v, fl) → fl !! t = Some (Holding (row_Id r)) →
  tx_changes w !! t = Some {[row_Id r := claimed_row r]} → r ∈ tbl_rows w → r_Claimed (row_data r) = false →
  tx_Commit t w = (None, w') →
  qstep (v, fl) (Some (LDone t (Some (claimed_row r)))) (pgq_view w', delete t fl).
Proof.
  intros ((Hu & _) & Hv & _) Hfl Hc Hin Hcl E. simpl in *. subst v.
  apply tx_Commit_ok in E as (_ & Hw & _ & _); [|done]. rewrite Hc in Hw. simpl in Hw.
  assert (Hj : r_job (claimed_row r) = r_job r) by (unfold claimed_row; rewrite r_claim_job; by destruct r).
  replace (pgq_view (J := J) w') with (<[row_Id (claimed_row r) := (r_job (claimed_row r), true)]> (pgq_view (J := J) w)).
  - apply q_got; [done|]. simpl. unfold pgq_view. rewrite rows_view_row by done. by rewrite Hj, Hcl.
  - unfold pgq_view. rewrite !rows_view_fmap, Hw, map_fmap_union, map_fmap_singleton, insert_union_singleton_l. simpl.
    by rewrite r_claim_Claimed.
Qed.

Lemma other_sim w runs v fl o w' : sim (mkSys w runs) (v, fl) → q_other w o w' →
  qstep (v, fl) (LOther <$> o) (pgq_view w', fl) ∧ tx_inv w' ∧ ∀ t, tx_frame (D := D) t w w'.
Proof.
  intros Hs Ho. pose proof Hs as (Hi & Hv & _). simpl in *. subst v. pose proof Hi as (Hu & _).
  assert (Hlk : ∀ id n, is_Some (pgq_view (J := J) w !! id) →
    (∀ n' : Z, Ok n = Ok n' → ∀ r, r ∈ hits (by_id id) (tbl_rows w) → tx_locks w !! row_Id r = None) → unheld fl id).
  { intros id n [x (r & Hr & <- & _)%rows_view_lookup] Hn; [|done]. eapply sim_unheld; [done|]. apply (Hn n); [done|].
    apply list_elem_of_filter. split; [apply String.eqb_refl|done]. }
  destruct Ho as [ctx j w x w' E|ctx id w x w' E|ctx id c t w x w' E].
  - pose proof (pg_Enqueue_spec ctx j w x w' Hu E) as Hsp. revert E. unfold pg_Enqueue, mtry, wrap.
    destruct (String.eqb_spec (j_ID j) ""); [intros [= <- <-]; split; [apply q_stay|by split]|].
    destruct (tbl_Create _ _ _) as [[r|e] w1] eqn:Ec; simpl; intros [= <- <-]; simpl.
    + destruct Hsp as (Hne & _ & ->). split; [|by eapply auto_Create_frame]. apply q_put; [done|].
      apply Create_ok in Ec as (Hnew & _ & _ & Hid & _). rewrite Hid in Hnew by done. simpl in Hnew.
      apply eq_None_not_Some. intros [y (r' & Hr' & Hid' & _)%rows_view_lookup]; [|done]. apply Hnew. rewrite <-Hid'.
      by apply list_elem_of_fmap_2.
    + rewrite (same_view _ _ Hsp). split; [apply q_stay|by eapply auto_Create_frame].
  - pose proof (pg_Complete_spec ctx id w x w' Hu E) as [_ Hsp]. revert E. unfold pg_Complete, mtry, wrap.
    destruct (tbl_Delete _ _ _) as [[n|e] w1] eqn:Ec; simpl.
    + pose proof (auto_Delete _ _ _ _ _ Ec) as (_ & _ & Hfree). apply auto_Delete_frame in Ec; [|done].
      destruct (n =? 0); intros [= <- <-]; simpl; [rewrite Hsp; split; [apply q_stay|done]|].
      destruct Hsp as [Hsome ->]. split; [|done]. apply q_done; [done|]. by apply (Hlk id n).
    + intros [= <- <-]. rewrite Hsp. split; [apply q_stay|by eapply auto_Delete_frame].
  - pose proof (pg_Fail_spec ctx id c t w x w' Hu E) as [_ Hsp]. revert E. unfold pg_Fail, mtry, wrap.
    destruct (tbl_Updates _ _ _ _) as [[n|e] w1] eqn:Ec; simpl.
    + pose proof (auto_Updates _ _ _ _ _ _ Ec) as (_ & _ & Hfree). apply auto_Updates_frame in Ec; [|done].
      destruct (n =? 0); intros [= <- <-]; simpl; [rewrite Hsp; split; [apply q_stay|done]|].
      destruct Hsp as (j & b & Hsome & ->). split; [|done]. eapply q_retried; [done|]. apply (Hlk id n); [by eexists|done].
    + intros [= <- <-]. rewrite Hsp. split; [apply q_stay|by eapply auto_Updates_frame].
Qed.

Lemma unlocked_phase w' t (m : locks) : tx_locks w' = unlock t m → tx_changes w' !! t = None → at_phase w' t None None.
Proof. intros Hl Hc. split; [|done]. intros id. rewrite Hl, unlock_lookup. naive_solver. Qed.

(** A transaction that ends without effect. *)
Lemma abort_sim w t runs v fl w' : sim (mkSys w runs) (v, fl) → tbl_rows w' = tbl_rows w →
  tx_locks w' = unlock t (tx_locks w) → tx_changes w' = delete t (tx_changes w) →
  ∃ a', qstep (v, fl) None a' ∧ sim (mkSys w' (delete t runs)) a'.
Proof.
  intros Hs Hr Hl Hc. pose proof Hs as (Hi & Hv & _). simpl in *. exists (pgq_view w', delete t fl). split.
  - rewrite (same_view _ _ Hr), <-Hv. apply q_abort.
  - eapply sim_step; [done|by apply rollback_local|]. eapply unlocked_phase; [done|]. by rewrite Hc, lookup_delete_eq.
Qed.

Lemma statement_sim w t runs v fl p x p' w' : sim (mkSys w runs) (v, fl) → runs !! t = Some p →
  statement t p w = Some (x, p', w') →
  ∃ a', qstep (v, fl) x a' ∧ sim (mkSys w' (<[t := p']> runs)) a'.
Proof.
  intros Hs Hr E. pose proof Hs as (Hi & Hv & Hat). simpl in *. specialize (Hat t). rewrite Hr in Hat. pose proof Hat as [Hk Hf].
  remember (fl !! t) as ph eqn:Hph. symmetry in Hph.
  destruct Hf as [Hc|τ Hc|r Hc Hin Hcl|r Hc Hin Hcl|Hc|e ph Hc]; simpl in E; try done.
  - destruct (now w) as [τ w1] eqn:En. injection E as <- <- <-. pose proof (tx_now _ _ _ En) as (Er & El & Ec).
    exists (pgq_view w1, <[t := Looking τ]> fl). split.
    + rewrite (same_view _ _ Er), <-Hv. by apply q_read.
    + eapply sim_step; [done|by eapply now_local|]. split; [|constructor; by rewrite Ec].
      intros id. rewrite El. rewrite (Hk id). naive_solver.
  - destruct (tx_Find t _ w) as [y w1] eqn:Ef. injection E as <- <- <-.
    destruct (choose_sim w t τ runs v fl y w1 Hs Hph Hc Ef) as (ph & Hq & Hp & Er).
    exists (pgq_view w1, partial_alter (λ _, ph) t fl). split; [by rewrite (same_view _ _ Er), <-Hv|].
    eapply sim_step; [done|eapply Find_local; [done..|apply due_query_total]|done].
  - destruct (tx_Updates t _ _ w) as [y w1] eqn:Eu. injection E as <- <- <-.
    destruct (set_at_phase w t r y w1 Hi Hat Hc Hin Hcl Eu) as [Hp Er].
    exists (pgq_view w1, fl). split; [rewrite (same_view _ _ Er), <-Hv; apply q_stay|].
    rewrite <-(insert_id fl t (Holding (row_Id r))) by done.
    eapply sim_step; [done|by eapply Updates_local|done].
Qed.

Lemma replica_sim s a x s' : sim s a → txstep q_start q_other s x s' → ∃ a', qstep a x a' ∧ sim s' a'.
Proof.
  intros Hs Ht. destruct a as [v fl].
  destruct Ht as [w runs t p Hr Hp|w runs t p x p' w' Hr E|w runs t b w' Hr E|w runs t b e w' Hr E|w runs t b e w' Hr E
    |w runs t p w' Hr E|w runs o w' Ho]; pose proof Hs as (Hi & Hv & Hat); simpl in *.
  - exists (v, delete t fl). split; [apply q_abort|]. rewrite Hv. specialize (Hat t). rewrite Hr in Hat.
    destruct Hat as [Hk [Hc Hph]]. eapply sim_step; [done|by apply same_local|]. rewrite Hp. rewrite Hph in Hk.
    split; [done|by constructor].
  - by eapply statement_sim.
  - specialize (Hat t). rewrite Hr in Hat. destruct Hat as [Hk Hf]. remember (fl !! t) as ph eqn:Hph. symmetry in Hph.
    pose proof E as (_ & Hview & El & Ec)%tx_Commit_ok; [|by destruct Hi].
    assert (Hlast : sim (mkSys w' (delete t runs)) (pgq_view w', delete t fl)).
    { eapply sim_step; [done|by eapply Commit_local|]. eapply unlocked_phase; [done|]. by rewrite Ec, lookup_delete_eq. }
    exists (pgq_view w', delete t fl). split; [|done]. inversion Hf; subst.
    + by eapply commit_sim.
    + replace (pgq_view (J := J) w') with (pgq_view (J := J) w); [by apply q_empty|].
      unfold pgq_view. rewrite !rows_view_fmap, Hview.
      match goal with Hc : tx_changes w !! t = None |- _ => rewrite Hc end. simpl. by rewrite (left_id_L ∅ (∪)).
  - apply tx_Commit_err in E as (Er & El & Ec). by eapply abort_sim.
  - apply tx_Rollback_ok in E as (Er & El & Ec). by eapply abort_sim.
  - apply tx_Rollback_ok in E as (Er & El & Ec). by eapply abort_sim.
  - destruct (other_sim w runs v fl o w' Hs Ho) as (Hq & Hi' & Hf). exists (pgq_view w', fl). split; [done|].
    split_and!; [done..|]. intros t. eapply at_phase_frame; [apply Hf|apply Hat].
Qed.

(** No transaction is in progress. *)
Definition quiescent w : Prop := ids_unique (tbl_rows (D := D) w) ∧ tx_locks w = ∅ ∧ tx_changes w = ∅.

Lemma sim_start w : quiescent w → sim (mkSys w ∅) (pgq_view w, ∅).
Proof.
  intros (Hu & Hl & Hc). split_and!; simpl; [|done|].
  - split_and!; simpl; [done| |]; rewrite Hc; intros *; by rewrite lookup_empty.
  - intros t. rewrite !lookup_empty. split; [|by rewrite Hc]. intros id. by rewrite Hl, lookup_empty.
Qed.
End Sim.

(** ** Properties *)

(** C7: however many processes dequeue, a job is claimed once.  In every
    interleaving of the statements of any number of Dequeues with each other
    and with Enqueue, Complete and Fail, with failed statements, failed commits
    and processes that die in the middle, the observed events are those of one
    queue: each Dequeue chooses the job due longest among those neither claimed
    nor chosen by another, and claims it when it commits; one that finds
    nothing saw no such job.  So between two hand-outs of a job there is a Complete or a
    Fail of it, and a Dequeue that does not commit leaves no lock and no claim
    behind. *)
Theorem replicas_share_queue {W J D : Type} {hint : bool} `{QRow J D, QText J, ErrorText, TxSpec W D hint} (w : W) tr s :
  quiescent w → ltrace (txstep q_start (q_other (J := J))) (mkSys w ∅) tr s →
  (∃ fl, ltrace (qstep (J := J)) (pgq_view w, ∅) tr (pgq_view (sys_world s), fl)) ∧
  (∀ a l1 b l2 c id, tr = a ++ l1 :: b ++ l2 :: c → hands_out id l1 → hands_out id l2 → Exists (frees id) b) ∧
  (∀ id t, tx_locks (sys_world s) !! id = Some t → is_Some (sys_runs s !! t)).
Proof.
  intros Hw Ht. destruct (ltrace_simulation _ _ sim _ _ _ (λ s1 l s2 a1, replica_sim s1 a1 l s2) Ht _ (sim_start w Hw))
    as ([v fl] & Ha & _ & Hv & Hat). simpl in Hv, Hat. subst v. split_and!.
  - by exists fl.
  - by eapply qtrace_exclusive.
  - intros id t Hl. destruct (Hat t) as [Hk Hf]. apply Hk in Hl. destruct (sys_runs s !! t); [done|]. destruct Hf. congruence.
Qed.

Module ReplicasExample.
Import ListTx.
#[export] Instance no_conflicts : ListTable.Conflicts jobRow := λ _ _, false.
#[export] Instance text : ErrorText := λ _, "error".
#[export] Instance tx : TxTable (TxW jobRow) jobRow := statements false.
Definition job (id : string) (t : Time) : Job := mkJob id "v" "a@v" "b@x" "ref" 0 t "" "c".
Definition row (id : string) (t : Time) : Row jobRow := mkRow id None (jobRow_of (job id t)).
Definition shared : TxW jobRow := mkTxW 10 [row "a" 5; row "b" 3; row "c" 20] ∅ ∅.
(** Three connections: the first dies holding "b", the second gets "a", the third
    looks while both are held; a fourth gets "b" after all. *)
Definition schedule : list action :=
  [Begin 1; Run 1; Run 1; Begin 2; Run 2; Run 2; Begin 3; Run 3; Run 3; Run 1; Run 2; Kill 1; Run 3; Run 2;
   Begin 4; Run 4; Run 4; Run 4; Run 4].
Definition outcome : option (list (label (option (Row jobRow)) (qevent Job)) * sys (TxW jobRow) jobRow (option (Row jobRow))) :=
  plays (λ _, claim_prog (J := Job)) schedule (mkSys shared ∅).
Definition observed : list (label (option (Row jobRow)) (qevent Job)) := from_option fst [] outcome.
Definition final : sys (TxW jobRow) jobRow (option (Row jobRow)) := from_option snd (mkSys shared ∅) outcome.
End ReplicasExample.
Import ReplicasExample.

Lemma replicas_share_queue_witness :
  observed = [LClock 1 10; LClock 2 10; LClock 3 10; LDone 3 None; LDone 2 (Some (claimed_row (row "a" 5)));
              LClock 4 10; LDone 4 (Some (claimed_row (row "b" 3)))] ∧
  (∃ fl, ltrace (qstep (J := Job)) (pgq_view shared, ∅) observed (pgq_view (sys_world final), fl)).
Proof.
  split; [by vm_compute|].
  apply (replicas_share_queue (J := Job) (hint := false) shared observed final).
  - split; [|done]. vm_compute. repeat constructor; set_solver.
  - apply (plays_trace (λ _, claim_prog (J := Job)) q_other schedule). by vm_compute.
Defined.
