(* ===== verification/SharedLimiter.v ===== *)
(** * The shared rate limiter under concurrent processes

    [PostgresLimiter] (internal/ratelimit/postgres.go) keeps a bucket per key in
    a table, so that all processes of a deployment draw from the same one.  Its
    transaction is a program of [Transactions]; connections interleave statement
    by statement.  The code asks for a row lock with an option gorm v2 gives no
    meaning, so nothing here depends on one: every answer is one step of the
    bucket its try saw, and of the stored bucket while the tries of a key do not
    overlap.  Tries that overlap can spend the same token. *)

From S2P Require Import Prelude Float64 Table RateLimit Transactions.

(** ** The transaction of tryAllow *)

Record AllowRequest := mkAllowRequest { rq_key : string; rq_capacity : float64; rq_refillPerSecond : float64 }.

Section TryProg.
Context (q : AllowRequest).

(** The new bucket of a known key: verdict and row. *)
Definition bumped (t : Time) (row : Row bucketRow) : bool * bucketRow :=
  bump (rq_capacity q) (rq_refillPerSecond q) t (row_data row).

Definition first_row (t : Time) : bucketRow := mkBucketRow (rq_key q) (fsub (rq_capacity q) F1) t.

(** The closure's error, with [allowed] as it was set. *)
Definition try_end {A} (allowed : bool) (r : res A) : prog bucketRow (bool * option goerr) :=
  Return (allowed, match r with Ok _ => None | Err e => Some e end).

Definition try_write (found : res (Row bucketRow)) (t : Time) : prog bucketRow (bool * option goerr) :=
  match found with
  | Ok row =>
      let '(allowed, d) := bumped t row in
      Updates (by_id (row_Id row)) (λ x, mkBucketRow (Key x) (Tokens d) (LastRefill d)) (try_end allowed)
  | Err e => if gormNotFound e then Create (mkRow "" None (first_row t)) (try_end true) else Return (false, Some e)
  end.

Definition try_prog : prog bucketRow (bool * option goerr) :=
  First (key_is (rq_key q)) (order_by row_Id) (λ found, Clock (try_write found)).
End TryProg.

(** In one step it is the body of [tryAllow]. *)
Lemma exec_try_prog {W : Type} `{Env W, Table W bucketRow} ctx q (w : W) :
  exec ctx (try_prog q) w = try_body ctx (rq_key q) (rq_capacity q) (rq_refillPerSecond q) w.
Proof.
  unfold try_prog, try_body. simpl. unfold bind. destruct (tbl_First ctx _ _ w) as [[row|e] w1]; destruct (now w1) as [t w2]; simpl.
  - unfold bumped. destruct (bump _ _ _ _) as [b d]. simpl. unfold bind, try_end. simpl.
    by destruct (tbl_Updates ctx _ _ w2) as [[n|e] w3].
  - destruct (gormNotFound e); [|done]. simpl. unfold bind. by destruct (tbl_Create ctx _ w2) as [[r|e'] w3].
Qed.

(** ** The buckets, one request at a time *)

Section Spec.
(** Transaction [t] is a try of the request [req t]. *)
Context (req : Tid → AllowRequest).
Implicit Types (m : gmap string bucketRow) (ck : gmap Tid Time).

(** A try reads the clock and, when it commits, answers with one step of the
    bucket at that time. *)
Inductive bstep : gmap string bucketRow * gmap Tid Time → option (label bool Empty_set) → gmap string bucketRow * gmap Tid Time → Prop :=
| b_stay m ck : bstep (m, ck) None (m, ck)
| b_read m ck t τ : bstep (m, ck) (Some (LClock t τ)) (m, <[t := τ]> ck)
| b_answer m ck t τ b d : ck !! t = Some τ →
    bump_bucket (rq_capacity (req t)) (rq_refillPerSecond (req t)) (rq_key (req t)) τ (m !! rq_key (req t)) = (b, d) →
    bstep (m, ck) (Some (LDone t b)) (<[rq_key (req t) := d]> m, delete t ck)
| b_abort m ck t : bstep (m, ck) None (m, delete t ck).

(** The answers about [key], and those that allow the request. *)
Definition answers (key : string) (tr : list (label bool Empty_set)) : list bool :=
  omap (λ l, match l with LDone t b => if String.eqb (rq_key (req t)) key then Some b else None | _ => None end) tr.
Definition allowed_count (key : string) (tr : list (label bool Empty_set)) : Z :=
  Z.of_nat (length (filter (λ b, b = true) (answers key tr))).

(** All at one time: the answers are the bucket's burst. *)
Lemma btrace_burst key T cap rate s tr s' : ltrace bstep s tr s' →
  (∀ t, rq_key (req t) = key → rq_capacity (req t) = cap ∧ rq_refillPerSecond (req t) = rate) →
  (∀ t τ, LClock t τ ∈ tr → τ = T) → (∀ t τ, s.2 !! t = Some τ → τ = T) →
  ∀ d, s.1 !! key = Some d → LastRefill d ≤ T →
  allowed_count key tr = fst (burst T (length (answers key tr)) (mkBucket cap (Tokens d) rate (LastRefill d))).
Proof.
  intros Ht Hreq. induction Ht as [|s l s1 tr s2 Hs _ IH]; intros Hclk Hck d Hd Hle; [done|].
  destruct Hs as [m ck|m ck t τ|m ck t τ b d' Hτ Hb|m ck t]; simpl in *.
  - by apply IH.
  - assert (τ = T) as -> by (eapply Hclk; left). apply IH; [|intros t' τ' [[_ <-]|[_ ?]]%lookup_insert_Some; eauto|done..].
    intros t' τ' Hin. eapply Hclk. by right.
  - assert (τ = T) as -> by by eapply Hck.
    assert (Hck' : ∀ t' τ, delete t ck !! t' = Some τ → τ = T) by (intros t' τ [_ ?]%lookup_delete_Some; eauto).
    assert (Hclk' : ∀ t' τ, LClock t' τ ∈ tr → τ = T) by (intros t' τ Hin; eapply Hclk; by right).
    unfold allowed_count in *. change (LDone t b :: tr) with ([LDone t b] ++ tr). unfold answers in *. rewrite omap_app. simpl omap at 1 3.
    destruct (String.eqb_spec (rq_key (req t)) key) as [Hk|Hk].
    + destruct (Hreq t Hk) as [Hcp Hrt]. rewrite Hcp, Hrt, Hk, Hd in Hb. simpl in Hb.
      pose proof (bump_allow cap rate T d) as Hlast. rewrite Hb in Hlast. destruct Hlast as [Hlast _].
      apply bump_allow_forward in Hb; [|done].
      specialize (IH Hclk' Hck' d'). rewrite Hk, lookup_insert_eq in IH. specialize (IH eq_refl ltac:(lia)).
      simpl app. cbn [length burst]. rewrite Hb. destruct (burst T _ _) as [k b']. simpl in IH |- *. rewrite <-IH.
      rewrite filter_cons. destruct b; case_decide; try done; simpl; lia.
    + apply IH; [done..| |done]. by rewrite lookup_insert_ne.
  - apply IH; [done| |done..]. intros t' τ [_ ?]%lookup_delete_Some; eauto.
Qed.

(** They number the whole tokens there are, if there are requests enough. *)
Lemma btrace_count key T cap rate m tr s' d b k c : ltrace bstep (m, ∅) tr s' →
  (∀ t, rq_key (req t) = key → rq_capacity (req t) = cap ∧ rq_refillPerSecond (req t) = rate) →
  (∀ t τ, LClock t τ ∈ tr → τ = T) → m !! key = Some d → LastRefill d ≤ T →
  b = mkBucket cap (Tokens d) rate (LastRefill d) → bucket_ok b → capacity b = FFin c → c ≤ 2 ^ 53 * unit_one →
  tokens (refill T b) = FFin k → repr k →
  allowed_count key tr = Z.min (Z.of_nat (length (answers key tr))) (k / unit_one).
Proof.
  intros Ha Hreq Hclk Hd Hle Hb Hok Hc Hcap Hk Hr.
  rewrite (btrace_burst key T cap rate _ _ _ Ha Hreq Hclk ltac:(done) d Hd Hle), <-Hb.
  pose proof (refill_ok T b Hok) as (c' & k' & Hc' & Hk' & Hb' & _).
  rewrite <-(burst_refill T), (burst_count T _ _ k); [done|apply refill_settled|done| |done].
  assert (capacity (refill T b) = capacity b) as Hcc by (unfold refill; by case_match). rewrite Hcc, Hc in Hc'. rewrite Hk in Hk'.
  injection Hc' as <-. injection Hk' as <-. lia.
Qed.
End Spec.

(** ** What the tries do without a row lock

    A try computes its answer from the bucket its SELECT saw, and writes the
    result when it commits: what others committed in between is overwritten. *)

Inductive stage : Type :=
| Saw (d : option bucketRow)
| Timed (d : option bucketRow) (t : Time).

Definition stage_bucket (s : stage) : option bucketRow := match s with Saw d | Timed d _ => d end.
Definition stage_clock (s : stage) : option Time := match s with Saw _ => None | Timed _ t => Some t end.

Section Snapshots.
Context (req : Tid → AllowRequest).
Implicit Types (m : gmap string bucketRow) (fl : gmap Tid stage).

Abbreviation key_of t := (rq_key (req t)).

(** A new bucket is created only where there is none. *)
Inductive sstep : gmap string bucketRow * gmap Tid stage → option (label bool Empty_set) → gmap string bucketRow * gmap Tid stage → Prop :=
| s_stay m fl : sstep (m, fl) None (m, fl)
| s_look m fl t : fl !! t = None → sstep (m, fl) None (m, <[t := Saw (m !! key_of t)]> fl)
| s_clock m fl t d τ : fl !! t = Some (Saw d) → sstep (m, fl) (Some (LClock t τ)) (m, <[t := Timed d τ]> fl)
| s_answer m fl t d τ b d' : fl !! t = Some (Timed d τ) →
    bump_bucket (rq_capacity (req t)) (rq_refillPerSecond (req t)) (key_of t) τ d = (b, d') →
    (d = None → m !! key_of t = None) →
    sstep (m, fl) (Some (LDone t b)) (<[key_of t := d']> m, delete t fl)
| s_abort m fl t : sstep (m, fl) None (m, delete t fl).

(** What the tries in progress have seen is still what is stored. *)
Definition fresh_views m fl : Prop := ∀ t st, fl !! t = Some st → stage_bucket st = m !! key_of t.

(** No two tries in progress have the same key. *)
Definition apart (fl : gmap Tid stage) : Prop := ∀ t1 t2, is_Some (fl !! t1) → is_Some (fl !! t2) → key_of t1 = key_of t2 → t1 = t2.

Lemma clocks_insert fl t st : omap stage_clock (<[t := st]> fl) = partial_alter (λ _, stage_clock st) t (omap stage_clock fl).
Proof.
  apply map_eq. intros t'. rewrite lookup_omap. destruct (decide (t' = t)) as [->|Hne].
  - by rewrite lookup_insert_eq, lookup_partial_alter_eq.
  - by rewrite lookup_insert_ne, lookup_partial_alter_ne, lookup_omap by done.
Qed.

Lemma clocks_delete fl t : omap stage_clock (delete t fl) = delete t (omap stage_clock fl).
Proof. apply omap_delete. Qed.

(** As long as that is so a step is one of the bucket as it is stored. *)
Lemma sstep_bstep s l s' : sstep s l s' → fresh_views s.1 s.2 → apart s.2 →
  bstep req (s.1, omap stage_clock s.2) l (s'.1, omap stage_clock s'.2) ∧ fresh_views s'.1 s'.2.
Proof.
  intros Hs Hv Hap. destruct Hs as [m fl|m fl t Hn|m fl t d τ Ht|m fl t d τ b d' Ht Hb Hd|m fl t]; simpl in *.
  - split; [apply b_stay|done].
  - split; [rewrite clocks_insert; apply b_abort|]. intros t' st. rewrite lookup_insert. case_decide as He; [|apply Hv].
    subst t'. by intros [= <-].
  - split; [rewrite clocks_insert; apply b_read|]. intros t' st. rewrite lookup_insert. case_decide as He; [|apply Hv].
    subst t'. intros [= <-]. by apply (Hv t _ Ht).
  - pose proof (Hv t _ Ht) as Hm. simpl in Hm. split.
    + rewrite clocks_delete. apply (b_answer _ _ _ _ τ); [by rewrite lookup_omap, Ht|by rewrite <-Hm].
    + intros t' st [Hne Ht']%lookup_delete_Some. rewrite lookup_insert_ne; [by apply Hv|].
      intros He. apply Hne. apply Hap; [by eexists..|done].
  - split; [rewrite clocks_delete; apply b_abort|]. intros t' st [_ Ht']%lookup_delete_Some. by apply Hv.
Qed.
(** A stored bucket that the in-process bucket's invariant holds of. *)
Definition stored_ok (cap rate : float64) (d : bucketRow) : Prop := bucket_ok (mkBucket cap (Tokens d) rate (LastRefill d)).

Lemma bump_bucket_ok cap rate key τ d b d' : bucket_ok (mkBucket cap cap rate 0) → flt cap F1 = false →
  (∀ d0, d = Some d0 → stored_ok cap rate d0) → bump_bucket cap rate key τ d = (b, d') → stored_ok cap rate d'.
Proof.
  intros Hfull Hone Hd Hb. destruct d as [d|]; simpl in Hb.
  - pose proof (bump_allow cap rate τ d) as Ha. rewrite Hb in Ha. destruct Ha as [_ Ha].
    by apply allow_ok in Ha; [|apply Hd].
  - injection Hb as <- <-. unfold stored_ok. simpl. assert (Hf : bucket_ok (mkBucket cap cap rate τ)) by exact Hfull.
    apply (allow_ok τ _ true (mkBucket cap (fsub cap F1) rate τ)) in Hf; [done|].
    unfold allow. rewrite refill_id; [simpl; by rewrite Hone|].
    unfold settled. simpl. assert (Sub τ τ = 0) as -> by (unfold Sub; lia). by rewrite Seconds_0.
Qed.

(** Lost updates or not, no bucket is overdrawn or over-full. *)
Definition views_ok key cap rate m fl : Prop :=
  (∀ d, m !! key = Some d → stored_ok cap rate d) ∧
  ∀ t st d, fl !! t = Some st → key_of t = key → stage_bucket st = Some d → stored_ok cap rate d.

Lemma sstep_ok key cap rate s l s' : sstep s l s' →
  (∀ t, key_of t = key → rq_capacity (req t) = cap ∧ rq_refillPerSecond (req t) = rate) →
  bucket_ok (mkBucket cap cap rate 0) → flt cap F1 = false → views_ok key cap rate s.1 s.2 → views_ok key cap rate s'.1 s'.2.
Proof.
  intros Hs Hreq Hfull Hone [Hm Hf]. destruct Hs as [m fl|m fl t Hn|m fl t d τ Ht|m fl t d τ b d' Ht Hb Hd|m fl t]; simpl in *; split; try done.
  - intros t' st d. rewrite lookup_insert. case_decide as He; [|by apply Hf]. subst t'. intros [= <-] <-. apply Hm.
  - intros t' st d0. rewrite lookup_insert. case_decide as He; [|by apply Hf]. subst t'. intros [= <-] Hk Hd. by eapply Hf.
  - intros d0. rewrite lookup_insert. case_decide as He; [|by apply Hm]. intros [= <-]. destruct (Hreq t He) as [Hc Hr].
    rewrite Hc, Hr in Hb. eapply bump_bucket_ok; [done..| |done]. intros d0 ->. by eapply Hf.
  - intros t' st d0 [_ Ht']%lookup_delete_Some. by eapply Hf.
  - intros t' st d0 [_ Ht']%lookup_delete_Some. by eapply Hf.
Qed.
End Snapshots.

(** ** The processes implement it *)

Section Sim.
Context {W : Type} {hint : bool} `{TxSpec W bucketRow hint, !TxUnique W bucketRow string Key}.
Context (req : Tid → AllowRequest).
Implicit Types (w : W) (r x : Row bucketRow).

Definition try_start (t : Tid) (p : prog bucketRow (bool * option goerr)) : Prop := p = try_prog (req t).

(** Nothing runs beside the tries. *)
Definition no_other : W → option Empty_set → W → Prop := λ _ _ _, False.

Definition unlocked w t : Prop := ∀ id, tx_locks w !! id ≠ Some t.

(** A row [id] with the key is committed; tries do not delete rows. *)
Definition present w (id key : string) : Prop := ∃ x, x ∈ tbl_rows w ∧ row_Id x = id ∧ Key (row_data x) = key.
Definition keeps w w' : Prop := ∀ id key, present w id key → present w' id key.

(** The row [x] as a try that saw [r] writes it. *)
Definition rewritten (q : AllowRequest) (t : Time) r x : Row bucketRow := mkRow (row_Id x) (row_CreatedAt x) (snd (bumped q t r)).

(** The points of a body, and what it has seen. *)
Inductive try_form w t : prog bucketRow (bool * option goerr) → option stage → Prop :=
| try_begun : tx_changes w !! t = None → unlocked w t → try_form w t (try_prog (req t)) None
| try_found r : tx_changes w !! t = None → present w (row_Id r) (rq_key (req t)) → Key (row_data r) = rq_key (req t) →
    try_form w t (Clock (try_write (req t) (Ok r))) (Some (Saw (Some (row_data r))))
| try_missing e d : tx_changes w !! t = None → unlocked w t → (gormNotFound e = true → d = None) →
    try_form w t (Clock (try_write (req t) (Err e))) (Some (Saw d))
| try_update r τ : tx_changes w !! t = None → present w (row_Id r) (rq_key (req t)) → Key (row_data r) = rq_key (req t) →
    try_form w t (try_write (req t) (Ok r) τ) (Some (Timed (Some (row_data r)) τ))
| try_insert e d τ : tx_changes w !! t = None → unlocked w t → (gormNotFound e = true → d = None) →
    try_form w t (try_write (req t) (Err e) τ) (Some (Timed d τ))
| try_updated r x τ : tx_changes w !! t = Some {[row_Id x := rewritten (req t) τ r x]} → x ∈ tbl_rows w →
    tx_locks w !! row_Id x = Some t → Key (row_data x) = rq_key (req t) → Key (row_data r) = rq_key (req t) →
    try_form w t (Return (fst (bumped (req t) τ r), None)) (Some (Timed (Some (row_data r)) τ))
| try_inserted x τ : tx_changes w !! t = Some {[row_Id x := x]} → unlocked w t → row_data x = first_row (req t) τ →
    try_form w t (Return (true, None)) (Some (Timed None τ))
| try_failed b e st : tx_changes w !! t = None → try_form w t (Return (b, Some e)) st.

Definition try_at w t (p : option (prog bucketRow (bool * option goerr))) (st : option stage) : Prop :=
  match p with Some p => try_form w t p st | None => tx_changes w !! t = None ∧ unlocked w t ∧ st = None end.

Lemma unlocked_frame w w' t : tx_frame (D := bucketRow) t w w' → unlocked w t → unlocked w' t.
Proof. intros (Hl & _) Hu id Hid. by apply (Hu id), Hl. Qed.

Lemma try_at_frame w w' t p st : tx_frame t w w' → keeps w w' → try_at w t p st → try_at w' t p st.
Proof.
  intros Hf Hp. pose proof Hf as (Hl & Hc & Hr). destruct p as [p|]; simpl.
  2:{ rewrite Hc. intros (? & ? & ?). split_and!; [done|by eapply unlocked_frame|done]. }
  intros []; econstructor; try (by rewrite Hc); try (by eapply unlocked_frame); try done; try (by apply Hl); try (by apply Hp); by apply Hr.
Qed.

(** The bucket math keeps the key. *)
Lemma bumped_Key q t r : Key (snd (bumped q t r)) = Key (row_data r).
Proof. apply bump_Key. Qed.

Definition try_sim (s : sys W bucketRow bool) (a : gmap string bucketRow * gmap Tid stage) : Prop :=
  tx_inv (sys_world s) ∧ key_inv Key (sys_world s) ∧ a.1 = buckets (sys_world s) ∧
  ∀ t, try_at (sys_world s) t (sys_runs s !! t) (a.2 !! t).

Lemma try_sim_step t w w' runs m fl p st : try_sim (mkSys w runs) (m, fl) → tx_local t w w' → keeps w w' → key_inv Key w' →
  try_at w' t p st → try_sim (mkSys w' (partial_alter (λ _, p) t runs)) (buckets w', partial_alter (λ _, st) t fl).
Proof.
  intros (_ & _ & _ & Hs) [Hi Hf] Hkp Hk Hp. split_and!; [done..|]. intros t'. simpl in *.
  destruct (decide (t' = t)) as [->|Hne]; [by rewrite !lookup_partial_alter_eq|].
  rewrite !lookup_partial_alter_ne by done. eapply try_at_frame; [by apply Hf|done|apply Hs].
Qed.

Lemma same_buckets w w' : tbl_rows w' = tbl_rows w → buckets w' = buckets w.
Proof. unfold buckets. by intros ->. Qed.

Lemma same_keeps w w' : tbl_rows (D := bucketRow) w' = tbl_rows w → keeps w w'.
Proof. intros Hr id key. unfold present. by rewrite Hr. Qed.

Lemma same_key_inv w w' : tbl_rows w' = tbl_rows w → tx_changes w' = tx_changes w → key_inv Key w → key_inv Key w'.
Proof. intros Hr Hc. apply key_inv_same; [done|]. intros t x. unfold changing. by rewrite Hc. Qed.

(** What a statement of the try achieves: the table is as before, the others are
    not disturbed, and the body is at its next point. *)
Definition moves t w w' (p : prog bucketRow (bool * option goerr)) (st : option stage) : Prop :=
  tx_local t w w' ∧ tbl_rows w' = tbl_rows w ∧ key_inv Key w' ∧ try_form w' t p st.

Lemma moves_sim t w w' runs m fl p st : try_sim (mkSys w runs) (m, fl) → moves t w w' p st →
  try_sim (mkSys w' (<[t := p]> runs)) (m, partial_alter (λ _, st) t fl).
Proof.
  intros Hs (Hl & Hr & Hk & Hp). assert (m = buckets w') as ->.
  { destruct Hs as (_ & _ & Hm & _). simpl in Hm. by rewrite (same_buckets _ _ Hr). }
  eapply (try_sim_step t w w' runs _ fl (Some p)); [done..|by apply same_keeps|done|done].
Qed.

Lemma reads_move t w w' p st : tx_inv w → key_inv Key w → tx_local t w w' → tbl_rows w' = tbl_rows w →
  tx_changes w' = tx_changes w → try_form w' t p st → moves t w w' p st.
Proof. intros Hi Hk Hl Hr Hc Hf. split_and!; [done..|by eapply same_key_inv|done]. Qed.

Lemma ended_at w' t (l : locks) : tx_locks w' = unlock t l → tx_changes w' !! t = None → try_at w' t None None.
Proof. intros Hl Hc. split_and!; [done| |done]. intros id. rewrite Hl. intros [_ ?]%unlock_lookup. done. Qed.

Lemma try_abort t w w' runs m fl : try_sim (mkSys w runs) (m, fl) → tbl_rows w' = tbl_rows w →
  tx_locks w' = unlock t (tx_locks w) → tx_changes w' = delete t (tx_changes w) →
  ∃ a', sstep req (m, fl) None a' ∧ try_sim (mkSys w' (delete t runs)) a'.
Proof.
  intros Hs Hr Hl Hc. pose proof Hs as (Hi & Hk & Hm & _). simpl in *. exists (buckets w', delete t fl). split.
  - rewrite (same_buckets _ _ Hr), <-Hm. apply s_abort.
  - eapply try_sim_step; [done|by apply rollback_local|by apply same_keeps| |].
    + eapply key_inv_same; [done| |done]. intros t' x. by intros [? _]%(changing_delete _ _ _ Hc).
    + eapply ended_at; [done|]. by rewrite Hc, lookup_delete_eq.
Qed.

Lemma clock_moves t w w' τ k st : tx_inv w → key_inv Key w → now w = (τ, w') →
  (tbl_rows w' = tbl_rows w → tx_locks w' = tx_locks w → tx_changes w' = tx_changes w → try_form w' t (k τ) st) →
  moves t w w' (k τ) st.
Proof. intros Hi Hk En Hf. pose proof (tx_now _ _ _ En) as (Er & El & Ec). apply reads_move; [done..|by eapply now_local|done|done|auto]. Qed.

Lemma first_moves t w w' y : tx_inv w → key_inv Key w → tx_changes w !! t = None → unlocked w t →
  tx_First t (key_is (rq_key (req t))) (order_by row_Id) w = (y, w') →
  moves t w w' (Clock (try_write (req t) y)) (Some (Saw (buckets w !! rq_key (req t)))).
Proof.
  intros Hi Hk Hc Hun E. pose proof (First_local _ _ _ _ _ _ Hi E Hc) as Hl.
  pose proof (key_inv_NoDup Key w (proj1 Hi) Hk) as Hn. destruct y as [r|e].
  - apply tx_First_ok in E as (Hin & Hp%String.eqb_eq & Er & Ec & _); [|done].
    assert (buckets w !! rq_key (req t) = Some (row_data r)) as -> by (apply kview_lookup; [done|]; by exists r).
    apply reads_move; [done..|]. constructor; [by rewrite Ec| |done]. exists r. by rewrite Er.
  - apply tx_First_err in E as (Hno & Er & El & Ec). apply reads_move; [done..|]. constructor; [by rewrite Ec| |].
    + intros id. rewrite El. apply Hun.
    + intros Hnf. apply kview_None; [done|]. intros r Hr Hkey. specialize (Hno Hc Hnf r Hr). unfold key_is in Hno.
      apply String.eqb_neq in Hno. done.
Qed.

Lemma update_moves t w w' r τ (y : res Z) : tx_inv w → key_inv Key w → tx_changes w !! t = None →
  present w (row_Id r) (rq_key (req t)) → Key (row_data r) = rq_key (req t) →
  let '(b, d) := bumped (req t) τ r in
  tx_Updates t (by_id (row_Id r)) (λ o, mkBucketRow (Key o) (Tokens d) (LastRefill d)) w = (y, w') →
  moves t w w' (try_end b y) (Some (Timed (Some (row_data r)) τ)).
Proof.
  intros Hi Hk Hc (x & Hin & Hid & Hxk) Hkey. pose proof (bumped_Key (req t) τ r) as Hbk. destruct (bumped (req t) τ r) as [b d] eqn:Eb. simpl in Hbk.
  intros E. pose proof (Updates_local _ _ _ _ _ _ Hi E Hc) as Hl. destruct y as [n|e]; unfold try_end.
  - pose proof (key_Updates Key _ _ _ _ _ _ Hi Hk E Hc ltac:(done)) as Hk1. destruct Hi as (Hu & _). rewrite <-Hid in E.
    apply Updates_row in E as (Er & El & Ec); [|done..]. split_and!; [done..|].
    replace b with (fst (bumped (req t) τ r)) by by rewrite Eb. apply (try_updated _ _ r x); [|by rewrite Er|done..].
    rewrite Ec. unfold rewritten. rewrite Eb. simpl. rewrite Hxk, <-Hkey, <-Hbk. by destruct d.
  - apply tx_Updates_err in E as (Er & El & Ec). apply reads_move; [done..|]. constructor. by rewrite Ec.
Qed.

Lemma create_moves t w w' τ y : tx_inv w → key_inv Key w → tx_changes w !! t = None → unlocked w t →
  tx_Create t (mkRow "" None (first_row (req t) τ)) w = (y, w') → moves t w w' (try_end true y) (Some (Timed None τ)).
Proof.
  intros Hi Hk Hc Hun E. pose proof (Create_local _ _ _ _ _ Hi E Hc) as Hl. destruct y as [x|e]; unfold try_end.
  - pose proof (key_Create Key _ _ _ _ _ Hk E Hc) as Hk1. apply tx_Create_ok in E as (Hd & _ & _ & Er & El & Ec); [|done].
    split_and!; [done..|]. apply (try_inserted _ _ x); [by rewrite Ec, lookup_insert_eq| |done]. intros id. rewrite El. apply Hun.
  - apply tx_Create_err in E as (Er & El & Ec). apply reads_move; [done..|]. constructor. by rewrite Ec.
Qed.

(** A statement reads the table or the clock, or changes nothing yet. *)
Lemma try_statement t w runs m fl p l p' w' : try_sim (mkSys w runs) (m, fl) → runs !! t = Some p →
  statement t p w = Some (l, p', w') → ∃ a', sstep req (m, fl) l a' ∧ try_sim (mkSys w' (<[t := p']> runs)) a'.
Proof.
  intros Hs Hr E. pose proof Hs as (Hi & Hk & Hm & Hat). simpl in *. specialize (Hat t). rewrite Hr in Hat. simpl in Hat.
  assert (Hmove : ∀ st, moves t w w' p' st → sstep req (m, fl) l (m, partial_alter (λ _, st) t fl) →
    ∃ a', sstep req (m, fl) l a' ∧ try_sim (mkSys w' (<[t := p']> runs)) a').
  { intros st Hv Hb. exists (m, partial_alter (λ _, st) t fl). split; [done|by eapply moves_sim]. }
  assert (Hstay : ∀ st, l = None → fl !! t = st → sstep req (m, fl) l (m, partial_alter (λ _, st) t fl)).
  { intros st -> <-. rewrite partial_alter_self. apply s_stay. }
  inversion Hat as [Hc Hun Hp Hfl|r Hc Hpr Hkey Hp Hfl|e d Hc Hun Hd Hp Hfl|r τ Hc Hpr Hkey Hp Hfl|e d τ Hc Hun Hd Hp Hfl| | |];
    subst p; simpl in E; try done; symmetry in Hfl.
  - destruct (tx_First t _ _ w) as [y w1] eqn:Ef. injection E as <- <- <-. eapply Hmove; [by eapply first_moves|].
    rewrite <-Hm. by apply (s_look req m fl t).
  - destruct (now w) as [τ w1] eqn:En. injection E as <- <- <-. eapply Hmove; [|by eapply (s_clock req m fl t)].
    apply (clock_moves _ _ _ _ (try_write (req t) (Ok r))); [done..|]. intros Er El Ec.
    constructor; [by rewrite Ec|by apply (same_keeps w)|done].
  - destruct (now w) as [τ w1] eqn:En. injection E as <- <- <-. eapply Hmove; [|by eapply (s_clock req m fl t)].
    apply (clock_moves _ _ _ _ (try_write (req t) (Err e))); [done..|]. intros Er El Ec.
    constructor; [by rewrite Ec| |done]. intros id. rewrite El. apply Hun.
  - pose proof (λ y, update_moves t w w' r τ y Hi Hk Hc Hpr Hkey) as Hu. destruct (bumped (req t) τ r) as [b d]. simpl in E.
    destruct (tx_Updates t _ _ w) as [y w1] eqn:Eu. injection E as <- <- <-. eapply Hmove; [by apply Hu|by apply Hstay].
  - destruct (gormNotFound e); [|done]. simpl in E. destruct (tx_Create t _ w) as [y w1] eqn:Ec. injection E as <- <- <-.
    rewrite Hd in Hfl by done. eapply Hmove; [by eapply create_moves|by apply Hstay].
Qed.

(** The commit of a rewritten row. *)
Lemma commit_keeps t x y w w' : tx_inv w → tx_changes w !! t = Some {[row_Id x := y]} → row_Id y = row_Id x →
  (x ∈ tbl_rows w → Key (row_data y) = Key (row_data x)) → (x ∈ tbl_rows w ∨ ¬ (row_Id x ∈ row_Id <$> tbl_rows (D := bucketRow) w)) →
  tx_Commit t w = (None, w') → keeps w w'.
Proof.
  intros Hi Hc Hid Hkey Hx E id key (z & Hz & Hzid & Hzk). pose proof (commit_rows _ _ _ Hi E) as Hrows. rewrite Hc in Hrows. simpl in Hrows.
  destruct Hi as (Hu & _). destruct (decide (row_Id z = row_Id x)) as [He|Hne].
  - assert (Hx' : x ∈ tbl_rows w). { destruct Hx as [|Hno]; [done|]. destruct Hno. rewrite <-He. by apply list_elem_of_fmap_2. }
    assert (z = x) as -> by by apply (ids_unique_eq (tbl_rows w)).
    exists y. split_and!; [|congruence|rewrite Hkey; done]. apply Hrows. left. by rewrite Hid, lookup_singleton_eq.
  - exists z. split_and!; [|done..]. apply Hrows. right. split; [|done]. by rewrite lookup_singleton_ne.
Qed.

(** A commit answers with one step of the bucket the try saw. *)
Lemma answer_sim t w runs m fl b w' : try_sim (mkSys w runs) (m, fl) → runs !! t = Some (Return (b, None)) →
  tx_Commit t w = (None, w') →
  sstep req (m, fl) (Some (LDone t b)) (buckets w', delete t fl) ∧ try_sim (mkSys w' (delete t runs)) (buckets w', delete t fl).
Proof.
  intros Hs Hr E. pose proof Hs as (Hi & Hk & Hm & Hat). simpl in *. specialize (Hat t). rewrite Hr in Hat. simpl in Hat.
  pose proof E as (_ & _ & El & Ec)%tx_Commit_ok; [|by destruct Hi]. pose proof (key_inv_NoDup Key w (proj1 Hi) Hk) as Hn.
  assert (Hend : keeps w w' → try_sim (mkSys w' (delete t runs)) (buckets w', delete t fl)).
  { intros Hkp. eapply try_sim_step; [done|by eapply Commit_local|done|by eapply key_Commit|].
    eapply ended_at; [done|]. by rewrite Ec, lookup_delete_eq. }
  inversion Hat as [| | |r τ _ _ _ Hp|e d τ _ _ _ Hp|r x τ Hc Hin Hlk Hxk Hkey Hb Hfl|x τ Hc Hun Hd Hb Hfl|]; subst.
  - simpl in Hp. by destruct (bumped (req t) τ r).
  - simpl in Hp. by destruct (gormNotFound e).
  - symmetry in Hfl. assert (Hwk : Key (row_data (rewritten (req t) τ r x)) = rq_key (req t)) by (simpl; by rewrite bumped_Key).
    split; [|apply Hend; eapply (commit_keeps t x); [done..|congruence|by left|done]].
    assert (buckets w' = <[rq_key (req t) := snd (bumped (req t) τ r)]> (buckets w)) as ->.
    { unfold buckets. rewrite (commit_one Key t (rewritten (req t) τ r x) w w' Hi Hk Hc E); [by rewrite Hwk|].
      left. exists x. rewrite Hwk. by split_and!. }
    apply (s_answer req _ _ _ (Some (row_data r)) τ); [done| |done]. unfold bumped. simpl. by destruct (bump _ _ _ _).
  - symmetry in Hfl. assert (Hno : ¬ (row_Id x ∈ row_Id <$> tbl_rows (D := bucketRow) w)).
    { destruct Hi as (_ & Hh & _). destruct (Hh t _ (row_Id x) x Hc) as [_ [Hlk|?]]; [by rewrite lookup_singleton_eq| |done].
      by destruct (Hun (row_Id x)). }
    split; [|apply Hend; eapply (commit_keeps t x); [done..|by right|done]].
    assert (buckets w' = <[rq_key (req t) := first_row (req t) τ]> (buckets w)) as ->.
    { unfold buckets. rewrite (commit_one Key t x w w' Hi Hk Hc E); [by rewrite Hd|by right]. }
    apply (s_answer req _ _ _ None τ); [done..|]. intros _.
    apply kview_None; [done|]. intros r Hr2 Hkey. destruct Hk as (_ & K2 & _).
    destruct (K2 t x) as [(r0 & Hr0 & Hid & _)|Hnk]; [by exists {[row_Id x := x]}, (row_Id x); rewrite lookup_singleton_eq|..].
    + apply Hno. rewrite <-Hid. by apply list_elem_of_fmap_2.
    + apply (Hnk r Hr2). by rewrite Hd, Hkey.
Qed.

Lemma limiter_sim (s s' : sys W bucketRow bool) a l : try_sim s a → txstep try_start no_other s l s' → ∃ a', sstep req a l a' ∧ try_sim s' a'.
Proof.
  intros Hs Ht. destruct a as [m fl].
  destruct Ht as [w runs t p Hr Hp|w runs t p l p' w' Hr E|w runs t b w' Hr E|w runs t b e w' Hr E|w runs t b e w' Hr E
    |w runs t p w' Hr E|w runs o w' Ho]; pose proof Hs as (Hi & Hk & Hm & Hat); simpl in *.
  - exists (m, fl). split; [apply s_stay|]. rewrite <-(partial_alter_self fl t). specialize (Hat t). rewrite Hr in Hat.
    destruct Hat as (Hc & Hun & ->). apply (moves_sim t w w); [done|]. rewrite Hp.
    apply reads_move; [done..|by apply same_local|done|done|by constructor].
  - by eapply try_statement.
  - eexists. by eapply answer_sim.
  - apply tx_Commit_err in E as (Er & El & Ec). by eapply try_abort.
  - apply tx_Rollback_ok in E as (Er & El & Ec). by eapply try_abort.
  - apply tx_Rollback_ok in E as (Er & El & Ec). by eapply try_abort.
  - done.
Qed.

(** *** Tries of one key one at a time *)

Definition in_turn (s : sys W bucketRow bool) : Prop :=
  map_Forall (λ t1 _, map_Forall (λ t2 _, rq_key (req t1) = rq_key (req t2) → t1 = t2) (sys_runs s)) (sys_runs s).
#[export] Instance in_turn_dec s : Decision (in_turn s).
Proof. apply _. Defined.

(** Steps after which no two tries of the same key are in progress. *)
Definition turn_step (s : sys W bucketRow bool) (l : option (label bool Empty_set)) (s' : sys W bucketRow bool) : Prop :=
  txstep try_start no_other s l s' ∧ in_turn s'.

Definition turn_sim (s : sys W bucketRow bool) (a : gmap string bucketRow * gmap Tid Time) : Prop :=
  in_turn s ∧ ∃ fl, try_sim s (a.1, fl) ∧ fresh_views req a.1 fl ∧ a.2 = omap stage_clock fl.

Lemma turn_sim_step s s' a l : turn_sim s a → turn_step s l s' → ∃ a', bstep req a l a' ∧ turn_sim s' a'.
Proof.
  intros (Hin & fl & Hs & Hv & Ha) [Ht Hin']. destruct a as [m ck]. simpl in *. subst ck.
  destruct (limiter_sim s s' (m, fl) l Hs Ht) as ([m' fl'] & Hstep & Hs').
  destruct (sstep_bstep req _ _ _ Hstep Hv) as [Hb Hv'].
  { destruct Hs as (_ & _ & _ & Hat). intros t1 t2 [s1 E1] [s2 E2]. simpl in *.
    assert (Hrun : ∀ t st, fl !! t = Some st → is_Some (sys_runs s !! t)).
    { intros t st Hfl. specialize (Hat t). rewrite Hfl in Hat. destruct (sys_runs s !! t); [done|]. by destruct Hat as (_ & _ & ?). }
    destruct (Hrun _ _ E1) as [p1 R1], (Hrun _ _ E2) as [p2 R2]. by apply (Hin t1 p1 R1 t2 p2 R2). }
  eexists. split; [exact Hb|]. split; [done|]. exists fl'. by split_and!.
Qed.

(** Schedules that keep to it. *)
Fixpoint turns (l : list action) (s : sys W bucketRow bool) : bool :=
  match l with
  | [] => true
  | a :: l =>
      match play (O := Empty_set) (λ t, try_prog (req t)) a s with
      | Some (_, s') => bool_decide (in_turn s') && turns l s'
      | None => false
      end
  end.

Lemma turns_trace l s tr s' : turns l s = true → plays (λ t, try_prog (req t)) l s = Some (tr, s') → ltrace turn_step s tr s'.
Proof.
  revert s tr. induction l as [|a l IH]; intros s tr; simpl; [intros _ [= <- <-]; constructor|].
  destruct (play _ a s) as [[x s1]|] eqn:Ep; [|done]. intros [Hin%bool_decide_eq_true Ht]%andb_true_iff.
  destruct (plays _ l s1) as [[tr1 s2]|] eqn:El; [|done]. intros [= <- <-].
  econstructor; [|by apply IH]. split; [|done]. by eapply (play_step (λ t, try_prog (req t))).
Qed.

(** No transaction is in progress, and each key has one row. *)
Definition idle_table w : Prop := lim_inv w ∧ tx_locks w = ∅ ∧ tx_changes w = ∅.

Lemma try_sim_start w : idle_table w → try_sim (mkSys w ∅) (buckets w, ∅).
Proof.
  intros ((Hu & Hn) & Hl & Hc). split_and!; simpl; [| |done|].
  - split_and!; simpl; [done| |]; rewrite Hc; intros *; by rewrite lookup_empty.
  - split_and!.
    + intros r1 r2 K1 K2. by apply (kview_key_inj (λ r, Key (row_data r)) (tbl_rows w)).
    + intros t x (m & id & Hm & _). by rewrite Hc, lookup_empty in Hm.
    + intros t1 t2 x1 x2 (m & id & Hm & _). by rewrite Hc, lookup_empty in Hm.
  - intros t. rewrite !lookup_empty. split_and!; [by rewrite Hc| |done]. intros id. by rewrite Hl, lookup_empty.
Qed.

Lemma turn_sim_start w : idle_table w → turn_sim (mkSys w ∅) (buckets w, ∅).
Proof.
  intros Hw. split; [apply map_Forall_empty|]. exists ∅. split_and!; [by apply try_sim_start|by intros ? ?|done].
Qed.
End Sim.

(** ** Properties *)

(** C9: what several processes get from the shared limiter.  Whether or not the
    SELECT of tryAllow locks the row it reads, in every interleaving of the
    statements of any number of tries, with failed statements, lost insert races
    and processes that die in the middle: each answer is one step of the bucket
    its try saw, a new bucket is created only where there is none, and no bucket
    is ever overdrawn or over-full.  When the tries of one key do not overlap,
    tries of different keys interleaving as they like, the answers are those of
    one bucket per key that the tries visit one after another; then, when all
    read the same time, the requests allowed for a key number the smaller of the
    answers and the whole tokens the bucket holds after the refill due then. *)
Theorem shared_limiter_exact {W : Type} {hint : bool} `{TxSpec W bucketRow hint, !TxUnique W bucketRow string Key}
    req (w : W) tr s : idle_table w →
  (ltrace (txstep (try_start req) no_other) (mkSys w ∅) tr s →
     (∃ fl, ltrace (sstep req) (buckets w, ∅) tr (buckets (sys_world s), fl)) ∧
     ∀ key cap rate,
       (∀ t, rq_key (req t) = key → rq_capacity (req t) = cap ∧ rq_refillPerSecond (req t) = rate) →
       bucket_ok (mkBucket cap cap rate 0) → flt cap F1 = false →
       (∀ d, buckets w !! key = Some d → stored_ok cap rate d) →
       ∀ d, buckets (sys_world s) !! key = Some d → stored_ok cap rate d) ∧
  (ltrace (turn_step req) (mkSys w ∅) tr s →
     (∃ ck, ltrace (bstep req) (buckets w, ∅) tr (buckets (sys_world s), ck)) ∧
     ∀ key T cap rate d b k c,
       (∀ t, rq_key (req t) = key → rq_capacity (req t) = cap ∧ rq_refillPerSecond (req t) = rate) →
       (∀ t τ, LClock t τ ∈ tr → τ = T) → buckets w !! key = Some d → LastRefill d ≤ T →
       b = mkBucket cap (Tokens d) rate (LastRefill d) → bucket_ok b → capacity b = FFin c → c ≤ 2 ^ 53 * unit_one →
       tokens (refill T b) = FFin k → repr k →
       allowed_count req key tr = Z.min (Z.of_nat (length (answers req key tr))) (k / unit_one)).
Proof.
  intros Hw. split; intros Ht.
  - destruct (ltrace_simulation _ _ (try_sim req) _ _ _ (λ s1 l s2 a1, limiter_sim req s1 s2 a1 l) Ht _ (try_sim_start req w Hw))
      as ([m fl] & Ha & _ & _ & Hm & _). simpl in Hm. subst m. split; [by exists fl|].
    intros key cap rate Hreq Hfull Hone Hst.
    apply (ltrace_invariant _ (λ a, views_ok req key cap rate a.1 a.2) _ _ _ (λ s1 l s2 Hv Hs, sstep_ok req key cap rate s1 l s2 Hs Hreq Hfull Hone Hv) Ha).
    split; [done|by intros ? ? ?].
  - destruct (ltrace_simulation _ _ (turn_sim req) _ _ _ (λ s1 l s2 a1, turn_sim_step req s1 s2 a1 l) Ht _ (turn_sim_start req w Hw))
      as ([m ck] & Ha & _ & fl & (_ & _ & Hm & _) & _). simpl in Hm. subst m. split; [by exists ck|].
    intros key T cap rate d b k c Hreq Hclk Hd Hle Hb Hok Hc Hcap Hk Hr.
    by eapply (btrace_count req key T cap rate).
Qed.

Module SharedExample.
Import ListTx.
#[export] Instance key_conflicts : ListTable.Conflicts bucketRow := λ a b, String.eqb (Key a) (Key b).
Definition shared (tokens : Z) : TxW bucketRow := mkTxW 4 [mkRow "1" None (mkBucketRow "ip:a" (of_int tokens) 4)] ∅ ∅.
Definition req (t : Tid) : AllowRequest := mkAllowRequest (if Nat.eqb t 4 then "ip:b" else "ip:a") (of_int 5) F1.
Definition drawn : TokenBucket := mkBucket (of_int 5) (of_int 1) F1 4.
Lemma drawn_ok : bucket_ok drawn.
Proof.
  exists (5 * unit_one), unit_one. pose proof unit_one_pos. split_and!; [by vm_compute..|lia|lia|apply repr_int; lia|by vm_compute|].
  exists unit_one. split; [done|lia].
Qed.
(** Three processes, one of which dies in the middle, take turns at one key; a
    fourth makes the first request for another. *)
Definition taking_turns : list action :=
  [Begin 1; Run 1; Begin 4; Run 4; Run 1; Run 4; Run 1; Run 1; Begin 2; Run 2; Run 2; Run 4; Run 2; Kill 2;
   Begin 3; Run 3; Run 4; Run 3; Run 3; Run 3].
(** Two processes that read before either writes. *)
Definition overlapping : list action := [Begin 1; Run 1; Run 1; Begin 2; Run 2; Run 2; Run 1; Run 1; Run 2; Run 2].
Definition outcome (hint : bool) l n : option (list (label bool Empty_set) * sys (TxW bucketRow) bucketRow bool) :=
  plays (H1 := statements hint) (λ t, try_prog (req t)) l (mkSys (shared n) ∅).
Definition observed hint l n : list (label bool Empty_set) := from_option fst [] (outcome hint l n).
Definition final hint l n : sys (TxW bucketRow) bucketRow bool := from_option snd (mkSys (shared n) ∅) (outcome hint l n).
End SharedExample.
Import SharedExample.

(** No lock, one token: of the two requests answered one is allowed. *)
Lemma shared_limiter_exact_witness :
  observed false taking_turns 1 = [LClock 1 4; LClock 4 4; LDone 1 true; LClock 2 4; LDone 4 true; LClock 3 4; LDone 3 false] ∧
  allowed_count req "ip:a" (observed false taking_turns 1) = Z.min 2 (unit_one / unit_one).
Proof.
  split; [by vm_compute|].
  destruct (shared_limiter_exact (H := ListTx.tw_env) (H3 := ListTx.tx_spec false) (TxUnique0 := ListTx.tx_unique_intro Key false
    (λ a b E, proj2 (String.eqb_eq _ _) (eq_sym E))) req (shared 1) (observed false taking_turns 1) (final false taking_turns 1)) as [_ Hb].
  - split; [|done]. split; vm_compute; repeat constructor; set_solver.
  - destruct Hb as [_ Hb].
    { apply (turns_trace (TxTable0 := ListTx.statements false) req taking_turns); by vm_compute. }
    assert (Hreq : ∀ t, rq_key (req t) = "ip:a" → rq_capacity (req t) = of_int 5 ∧ rq_refillPerSecond (req t) = F1) by done.
    rewrite (Hb "ip:a" 4 (of_int 5) F1 (mkBucketRow "ip:a" (of_int 1) 4) drawn unit_one (5 * unit_one) Hreq); try done.
    + assert (Hf : Forall (λ l, match l with LClock _ τ => τ = 4 | _ => True end) (observed false taking_turns 1)) by (vm_compute; by repeat constructor).
      rewrite Forall_forall in Hf. intros t τ. apply Hf.
    + apply drawn_ok.
    + rewrite <-(Z.mul_1_l unit_one). apply repr_int; lia.
Defined.

(** Tries of one key that overlap lose updates: both requests spend the one
    token.  A SELECT that locked the row would make the second wait. *)
Lemma overlapping_tries_over_admit :
  observed false overlapping 1 = [LClock 1 4; LClock 2 4; LDone 1 true; LDone 2 true] ∧
  allowed_count req "ip:a" (observed false overlapping 1) = 2.
Proof. by vm_compute. Qed.
