(* ===== verification/Kms.v ===== *)
(** * Encryption at rest (internal/kms)

    [kms.Encryptor] as an interface with its law, the AES-256-GCM
    implementation over an abstract AEAD, and the base64 text encoding the
    callers store ciphertexts in.  A [[]byte] and a [string] of Go are both a
    [string]. *)

From S2P Require Import Prelude Table.

(** ** encoding/base64, StdEncoding *)

Module Base64.

Definition alphabet : string := "ABCDEFGHIJKLMNOPQRSTUVWXYZabcdefghijklmnopqrstuvwxyz0123456789+/".

Definition byte (c : ascii) : Z := Z.of_N (Ascii.N_of_ascii c).
Definition chr (n : Z) : ascii := Ascii.ascii_of_N (Z.to_N n).

Definition enc1 (n : Z) : ascii := default "A"%char (String.get (Z.to_nat n) alphabet).

Fixpoint index_of (c : ascii) (s : string) : option Z :=
  match s with
  | EmptyString => None
  | String d s => if decide (c = d) then Some 0 else Z.succ <$> index_of c s
  end.

Definition dec1 (c : ascii) : option Z := index_of c alphabet.

Fixpoint EncodeToString (s : string) : string :=
  match s with
  | EmptyString => ""
  | String a EmptyString =>
      let n := byte a * 65536 in
      String (enc1 (n / 262144)) (String (enc1 (n / 4096 mod 64)) "==")
  | String a (String b EmptyString) =>
      let n := byte a * 65536 + byte b * 256 in
      String (enc1 (n / 262144)) (String (enc1 (n / 4096 mod 64)) (String (enc1 (n / 64 mod 64)) "="))
  | String a (String b (String c s)) =>
      let n := byte a * 65536 + byte b * 256 + byte c in
      String (enc1 (n / 262144)) (String (enc1 (n / 4096 mod 64))
        (String (enc1 (n / 64 mod 64)) (String (enc1 (n mod 64)) (EncodeToString s))))
  end.

(** Decoding of the quads; padding only in the last one. *)
Fixpoint dec_quads (s : string) : option string :=
  match s with
  | EmptyString => Some ""
  | String a (String b (String c (String d s))) =>
      i ← dec1 a; j ← dec1 b;
      if decide (c = "="%char ∧ d = "="%char ∧ s = "") then
        Some (String (chr ((i * 262144 + j * 4096) / 65536)) "")
      else k ← dec1 c;
      if decide (d = "="%char ∧ s = "") then
        let n := i * 262144 + j * 4096 + k * 64 in
        Some (String (chr (n / 65536)) (String (chr (n / 256 mod 256)) ""))
      else l ← dec1 d;
      let n := i * 262144 + j * 4096 + k * 64 + l in
      rest ← dec_quads s;
      Some (String (chr (n / 65536)) (String (chr (n / 256 mod 256)) (String (chr (n mod 256)) rest)))
  | _ => None
  end.

(** The decoder skips line ends. *)
Fixpoint strip_nl (s : string) : string :=
  match s with
  | EmptyString => EmptyString
  | String c s =>
      if bool_decide (c = "010"%char) || bool_decide (c = "013"%char) then strip_nl s
      else String c (strip_nl s)
  end.

Definition CorruptInputError : goerr := ErrNew "illegal base64 data".

Definition DecodeString (s : string) : res string :=
  match dec_quads (strip_nl s) with Some r => Ok r | None => Err CorruptInputError end.

Lemma byte_range c : 0 ≤ byte c < 256.
Proof. unfold byte. pose proof (Ascii.N_ascii_bounded c). lia. Qed.

Lemma chr_byte c : chr (byte c) = c.
Proof. unfold chr, byte. rewrite N2Z.id. apply Ascii.ascii_N_embedding. Qed.

Definition sextets : list Z := Z.of_nat <$> seq 0 64.

Lemma sextet_in n : 0 ≤ n < 64 → n ∈ sextets.
Proof.
  intros Hn. apply list_elem_of_fmap. exists (Z.to_nat n). split; [lia|]. apply elem_of_seq. lia.
Qed.

Lemma dec1_enc1 n : 0 ≤ n < 64 → dec1 (enc1 n) = Some n.
Proof.
  intros Hn%sextet_in. revert n Hn. apply Forall_forall.
  assert (H : forallb (λ n, bool_decide (dec1 (enc1 n) = Some n)) sextets = true) by (by vm_compute).
  apply Forall_forall. intros n Hn. rewrite forallb_forall in H.
  specialize (H n). apply bool_decide_eq_true in H; [done|]. by apply list_elem_of_In.
Qed.

Lemma enc1_plain n : 0 ≤ n < 64 → enc1 n ≠ "="%char ∧ enc1 n ≠ "010"%char ∧ enc1 n ≠ "013"%char.
Proof.
  intros Hn%sextet_in. revert n Hn. apply Forall_forall.
  assert (H : forallb (λ n, bool_decide (enc1 n ≠ "="%char ∧ enc1 n ≠ "010"%char ∧ enc1 n ≠ "013"%char))
                sextets = true) by (by vm_compute).
  apply Forall_forall. intros n Hn. rewrite forallb_forall in H.
  specialize (H n). apply bool_decide_eq_true in H; [done|]. by apply list_elem_of_In.
Qed.

(** The sextets of a group, and the group back from its sextets. *)
Lemma group_split n : 0 ≤ n < 16777216 →
  0 ≤ n / 262144 < 64 ∧ 0 ≤ n / 4096 mod 64 < 64 ∧ 0 ≤ n / 64 mod 64 < 64 ∧ 0 ≤ n mod 64 < 64 ∧
  n / 262144 * 262144 + n / 4096 mod 64 * 4096 + n / 64 mod 64 * 64 + n mod 64 = n.
Proof. intros Hn. Z.to_euclidean_division_equations. lia. Qed.

Lemma group_bytes a b c :
  0 ≤ a < 256 → 0 ≤ b < 256 → 0 ≤ c < 256 →
  let n := a * 65536 + b * 256 + c in
  0 ≤ n < 16777216 ∧ n / 65536 = a ∧ n / 256 mod 256 = b ∧ n mod 256 = c.
Proof. intros Ha Hb Hc n. subst n. Z.to_euclidean_division_equations. lia. Qed.

Ltac enc_plain n := let H := fresh in
  pose proof (enc1_plain n) as H; rewrite !bool_decide_eq_false_2 by (apply H; lia).

Lemma strip_nl_char c s :
  c ≠ "010"%char → c ≠ "013"%char → strip_nl (String c s) = String c (strip_nl s).
Proof. intros. simpl. by rewrite !bool_decide_eq_false_2. Qed.

Lemma strip_nl_encode s : strip_nl (EncodeToString s) = EncodeToString s.
Proof.
  revert s. fix IH 1. intros [|a [|b [|c s]]]; [done|..];
    pose proof (byte_range a) as Ha; try pose proof (byte_range b) as Hb;
    try pose proof (byte_range c) as Hc; cbn [EncodeToString]; cbv zeta;
    match goal with |- context [?n / 262144] =>
      destruct (group_split n) as (H1 & H2 & H3 & H4 & _); [lia|] end;
    rewrite !strip_nl_char by (done || by apply enc1_plain); try done.
  by rewrite IH.
Qed.

Lemma dec_quads_encode s : dec_quads (EncodeToString s) = Some s.
Proof.
  revert s. fix IH 1. intros [|a [|b [|c s]]]; [done|..];
    pose proof (byte_range a) as Ha; try pose proof (byte_range b) as Hb;
    try pose proof (byte_range c) as Hc; cbn [EncodeToString]; cbv zeta.
  - set (n := byte a * 65536). destruct (group_split n) as (H1 & H2 & _ & _ & Hn); [lia|].
    cbn [dec_quads]. rewrite !dec1_enc1 by done. cbn [mbind option_bind].
    rewrite decide_True by done. do 2 f_equal. transitivity (chr (byte a)); [f_equal|apply chr_byte].
    assert (n / 64 mod 64 = 0 ∧ n mod 64 = 0) as [Hz1 Hz2]
      by (unfold n; split; Z.to_euclidean_division_equations; lia).
    replace (n / 262144 * 262144 + n / 4096 mod 64 * 4096) with n by lia.
    unfold n. apply Z.div_mul. lia.
  - set (n := byte a * 65536 + byte b * 256).
    destruct (group_split n) as (H1 & H2 & H3 & _ & Hn); [lia|].
    cbn [dec_quads]. rewrite !dec1_enc1 by done. cbn [mbind option_bind].
    rewrite decide_False by (intros (Hx & _); by apply (enc1_plain (n / 64 mod 64)) in Hx).
    rewrite decide_True by done. 
    assert (n mod 64 = 0) as Hz by (unfold n; Z.to_euclidean_division_equations; lia).
    replace (n / 262144 * 262144 + n / 4096 mod 64 * 4096 + n / 64 mod 64 * 64) with n by lia.
    destruct (group_bytes (byte a) (byte b) 0) as (_ & E1 & E2 & _); [lia..|].
    rewrite Z.add_0_r in E1, E2. fold n in E1, E2. by rewrite E1, E2, !chr_byte.
  - set (n := byte a * 65536 + byte b * 256 + byte c).
    destruct (group_split n) as (H1 & H2 & H3 & H4 & Hn); [lia|].
    cbn [dec_quads]. rewrite !dec1_enc1 by done. cbn [mbind option_bind].
    rewrite decide_False by (intros (Hx & _); by apply (enc1_plain (n / 64 mod 64)) in Hx).
    rewrite decide_False by (intros (Hx & _); by apply (enc1_plain (n mod 64)) in Hx).
    rewrite IH. cbn [mbind option_bind]. cbv zeta. rewrite Hn.
    destruct (group_bytes (byte a) (byte b) (byte c)) as (_ & E1 & E2 & E3); [lia..|].
    fold n in E1, E2, E3. by rewrite E1, E2, E3, !chr_byte.
Qed.

Lemma decode_encode s : DecodeString (EncodeToString s) = Ok s.
Proof. unfold DecodeString. by rewrite strip_nl_encode, dec_quads_encode. Qed.
End Base64.

(** ** The interface (kms.go) *)

Record Encryptor (W : Type) := mkEncryptor {
  Encrypt : string → M W (res string);
  Decrypt : string → res string;
}.
Arguments mkEncryptor {W} _ _.
Arguments Encrypt {W} _ _ _.
Arguments Decrypt {W} _ _.

(** What an Encryptor promises its callers: Decrypt reverses Encrypt. *)
Class EncryptorSpec {W} (enc : Encryptor W) : Prop :=
  Decrypt_Encrypt : ∀ p c w w', Encrypt enc p w = (Ok c, w') → Decrypt enc c = Ok p.

(** ** AES-256-GCM (aesgcm.go)

    crypto/cipher's AEAD and crypto/rand are outside the repository: [AEAD] is
    the mode bound to its key, [RandRead] fills a buffer or fails. *)
Record AEAD := mkAEAD {
  NonceSize : nat;
  Seal : string → string → string;          (* nonce, plaintext *)
  Open : string → string → res string;      (* nonce, ciphertext *)
}.

Class AEADSpec (gcm : AEAD) : Prop := Open_Seal : ∀ n p, String.length n = NonceSize gcm →
  Open gcm n (Seal gcm n p) = Ok p.

Class RandRead (W : Type) := rand_Read : nat → M W (res string).
Class RandReadSpec (W : Type) `{RandRead W} : Prop :=
  rand_Read_length : ∀ n w s w', rand_Read n w = (Ok s, w') → String.length s = n.

Definition KeySize : Z := 32.

Section AESGCM.
Context {W : Type} `{RandRead W}.
(** [aes.NewCipher] followed by [cipher.NewGCM]. *)
Context (NewGCM : string → res AEAD).

Definition AESGCM_Encrypt (gcm : AEAD) (plaintext : string) : M W (res string) :=
  let? nonce := wrap (ErrorfW "kms: generate nonce: %w" []) (rand_Read (NonceSize gcm)) in
  ret (Ok (nonce +:+ Seal gcm nonce plaintext)).

Definition AESGCM_Decrypt (gcm : AEAD) (ciphertext : string) : res string :=
  let nonceSize := NonceSize gcm in
  if (String.length ciphertext <? nonceSize)%nat
  then Err (ErrNew "kms: ciphertext shorter than nonce size")
  else let nonce := String.substring 0 nonceSize ciphertext in
       let ct := str_drop nonceSize ciphertext in
       map_err (ErrorfW "kms: decrypt: %w" []) (Open gcm nonce ct).

Definition AESGCMEncryptor (gcm : AEAD) : Encryptor W :=
  mkEncryptor (AESGCM_Encrypt gcm) (AESGCM_Decrypt gcm).

Definition NewAESGCMEncryptor (key : string) : res (Encryptor W) :=
  if negb (Z.of_nat (String.length key) =? KeySize)
  then Err (Errorf "kms: key must be %d bytes, got %d" [])
  else match NewGCM key with
       | Err e => Err (ErrorfW "kms: create GCM: %w" [] e)
       | Ok gcm => Ok (AESGCMEncryptor gcm)
       end.
End AESGCM.

Lemma str_drop_app a b : str_drop (String.length a) (a +:+ b) = b.
Proof. induction a as [|c a IH]; simpl; [done|]. apply IH. Qed.

Lemma substring_app a b : String.substring 0 (String.length a) (a +:+ b) = a.
Proof.
  induction a as [|c a IH]; simpl; [by destruct b|]. f_equal. apply IH.
Qed.

Lemma str_length_app a b : String.length (a +:+ b) = (String.length a + String.length b)%nat.
Proof. induction a as [|c a IH]; simpl; [done|]. by rewrite IH. Qed.

#[export] Instance AESGCM_spec {W} `{RandReadSpec W} (gcm : AEAD) :
  AEADSpec gcm → EncryptorSpec (W := W) (AESGCMEncryptor gcm).
Proof.
  intros Hg p c w w'. simpl. unfold AESGCM_Encrypt, mtry, wrap, ret.
  destruct (rand_Read _ w) as [[n|e] w1] eqn:E; simpl; [|done]. intros [= <- <-].
  apply rand_Read_length in E. unfold AESGCM_Decrypt. rewrite <-E.
  rewrite substring_app, str_drop_app, str_length_app.
  assert ((String.length n + String.length (Seal gcm n p) <? String.length n)%nat = false) as ->
    by (apply Nat.ltb_ge; lia).
  by rewrite Hg.
Qed.

(** ** Master-key rotation (directory.RotateDKIMKeys, webhook.RotateSecrets)

    Both re-encrypt one text column of one table, row by row; [col] and
    [set_col] are that column, the messages differ. *)
Record RotateText := mkRotateText {
  rt_list : string;
  rt_decode : string;
  rt_decrypt : string;
  rt_encrypt : string;
  rt_write : string;
}.

Section Rotate.
Context {W D : Type} `{Table W D}.
Context (col : D → string) (set_col : string → D → D) (txt : RotateText).
Context (oldEnc newEnc : Encryptor W).

(** The loop over the rows; [n] counts the rows rewritten so far. *)
Fixpoint rotate_rows (ctx : Ctx) (rows : list (Row D)) (n : Z) : M W (Z * option goerr) :=
  match rows with
  | [] => ret (n, None)
  | row :: rows =>
      match Base64.DecodeString (col (row_data row)) with
      | Err e => ret (n, Some (ErrorfW (rt_decode txt) [row_Id row] e))
      | Ok ciphertext =>
          match Decrypt oldEnc ciphertext with
          | Err e =>
              match Decrypt newEnc ciphertext with
              | Ok _ => rotate_rows ctx rows n
              | Err _ => ret (n, Some (ErrorfW (rt_decrypt txt) [row_Id row] e))
              end
          | Ok plaintext =>
              let* r := Encrypt newEnc plaintext in
              match r with
              | Err e => ret (n, Some (ErrorfW (rt_encrypt txt) [row_Id row] e))
              | Ok newCiphertext =>
                  let encoded := Base64.EncodeToString newCiphertext in
                  let* u := tbl_Updates ctx (by_id (row_Id row)) (set_col encoded) in
                  match u with
                  | Err e => ret (n, Some (ErrorfW (rt_write txt) [row_Id row] e))
                  | Ok _ => rotate_rows ctx rows (n + 1)
                  end
              end
          end
      end
  end.

Definition rotate (ctx : Ctx) : M W (Z * option goerr) :=
  let* rows := tbl_Find ctx (mkQuery (λ _, true) (λ _ _, true) None) in
  match rows with
  | Err e => ret (0, Some (ErrorfW (rt_list txt) [] e))
  | Ok rows => rotate_rows ctx rows 0
  end.
End Rotate.

(** The plaintext behind a stored value. *)
Definition plain {W} (enc : Encryptor W) (stored : string) : res string :=
  match Base64.DecodeString stored with
  | Ok c => Decrypt enc c
  | Err e => Err e
  end.

(** Ciphertexts of [b] are not accepted by [a] (the tag of another key). *)
Class KeySeparate {W} (a b : Encryptor W) : Prop :=
  key_separate : ∀ p c w w', Encrypt b p w = (Ok c, w') → is_Ok (Decrypt a c) = false.

Section RotateFacts.
Context {W D : Type} `{TableSpec W D}.
Context (col : D → string) (set_col : string → D → D) (txt : RotateText).
Context (oldEnc newEnc : Encryptor W).
Context `{!EncryptorSpec newEnc, !KeySeparate oldEnc newEnc}.
Context {enc_frame : ∀ p, Preserves tbl_rows (Encrypt newEnc p)}.
Hypothesis col_set : ∀ s d, col (set_col s d) = s.

(** [secrets] gives the plaintext of each row: a row holds it under the old
    key, or, once rotated, under the new key only. *)
Definition under_new (secrets : gmap string string) (r : Row D) : Prop :=
  ∃ p, secrets !! row_Id r = Some p ∧ plain newEnc (col (row_data r)) = Ok p ∧
       is_Ok (plain oldEnc (col (row_data r))) = false.
Definition under_old (secrets : gmap string string) (r : Row D) : Prop :=
  ∃ p, secrets !! row_Id r = Some p ∧ plain oldEnc (col (row_data r)) = Ok p.

Definition rot_inv (secrets : gmap string string) (l : list (Row D)) : Prop :=
  ids_unique l ∧ Forall (λ r, under_old secrets r ∨ under_new secrets r) l.

(** What a rotation may not touch: the table with the column blanked. *)
Definition blank (l : list (Row D)) : gmap string (Row D) :=
  kview row_Id (λ r, mkRow (row_Id r) (row_CreatedAt r) (set_col "" (row_data r))) l.

Lemma rotated_new secrets r p c w w' :
  secrets !! row_Id r = Some p → Encrypt newEnc p w = (Ok c, w') →
  under_new secrets (mkRow (row_Id r) (row_CreatedAt r)
                       (set_col (Base64.EncodeToString c) (row_data r))).
Proof.
  intros Hp Hc. exists p. simpl. rewrite col_set. unfold plain. rewrite Base64.decode_encode.
  split_and!; [done|by eapply Decrypt_Encrypt|by eapply key_separate].
Qed.

Context (set_set : ∀ s t d, set_col s (set_col t d) = set_col s d).

Lemma rotate_rows_spec secrets ctx rows n (w : W) m e w' :
  rot_inv secrets (tbl_rows w) →
  NoDup (row_Id <$> rows) → (∀ r, r ∈ rows → r ∈ tbl_rows w) →
  (∀ r, r ∈ tbl_rows w → row_Id r ∉ row_Id <$> rows → under_new secrets r) →
  rotate_rows col set_col txt oldEnc newEnc ctx rows n w = ((m, e), w') →
  rot_inv secrets (tbl_rows w') ∧ blank (tbl_rows w') = blank (tbl_rows w) ∧
  (e = None → Forall (under_new secrets) (tbl_rows w')).
Proof.
  revert n w. induction rows as [|row rows IH]; intros n w [Hu Hall] Hnd Hin Hdone; simpl.
  { intros [= <- <- <-]. split_and!; [done..|]. intros _. apply Forall_forall. intros r Hr.
    apply Hdone; [done|]. set_solver. }
  rewrite fmap_cons in Hnd. apply NoDup_cons in Hnd as [Hnew Hnd].
  assert (Hrow : row ∈ tbl_rows w) by (apply Hin; set_solver).
  pose proof Hall as Hall'. rewrite Forall_forall in Hall'.
  pose proof (Hall' row Hrow) as Hst.
  destruct (Base64.DecodeString (col (row_data row))) as [ct|e1] eqn:Ed.
  2:{ intros [= <- <- <-]. split_and!; done. }
  assert (Hpl : ∀ enc : Encryptor W, plain enc (col (row_data row)) = Decrypt enc ct)
    by (intros enc; unfold plain; by rewrite Ed).
  destruct (Decrypt oldEnc ct) as [p|e1] eqn:Eo.
  - assert (Hp : secrets !! row_Id row = Some p).
    { destruct Hst as [(q & Hq & Hx)|(q & Hq & _ & Hx)]; rewrite Hpl, Eo in Hx; [|done].
      by injection Hx as <-. }
    unfold bind. destruct (Encrypt newEnc p w) as [[c|e1] w1] eqn:Ee.
    all: pose proof (preserves_eq _ _ _ _ _ Ee) as Hw1.
    2:{ intros [= <- <- <-]. rewrite Hw1. split_and!; done. }
    destruct (tbl_Updates _ _ _ w1) as [[k|e1] w2] eqn:Eu.
    2:{ intros [= <- <- <-]. rewrite (Updates_err _ _ _ _ _ _ Eu), Hw1. split_and!; done. }
    apply Updates_ok in Eu as [_ Hp2]. rewrite Hw1 in Hp2.
    set (row' := mkRow (row_Id row) (row_CreatedAt row)
                   (set_col (Base64.EncodeToString c) (row_data row))).
    assert (Hupd : ∀ r, r ∈ tbl_rows w →
       update_row (by_id (row_Id row)) (set_col (Base64.EncodeToString c)) r
       = if decide (row_Id r = row_Id row) then row' else r).
    { intros r Hr. unfold update_row, by_id. case_decide as Hd.
      - rewrite (ids_unique_eq (tbl_rows w) r row Hu Hr Hrow Hd). by rewrite String.eqb_refl.
      - by apply String.eqb_neq in Hd as ->. }
    assert (Hu2 : ids_unique (tbl_rows w2)).
    { eapply ids_unique_perm; [symmetry; exact Hp2|]. by apply ids_unique_update. }
    assert (Hnew' : under_new secrets row') by (by eapply rotated_new).
    assert (Hmem : ∀ r, r ∈ tbl_rows w2 ↔
              r = row' ∨ (r ∈ tbl_rows w ∧ row_Id r ≠ row_Id row)).
    { intros r. rewrite Hp2, list_elem_of_fmap. split.
      - intros (x & -> & Hx). rewrite Hupd by done. case_decide; [by left|by right].
      - intros [->|[Hr Hd]].
        + exists row. rewrite Hupd by done. by rewrite decide_True.
        + exists r. rewrite Hupd by done. by rewrite decide_False. }
    intros Hrest. apply IH in Hrest as (Hi & Hb & Hn).
    + split_and!; [done| |done]. rewrite Hb. unfold blank.
      rewrite (kview_perm _ _ _ _ Hp2) by done.
      rewrite (kview_update _ _ _ _ _ row); [|done|apply update_row_Id|done|apply String.eqb_refl|].
      * rewrite Hupd, decide_True by done. simpl. rewrite set_set. apply insert_id.
        by apply (kview_row row_Id (λ r, mkRow (row_Id r) (row_CreatedAt r) (set_col "" (row_data r)))).
      * intros r Hr Hd%String.eqb_eq. exact (ids_unique_eq _ _ _ Hu Hr Hrow Hd).
    + split; [done|]. apply Forall_forall. intros r [->|[Hr _]]%Hmem; [by right|by apply Hall'].
    + done.
    + intros r Hr. apply Hmem. right. split; [apply Hin; set_solver|].
      intros Hd. apply Hnew. rewrite <-Hd. by apply list_elem_of_fmap_2.
    + intros r [->|[Hr Hd]]%Hmem Hni; [done|]. apply Hdone; [done|].
      rewrite fmap_cons. by apply not_elem_of_cons.
  - destruct (Decrypt newEnc ct) as [q|e2] eqn:En.
    2:{ intros [= <- <- <-]. split_and!; done. }
    apply IH; [done|done|set_solver|].
    intros r Hr Hni. destruct (decide (row_Id r = row_Id row)) as [Hd|Hd].
    + assert (r = row) as -> by (exact (ids_unique_eq _ _ _ Hu Hr Hrow Hd)).
      destruct Hst as [(x & _ & Hx)|]; [|done]. by rewrite Hpl, Eo in Hx.
    + apply Hdone; [done|]. rewrite fmap_cons. by apply not_elem_of_cons.
Qed.

Lemma rotate_spec secrets ctx (w : W) m e w' :
  rot_inv secrets (tbl_rows w) →
  rotate col set_col txt oldEnc newEnc ctx w = ((m, e), w') →
  rot_inv secrets (tbl_rows w') ∧ blank (tbl_rows w') = blank (tbl_rows w) ∧
  (e = None → Forall (under_new secrets) (tbl_rows w')).
Proof.
  intros Hi. unfold rotate, bind.
  destruct (tbl_Find _ _ w) as [[l|e1] w1] eqn:Ef.
  - pose proof (Find_frame _ _ _ _ _ Ef) as Hw1.
    apply Find_ok in Ef as (l' & Hp & _ & ->); [|split; naive_solver]. simpl in *.
    rewrite filter_all in Hp by (by apply Forall_true).
    intros Hr. rewrite <-Hw1. eapply rotate_rows_spec; [| | | |exact Hr]; try rewrite Hw1.
    + done.
    + destruct Hi as [Hu _]. by rewrite Hp.
    + intros r. by rewrite Hp.
    + intros r Hr' Hn. exfalso. apply Hn. rewrite Hp. by apply list_elem_of_fmap_2.
  - intros [= <- <- <-]. rewrite (Find_frame _ _ _ _ _ Ef). split_and!; [done..|by intros [=]].
Qed.
End RotateFacts.
