(* ===== verification/Filter.v ===== *)
(** * The inbound filter (internal/filter)

    SPF, DKIM, DMARC alignment and the rspamd score of a message, and the
    verdict they give.  The mail-authentication libraries, DNS and the header
    parser are parameters ([MsgAuth]); the rspamd client is modelled down to its
    HTTP request ([Transport]). *)

From stdpp Require Import gmap pretty.
From S2P Require Import Prelude Float64.

(** ** The rspamd client (rspamd/client.go) *)

Module rspamd.

Record Verdict := mkVerdict {
  Action : string;
  Score : float64;
  RequiredScore : float64;
  Symbols : gmap string float64;
}.

Record rawSymbol := mkRawSymbol { sym_Score : float64 }.

Record rawResponse := mkRaw {
  raw_Action : string;
  raw_Score : float64;
  raw_RequiredScore : float64;
  raw_Symbols : gmap string rawSymbol;
}.

(** A POST request, its headers in the order they are added; a response with
    what the JSON decoder makes of its body. *)
Record request := mkReq { rq_URL : string; rq_Header : list (string * string); rq_Body : string }.
Record response := mkResp { StatusCode : Z; rs_JSON : res rawResponse }.

Class Transport (W : Type) := {
  NewRequest_error : string → option goerr;
  http_Do : Duration → Ctx → request → M W (res response);
}.

Record Client := mkClient { baseURL : string; timeout : Duration }.

Definition clientTimeout : Duration := 3 * Second.

Definition New (baseURL : string) : Client := mkClient baseURL clientTimeout.

Definition StatusOK : Z := 200.

Definition Check_ {W} `{Transport W} (c : Client) (ctx : Ctx) (from : string) (rcpts : list string) (body : string)
  : M W (res Verdict) :=
  let url := baseURL c +:+ "/checkv2" in
  match NewRequest_error url with
  | Some e => ret (Err (ErrorfW "rspamd: build request: %w" [] e))
  | None =>
      let header := (if String.eqb from "" then [] else [("From", from)]) ++
                    ((λ rcpt, ("Rcpt", rcpt)) <$> rcpts) in
      let? resp := wrap (ErrorfW "rspamd: request failed: %w" [])
        (http_Do (timeout c) ctx (mkReq url header body)) in
      if negb (StatusCode resp =? StatusOK)
      then ret (Err (Errorf "rspamd: unexpected status %d" [pretty (StatusCode resp)]))
      else match rs_JSON resp with
           | Err e => ret (Err (ErrorfW "rspamd: decode response: %w" [] e))
           | Ok raw => ret (Ok (mkVerdict (raw_Action raw) (raw_Score raw) (raw_RequiredScore raw)
                                  (sym_Score <$> raw_Symbols raw)))
           end
  end.
End rspamd.

(** [RspamdChecker]. *)
Class RspamdChecker (W : Type) :=
  rs_Check : Ctx → string → list string → string → M W (res rspamd.Verdict).

Definition Client_Checker {W} `{rspamd.Transport W} (c : rspamd.Client) : RspamdChecker W := rspamd.Check_ c.

(** ** Mail authentication *)

(** [net.IP] by its text, nil as [None]. *)
Definition IP : Type := option string.

Inductive SPFResult := SPFNone | SPFNeutral | SPFPass | SPFFail | SPFSoftFail | SPFTempError | SPFPermError.

#[export] Instance SPFResult_eq_dec : EqDecision SPFResult.
Proof. solve_decision. Defined.

Record DKIMResult := mkDKIM { dk_Domain : string; dk_Valid : bool }.

(** [dmarc.Record]: the tags the code reads, with their RFC 7489 values. *)
Record Record_ := mkRecord { Policy : string; SPFAlignment : string; DKIMAlignment : string }.
Definition PolicyReject : string := "reject".
Definition PolicyQuarantine : string := "quarantine".
Definition AlignmentStrict : string := "s".
Definition ErrNoPolicy : string := "dmarc.ErrNoPolicy".

(** What the libraries find.  [mail_From] is net/mail's reading of a message's
    From header: the address, or none when it is missing or malformed. *)
Class MsgAuth (W : Type) := {
  Resolver : Type;
  spf_CheckHostWithSender : Ctx → option Resolver → IP → string → string → M W (SPFResult * option goerr);
  dkim_Verify : Ctx → option Resolver → string → M W (res (list (string * option goerr)));
  dmarc_Lookup : Ctx → option Resolver → string → M W (res Record_);
  EffectiveTLDPlusOne : string → res string;
  mail_From : string → option string;
}.

(** ** The pipeline (verdict.go) *)

Inductive Verdict := Accept | Quarantine | Reject.

#[export] Instance Verdict_eq_dec : EqDecision Verdict.
Proof. solve_decision. Defined.

Record Result := mkResult {
  r_Verdict : Verdict;
  Reason : string;
  SPF : SPFResult;
  DKIM : list DKIMResult;
  DMARC : option Record_;
  r_Aligned : bool;
  SpamScore : float64;
  FailedOpen : bool;
}.

Record Input := mkInput {
  Body : string;
  MailFrom : string;
  RcptTo : list string;
  ClientIP : IP;
  HeloDomain : string;
  RejectThreshold : float64;
  QuarantineThreshold : float64;
}.

Definition domainOf (addr : string) : string :=
  let '(_, domain, ok) := Cut addr "@" in
  if negb ok then "" else domain.

Definition senderDomain (mailFrom heloDomain : string) : string :=
  let d := domainOf mailFrom in
  if negb (String.eqb d "") then d else heloDomain.

Definition decide (record : option Record_) (aligned : bool) (spamScore : float64) (failedOpen : bool)
  (rejectThreshold quarantineThreshold : float64) : Verdict * string :=
  let unaligned pol := match record with
                       | Some r => negb aligned && String.eqb (Policy r) pol
                       | None => false
                       end in
  if negb failedOpen && fgt rejectThreshold F0 && fge spamScore rejectThreshold
  then (Reject, "spam score at or above reject threshold")
  else if unaligned PolicyReject then (Reject, "DMARC policy=reject and message is not aligned")
  else if failedOpen then (Quarantine, "rspamd unavailable; failing open to quarantine (FR-2.6)")
  else if fgt quarantineThreshold F0 && fge spamScore quarantineThreshold
  then (Quarantine, "spam score at or above quarantine threshold")
  else if unaligned PolicyQuarantine then (Quarantine, "DMARC policy=quarantine and message is not aligned")
  else (Accept, "passed all checks").

Section Ops.
Context {W : Type} `{HMt : Metrics W, HM : MsgAuth W, HR : RspamdChecker W}.

(** The pipeline's resolver, nil-able. *)
Record Pipeline := mkPipeline { p_Resolver : option Resolver }.

Definition CheckSPF (ctx : Ctx) (resolver : option Resolver) (ip : IP) (helo sender : string)
  : M W (SPFResult * option goerr) :=
  spf_CheckHostWithSender ctx resolver ip helo sender.

Definition VerifyDKIM (ctx : Ctx) (resolver : option Resolver) (r : string) : M W (res (list DKIMResult)) :=
  let? verifications := dkim_Verify ctx resolver r in
  ret (Ok ((λ v, mkDKIM v.1 (bool_decide (v.2 = None))) <$> verifications)).

Definition LookupDMARC (ctx : Ctx) (resolver : option Resolver) (fromDomain : string) : M W (res (option Record_)) :=
  let* r := dmarc_Lookup ctx resolver fromDomain in
  ret (match r with
       | Err e => if errors_Is ErrNoPolicy e then Ok None else Err e
       | Ok record => Ok (Some record)
       end).

Definition Aligned (authDomain fromDomain mode : string) : bool :=
  let authDomain := ToLower authDomain in
  let fromDomain := ToLower fromDomain in
  if String.eqb authDomain fromDomain then true
  else if String.eqb mode AlignmentStrict then false
  else match EffectiveTLDPlusOne authDomain, EffectiveTLDPlusOne fromDomain with
       | Ok authOrg, Ok fromOrg => String.eqb authOrg fromOrg
       | _, _ => false
       end.

Definition fromHeaderDomain (body : string) : string :=
  match mail_From body with
  | None => ""
  | Some address => domainOf address
  end.

(** The record [Evaluate] goes by: none without a From domain or when the
    lookup fails. *)
Definition find_record (p : Pipeline) (ctx : Ctx) (fromDomain : string) : M W (option Record_) :=
  if negb (String.eqb fromDomain "") then
    let* r := LookupDMARC ctx (p_Resolver p) fromDomain in
    ret (match r with Ok r => r | Err _ => None end)
  else ret None.

Definition is_aligned (rec : Record_) (i : Input) (spfResult : SPFResult) (dkimResults : list DKIMResult)
  (fromDomain : string) : bool :=
  let aligned :=
    if bool_decide (spfResult = SPFPass)
    then Aligned (senderDomain (MailFrom i) (HeloDomain i)) fromDomain (SPFAlignment rec)
    else false in
  if negb aligned
  then existsb (λ d, dk_Valid d && Aligned (dk_Domain d) fromDomain (DKIMAlignment rec)) dkimResults
  else aligned.

Definition Evaluate (p : Pipeline) (ctx : Ctx) (i : Input) : M W Result :=
  let* spf := CheckSPF ctx (p_Resolver p) (ClientIP i) (HeloDomain i) (MailFrom i) in
  let spfResult := spf.1 in
  let* dk := VerifyDKIM ctx (p_Resolver p) (Body i) in
  let dkimResults := match dk with Ok l => l | Err _ => [] end in
  let fromDomain := fromHeaderDomain (Body i) in
  let* record := find_record p ctx fromDomain in
  let aligned := match record with
                 | None => false
                 | Some rec => is_aligned rec i spfResult dkimResults fromDomain
                 end in
  let* rv := rs_Check ctx (MailFrom i) (RcptTo i) (Body i) in
  Inc_if (negb (is_Ok rv)) SpamScorerUnavailableTotal;;
  let '(spamScore, failedOpen) :=
    match rv with Err _ => (F0, true) | Ok v => (rspamd.Score v, false) end in
  let '(verdict, reason) :=
    decide record aligned spamScore failedOpen (RejectThreshold i) (QuarantineThreshold i) in
  ret (mkResult verdict reason spfResult dkimResults record aligned spamScore failedOpen).
End Ops.

(** ** Verdicts *)

Lemma existsb_spec {A} (f : A → bool) l : existsb f l = true ↔ ∃ x, x ∈ l ∧ f x = true.
Proof. rewrite existsb_exists. by setoid_rewrite <-list_elem_of_In. Qed.

(** How severe a verdict is. *)
Definition severity (v : Verdict) : Z :=
  match v with Accept => 0 | Quarantine => 1 | Reject => 2 end.

(** A score at or above a configured threshold. *)
Definition over (threshold score : float64) : bool := fgt threshold F0 && fge score threshold.

(** A published policy [pol] the message is not aligned with. *)
Definition violates (pol : string) (record : option Record_) (aligned : bool) : Prop :=
  aligned = false ∧ ∃ r, record = Some r ∧ Policy r = pol.

#[export] Instance violates_dec pol record aligned : Decision (violates pol record aligned).
Proof.
  unfold violates. destruct aligned; [by right; intros [? ?]|]. destruct record as [r|].
  - destruct (decide_rel (=) (Policy r) pol) as [E|E]; [left; eauto|right; intros (_ & r' & [= <-] & ?); done].
  - right. by intros (_ & r & ? & _).
Defined.

(** The policy as a table: what is rejected, what is accepted, and that only
    what is not rejected or accepted is quarantined. *)
Definition policy (record : option Record_) (aligned : bool) (score : float64) (failedOpen : bool)
  (rejectThreshold quarantineThreshold : float64) : Verdict :=
  if bool_decide ((failedOpen = false ∧ over rejectThreshold score = true) ∨ violates PolicyReject record aligned)
  then Reject
  else if bool_decide (failedOpen = true ∨ over quarantineThreshold score = true ∨
                       violates PolicyQuarantine record aligned)
  then Quarantine
  else Accept.

Lemma decide_policy record aligned score failedOpen rt qt :
  (decide record aligned score failedOpen rt qt).1 = policy record aligned score failedOpen rt qt.
Proof.
  unfold decide, policy. fold (over rt score) (over qt score).
  assert (Hv : ∀ pol, match record with Some r => negb aligned && String.eqb (Policy r) pol | None => false end
                      = bool_decide (violates pol record aligned)).
  { intros pol. destruct (bool_decide_reflect (violates pol record aligned)) as [(-> & r & -> & <-)|Hn].
    { by rewrite String.eqb_refl. }
    destruct record as [r|]; [|done]. destruct aligned; [done|]. simpl. apply String.eqb_neq. intros <-.
    apply Hn. unfold violates. eauto. }
  rewrite !Hv. rewrite <-andb_assoc. fold (over rt score).
  repeat case_bool_decide; destruct failedOpen, (over rt score), (over qt score); simpl in *; naive_solver.
Qed.

Lemma fle_trans x y z : fle x y = true → fle y z = true → fle x z = true.
Proof.
  destruct x as [|[]|a], y as [|[]|b], z as [|[]|c]; simpl; try done. rewrite !Z.leb_le. lia.
Qed.

Lemma over_mono t t' s : fgt t' F0 = true → fle t' t = true → over t s = true → over t' s = true.
Proof.
  unfold over, fge. intros Hp Hle [_ Hs]%andb_true_iff. rewrite Hp. by apply (fle_trans _ t).
Qed.

(** [t'] is at least as strict a threshold as [t]: unconfigured is laxest. *)
Definition stricter (t' t : float64) : Prop := fgt t F0 = true → fgt t' F0 = true ∧ fle t' t = true.

Lemma over_stricter t t' s : stricter t' t → over t s = true → over t' s = true.
Proof.
  intros Hst Ho. pose proof Ho as [Hp _]%andb_true_iff. destruct (Hst Hp) as [? ?]. by apply (over_mono t).
Qed.

Lemma policy_mono record aligned score failedOpen rt qt rt' qt' :
  stricter rt' rt → stricter qt' qt →
  severity (policy record aligned score failedOpen rt qt) ≤ severity (policy record aligned score failedOpen rt' qt').
Proof.
  intros Hr Hq. pose proof (over_stricter rt rt' score Hr). pose proof (over_stricter qt qt' score Hq).
  unfold policy. repeat case_bool_decide; simpl; try lia; exfalso; naive_solver.
Qed.

(** ** Evaluation *)

Section Facts.
Context {W : Type} `{HMt : Metrics W, HM : MsgAuth W, HR : RspamdChecker W}.

(** A message is authenticated for [dom] under the policy [rec]. *)
Definition authenticated (i : Input) (spf : SPFResult) (sigs : list DKIMResult) (rec : Record_) : Prop :=
  let dom := fromHeaderDomain (Body i) in
  (spf = SPFPass ∧ Aligned (senderDomain (MailFrom i) (HeloDomain i)) dom (SPFAlignment rec) = true) ∨
  ∃ d, d ∈ sigs ∧ dk_Valid d = true ∧ Aligned (dk_Domain d) dom (DKIMAlignment rec) = true.

Lemma Evaluate_spec p ctx i w :
  let r := fst (Evaluate p ctx i w) in
  r_Verdict r = policy (DMARC r) (r_Aligned r) (SpamScore r) (FailedOpen r) (RejectThreshold i) (QuarantineThreshold i) ∧
  (fromHeaderDomain (Body i) = "" → DMARC r = None) ∧
  (r_Aligned r = true ↔ ∃ rec, DMARC r = Some rec ∧ authenticated i (SPF r) (DKIM r) rec) ∧
  ∃ w', let rv := fst (rs_Check ctx (MailFrom i) (RcptTo i) (Body i) w') in
    FailedOpen r = negb (is_Ok rv) ∧ ∀ v, rv = Ok v → SpamScore r = rspamd.Score v.
Proof.
  unfold Evaluate, bind, ret.
  destruct (CheckSPF _ _ _ _ _ w) as [spf w1]. destruct (VerifyDKIM _ _ _ w1) as [dk w2].
  destruct (find_record _ _ _ w2) as [record w3] eqn:Er.
  destruct (rs_Check _ _ _ _ w3) as [rv w4] eqn:Ev.
  destruct (Inc_if _ _ w4) as [[] w5].
  set (sigs := match dk with Ok l => l | Err _ => [] end).
  set (aligned := match record with None => false | Some rec => is_aligned rec i spf.1 sigs _ end).
  destruct (match rv with Ok v => (rspamd.Score v, false) | Err _ => (F0, true) end) as [score failed] eqn:Es.
  pose proof (decide_policy record aligned score failed (RejectThreshold i) (QuarantineThreshold i)) as Hd.
  destruct (decide record aligned score failed _ _) as [verdict reason]. simpl in *. split_and!.
  - done.
  - intros E. rewrite E in Er. by injection Er.
  - unfold aligned, authenticated. destruct record as [rec|]; [|split; [done|by intros (? & ? & _)]].
    transitivity (authenticated i spf.1 sigs rec); [|unfold authenticated; naive_solver].
    unfold authenticated. pose proof (existsb_spec (λ d, dk_Valid d && Aligned (dk_Domain d)
      (fromHeaderDomain (Body i)) (DKIMAlignment rec)) sigs) as Hx. setoid_rewrite andb_true_iff in Hx.
    rewrite <-Hx. unfold is_aligned. case_bool_decide as Hs; [|simpl; naive_solver].
    destruct (Aligned (senderDomain _ _) _ _); simpl; naive_solver.
  - exists w3. rewrite Ev. simpl. destruct rv; injection Es as <- <-; split; [done| |done|done]. by intros v [= ->].
Qed.
(** Two domains are aligned: the same but for case, or, unless the policy is
    strict, under one organizational domain. *)
Definition aligned_domains (mode a b : string) : Prop :=
  ToLower a = ToLower b ∨
  mode ≠ AlignmentStrict ∧ ∃ org, EffectiveTLDPlusOne (ToLower a) = Ok org ∧ EffectiveTLDPlusOne (ToLower b) = Ok org.

Lemma Aligned_spec a b mode : Aligned a b mode = true ↔ aligned_domains mode a b.
Proof.
  unfold Aligned, aligned_domains. destruct (String.eqb_spec (ToLower a) (ToLower b)) as [|Hne]; [naive_solver|].
  destruct (String.eqb_spec mode AlignmentStrict) as [|Hm]; [naive_solver|].
  destruct (EffectiveTLDPlusOne (ToLower a)) as [o1|e1], (EffectiveTLDPlusOne (ToLower b)) as [o2|e2]; rewrite ?String.eqb_eq; naive_solver.
Qed.

(** What the outside says of a message, asked in this order: the SPF library,
    the DKIM library (no signatures if it fails), the DNS for the policy of the
    From domain (none if there is no such domain or the lookup fails), and
    rspamd. *)
Definition testimony (p : Pipeline) (ctx : Ctx) (i : Input) (w : W) (spf : SPFResult) (sigs : list (string * option goerr))
    (dmarc : option Record_) (scan : res rspamd.Verdict) : Prop :=
  ∃ spf_err w1 dk w2 w3 w4,
    spf_CheckHostWithSender ctx (p_Resolver p) (ClientIP i) (HeloDomain i) (MailFrom i) w = ((spf, spf_err), w1) ∧
    dkim_Verify ctx (p_Resolver p) (Body i) w1 = (dk, w2) ∧ sigs = match dk with Ok l => l | Err _ => [] end ∧
    (if String.eqb (fromHeaderDomain (Body i)) "" then dmarc = None ∧ w3 = w2
     else ∃ r, dmarc_Lookup ctx (p_Resolver p) (fromHeaderDomain (Body i)) w2 = (r, w3) ∧
            dmarc = match r with Ok rec => Some rec | Err _ => None end) ∧
    rs_Check ctx (MailFrom i) (RcptTo i) (Body i) w3 = (scan, w4).

(** The message is authentic for its From domain: SPF passed for a sender
    aligned with it, or a signature verified of a domain aligned with it. *)
Definition authentic (i : Input) (spf : SPFResult) (sigs : list (string * option goerr)) (rec : Record_) : Prop :=
  let from := fromHeaderDomain (Body i) in
  (spf = SPFPass ∧ aligned_domains (SPFAlignment rec) (senderDomain (MailFrom i) (HeloDomain i)) from) ∨
  ∃ dom, (dom, None) ∈ sigs ∧ aligned_domains (DKIMAlignment rec) dom from.

Lemma authenticated_authentic i spf sigs rec :
  authenticated i spf ((λ v, mkDKIM v.1 (bool_decide (v.2 = None))) <$> sigs) rec ↔ authentic i spf sigs rec.
Proof.
  unfold authenticated, authentic. rewrite Aligned_spec. split; (intros [?|Hx]; [by left|right]).
  - destruct Hx as (d & (x & -> & Hin)%list_elem_of_fmap & Hval & Hal%Aligned_spec). destruct x as [dom e]. simpl in *.
    apply bool_decide_eq_true in Hval. subst e. by exists dom.
  - destruct Hx as (dom & Hin & Hal%Aligned_spec). exists (mkDKIM dom true). split_and!; [|done..].
    apply list_elem_of_fmap. by exists (dom, None).
Qed.

(** The result reports what was said. *)
Lemma Evaluate_testimony p ctx i w : let r := fst (Evaluate p ctx i w) in
  ∃ spf sigs dmarc scan, testimony p ctx i w spf sigs dmarc scan ∧
    SPF r = spf ∧ DKIM r = ((λ v, mkDKIM v.1 (bool_decide (v.2 = None))) <$> sigs) ∧ DMARC r = dmarc ∧
    FailedOpen r = negb (is_Ok scan) ∧ SpamScore r = match scan with Ok v => rspamd.Score v | Err _ => F0 end.
Proof.
  unfold Evaluate, CheckSPF, VerifyDKIM, find_record, LookupDMARC, testimony, bind, ret.
  destruct (spf_CheckHostWithSender _ _ _ _ _ w) as [[spf spf_err] w1] eqn:E1. unfold mtry.
  destruct (dkim_Verify _ _ _ w1) as [dk w2] eqn:E2.
  set (sigs := match dk with Ok l => l | Err _ => [] end).
  assert (Hlet : (match dk with Ok a => (Ok ((λ v : string * option goerr, mkDKIM v.1 (bool_decide (v.2 = None))) <$> a), w2)
    | Err e => (Err e, w2) end) = (match dk with Ok a => Ok ((λ v : string * option goerr, mkDKIM v.1 (bool_decide (v.2 = None))) <$> a)
    | Err e => Err e end, w2)) by (by destruct dk). unfold ret. rewrite Hlet. clear Hlet. simpl.
  destruct (String.eqb_spec (fromHeaderDomain (Body i)) "") as [Hd|Hd]; simpl.
  - destruct (rs_Check _ _ _ _ w2) as [scan w4] eqn:E4. destruct (Inc_if _ _ w4) as [[] w5].
    exists spf, sigs, None, scan. destruct scan as [v|e]; simpl; try (destruct (decide _ _ _ _ _ _) as [vd rs]; simpl);
      (split; [exists spf_err, w1, dk, w2, w2, w4; by split_and!|]); split_and!; try done; by destruct dk.
  - destruct (dmarc_Lookup _ _ _ w2) as [dm w3] eqn:E3.
    assert (Hr : match (match dm with Ok record => Ok (Some record) | Err e => if errors_Is ErrNoPolicy e then Ok None else Err e end) with
      Ok r => r | Err _ => None end = match dm with Ok rec => Some rec | Err _ => None end) by (destruct dm as [|e]; [done|by destruct (errors_Is _ e)]).
    rewrite Hr. destruct (rs_Check _ _ _ _ w3) as [scan w4] eqn:E4. destruct (Inc_if _ _ w4) as [[] w5].
    exists spf, sigs, (match dm with Ok rec => Some rec | Err _ => None end), scan.
    destruct scan as [v|e]; simpl; try (destruct (decide _ _ _ _ _ _) as [vd rs]; simpl);
      (split; [exists spf_err, w1, dk, w2, w3, w4; split_and!; try done; by exists dm|]);
      split_and!; try done; by destruct dk.
Qed.
End Facts.

Section Claims.
Context {W : Type} `{HMt : Metrics W, HM : MsgAuth W}.

(** The verdict, from what the result reports. *)
Lemma Evaluate_verdict {HR : RspamdChecker W} p ctx i w :
  let r := fst (Evaluate p ctx i w) in
  let auth rec := authenticated i (SPF r) (DKIM r) rec in
  (r_Verdict r = Reject ↔
     (FailedOpen r = false ∧ over (RejectThreshold i) (SpamScore r) = true) ∨
     ∃ rec, DMARC r = Some rec ∧ Policy rec = PolicyReject ∧ ¬ auth rec) ∧
  (r_Verdict r = Accept ↔
     FailedOpen r = false ∧ over (RejectThreshold i) (SpamScore r) = false ∧
     over (QuarantineThreshold i) (SpamScore r) = false ∧
     ∀ rec, DMARC r = Some rec → Policy rec = PolicyReject ∨ Policy rec = PolicyQuarantine → auth rec).
Proof.
  intros r auth. destruct (Evaluate_spec p ctx i w) as (Hv & Hd & Ha & _). fold r in Hv, Hd, Ha.
  assert (Hvio : ∀ pol, violates pol (DMARC r) (r_Aligned r) ↔ ∃ rec, DMARC r = Some rec ∧ Policy rec = pol ∧ ¬ auth rec).
  { intros pol. unfold violates, auth. destruct (r_Aligned r).
    - destruct (proj1 Ha eq_refl) as (rec & E & Hau). split; [by intros [? _]|].
      intros (rec' & E' & _ & Hn). rewrite E in E'. by injection E' as <-.
    - split.
      + intros (_ & rec & E & Hp). exists rec. split_and!; [done..|]. intros Hau. by assert (false = true) by (apply Ha; eauto).
      + intros (rec & E & Hp & _). eauto. }
  rewrite Hv. unfold policy. pose proof (Hvio PolicyReject) as H1. pose proof (Hvio PolicyQuarantine) as H2.
  assert (Hauth : ∀ rec, DMARC r = Some rec → ¬ auth rec ∨ auth rec).
  { intros rec E. destruct (r_Aligned r) eqn:Er.
    - right. destruct (proj1 Ha eq_refl) as (rec' & E' & Hau). rewrite E in E'. by injection E' as ->.
    - left. intros Hau. by assert (false = true) by (apply Ha; eauto). }
  split.
  - rewrite <-H1. case_bool_decide as Hrej; [tauto|]. case_bool_decide; split; [done|tauto|done|tauto].
  - assert (Hall : (∀ rec, DMARC r = Some rec → Policy rec = PolicyReject ∨ Policy rec = PolicyQuarantine → auth rec) ↔
      ¬ violates PolicyReject (DMARC r) (r_Aligned r) ∧ ¬ violates PolicyQuarantine (DMARC r) (r_Aligned r)).
    { rewrite H1, H2. split.
      - intros Hall. split; intros (rec & E & Hp & Hn); apply Hn, Hall; auto.
      - intros [Hr Hq] rec E [Hp|Hp]; destruct (Hauth rec E) as [Hn|]; try done; exfalso; eauto. }
    rewrite Hall. clear. destruct (FailedOpen r), (over (RejectThreshold i) (SpamScore r)),
      (over (QuarantineThreshold i) (SpamScore r)); repeat case_bool_decide; split; (done || intuition (discriminate || congruence)).
Qed.

(** C28: the inbound verdict, exactly, from what the libraries, the DNS and
    rspamd say.  A message is rejected just when rspamd answered with a score at a
    configured reject threshold or the From domain publishes a reject policy and
    the message is not authentic for it, by neither SPF nor a signature.  It is
    accepted just when rspamd answered with a score at neither configured
    threshold and the message is authentic for any published reject or quarantine
    policy.  Otherwise, in particular when rspamd gives no answer, it is
    quarantined.  The result carries the evidence. *)
Theorem verdict_policy {HR : RspamdChecker W} p ctx i w :
  let r := fst (Evaluate p ctx i w) in
  ∃ spf sigs dmarc scan, testimony p ctx i w spf sigs dmarc scan ∧
  (r_Verdict r = Reject ↔
     (∃ v, scan = Ok v ∧ over (RejectThreshold i) (rspamd.Score v) = true) ∨
     ∃ rec, dmarc = Some rec ∧ Policy rec = PolicyReject ∧ ¬ authentic i spf sigs rec) ∧
  (r_Verdict r = Accept ↔
     (∃ v, scan = Ok v ∧ over (RejectThreshold i) (rspamd.Score v) = false ∧ over (QuarantineThreshold i) (rspamd.Score v) = false) ∧
     ∀ rec, dmarc = Some rec → Policy rec = PolicyReject ∨ Policy rec = PolicyQuarantine → authentic i spf sigs rec) ∧
  SPF r = spf ∧ DKIM r = ((λ v, mkDKIM v.1 (bool_decide (v.2 = None))) <$> sigs) ∧ DMARC r = dmarc ∧
  FailedOpen r = negb (is_Ok scan) ∧ SpamScore r = match scan with Ok v => rspamd.Score v | Err _ => F0 end.
Proof.
  intros r. destruct (Evaluate_verdict p ctx i w) as [Hrej Hacc]. fold r in Hrej, Hacc.
  destruct (Evaluate_testimony p ctx i w) as (spf & sigs & dmarc & scan & Ht & H1 & H2 & H3 & H4 & H5). fold r in H1, H2, H3, H4, H5.
  exists spf, sigs, dmarc, scan. rewrite H1, H2, H3, H4, H5 in Hrej, Hacc. setoid_rewrite authenticated_authentic in Hrej.
  setoid_rewrite authenticated_authentic in Hacc. split_and!; [done|rewrite Hrej|rewrite Hacc|done..]; destruct scan as [v|e]; naive_solver.
Qed.

(** The transport gives no usable scan: an error, another status, bad JSON. *)
Definition unusable (r : res rspamd.response) : Prop :=
  match r with
  | Err _ => True
  | Ok resp => rspamd.StatusCode resp ≠ 200 ∨ is_Ok (rspamd.rs_JSON resp) = false
  end.

Lemma Check_unusable {HT : rspamd.Transport W} c ctx from rcpts body w :
  (∀ req w, unusable (fst (rspamd.http_Do (rspamd.timeout c) ctx req w))) →
  is_Ok (fst (rspamd.Check_ c ctx from rcpts body w)) = false.
Proof.
  intros Hu. unfold rspamd.Check_. destruct (rspamd.NewRequest_error _); [done|].
  unfold mtry, wrap. specialize (Hu (rspamd.mkReq (rspamd.baseURL c +:+ "/checkv2")
    ((if String.eqb from "" then [] else [("From", from)]) ++ ((λ rcpt, ("Rcpt", rcpt)) <$> rcpts)) body) w).
  destruct (rspamd.http_Do _ _ _ w) as [[resp|e] w1]; simpl in *; [|done].
  unfold rspamd.StatusOK. destruct (Z.eqb_spec (rspamd.StatusCode resp) 200); simpl; [|done].
  by destruct Hu as [?|Hu], (rspamd.rs_JSON resp).
Qed.

(** An rspamd outage neither accepts nor rejects on spam.  When the rspamd
    client gets no usable answer (no request possible, a transport error,
    another status than 200 or an undecodable body), whatever the thresholds a
    message is quarantined, except that one violating a published reject policy
    is still rejected. *)
Theorem outage_quarantines {HT : rspamd.Transport W} p ctx c i w :
  (∀ req w, unusable (fst (rspamd.http_Do (rspamd.timeout c) ctx req w))) →
  let r := fst (Evaluate (HR := Client_Checker c) p ctx i w) : Result in
  FailedOpen r = true ∧
  (r_Verdict r = Reject ∧ (∃ rec, DMARC r = Some rec ∧ Policy rec = PolicyReject ∧ ¬ authenticated i (SPF r) (DKIM r) rec) ∨
   r_Verdict r = Quarantine ∧ ∀ rec, DMARC r = Some rec → Policy rec = PolicyReject → authenticated i (SPF r) (DKIM r) rec).
Proof.
  intros Hu r. destruct (Evaluate_spec (HR := Client_Checker c) p ctx i w) as (Hv & _ & Ha & w' & Hf & _).
  fold r in Hv, Ha, Hf. unfold rs_Check, Client_Checker in Hf.
  rewrite (Check_unusable c ctx (MailFrom i) (RcptTo i) (Body i) w' Hu) in Hf. simpl in Hf.
  split; [done|]. rewrite Hf in Hv. unfold policy in Hv. unfold violates in Hv.
  case_bool_decide as H1.
  - left. split; [done|]. destruct H1 as [[? _]|(Hal & rec & E & Hp)]; [done|].
    exists rec. split_and!; [done..|]. intros Hau. enough (r_Aligned r = true) by congruence. apply Ha. eauto.
  - right. rewrite bool_decide_true in Hv by by left. split; [done|]. intros rec E Hp.
    destruct (r_Aligned r) eqn:Er; [|naive_solver].
    destruct (proj1 Ha eq_refl) as (rec' & E' & Hau). rewrite E in E'. by injection E' as ->.
Qed.
End Claims.

(** ** A run: rspamd answers 503 *)
Module FilterExample.
#[export] Instance unmetered : Metrics unit := unread.
#[export] Instance auth : MsgAuth unit := {
  Resolver := unit;
  spf_CheckHostWithSender _ _ _ _ _ := ret (SPFPass, None);
  dkim_Verify _ _ _ := ret (Ok [("other.test", None)]);
  dmarc_Lookup _ _ d := ret (if String.eqb d "strict.test" then Ok (mkRecord "reject" "s" "s")
                             else Err (Sentinel ErrNoPolicy));
  EffectiveTLDPlusOne d := Ok d;
  mail_From body := if String.eqb body "" then None else Some body;
}.
#[export] Instance transport : rspamd.Transport unit := {
  rspamd.NewRequest_error _ := None;
  rspamd.http_Do _ _ _ := ret (Ok (rspamd.mkResp 503 (Err (ErrNew "eof"))));
}.
Definition input (from_header mail_from : string) : Input :=
  mkInput from_header mail_from ["bob@b.test"] (Some "192.0.2.1") "helo.test" (of_int 15) (of_int 6).
Definition run (from_header mail_from : string) : Result :=
  fst (Evaluate (HR := Client_Checker (rspamd.New "http://rspamd")) (mkPipeline None) Background (input from_header mail_from) tt).
End FilterExample.

Import FilterExample.

Lemma outage_quarantines_witness :
  FailedOpen (run "a@strict.test" "a@evil.test") = true ∧
  r_Verdict (run "a@strict.test" "a@evil.test") = Reject ∧ r_Verdict (run "a@strict.test" "a@strict.test") = Quarantine.
Proof.
  split; [|by vm_compute].
  apply (outage_quarantines (mkPipeline None) Background (rspamd.New "http://rspamd")
    (input "a@strict.test" "a@evil.test") tt).
  intros req w. by left.
Defined.

(** A From address whose local part is a quoted string with an at sign: the
    domain is cut at the first one, so the policy of the real domain is not
    the one looked up. *)
Lemma quoted_local_part_domain : domainOf "x@evil.test@strict.test" = "evil.test@strict.test" ∧
  DMARC (run "x@evil.test@strict.test" "a@evil.test") = None ∧
  r_Verdict (run "x@evil.test@strict.test" "a@evil.test") = Quarantine.
Proof. by vm_compute. Qed.
