(* ===== verification/Paging.v ===== *)
(** * Cursor pagination (directory, webhook, apiauth, audit)

    Every list endpoint runs the same query: rows of a scope, ordered by id,
    after the cursor, at most a page.  [list_page] is that query, [walk] the
    client that follows the cursors, and [walk_complete] says the client sees
    every row of the scope once, in order. *)

From S2P Require Import Prelude Table.

(** Page size: the default when unset, capped at the maximum. *)
Definition page_limit (dflt max limit : Z) : Z :=
  let limit := if limit <=? 0 then dflt else limit in
  if max <? limit then max else limit.

Lemma page_limit_pos dflt max limit : 0 < dflt → 0 < max → 0 < page_limit dflt max limit ≤ max.
Proof. unfold page_limit. intros. repeat case_match; lia. Qed.

Section Query.
Context {W D : Type} `{Table W D}.

(** [.Order("id ASC").Limit(limit)], with [.Where("id > ?", cursor)] when the
    cursor is set. *)
Definition list_page (scope : Row D → bool) (ctx : Ctx) (cursor : string) (limit : Z)
  : M W (res (list (Row D))) :=
  tbl_Find ctx (mkQuery (λ r, scope r && (String.eqb cursor "" || str_ltb cursor (row_Id r)))
                 (order_by row_Id) (Some (Z.to_nat limit))).
End Query.

(** A client that asks for pages until an empty one; [None] when [n] requests
    were not enough. *)
Section Walk.
Context {W A : Type} (fetch : string → M W (res (list A))) (id_of : A → string).

Definition next_cursor (cursor : string) (l : list A) : string :=
  match last l with Some a => id_of a | None => cursor end.

Fixpoint walk (n : nat) (cursor : string) : M W (option (res (list A))) :=
  match n with
  | O => ret None
  | S n =>
      let* r := fetch cursor in
      match r with
      | Err e => ret (Some (Err e))
      | Ok [] => ret (Some (Ok []))
      | Ok l =>
          let* rest := walk n (next_cursor cursor l) in
          ret (match rest with
               | Some (Ok l') => Some (Ok (l ++ l'))
               | _ => rest
               end)
      end
  end.
End Walk.

(** ** The rows of a scope in order *)

Section Order.
Context {D : Type}.
Implicit Types l : list (Row D).

Definition in_order l : list (Row D) := sort_by (order_by row_Id) l.

Definition after (cursor : string) l : list (Row D) :=
  filter (λ r, String.eqb cursor "" || str_ltb cursor (row_Id r) = true) l.

Definition ids_before (a b : Row D) : Prop := str_ltb (row_Id a) (row_Id b) = true.

Lemma in_order_unique l l' :
  ids_unique l → l' ≡ₚ l → sorted_by (order_by row_Id) l' → l' = in_order l.
Proof.
  intros Hu Hp Hs. eapply (StronglySorted_unique_strong (λ a b, order_by row_Id a b = true)).
  - intros x1 x2 H1 H2 H12 H21. eapply ids_unique_eq; [exact Hu| | |].
    + by rewrite <-Hp.
    + unfold in_order in H2. by rewrite sort_by_perm in H2.
    + by apply str_leb_antisym.
  - exact Hs.
  - by apply sort_by_sorted.
  - unfold in_order. by rewrite sort_by_perm.
Qed.

Lemma sorted_strict l :
  ids_unique l → sorted_by (order_by row_Id) l → StronglySorted ids_before l.
Proof.
  unfold ids_unique, sorted_by. induction 2 as [|a l Hs IH Hf]; [constructor|].
  rewrite fmap_cons in *. apply NoDup_cons in H as [Hn Hu]. constructor; [by apply IH|].
  rewrite Forall_forall in Hf. apply Forall_forall. intros b Hb. unfold ids_before.
  rewrite str_ltb_negb. apply negb_true_iff. apply not_true_iff_false. intros Hle.
  apply Hn. rewrite (str_leb_antisym (row_Id a) (row_Id b)); [|by apply Hf|done].
  by apply list_elem_of_fmap_2.
Qed.

Lemma in_order_strict l : ids_unique l → StronglySorted ids_before (in_order l).
Proof.
  intros Hu. apply sorted_strict.
  - eapply ids_unique_perm; [|exact Hu]. unfold in_order. by rewrite sort_by_perm.
  - by apply sort_by_sorted.
Qed.

Lemma ids_before_irrefl a : ¬ ids_before a a.
Proof.
  unfold ids_before. rewrite str_ltb_negb. destruct (str_leb_total (row_Id a) (row_Id a)) as [E|E];
    by rewrite E.
Qed.

Lemma ids_before_asym a b : ids_before a b → ¬ ids_before b a.
Proof.
  unfold ids_before. rewrite !str_ltb_negb. intros H1%negb_true_iff H2%negb_true_iff.
  destruct (str_leb_total (row_Id a) (row_Id b)); congruence.
Qed.

(** What follows the last row of a prefix is the rest. *)
Lemma after_app l1 a l2 :
  StronglySorted ids_before (l1 ++ a :: l2) → row_Id a ≠ "" → 
  after (row_Id a) (l1 ++ a :: l2) = l2.
Proof.
  intros Hs Hne. unfold after. apply String.eqb_neq in Hne. rewrite Hne. simpl.
  induction l1 as [|x l1 IH]; simpl in *.
  - rewrite filter_cons_False by apply ids_before_irrefl.
    apply StronglySorted_inv in Hs as [_ Hf].
    induction l2 as [|b l2 IH]; [done|]. apply Forall_cons in Hf as [Hb Hf].
    rewrite filter_cons_True by done. by rewrite IH.
  - apply StronglySorted_inv in Hs as [Hs Hf]. rewrite filter_cons_False; [by apply IH|].
    apply ids_before_asym. rewrite Forall_forall in Hf. apply Hf. set_solver.
Qed.

Lemma after_filter cursor l : after cursor (in_order l) ≡ₚ after cursor l.
Proof. unfold after, in_order. by rewrite sort_by_perm. Qed.
End Order.

Section Page.
Context {W D : Type} `{TableSpec W D}.

Lemma sublist_sorted {A} (R : A → A → Prop) l k :
  sublist k l → StronglySorted R l → StronglySorted R k.
Proof.
  induction 1 as [|x l k Hs IH|x l k Hs IH]; intros Hl; [done| |];
    apply StronglySorted_inv in Hl as [Hl Hf]; [|by apply IH].
  constructor; [by apply IH|]. rewrite Forall_forall in *. intros y Hy. apply Hf.
  by apply (sublist_subseteq _ _ Hs).
Qed.

Lemma list_page_ok (scope : Row D → bool) ctx cursor limit (w : W) l w' :
  ids_unique (tbl_rows w) → list_page scope ctx cursor limit w = (Ok l, w') →
  l = take (Z.to_nat limit)
        (after cursor (in_order (filter (λ r, scope r = true) (tbl_rows w)))).
Proof.
  unfold list_page. intros Hu E.
  apply Find_ok in E as (l' & Hp & Hs & ->); [|apply order_by_total]. simpl in *.
  f_equal. set (X := filter _ (tbl_rows w)) in *.
  assert (HuX : ids_unique X) by (by apply ids_unique_filter).
  rewrite (in_order_unique X l') by done. symmetry. apply in_order_unique; [done| |].
  - rewrite after_filter. unfold after, X. rewrite list_filter_filter.
    erewrite list_filter_iff; [done|]. intros r. rewrite andb_true_iff. tauto.
  - eapply sublist_sorted; [apply sublist_filter|]. by apply sort_by_sorted.
Qed.

Lemma list_page_frame (scope : Row D → bool) ctx cursor limit (w : W) r w' :
  list_page scope ctx cursor limit w = (r, w') → tbl_rows w' = tbl_rows w.
Proof. apply Find_frame. Qed.

Lemma take_prefix {A} n (l : list A) : ∃ k, l = take n l ++ k.
Proof. exists (drop n l). by rewrite take_drop. Qed.

(** A list endpoint: the page query, its rows converted. *)
Definition endpoint {A} (f : goerr → goerr) (g : Row D → A) (scope : Row D → bool) (ctx : Ctx)
  (limit : Z) (cursor : string) : M W (res (list A)) :=
  let? rows := wrap f (list_page scope ctx cursor limit) in ret (Ok (g <$> rows)).

Lemma endpoint_ok {A} f (g : Row D → A) scope ctx limit cursor (w : W) r w' :
  ids_unique (tbl_rows w) → endpoint f g scope ctx limit cursor w = (r, w') →
  tbl_rows w' = tbl_rows w ∧
  ∀ l, r = Ok l →
    l = g <$> take (Z.to_nat limit)
                (after cursor (in_order (filter (λ r, scope r = true) (tbl_rows w)))).
Proof.
  unfold endpoint, mtry, wrap, ret. intros Hu.
  destruct (list_page _ _ _ _ w) as [[l|e] w1] eqn:E; intros [= <- <-]; simpl.
  - split; [by eapply list_page_frame|]. intros l' [= <-]. f_equal. by eapply list_page_ok.
  - split; [by eapply list_page_frame|done].
Qed.

Lemma walk_from {A} f (g : Row D → A) id_of scope ctx limit n l1 l2 cursor (w : W) r w' :
  ids_unique (tbl_rows w) →
  (∀ r, id_of (g r) = row_Id r) → 0 < limit →
  in_order (filter (λ r, scope r = true) (tbl_rows w)) = l1 ++ l2 →
  Forall (λ r, row_Id r ≠ "") (l1 ++ l2) →
  cursor = default "" (row_Id <$> last l1) →
  (length l2 < n)%nat →
  walk (endpoint f g scope ctx limit) id_of n cursor w = (r, w') →
  ∃ x, r = Some x ∧ ∀ l, x = Ok l → l = g <$> l2.
Proof.
  revert l1 l2 cursor w r. induction n as [|n IH]; intros l1 l2 cursor w r Hu Hid Hlim HS Hne Hc Hn;
    [lia|]. simpl. unfold bind, ret.
  destruct (endpoint _ _ _ _ _ _ w) as [x w1] eqn:E.
  apply endpoint_ok in E as [Hw E]; [|done]. rewrite HS in E.
  assert (Hafter : after cursor (l1 ++ l2) = l2).
  { pose proof (in_order_strict (filter (λ r, scope r = true) (tbl_rows w))) as Hst.
    rewrite HS in Hst. specialize (Hst (ids_unique_filter _ _ Hu)).
    destruct l1 as [|a l1 _] using rev_ind.
    - subst cursor. simpl. unfold after. apply filter_all. by apply Forall_true.
    - rewrite last_snoc in Hc. simpl in Hc. subst cursor. rewrite <-app_assoc in *. simpl.
      apply after_app; [exact Hst|]. rewrite Forall_forall in Hne. apply Hne. set_solver. }
  rewrite Hafter in E. destruct x as [l|e]; [|intros [= <- <-]; eexists; split; [done|by intros ? [=]]].
  specialize (E l eq_refl).
  destruct l2 as [|b l2].
  { rewrite take_nil in E. simpl in E. subst l. intros [= <- <-]. eexists. split; [done|].
    by intros l [= <-]. }
  assert (Hlk : ∃ k, Z.to_nat limit = S k) by (exists (Z.to_nat limit - 1)%nat; lia).
  destruct Hlk as [k Hk]. rewrite Hk in E. change (take (S k) (b :: l2)) with (b :: take k l2) in E.
  destruct l as [|a l]; [done|].
  destruct (walk _ _ n _ w1) as [rest w2] eqn:Ew. intros [= <- <-].
  destruct (take_prefix k l2) as [l3 Hl3].
  assert (Hnext : next_cursor id_of cursor (a :: l)
                  = default "" (row_Id <$> last (l1 ++ b :: take k l2))).
  { rewrite last_app_cons. unfold next_cursor. rewrite E, fmap_last.
    destruct (last (b :: take k l2)) as [z|] eqn:Ez; simpl; [by rewrite Hid|].
    by apply last_None in Ez. }
  rewrite Hnext in Ew.
  assert (∃ x, rest = Some x ∧ ∀ l, x = Ok l → l = g <$> l3) as (y & -> & Hy).
  { eapply (IH (l1 ++ b :: take k l2) l3); [| | | | | | |exact Ew]; try done.
    - by rewrite Hw.
    - rewrite Hw, HS, <-app_assoc. simpl. by rewrite <-Hl3.
    - rewrite <-app_assoc. simpl. by rewrite <-Hl3.
    - simpl in Hn. rewrite Hl3, length_app in Hn. lia. }
  destruct y as [l'|e]; (eexists; split; [done|]); [|by intros ? [=]].
  intros l4 [= <-]. rewrite app_comm_cons, E, (Hy l' eq_refl), <-fmap_app. simpl.
  by rewrite <-Hl3.
Qed.

(** The whole walk: it ends, and when no page failed it returned the scope's
    rows, each once, in id order. *)
Lemma walk_complete {A} f (g : Row D → A) id_of scope ctx limit n (w : W) r w' :
  ids_unique (tbl_rows w) → Forall (λ r, row_Id r ≠ "") (tbl_rows w) →
  (∀ r, id_of (g r) = row_Id r) → 0 < limit →
  (length (tbl_rows w) < n)%nat →
  walk (endpoint f g scope ctx limit) id_of n "" w = (r, w') →
  ∃ x, r = Some x ∧
    ∀ l, x = Ok l → l = g <$> in_order (filter (λ r, scope r = true) (tbl_rows w)).
Proof.
  intros Hu Hne Hid Hlim Hn Ew.
  set (S := in_order (filter (λ r, scope r = true) (tbl_rows w))).
  assert (HS : S ≡ₚ filter (λ r, scope r = true) (tbl_rows w))
    by (unfold S, in_order; by rewrite sort_by_perm).
  eapply (walk_from f g id_of scope ctx limit n [] S ""); try done.
  - simpl. rewrite HS. by apply Forall_filter_weaken.
  - rewrite HS. eapply Nat.le_lt_trans; [|exact Hn]. apply length_filter.
Qed.
End Page.
