(* ===== verification/Directory.v ===== *)
(** * Vhosts, mailboxes, DKIM keys (internal/directory)

    [Directory] is the interface the protocol servers use; the Postgres
    [Service] and the in-memory directory implement it.  bcrypt, RSA key
    generation, PKCS#1 and PEM are outside the repository: class [Crypto].  A
    private key is represented by its PKCS#1 encoding. *)

From S2P Require Import Prelude Float64 Table Paging Kms.

(** ** Data (directory.go) *)

Definition ErrNotFound : goerr := Sentinel "directory.ErrNotFound".

Definition PrivateKey : Type := string.

Definition DefaultDKIMSelector : string := "envelope".

Record Account := mkAccount {
  ac_ID : string;
  ac_Name : string;
  ac_CreatedAt : Time;
}.

Record VhostPolicy := mkPolicy {
  MaxMessageBytes : Z;
  DailyQuota : Z;
  SpamRejectThreshold : float64;
  SpamQuarantineThreshold : float64;
  RetentionDays : Z;
}.

(** [Vhost]; the FR-1.2 policy fields are grouped as a [VhostPolicy]. *)
Record Vhost := mkVhost {
  vh_ID : string;
  vh_AccountID : string;
  vh_Domain : string;
  vh_Active : bool;
  vh_DKIMSelector : string;
  vh_DKIMKey : option PrivateKey;
  vh_policy : VhostPolicy;
}.

Record Mailbox := mkMailbox {
  mb_ID : string;
  mb_VhostID : string;
  mb_LocalPart : string;
  mb_PasswordHash : string;
}.

Definition policy_zero : VhostPolicy := mkPolicy 0 0 F0 F0 0.

(** [ParseAddress]; [None] is [ok == false]. *)
Definition ParseAddress (addr : string) : option (string * string) :=
  let '(local, dom, found) := Cut addr "@" in
  if negb found || String.eqb local "" || String.eqb dom "" then None
  else Some (local, dom).

Definition MailboxPath (localPart folder : string) : string := localPart +:+ "/" +:+ folder.

(** The interface; [None] is the [false] of [Vhost]. *)
Class Directory (W : Type) := {
  d_Vhost : Ctx → string → M W (option Vhost);
  d_VhostActive : Ctx → string → M W bool;
  d_Authenticate : Ctx → string → string → string → M W bool;
}.

(** ** Cryptography outside the repository *)

Class Crypto (W : Type) := {
  rsa_GenerateKey : M W (res PrivateKey);
  x509_ParsePKCS1 : string → res PrivateKey;
  pem_Encode : string → string → string;   (* block type, bytes *)
  pem_Decode : string → option string;     (* bytes of the first block *)
  bcrypt_Generate : string → M W (res string);
  bcrypt_Compare : string → string → bool; (* hash, password *)
}.

Class CryptoSpec (W : Type) `{Crypto W} : Prop := {
  generated_parses : ∀ w k w', rsa_GenerateKey w = (Ok k, w') → x509_ParsePKCS1 k = Ok k;
  pem_round_trip : ∀ t b, pem_Decode (pem_Encode t b) = Some b;
  bcrypt_accepts : ∀ p w h w', bcrypt_Generate p w = (Ok h, w') → bcrypt_Compare h p = true;
}.

Section KeyPEM.
Context {W : Type} `{Crypto W}.

Definition encodeRSAKeyPEM (key : PrivateKey) : string := pem_Encode "RSA PRIVATE KEY" key.

Definition decodeRSAKeyPEM (s : string) : res PrivateKey :=
  match pem_Decode s with
  | None => Err (ErrNew "directory: no PEM block found")
  | Some bytes => x509_ParsePKCS1 bytes
  end.

(** [Service.encryptPEM] and [Service.decryptPEM] at the service's Encryptor. *)
Definition encryptPEM (enc : Encryptor W) (keyPEM : string) : M W (res string) :=
  let? ciphertext := wrap (ErrorfW "directory: encrypt: %w" []) (Encrypt enc keyPEM) in
  ret (Ok (Base64.EncodeToString ciphertext)).

Definition decryptPEM (enc : Encryptor W) (stored : string) : res string :=
  match Base64.DecodeString stored with
  | Err e => Err (ErrorfW "directory: decode stored ciphertext: %w" [] e)
  | Ok ciphertext => map_err (ErrorfW "directory: decrypt: %w" []) (Decrypt enc ciphertext)
  end.
End KeyPEM.

(** ** Rows (entities.go), less the embedded sql.BaseEntity *)

Record accountRow := mkAccountRow { ar_Name : string }.

Record vhostRow := mkVhostRow {
  vr_AccountID : string;   (* "" for NULL *)
  vr_Domain : string;
  vr_Active : bool;
  vr_policy : VhostPolicy;
}.

Record mailboxRow := mkMailboxRow {
  mr_VhostID : string;
  mr_LocalPart : string;
  mr_PasswordHash : string;
}.

Record dkimKeyRow := mkDkimKeyRow {
  dk_VhostID : string;
  dk_Selector : string;
  dk_PrivateKeyPEM : string;
  dk_Active : bool;
}.

Definition accountFromRow (row : Row accountRow) : Account :=
  mkAccount (row_Id row) (ar_Name (row_data row)) (default 0 (row_CreatedAt row)).

Definition vhostFromRow (row : Row vhostRow) (key : option PrivateKey) : Vhost :=
  mkVhost (row_Id row) (vr_AccountID (row_data row)) (vr_Domain (row_data row))
    (vr_Active (row_data row)) DefaultDKIMSelector key (vr_policy (row_data row)).

Definition mailboxFromRow (row : Row mailboxRow) : Mailbox :=
  mkMailbox (row_Id row) (mr_VhostID (row_data row)) (mr_LocalPart (row_data row))
    (mr_PasswordHash (row_data row)).

Definition DefaultVhostPageSize : Z := 100.
Definition MaxVhostPageSize : Z := 500.

(** gorm's First: the requested order, then the primary key. *)
Definition created_desc {D} (a b : Row D) : bool :=
  let ca := default 0 (row_CreatedAt a) in
  let cb := default 0 (row_CreatedAt b) in
  if ca =? cb then str_leb (row_Id a) (row_Id b) else cb <? ca.

(** ** The service (service.go) *)

Section Service.
Context {W : Type} `{Db W, Table W accountRow, Table W vhostRow, Table W mailboxRow,
  Table W dkimKeyRow, Crypto W}.
(** [s.enc]. *)
Context (enc : Encryptor W).

Definition not_found (what id : string) (e : goerr) (get_msg : string) : goerr :=
  if errors_Is "gorm.ErrRecordNotFound" e
  then ErrorfW ("directory: " +:+ what +:+ " %q: %w") [id] ErrNotFound
  else ErrorfW get_msg [id] e.

Definition CreateVhost (ctx : Ctx) (accountID domain : string) : M W (res Vhost) :=
  let? key := wrap (ErrorfW "directory: generate DKIM key for %q: %w" [domain]) rsa_GenerateKey in
  let keyPEM := encodeRSAKeyPEM key in
  let? encryptedPEM := wrap (ErrorfW "directory: encrypt DKIM key for %q: %w" [domain])
                         (encryptPEM enc keyPEM) in
  let? rows := wrap (ErrorfW "directory: create vhost %q: %w" [domain]) (tx (
    let? row := tbl_Create ctx (mkRow "" None (mkVhostRow accountID domain true policy_zero)) in
    let? dkimRow := tbl_Create ctx (mkRow "" None
      (mkDkimKeyRow (row_Id row) DefaultDKIMSelector encryptedPEM true)) in
    ret (Ok (row, dkimRow)))) in
  let '(row, dkimRow) := rows in
  ret (Ok (mkVhost (row_Id row) (vr_AccountID (row_data row)) (vr_Domain (row_data row))
             (vr_Active (row_data row)) (dk_Selector (row_data dkimRow)) (Some key) policy_zero)).

Definition CreateAccount (ctx : Ctx) (name : string) : M W (res Account) :=
  let? row := wrap (ErrorfW "directory: create account %q: %w" [name])
                (tbl_Create ctx (mkRow "" None (mkAccountRow name))) in
  ret (Ok (accountFromRow row)).

Definition GetAccount (ctx : Ctx) (id : string) : M W (res Account) :=
  let? row := wrap (λ e, not_found "account" id e "directory: get account %q: %w")
                (tbl_First ctx (by_id id) (order_by row_Id)) in
  ret (Ok (accountFromRow row)).

Definition ListAccounts (ctx : Ctx) (cursor : string) (limit : Z) : M W (res (list Account)) :=
  endpoint (ErrorfW "directory: list accounts: %w" []) accountFromRow (λ _, true) ctx
    (page_limit DefaultVhostPageSize MaxVhostPageSize limit) cursor.

Definition ListVhosts (ctx : Ctx) (cursor : string) (limit : Z) : M W (res (list Vhost)) :=
  endpoint (ErrorfW "directory: list vhosts: %w" []) (λ r, vhostFromRow r None) (λ _, true) ctx
    (page_limit DefaultVhostPageSize MaxVhostPageSize limit) cursor.

Definition hydrateVhost (ctx : Ctx) (row : Row vhostRow) : M W (res Vhost) :=
  let domain := vr_Domain (row_data row) in
  let* r := tbl_First ctx (λ d, String.eqb (dk_VhostID (row_data d)) (row_Id row)
                              && dk_Active (row_data d)) created_desc in
  ret (match r with
       | Err e =>
           if errors_Is "gorm.ErrRecordNotFound" e then Ok (vhostFromRow row None)
           else Err (ErrorfW "directory: load DKIM key for vhost %q: %w" [domain] e)
       | Ok dkimRow =>
           if String.eqb (row_Id dkimRow) "" then Ok (vhostFromRow row None)
           else match decryptPEM enc (dk_PrivateKeyPEM (row_data dkimRow)) with
                | Err e => Err (ErrorfW "directory: decrypt DKIM key for vhost %q: %w" [domain] e)
                | Ok keyPEM =>
                    match decodeRSAKeyPEM keyPEM with
                    | Err e => Err (ErrorfW "directory: decode DKIM key for vhost %q: %w" [domain] e)
                    | Ok key => Ok (vhostFromRow row (Some key))
                    end
                end
       end).

Definition GetVhost (ctx : Ctx) (id : string) : M W (res Vhost) :=
  let? row := wrap (λ e, not_found "vhost" id e "directory: get vhost %q: %w")
                (tbl_First ctx (by_id id) (order_by row_Id)) in
  hydrateVhost ctx row.

Definition domain_is (domain : string) (r : Row vhostRow) : bool :=
  String.eqb (vr_Domain (row_data r)) domain.

Definition Service_Vhost (ctx : Ctx) (domain : string) : M W (option Vhost) :=
  let* r := tbl_First ctx (domain_is domain) (order_by row_Id) in
  match r with
  | Err _ => ret None
  | Ok row =>
      let* v := hydrateVhost ctx row in
      ret (match v with Ok v => Some v | Err _ => None end)
  end.

Definition VhostActive (ctx : Ctx) (domain : string) : M W bool :=
  let* v := Service_Vhost ctx domain in
  ret (match v with Some v => vh_Active v | None => false end).

(** An update by id, with "not found" when it hit no row. *)
Definition update_vhost (ctx : Ctx) (id fmt : string) (f : vhostRow → vhostRow) : M W (res unit) :=
  let? n := wrap (ErrorfW fmt [id]) (tbl_Updates ctx (by_id id) f) in
  if n =? 0 then ret (Err (ErrorfW "directory: vhost %q: %w" [id] ErrNotFound))
  else ret (Ok tt).

Definition deactivate (d : vhostRow) : vhostRow :=
  mkVhostRow (vr_AccountID d) (vr_Domain d) false (vr_policy d).

Definition DeactivateVhost (ctx : Ctx) (id : string) : M W (res unit) :=
  update_vhost ctx id "directory: deactivate vhost %q: %w" deactivate.

Definition UpdateVhostPolicy (ctx : Ctx) (id : string) (policy : VhostPolicy) : M W (res unit) :=
  update_vhost ctx id "directory: update vhost policy %q: %w"
    (λ d, mkVhostRow (vr_AccountID d) (vr_Domain d) (vr_Active d) policy).

Definition set_PEM (s : string) (d : dkimKeyRow) : dkimKeyRow :=
  mkDkimKeyRow (dk_VhostID d) (dk_Selector d) s (dk_Active d).

Definition dkim_text : RotateText := mkRotateText
  "directory: list dkim keys for rotation: %w"
  "directory: decode stored ciphertext for dkim key %q: %w"
  "directory: decrypt dkim key %q under old key: %w"
  "directory: re-encrypt dkim key %q under new key: %w"
  "directory: write rotated dkim key %q: %w".

Definition RotateDKIMKeys (ctx : Ctx) (oldEnc newEnc : Encryptor W) : M W (Z * option goerr) :=
  rotate dk_PrivateKeyPEM set_PEM dkim_text oldEnc newEnc ctx.

Definition CreateMailbox (ctx : Ctx) (vhostID localPart password : string) : M W (res Mailbox) :=
  let? hash := wrap (ErrorfW "directory: hash password: %w" []) (bcrypt_Generate password) in
  let? row := wrap (ErrorfW "directory: create mailbox %q: %w" [localPart])
                (tbl_Create ctx (mkRow "" None (mkMailboxRow vhostID localPart hash))) in
  ret (Ok (mailboxFromRow row)).

Definition of_vhost (vhostID : string) (r : Row mailboxRow) : bool :=
  String.eqb (mr_VhostID (row_data r)) vhostID.

Definition ListMailboxes (ctx : Ctx) (vhostID : string) : M W (res (list Mailbox)) :=
  let? rows := wrap (ErrorfW "directory: list mailboxes for vhost %q: %w" [vhostID])
                 (tbl_Find ctx (mkQuery (of_vhost vhostID) (order_by row_Id) None)) in
  ret (Ok (mailboxFromRow <$> rows)).

Definition ListMailboxesPage (ctx : Ctx) (vhostID cursor : string) (limit : Z)
  : M W (res (list Mailbox)) :=
  endpoint (ErrorfW "directory: list mailboxes for vhost %q: %w" [vhostID]) mailboxFromRow
    (of_vhost vhostID) ctx (page_limit DefaultVhostPageSize MaxVhostPageSize limit) cursor.

Definition GetMailbox (ctx : Ctx) (vhostID mailboxID : string) : M W (res Mailbox) :=
  let? row := wrap (λ e, if errors_Is "gorm.ErrRecordNotFound" e
                         then ErrorfW "directory: mailbox %q in vhost %q: %w" [mailboxID; vhostID] ErrNotFound
                         else ErrorfW "directory: get mailbox %q: %w" [mailboxID] e)
                (tbl_First ctx (λ r, of_vhost vhostID r && by_id mailboxID r) (order_by row_Id)) in
  ret (Ok (mailboxFromRow row)).

Definition DeleteMailbox (ctx : Ctx) (vhostID mailboxID : string) : M W (res unit) :=
  let? n := wrap (ErrorfW "directory: delete mailbox %q: %w" [mailboxID])
              (tbl_Delete ctx (λ r, of_vhost vhostID r && by_id mailboxID r)) in
  if n =? 0
  then ret (Err (ErrorfW "directory: mailbox %q in vhost %q: %w" [mailboxID; vhostID] ErrNotFound))
  else ret (Ok tt).

Definition Authenticate (ctx : Ctx) (vhost localPart password : string) : M W bool :=
  let* r := tbl_First ctx (domain_is vhost) (order_by row_Id) in
  match r with
  | Err _ => ret false
  | Ok vrow =>
      let* m := tbl_First ctx (λ r, of_vhost (row_Id vrow) r
                                  && String.eqb (mr_LocalPart (row_data r)) localPart)
                  (order_by row_Id) in
      ret (match m with
           | Err _ => false
           | Ok row => bcrypt_Compare (mr_PasswordHash (row_data row)) password
           end)
  end.

Definition Service : Directory W := {|
  d_Vhost := Service_Vhost; d_VhostActive := VhostActive; d_Authenticate := Authenticate;
|}.

(** ** Migration (migrate.go) *)

(** [db.Exec], and gorm's AutoMigrate of the four tables. *)
Context (db_Exec : string → M W (res unit)) (AutoMigrate : M W (res unit)).

Definition set_account (id : string) (d : vhostRow) : vhostRow :=
  mkVhostRow id (vr_Domain d) (vr_Active d) (vr_policy d).

(** One vhost's transaction. *)
Definition backfill_one (v : Row vhostRow) : M W (res unit) :=
  let domain := vr_Domain (row_data v) in
  wrap (ErrorfW "directory: backfill legacy account for vhost %q: %w" [domain]) (tx (
    let? acct := tbl_Create Background (mkRow "" None (mkAccountRow ("Legacy: " +:+ domain))) in
    let? _ := tbl_Updates Background (by_id (row_Id v)) (set_account (row_Id acct)) in
    ret (Ok tt))).

Fixpoint backfill_rows (rows : list (Row vhostRow)) : M W (res unit) :=
  match rows with
  | [] => ret (Ok tt)
  | v :: rows => let? _ := backfill_one v in backfill_rows rows
  end.

Definition backfillLegacyAccounts : M W (res unit) :=
  let? rows := wrap (ErrorfW "directory: find vhosts needing legacy account backfill: %w" [])
                 (tbl_Find Background
                    (mkQuery (λ v, String.eqb (vr_AccountID (row_data v)) "") (λ _ _, true) None)) in
  let? _ := backfill_rows rows in
  wrap (ErrorfW "directory: tighten vhosts.account_id to NOT NULL: %w" [])
    (db_Exec "ALTER TABLE vhosts ALTER COLUMN account_id SET NOT NULL").

Definition Migrate : M W (res unit) :=
  let? _ := AutoMigrate in backfillLegacyAccounts.
End Service.

(** ** The in-memory directory (memory/memory.go) *)

Module Memory.
Record account := mkMemAccount { acc_vhost : string; acc_localPart : string; acc_password : string }.

Record MemDirectory := mkMemDirectory {
  vhosts : gmap string Vhost;
  accounts : gmap string account;  (* keyed by "localpart@vhost" *)
}.

Definition New : MemDirectory := mkMemDirectory ∅ ∅.

Definition accountKey (vhost localPart : string) : string := localPart +:+ "@" +:+ vhost.

Section Mem.
Context {W : Type} `{!Has W MemDirectory, Crypto W}.

Definition AddVhost (domain : string) : M W (res Vhost) :=
  let? key := wrap (ErrorfW "memory: generate DKIM key for %q: %w" [domain]) rsa_GenerateKey in
  let v := mkVhost "" "" domain true DefaultDKIMSelector (Some key) policy_zero in
  lift (λ d, (Ok v, mkMemDirectory (<[domain := v]> (vhosts d)) (accounts d))).

Definition Mem_Vhost (ctx : Ctx) (domain : string) : M W (option Vhost) :=
  lift (λ d, (vhosts d !! domain, d)).

Definition Mem_VhostActive (ctx : Ctx) (domain : string) : M W bool :=
  let* v := Mem_Vhost ctx domain in
  ret (match v with Some v => vh_Active v | None => false end).

Definition AddAccount (vhost localPart password : string) : M W (res unit) :=
  lift (λ d,
    match vhosts d !! vhost with
    | None => (Err (Errorf "memory: vhost %q not registered" [vhost]), d)
    | Some _ =>
        (Ok tt, mkMemDirectory (vhosts d)
           (<[accountKey vhost localPart := mkMemAccount vhost localPart password]> (accounts d)))
    end).

Definition Mem_Authenticate (ctx : Ctx) (vhost localPart password : string) : M W bool :=
  lift (λ d,
    (match accounts d !! accountKey vhost localPart with
     | Some acct => String.eqb (acc_password acct) password
     | None => false
     end, d)).

Definition MemoryDirectory : Directory W := {|
  d_Vhost := Mem_Vhost; d_VhostActive := Mem_VhostActive; d_Authenticate := Mem_Authenticate;
|}.
End Mem.
End Memory.

(** ** Facts *)

Lemma created_desc_total {D} : total_order (created_desc (D := D)).
Proof.
  unfold created_desc. split.
  - intros a b. destruct (Z.eqb_spec (default 0 (row_CreatedAt a)) (default 0 (row_CreatedAt b))) as [->|].
    + rewrite Z.eqb_refl. apply str_leb_total.
    + rewrite (proj2 (Z.eqb_neq _ _)) by done. lia.
  - intros a b c. repeat case_match; intros; try lia. by eapply str_leb_trans.
Qed.

Section Facts.
Context {W : Type} `{Db W, !Table W accountRow, !Table W vhostRow, !Table W mailboxRow,
  !Table W dkimKeyRow, !TableSpec W accountRow, !TableSpec W vhostRow, !TableSpec W mailboxRow,
  !TableSpec W dkimKeyRow, CryptoSpec W}.
(** Vhosts have one row per id and per domain, and every DKIM key belongs to
    a vhost. *)
Definition dir_inv (w : W) : Prop :=
  ids_unique (tbl_rows (D := vhostRow) w) ∧
  NoDup ((λ r, vr_Domain (row_data r)) <$> tbl_rows (D := vhostRow) w) ∧
  Forall (λ d, dk_VhostID (row_data d) ∈ row_Id <$> tbl_rows (D := vhostRow) w)
    (tbl_rows (D := dkimKeyRow) w).

Definition domains (w : W) : gmap string (Row vhostRow) :=
  kview (λ r, vr_Domain (row_data r)) id (tbl_rows w).

Lemma update_vhost_ok `{!Separate W vhostRow dkimKeyRow} ctx id fmt f (w : W) w' :
  (∀ d, vr_Domain (f d) = vr_Domain d) →
  dir_inv w → update_vhost ctx id fmt f w = (Ok tt, w') →
  dir_inv w' ∧ ∃ row, row ∈ tbl_rows w ∧ row_Id row = id ∧
    domains w' = <[vr_Domain (row_data row) := mkRow id (row_CreatedAt row) (f (row_data row))]> (domains w).
Proof.
  intros Hf (Hu & Hd & Hk). unfold update_vhost, mtry, wrap, ret.
  destruct (tbl_Updates _ _ _ w) as [[n|e] w1] eqn:E; [|done]. simpl.
  destruct (Z.eqb_spec n 0) as [|Hn]; [done|]. intros [= <-].
  pose proof (preserves_eq (tbl_rows (D := dkimKeyRow)) _ _ _ _ E) as Hk1.
  apply Updates_ok in E as [-> Hp].
  destruct (filter (λ r, by_id id r = true) (tbl_rows w)) as [|row l] eqn:Efl; [done|].
  assert (Hr : row ∈ filter (λ r, by_id id r = true) (tbl_rows w)) by (rewrite Efl; set_solver).
  apply list_elem_of_filter in Hr as [Hid%String.eqb_eq Hr].
  assert (Hdk : ∀ r, vr_Domain (row_data (update_row (by_id id) f r)) = vr_Domain (row_data r)).
  { intros r. unfold update_row. destruct (by_id id r); [apply Hf|done]. }
  assert (Hd1 : NoDup ((λ r, vr_Domain (row_data r)) <$> tbl_rows w1)).
  { rewrite Hp. by rewrite (kview_keys_update (λ r, vr_Domain (row_data r))). }
  split; [split_and!|].
  - eapply ids_unique_perm; [symmetry; exact Hp|]. by apply ids_unique_update.
  - done.
  - rewrite Hk1. eapply Forall_impl; [exact Hk|]. intros d. simpl.
    by rewrite Hp, (kview_keys_update row_Id _ _ _ (update_row_Id _ _)).
  - exists row. split_and!; [done|done|]. unfold domains.
    rewrite (kview_perm _ _ _ _ Hp) by done.
    rewrite (kview_update _ _ _ _ _ row); [|done|done|done|by apply String.eqb_eq|].
    + unfold update_row, by_id. rewrite Hid, String.eqb_refl. done.
    + intros r Hr' He%String.eqb_eq. eapply (ids_unique_eq (tbl_rows w)); [done..|congruence].
Qed.

Context (enc : Encryptor W).

(** The key a DKIM row holds. *)
Definition holds_key (d : Row dkimKeyRow) (key : PrivateKey) : Prop :=
  decryptPEM enc (dk_PrivateKeyPEM (row_data d)) = Ok (encodeRSAKeyPEM key) ∧
  x509_ParsePKCS1 key = Ok key.

Lemma hydrate_inv ctx row (w : W) v w' :
  hydrateVhost enc ctx row w = (Ok v, w') → ∃ key, v = vhostFromRow row key.
Proof.
  unfold hydrateVhost, bind, ret. destruct (tbl_First _ _ _ w) as [[d|e] w1];
    repeat case_match; intros [= <- _]; eauto.
Qed.

(** With one active key for the vhost, hydration can only return that key. *)
Lemma hydrate_key ctx row d key (w : W) v w' :
  d ∈ tbl_rows w → dk_VhostID (row_data d) = row_Id row → dk_Active (row_data d) = true →
  row_Id d ≠ "" →
  (∀ d', d' ∈ tbl_rows w → dk_VhostID (row_data d') = row_Id row → d' = d) →
  holds_key d key →
  hydrateVhost enc ctx row w = (Ok v, w') → v = vhostFromRow row (Some key).
Proof.
  intros Hd Hv Ha Hne Honly [Hk Hp]. unfold hydrateVhost, bind, ret.
  destruct (tbl_First _ _ _ w) as [[d'|e] w1] eqn:Ef.
  - apply First_ok in Ef as (Hd' & Hq & _). apply andb_true_iff in Hq as [Hq%String.eqb_eq _].
    rewrite (Honly d' Hd' Hq). apply String.eqb_neq in Hne. rewrite Hne, Hk.
    unfold decodeRSAKeyPEM, encodeRSAKeyPEM. rewrite pem_round_trip, Hp. by intros [= <- _].
  - destruct (errors_Is _ e) eqn:Ee; [|done].
    pose proof (First_missing _ _ _ _ _ _ Ef Ee d Hd) as Hm.
    simpl in Hm. rewrite Ha, andb_true_r in Hm. apply String.eqb_neq in Hm. done.
Qed.

(** A lookup by domain answers from the domain's row. *)
Lemma Service_Vhost_inv ctx domain (w : W) v w' :
  dir_inv w → Service_Vhost enc ctx domain w = (Some v, w') →
  ∃ row w1 w2, domains w !! domain = Some row ∧ tbl_First ctx (domain_is domain) (order_by row_Id) w = (Ok row, w1) ∧
    hydrateVhost enc ctx row w1 = (Ok v, w2).
Proof.
  intros (_ & Hdom & _). unfold Service_Vhost, bind, ret.
  destruct (tbl_First _ _ _ w) as [[row|e] w1] eqn:Ef; [|done].
  destruct (hydrateVhost _ _ _ w1) as [[v'|e] w2] eqn:Eh; [|done]. intros [= <- _].
  pose proof Ef as Ef'. apply First_ok in Ef' as (Hr & Hq%String.eqb_eq & _).
  exists row, w1, w2. split_and!; [|done..].
  unfold domains. apply kview_lookup; [done|]. eauto.
Qed.

Lemma VhostActive_inv ctx domain (w : W) w' :
  dir_inv w → VhostActive enc ctx domain w = (true, w') →
  ∃ row, domains w !! domain = Some row ∧ vr_Active (row_data row) = true.
Proof.
  intros Hi. unfold VhostActive, bind, ret.
  destruct (Service_Vhost enc ctx domain w) as [[v|] w1] eqn:Es; [|done]. intros [= Ha _].
  apply Service_Vhost_inv in Es as (row & w2 & w3 & Hd & _ & Hh); [|done].
  apply hydrate_inv in Hh as [key ->]. eauto.
Qed.

Lemma domains_lookup (w : W) row :
  dir_inv w → row ∈ tbl_rows w → domains w !! vr_Domain (row_data row) = Some row.
Proof. intros (_ & Hd & _) Hr. by apply (kview_row (λ r, vr_Domain (row_data r)) id). Qed.

Context `{!EncryptorSpec enc}.

(** A stored value that [p] was encrypted to. *)
Definition sealed (stored p : string) : Prop :=
  ∃ (w w' : W) c, Encrypt enc p w = (Ok c, w') ∧ stored = Base64.EncodeToString c.

Lemma encryptPEM_sealed p s w w' : encryptPEM enc p w = (Ok s, w') → sealed s p.
Proof.
  unfold encryptPEM, mtry, wrap, ret. destruct (Encrypt enc p w) as [[c|e] w1] eqn:E; [|done].
  intros [= <- _]. by exists w, w1, c.
Qed.

Lemma sealed_decrypts s p : sealed s p → decryptPEM enc s = Ok p.
Proof.
  intros (w & w' & c & E & ->). unfold decryptPEM. rewrite Base64.decode_encode.
  by rewrite (Decrypt_Encrypt p c w w').
Qed.

(** The rows CreateVhost adds, or none. *)
Lemma CreateVhost_rows `{!Separate W vhostRow dkimKeyRow, !Separate W dkimKeyRow vhostRow,
    !UniqueIndex W vhostRow string vr_Domain} ctx acct dom (w : W) r w' :
  Preserves (tbl_rows (D := vhostRow)) rsa_GenerateKey →
  Preserves (tbl_rows (D := dkimKeyRow)) rsa_GenerateKey →
  (∀ p, Preserves (tbl_rows (D := vhostRow)) (Encrypt enc p)) →
  (∀ p, Preserves (tbl_rows (D := dkimKeyRow)) (Encrypt enc p)) →
  CreateVhost enc ctx acct dom w = (r, w') →
  match r with
  | Err _ => tbl_rows (D := vhostRow) w' = tbl_rows w ∧ tbl_rows (D := dkimKeyRow) w' = tbl_rows w
  | Ok v => ∃ row d key, v = vhostFromRow row (Some key) ∧ row_data row = mkVhostRow acct dom true policy_zero ∧
      row_Id row ∉ row_Id <$> tbl_rows (D := vhostRow) w ∧
      dom ∉ (λ r, vr_Domain (row_data r)) <$> tbl_rows (D := vhostRow) w ∧
      row_Id d ∉ row_Id <$> tbl_rows (D := dkimKeyRow) w ∧
      dk_VhostID (row_data d) = row_Id row ∧ dk_Active (row_data d) = true ∧ row_Id d ≠ "" ∧
      sealed (dk_PrivateKeyPEM (row_data d)) (encodeRSAKeyPEM key) ∧ x509_ParsePKCS1 key = Ok key ∧
      tbl_rows w' ≡ₚ row :: tbl_rows w ∧ tbl_rows w' ≡ₚ d :: tbl_rows w
  end.
Proof.
  intros Hg1 Hg2 He1 He2. unfold CreateVhost, mtry, wrap, ret.
  destruct (rsa_GenerateKey w) as [[key|e] w1] eqn:Eg; simpl;
    pose proof (preserves_eq (tbl_rows (D := vhostRow)) _ _ _ _ Eg) as Ev1;
    pose proof (preserves_eq (tbl_rows (D := dkimKeyRow)) _ _ _ _ Eg) as Ed1; [|by intros [= <- <-]].
  destruct (encryptPEM enc (encodeRSAKeyPEM key) w1) as [rp w2] eqn:Ep.
  assert (tbl_rows (D := vhostRow) w2 = tbl_rows w ∧ tbl_rows (D := dkimKeyRow) w2 = tbl_rows w) as [Ev2 Ed2].
  { rewrite <-Ev1, <-Ed1. revert Ep. unfold encryptPEM, mtry, wrap, ret.
    destruct (Encrypt enc _ w1) as [[c|e] w3] eqn:E; intros [= _ <-];
    by rewrite (preserves_eq (tbl_rows (D := vhostRow)) _ _ _ _ E),
      (preserves_eq (tbl_rows (D := dkimKeyRow)) _ _ _ _ E). }
  destruct rp as [pem|e]; simpl; [|by intros [= <- <-]]. apply encryptPEM_sealed in Ep.
  destruct (tx _ w2) as [[[row dk]|e] w3] eqn:Et; simpl; intros [= <- <-].
  2:{ pose proof (Tx_err (D := vhostRow) _ _ _ _ Et). pose proof (Tx_err (D := dkimKeyRow) _ _ _ _ Et). split; congruence. }
  pose proof (Tx_ok (D := vhostRow) _ _ _ _ Et) as (w4 & Em & Ev4).
  pose proof (Tx_ok (D := dkimKeyRow) _ _ _ _ Et) as (w4' & Em' & Ed4).
  rewrite Em in Em'. injection Em' as <-. clear Et.
  destruct (tbl_Create ctx _ w2) as [[row'|e] w5] eqn:Ec; [|done].
  destruct (tbl_Create ctx _ w5) as [[dk'|e] w6] eqn:Ec2; [|done]. injection Em as -> -> ->.
  pose proof (preserves_eq (tbl_rows (D := dkimKeyRow)) _ _ _ _ Ec) as Ed5.
  pose proof (preserves_eq (tbl_rows (D := vhostRow)) _ _ _ _ Ec2) as Ev6.
  pose proof (unique_Create _ _ _ _ _ Ec) as Hfresh.
  apply Create_ok in Ec as (Hnew & Hdat & _ & _ & Hp).
  apply Create_ok in Ec2 as (Hdnew & Hddat & Hdne & _ & Hdp). simpl in Hdat, Hddat.
  rewrite Ev2 in *. rewrite Ed5, Ed2 in *. rewrite Hdat in Hfresh.
  exists row, dk, key. unfold vhostFromRow. rewrite Hdat, Hddat.
  split_and!; try done; [by eapply generated_parses|by rewrite Ev4, Ev6, Hp|by rewrite Ed4, Hdp].
Qed.

(** The other tables. *)
Lemma CreateVhost_frame {D} `{!Table W D, !TableSpec W D, !Separate W vhostRow D, !Separate W dkimKeyRow D} ctx acct dom (w : W) r w' :
  Preserves (tbl_rows (D := D)) rsa_GenerateKey → (∀ p, Preserves (tbl_rows (D := D)) (Encrypt enc p)) →
  CreateVhost enc ctx acct dom w = (r, w') → tbl_rows (D := D) w' = tbl_rows w.
Proof.
  intros Hg He. unfold CreateVhost, mtry, wrap, ret.
  destruct (rsa_GenerateKey w) as [[key|e] w1] eqn:Eg; simpl; pose proof (preserves_eq (tbl_rows (D := D)) _ _ _ _ Eg) as E1;
    [|by intros [= _ <-]].
  destruct (encryptPEM enc (encodeRSAKeyPEM key) w1) as [rp w2] eqn:Ep.
  assert (tbl_rows (D := D) w2 = tbl_rows w) as E2.
  { rewrite <-E1. revert Ep. unfold encryptPEM, mtry, wrap, ret.
    destruct (Encrypt enc _ w1) as [[c|e] w3] eqn:E; intros [= _ <-]; by rewrite (preserves_eq (tbl_rows (D := D)) _ _ _ _ E). }
  destruct rp as [pem|e]; simpl; [|by intros [= _ <-]].
  destruct (tx _ w2) as [[[row dk]|e] w3] eqn:Et; simpl; intros [= _ <-].
  2:{ by rewrite (Tx_err (D := D) _ _ _ _ Et). }
  apply (Tx_ok (D := D)) in Et as (w4 & Em & ->).
  destruct (tbl_Create ctx _ w2) as [[row'|e] w5] eqn:Ec; [|done].
  destruct (tbl_Create ctx _ w5) as [[dk'|e] w6] eqn:Ec2; [|done]. injection Em as _ _ ->.
  by rewrite (preserves_eq (tbl_rows (D := D)) _ _ _ _ Ec2), (preserves_eq (tbl_rows (D := D)) _ _ _ _ Ec).
Qed.

Lemma CreateVhost_ok `{!Separate W vhostRow dkimKeyRow, !Separate W dkimKeyRow vhostRow,
    !UniqueIndex W vhostRow string vr_Domain} ctx acct dom (w : W) v w' :
  Preserves (tbl_rows (D := vhostRow)) rsa_GenerateKey →
  Preserves (tbl_rows (D := dkimKeyRow)) rsa_GenerateKey →
  (∀ p, Preserves (tbl_rows (D := vhostRow)) (Encrypt enc p)) →
  (∀ p, Preserves (tbl_rows (D := dkimKeyRow)) (Encrypt enc p)) →
  dir_inv w → CreateVhost enc ctx acct dom w = (Ok v, w') →
  dir_inv w' ∧ ∃ row d key,
    v = vhostFromRow row (Some key) ∧ row_data row = mkVhostRow acct dom true policy_zero ∧
    domains w !! dom = None ∧ domains w' = <[dom := row]> (domains w) ∧
    d ∈ tbl_rows w' ∧ dk_VhostID (row_data d) = row_Id row ∧ dk_Active (row_data d) = true ∧
    row_Id d ≠ "" ∧ holds_key d key ∧
    (∀ d', d' ∈ tbl_rows w' → dk_VhostID (row_data d') = row_Id row → d' = d).
Proof.
  intros Hg1 Hg2 He1 He2 (Hu & Hd & Hk) E. apply CreateVhost_rows in E; [|done..]. simpl in E.
  destruct E as (row & d & key & -> & Hdat & Hnew & Hfresh & _ & Hdv & Hda & Hdne & Hsealed%sealed_decrypts & Hparse & Hpv & Hpd).
  assert (Hdn : NoDup ((λ r, vr_Domain (row_data r)) <$> tbl_rows (D := vhostRow) w')).
  { rewrite Hpv, fmap_cons. apply NoDup_cons. by rewrite Hdat. }
  rewrite Forall_forall in Hk. split; [split_and!|exists row, d, key; split_and!]; try done.
  - unfold ids_unique. rewrite Hpv, fmap_cons. by apply NoDup_cons.
  - apply Forall_forall. intros d'. rewrite Hpd, Hpv, fmap_cons.
    intros [->|Hd']%elem_of_cons; [rewrite Hdv; by left|]. right. by apply Hk.
  - unfold domains. apply kview_None; [done|]. intros r Hr Heq. apply Hfresh. rewrite <-Heq.
    by apply (list_elem_of_fmap_2 (λ r, vr_Domain (row_data r))).
  - unfold domains. rewrite (kview_perm _ _ _ _ Hpv) by done. unfold kview. simpl. by rewrite Hdat.
  - rewrite Hpd. by left.
  - intros d'. rewrite Hpd. intros [->|Hd']%elem_of_cons Heq; [done|]. destruct Hnew. rewrite <-Heq. by apply Hk.
Qed.
End Facts.

(** ** The backfill *)

Section Backfill.
Context {W : Type} `{Db W, !Table W accountRow, !Table W vhostRow,
  !TableSpec W accountRow, !TableSpec W vhostRow,
  !Separate W accountRow vhostRow}.

Definition vhosts_by_id (w : W) : gmap string (Row vhostRow) := kview row_Id id (tbl_rows w).

Definition no_account (r : Row vhostRow) : bool := String.eqb (vr_AccountID (row_data r)) "".

Definition with_account (a : string) (r : Row vhostRow) : Row vhostRow :=
  mkRow (row_Id r) (row_CreatedAt r) (set_account a (row_data r)).

(** Rows of [m'] are those of [m], an empty account possibly filled in. *)
Definition filled (m m' : gmap string (Row vhostRow)) : Prop := ∀ id,
  match m !! id, m' !! id with
  | None, None => True
  | Some r, Some r' => r' = r ∨ (no_account r = true ∧ ∃ a, a ≠ "" ∧ r' = with_account a r)
  | _, _ => False
  end.

Lemma filled_refl m : filled m m.
Proof. intros id. destruct (m !! id); auto. Qed.

Lemma filled_trans m1 m2 m3 : filled m1 m2 → filled m2 m3 → filled m1 m3.
Proof.
  intros H1 H2 id. specialize (H1 id). specialize (H2 id).
  destruct (m1 !! id) as [r1|], (m2 !! id) as [r2|], (m3 !! id) as [r3|]; try done.
  destruct H1 as [->|(Hn & a & Ha & ->)]; [done|]. right. split; [done|].
  destruct H2 as [->|(Hn2 & b & Hb & ->)]; [eauto|].
  exists b. split; [done|]. by destruct r1.
Qed.

Lemma filled_insert m id r a :
  m !! id = Some r → no_account r = true → a ≠ "" → filled m (<[id := with_account a r]> m).
Proof.
  intros Hr Hn Ha i. destruct (decide (id = i)) as [<-|Hne].
  - rewrite Hr, lookup_insert_eq. right. eauto.
  - rewrite lookup_insert_ne by done. apply filled_refl.
Qed.

Lemma backfill_one_spec v (w : W) x w' :
  ids_unique (tbl_rows (D := vhostRow) w) → vhosts_by_id w !! row_Id v = Some v → no_account v = true →
  backfill_one v w = (x, w') →
  ids_unique (tbl_rows (D := vhostRow) w') ∧
  match x with
  | Ok _ => ∃ a, a ≠ "" ∧ vhosts_by_id w' = <[row_Id v := with_account a v]> (vhosts_by_id w)
  | Err _ => vhosts_by_id w' = vhosts_by_id w
  end.
Proof.
  intros Hu Hv Hn. unfold backfill_one, wrap. destruct (tx _ w) as [[[]|e] w1] eqn:Et; simpl.
  2:{ intros [= <- <-]. apply (Tx_err (D := vhostRow)) in Et.
      unfold vhosts_by_id. by rewrite Et. }
  intros [= <- <-]. apply (Tx_ok (D := vhostRow)) in Et as (w2 & Em & Hw). revert Em. unfold mtry, ret.
  destruct (tbl_Create _ _ w) as [[acct|e] w3] eqn:Ec; [|done].
  pose proof (preserves_eq (tbl_rows (D := vhostRow)) _ _ _ _ Ec) as Hw3.
  apply Create_ok in Ec as (_ & _ & Hne & _).
  destruct (tbl_Updates _ _ _ w3) as [[n|e] w4] eqn:Eu; [|done]. intros [= ->].
  apply Updates_ok in Eu as [_ Hp]. rewrite Hw3 in Hp.
  assert (Hu2 : ids_unique (tbl_rows (D := vhostRow) w2)).
  { eapply ids_unique_perm; [symmetry; exact Hp|]. by apply ids_unique_update. }
  unfold vhosts_by_id, ids_unique. rewrite Hw. split; [done|].
  exists (row_Id acct). split; [done|].
  unfold vhosts_by_id in Hv. apply kview_lookup in Hv as (r & Hr & _ & ->); [|done]. simpl in Hr.
  rewrite (kview_perm _ _ _ _ Hp) by done.
  rewrite (kview_update _ _ _ _ _ r); [|done|apply update_row_Id|done|apply String.eqb_refl|].
  - simpl. unfold update_row, by_id. by rewrite String.eqb_refl.
  - intros r' Hr' He%String.eqb_eq. by eapply (ids_unique_eq (tbl_rows w)).
Qed.

Lemma backfill_rows_spec rows (w : W) x w' :
  ids_unique (tbl_rows (D := vhostRow) w) → NoDup (row_Id <$> rows) →
  Forall (λ v, vhosts_by_id w !! row_Id v = Some v ∧ no_account v = true) rows →
  backfill_rows rows w = (x, w') →
  ids_unique (tbl_rows (D := vhostRow) w') ∧ filled (vhosts_by_id w) (vhosts_by_id w') ∧
  (x = Ok tt → ∀ v, v ∈ rows → ∃ r, vhosts_by_id w' !! row_Id v = Some r ∧ no_account r = false).
Proof.
  revert w. induction rows as [|v rows IH]; intros w Hu Hnd Hf; simpl; unfold mtry, ret.
  { intros [= <- <-]. split_and!; [done|apply filled_refl|set_solver]. }
  rewrite fmap_cons in Hnd. apply NoDup_cons in Hnd as [Hnew Hnd].
  apply Forall_cons in Hf as [[Hv Hn] Hf].
  destruct (backfill_one v w) as [[[]|e] w1] eqn:E1.
  - apply backfill_one_spec in E1 as [Hu1 (a & Ha & Hw1)]; [|done..]. intros E2.
    apply IH in E2 as (Hu2 & Hfl & Hok); [|done|done|].
    + split_and!; [done|eapply filled_trans; [|exact Hfl]; rewrite Hw1; by apply filled_insert|].
      intros Hx v' [->|Hv']%elem_of_cons; [|by apply Hok].
      specialize (Hfl (row_Id v)). rewrite Hw1, lookup_insert_eq in Hfl.
      assert (Hna : no_account (with_account a v) = false) by (by apply String.eqb_neq).
      destruct (vhosts_by_id w' !! row_Id v) as [r|]; [|done].
      exists r. split; [done|]. destruct Hfl as [->|[Hx2 _]]; [done|congruence].
    + apply Forall_forall. intros v' Hv'. rewrite Forall_forall in Hf.
      destruct (Hf v' Hv') as [Hl Hn']. split; [|done]. rewrite Hw1, lookup_insert_ne; [done|].
      intros Heq. apply Hnew. rewrite Heq. by apply list_elem_of_fmap_2.
  - apply backfill_one_spec in E1 as [Hu1 Hw1]; [|done..]. intros [= <- <-].
    rewrite Hw1. split_and!; [done|apply filled_refl|done].
Qed.
End Backfill.

(** A world for the witnesses: four list tables, a toy cipher that prefixes
    its key's letter, and a key generator that always returns one key. *)
Module DirExample.
Record DirW := mkDirW {
  t_accounts : list (Row accountRow);
  t_vhosts : list (Row vhostRow);
  t_mailboxes : list (Row mailboxRow);
  t_dkim : list (Row dkimKeyRow);
}.

#[export] Instance c1 : ListTable.Conflicts accountRow := λ _ _, false.
#[export] Instance c2 : ListTable.Conflicts vhostRow :=
  λ a b, String.eqb (vr_Domain a) (vr_Domain b).
#[export] Instance c3 : ListTable.Conflicts mailboxRow :=
  λ a b, String.eqb (mr_VhostID a) (mr_VhostID b) && String.eqb (mr_LocalPart a) (mr_LocalPart b).
#[export] Instance c4 : ListTable.Conflicts dkimKeyRow := λ _ _, false.

#[export] Program Instance h1 : Has DirW (list (Row accountRow)) :=
  { getS := t_accounts; setS l w := mkDirW l (t_vhosts w) (t_mailboxes w) (t_dkim w) }.
Solve Obligations with done.
#[export] Program Instance h2 : Has DirW (list (Row vhostRow)) :=
  { getS := t_vhosts; setS l w := mkDirW (t_accounts w) l (t_mailboxes w) (t_dkim w) }.
Solve Obligations with done.
#[export] Program Instance h3 : Has DirW (list (Row mailboxRow)) :=
  { getS := t_mailboxes; setS l w := mkDirW (t_accounts w) (t_vhosts w) l (t_dkim w) }.
Solve Obligations with done.
#[export] Program Instance h4 : Has DirW (list (Row dkimKeyRow)) :=
  { getS := t_dkim; setS l w := mkDirW (t_accounts w) (t_vhosts w) (t_mailboxes w) l }.
Solve Obligations with done.

#[export] Instance s1 : Separate DirW vhostRow dkimKeyRow.
Proof. by apply ListTable.separate_intro. Qed.
#[export] Instance s2 : Separate DirW dkimKeyRow vhostRow.
Proof. by apply ListTable.separate_intro. Qed.
#[export] Instance s3 : Separate DirW vhostRow mailboxRow.
Proof. by apply ListTable.separate_intro. Qed.
#[export] Instance s6 : Separate DirW dkimKeyRow mailboxRow.
Proof. by apply ListTable.separate_intro. Qed.
#[export] Instance s7 : Separate DirW dkimKeyRow accountRow.
Proof. by apply ListTable.separate_intro. Qed.
#[export] Instance s4 : Separate DirW accountRow vhostRow.
Proof. by apply ListTable.separate_intro. Qed.
#[export] Instance s5 : Separate DirW vhostRow accountRow.
Proof. by apply ListTable.separate_intro. Qed.
#[export] Instance u1 : UniqueIndex DirW vhostRow string vr_Domain.
Proof. apply ListTable.unique_index_intro. intros a b E. by apply String.eqb_eq. Qed.

#[export] Instance crypto : Crypto DirW := {
  rsa_GenerateKey := ret (Ok "KEY");
  x509_ParsePKCS1 b := Ok b;
  pem_Encode t b := b;
  pem_Decode s := Some s;
  bcrypt_Generate p := ret (Ok ("#" +:+ p));
  bcrypt_Compare h p := String.eqb h ("#" +:+ p);
}.
#[export] Instance crypto_spec : CryptoSpec DirW.
Proof.
  split; simpl; [by intros w k w' [= <- _]|done|].
  intros p w h w' [= <- _]. apply String.eqb_refl.
Qed.
Definition cipher (k : ascii) : Encryptor DirW :=
  mkEncryptor (λ p, ret (Ok (String k p)))
    (λ c, match c with
          | String k' p => if decide (k' = k) then Ok p else Err (ErrNew "wrong key")
          | _ => Err (ErrNew "short")
          end).
#[export] Instance cipher_spec k : EncryptorSpec (cipher k).
Proof. intros p c w w' [= <- _]. simpl. by rewrite decide_True. Qed.
#[export] Instance cipher_sep : KeySeparate (cipher "o") (cipher "n").
Proof. intros p c w w' [= <- _]. done. Qed.

Definition vrow (i dom acct : string) : Row vhostRow :=
  mkRow i None (mkVhostRow acct dom true policy_zero).
Definition mrow (i v l pw : string) : Row mailboxRow := mkRow i None (mkMailboxRow v l ("#" +:+ pw)).
Definition drow (i v : string) (k : ascii) (key : string) : Row dkimKeyRow :=
  mkRow i None (mkDkimKeyRow v "envelope" (Base64.EncodeToString (String k key)) true).
Definition world : DirW := mkDirW []
  [vrow "v1" "a.test" "acc"; vrow "v2" "b.test" ""]
  [mrow "m1" "v1" "alice" "pw"; mrow "m2" "v2" "bob" "pw2"]
  [drow "d1" "v1" "o" "K1"; drow "d2" "v2" "n" "K2"].

Lemma world_inv : dir_inv world.
Proof. split_and!; repeat constructor; set_solver. Qed.
End DirExample.
Import DirExample.

(** ** Properties *)

Section Properties.
Context {W : Type} `{Db W, !Table W accountRow, !Table W vhostRow, !Table W mailboxRow,
  !Table W dkimKeyRow, !TableSpec W accountRow, !TableSpec W vhostRow, !TableSpec W mailboxRow,
  !TableSpec W dkimKeyRow, CryptoSpec W}.

Lemma domains_row (w : W) dom row : NoDup ((λ r, vr_Domain (row_data r)) <$> tbl_rows (D := vhostRow) w) →
  domains w !! dom = Some row → row ∈ tbl_rows w ∧ vr_Domain (row_data row) = dom.
Proof. intros Hn (r & Hr & Hd & ->)%kview_lookup; done. Qed.

Lemma GetVhost_inv (enc : Encryptor W) `{!Separate W vhostRow dkimKeyRow} ctx id (w : W) v w' :
  GetVhost enc ctx id w = (Ok v, w') →
  ∃ row w1, row ∈ tbl_rows w ∧ row_Id row = id ∧ tbl_rows (D := dkimKeyRow) w1 = tbl_rows w ∧ hydrateVhost enc ctx row w1 = (Ok v, w').
Proof.
  unfold GetVhost, mtry, wrap. destruct (tbl_First _ _ _ w) as [[row|e] w1] eqn:Ef; [|done]. simpl. intros Hy.
  pose proof (preserves_eq (tbl_rows (D := dkimKeyRow)) _ _ _ _ Ef) as Hw1.
  apply First_ok in Ef as (Hr & Hid%String.eqb_eq & _). by exists row, w1.
Qed.

(** [m] touches none of the directory's tables. *)
Definition untouched {A} (m : M W A) : Prop :=
  Preserves (tbl_rows (D := accountRow)) m ∧ Preserves (tbl_rows (D := vhostRow)) m ∧
  Preserves (tbl_rows (D := mailboxRow)) m ∧ Preserves (tbl_rows (D := dkimKeyRow)) m.

(** C10: a vhost is usable as soon as CreateVhost returns, exactly as it was
    returned, and nothing else has changed.  On success the vhost table has
    gained one row, under a fresh id and for a domain that had none, and the key
    table one active key of that vhost; on failure neither.  The accounts, the
    mailboxes and all other rows are the ones there were.  Every later successful
    lookup of the domain (Vhost, and GetVhost by id) yields the same id, account
    and policy and the very DKIM key generated, through PEM, encryption and
    base64. *)
Theorem create_vhost_visible (enc : Encryptor W) `{!EncryptorSpec enc, !Separate W vhostRow dkimKeyRow,
    !Separate W dkimKeyRow vhostRow, !Separate W vhostRow mailboxRow, !Separate W dkimKeyRow mailboxRow,
    !Separate W vhostRow accountRow, !Separate W dkimKeyRow accountRow, !UniqueIndex W vhostRow string vr_Domain}
    ctx acct dom (w : W) r w' :
  untouched rsa_GenerateKey → (∀ p, untouched (Encrypt enc p)) →
  dir_inv w → CreateVhost enc ctx acct dom w = (r, w') →
  dir_inv w' ∧ tbl_rows (D := accountRow) w' = tbl_rows w ∧ tbl_rows (D := mailboxRow) w' = tbl_rows w ∧
  match r with
  | Err _ => tbl_rows (D := vhostRow) w' = tbl_rows w ∧ tbl_rows (D := dkimKeyRow) w' = tbl_rows w
  | Ok v =>
      (∃ row d, tbl_rows (D := vhostRow) w' ≡ₚ row :: tbl_rows w ∧ tbl_rows (D := dkimKeyRow) w' ≡ₚ d :: tbl_rows w ∧
         row_Id row = vh_ID v ∧ vh_ID v ∉ row_Id <$> tbl_rows (D := vhostRow) w ∧
         row_data row = mkVhostRow acct dom true policy_zero ∧
         row_Id d ∉ row_Id <$> tbl_rows (D := dkimKeyRow) w ∧ dk_VhostID (row_data d) = vh_ID v ∧ dk_Active (row_data d) = true) ∧
      domains w !! dom = None ∧
      vh_Active v = true ∧ vh_Domain v = dom ∧ vh_AccountID v = acct ∧ vh_policy v = policy_zero ∧ is_Some (vh_DKIMKey v) ∧
      (∀ ctx' v' w'', Service_Vhost enc ctx' dom w' = (Some v', w'') → v' = v) ∧
      (∀ ctx' v' w'', GetVhost enc ctx' (vh_ID v) w' = (Ok v', w'') → v' = v)
  end.
Proof.
  intros (Hg0 & Hg1 & Hg2 & Hg3) He Hi E.
  assert (He' : ∀ p, Preserves (tbl_rows (D := vhostRow)) (Encrypt enc p) ∧ Preserves (tbl_rows (D := dkimKeyRow)) (Encrypt enc p))
    by (intros p; destruct (He p) as (_ & ? & _ & ?); done).
  pose proof (CreateVhost_frame (D := accountRow) enc ctx acct dom w r w' Hg0 (λ p, proj1 (He p)) E) as Hacc.
  pose proof (CreateVhost_frame (D := mailboxRow) enc ctx acct dom w r w' Hg2 (λ p, proj1 (proj2 (proj2 (He p)))) E) as Hmb.
  pose proof (CreateVhost_rows enc ctx acct dom w r w' Hg1 Hg3 (λ p, proj1 (He' p)) (λ p, proj2 (He' p)) E) as Hrows.
  destruct r as [v|e].
  2:{ destruct Hrows as [Hrv Hrd]. split_and!; try done. unfold dir_inv in *. by rewrite Hrv, Hrd. }
  destruct Hrows as (row0 & d0 & key0 & Hv0 & Hdat0 & Hid0 & _ & Hkid0 & Hdv0 & Hda0 & _ & _ & _ & Hpv & Hpd).
  apply CreateVhost_ok in E as (Hi' & row & d & key & -> & Hdat & Hno & Hdom & Hd & Hv & Ha & Hne & Hk & Ho);
    [|first [done|apply _|apply He']..].
  assert (Hrow : domains w' !! dom = Some row) by (by rewrite Hdom, lookup_insert_eq).
  assert (Hin0 : row ∈ tbl_rows w') by by apply domains_row in Hrow as [? _]; [|destruct Hi' as (_ & ? & _)].
  assert (Hh : ∀ ctx' w1 v' w2, tbl_rows (D := dkimKeyRow) w1 = tbl_rows w' →
     hydrateVhost enc ctx' row w1 = (Ok v', w2) → v' = vhostFromRow row (Some key)).
  { intros ctx' w1 v' w2 Hw Hy. rewrite <-Hw in Hd, Ho. by eapply (hydrate_key enc ctx' row d key w1 v' w2). }
  split_and!; try done.
  { pose proof (f_equal vh_ID Hv0) as Hids. simpl in Hids. exists row0, d0. simpl. rewrite Hids. by split_and!. }
  all: try (simpl; by rewrite Hdat).
  - intros ctx' v' w'' (row' & w1 & w2 & Hl & Hf & Hy)%Service_Vhost_inv; [|done].
    rewrite Hrow in Hl. injection Hl as <-.
    eapply Hh; [|exact Hy]. apply (preserves_eq (tbl_rows (D := dkimKeyRow)) _ _ _ _ Hf).
  - intros ctx' v' w'' Hg. destruct (GetVhost_inv enc ctx' _ _ _ _ Hg) as (row' & w1 & Hin & Hid & Hw & Hy).
    assert (row' = row) as ->; [|by eapply Hh]. apply (ids_unique_eq (tbl_rows w')); [by destruct Hi'|done..|done].
Qed.

(** Deactivation takes effect at once.  After DeactivateVhost succeeds,
    VhostActive answers false for the vhost's domain to every caller (also
    when its own queries fail), and the other domains' rows are the ones they
    were. *)
Theorem deactivate_immediate (enc : Encryptor W) `{!Separate W vhostRow dkimKeyRow}
    ctx id (w : W) w' :
  dir_inv w → DeactivateVhost ctx id w = (Ok tt, w') →
  dir_inv w' ∧ ∃ row, row ∈ tbl_rows w ∧ row_Id row = id ∧
    (∀ ctx', fst (VhostActive enc ctx' (vr_Domain (row_data row)) w') = false) ∧
    (∀ other, other ≠ vr_Domain (row_data row) → domains w' !! other = domains w !! other).
Proof.
  intros Hi E. apply update_vhost_ok in E as (Hi' & row & Hr & Hid & Hd); [|done..].
  split; [done|]. exists row. split_and!; [done|done|..].
  - intros ctx'. destruct (VhostActive enc ctx' _ w') as [b w2] eqn:Ea. simpl.
    destruct b; [|done]. apply VhostActive_inv in Ea as (r & Hl & Ha); [|done].
    rewrite Hd, lookup_insert_eq in Hl. injection Hl as <-. done.
  - intros other Hne. by rewrite Hd, lookup_insert_ne.
Qed.

(** Mailboxes are isolated per vhost (FR-1.5).  ListMailboxes returns
    exactly the vhost's own, GetMailbox answers only with a mailbox of that
    vhost and reports ErrNotFound only when there is none, and DeleteMailbox
    removes no row but the one with both ids. *)
Theorem mailbox_isolation ctx vhostID mailboxID (w : W) :
  ids_unique (tbl_rows (D := mailboxRow) w) →
  (∀ l w', ListMailboxes ctx vhostID w = (Ok l, w') →
     ∀ m, m ∈ l ↔ ∃ r, r ∈ tbl_rows w ∧ mr_VhostID (row_data r) = vhostID ∧ m = mailboxFromRow r) ∧
  (∀ m w', GetMailbox ctx vhostID mailboxID w = (Ok m, w') →
     mb_VhostID m = vhostID ∧ mb_ID m = mailboxID) ∧
  (∀ w', GetMailbox ctx vhostID mailboxID w =
       (Err (ErrorfW "directory: mailbox %q in vhost %q: %w" [mailboxID; vhostID] ErrNotFound), w') →
     ∀ r, r ∈ tbl_rows w → ¬ (mr_VhostID (row_data r) = vhostID ∧ row_Id r = mailboxID)) ∧
  (∀ x w', DeleteMailbox ctx vhostID mailboxID w = (x, w') →
     ∀ r, r ∈ tbl_rows w → (mr_VhostID (row_data r) ≠ vhostID ∨ row_Id r ≠ mailboxID) → r ∈ tbl_rows w').
Proof.
  intros Hu. split_and!.
  - intros l w'. unfold ListMailboxes, mtry, wrap, ret.
    destruct (tbl_Find _ _ w) as [[rows|e] w1] eqn:Ef; [|done]. intros [= <- _] m.
    apply Find_ok in Ef as (l' & Hp & _ & ->); [|apply order_by_total]. simpl.
    rewrite list_elem_of_fmap. setoid_rewrite Hp. setoid_rewrite list_elem_of_filter. simpl.
    setoid_rewrite String.eqb_eq. naive_solver.
  - intros m w'. unfold GetMailbox, mtry, wrap, ret.
    destruct (tbl_First _ _ _ w) as [[r|e] w1] eqn:Ef; [|done]. intros [= <- _].
    apply First_ok in Ef as (_ & [Hv%String.eqb_eq Hid%String.eqb_eq]%andb_true_iff & _). done.
  - intros w'. unfold GetMailbox, mtry, wrap, ret.
    destruct (tbl_First _ _ _ w) as [[r|e] w1] eqn:Ef; [done|]. simpl.
    destruct (errors_Is _ e) eqn:Ee; [|done]. intros _ r Hr [<- <-].
    pose proof (First_missing _ _ _ _ _ _ Ef Ee r Hr) as Hm. simpl in Hm.
    unfold of_vhost, by_id in Hm. by rewrite !String.eqb_refl in Hm.
  - intros x w'. unfold DeleteMailbox, mtry, wrap, ret.
    destruct (tbl_Delete _ _ w) as [[n|e] w1] eqn:Ed; simpl.
    + intros Hx r Hr Hne. assert (w1 = w') as <- by (revert Hx; case_match; by intros [= _ ->]).
      apply Delete_ok in Ed as [_ Hp]. rewrite Hp. apply list_elem_of_filter. split; [|done].
      unfold of_vhost, by_id. apply andb_false_iff.
      destruct Hne as [Hn|Hn]; [left|right]; by apply String.eqb_neq.
    + intros [= _ <-] r Hr _. by rewrite (Delete_err _ _ _ _ _ Ed).
Qed.

(** C11: authentication is exact.  Authenticate accepts only a password that
    bcrypt matches against the stored hash of that local part under the vhost
    with that domain, and refuses one only when no such row matches or one of
    its two queries failed. *)
Theorem authenticate_exact `{!Separate W vhostRow mailboxRow} ctx vhost localPart password (w : W) b w' :
  NoDup ((λ r, vr_Domain (row_data r)) <$> tbl_rows (D := vhostRow) w) →
  NoDup ((λ r, (mr_VhostID (row_data r), mr_LocalPart (row_data r))) <$> tbl_rows (D := mailboxRow) w) →
  Authenticate ctx vhost localPart password w = (b, w') →
  let cred vrow row := vrow ∈ tbl_rows w ∧ vr_Domain (row_data vrow) = vhost ∧
    row ∈ tbl_rows w ∧ mr_VhostID (row_data row) = row_Id vrow ∧ mr_LocalPart (row_data row) = localPart in
  let failed {D} (q : res (Row D)) :=
    match q with Ok _ => False | Err e => errors_Is "gorm.ErrRecordNotFound" e = false end in
  let q1 := tbl_First ctx (domain_is vhost) (order_by row_Id) w in
  (b = true → ∃ vrow row, cred vrow row ∧ bcrypt_Compare (mr_PasswordHash (row_data row)) password = true) ∧
  (b = false → (∀ vrow row, cred vrow row → bcrypt_Compare (mr_PasswordHash (row_data row)) password = false) ∨
     failed (fst q1) ∨
     ∃ vrow, fst q1 = Ok vrow ∧
       failed (fst (tbl_First ctx (λ r, of_vhost (row_Id vrow) r
                                       && String.eqb (mr_LocalPart (row_data r)) localPart)
                      (order_by row_Id) (snd q1)))).
Proof.
  intros Hd Hm. unfold Authenticate, bind, ret. cbv zeta.
  destruct (tbl_First ctx (domain_is vhost) _ w) as [[vrow|e] w1] eqn:Ev; cbn [fst snd].
  2:{ intros [= <- _]. split; [done|]. intros _.
      destruct (errors_Is _ e) eqn:Ee; [left|by right; left].
      intros vrow row (Hv & Hdom & _). pose proof (First_missing _ _ _ _ _ _ Ev Ee vrow Hv) as Hx.
      by apply String.eqb_neq in Hx. }
  pose proof (preserves_eq (tbl_rows (D := mailboxRow)) _ _ _ _ Ev) as Hw1.
  apply First_ok in Ev as (Hv & Hdom%String.eqb_eq & _).
  assert (Hvu : ∀ v, v ∈ tbl_rows w → vr_Domain (row_data v) = vhost → v = vrow).
  { intros v Hv' Hdv. eapply (kview_key_inj (λ r, vr_Domain (row_data r)) (tbl_rows w)); [done..|congruence]. }
  destruct (tbl_First ctx _ _ w1) as [[row|e] w2] eqn:Em; cbn [fst snd]; intros [= <- _].
  - apply First_ok in Em as (Hr & [Hrv%String.eqb_eq Hrl%String.eqb_eq]%andb_true_iff & _).
    rewrite Hw1 in Hr. split.
    + intros Hc. exists vrow, row. done.
    + intros Hc. left. intros v r (Hv' & Hdv & Hr' & Hrv' & Hrl').
      rewrite (Hvu v Hv' Hdv) in Hrv'.
      assert (r = row) as ->; [|done].
      eapply (kview_key_inj (λ r, (mr_VhostID (row_data r), mr_LocalPart (row_data r))) (tbl_rows w));
        [done..|congruence].
  - split; [done|]. intros _. destruct (errors_Is "gorm.ErrRecordNotFound" e) eqn:Ee; [left|right; right; exists vrow; split; [done|]; rewrite Em; exact Ee].
    intros v r (Hv' & Hdv & Hr' & Hrv' & Hrl'). rewrite (Hvu v Hv' Hdv) in Hrv'.
    rewrite <-Hw1 in Hr'. pose proof (First_missing _ _ _ _ _ _ Em Ee r Hr') as Hx. simpl in Hx.
    unfold of_vhost in Hx. by rewrite Hrv', Hrl', !String.eqb_refl in Hx.
Qed.

(** C12: the vhost and mailbox lists are complete and bounded (FR-5.4).  A
    client that follows the cursors of ListVhosts, or of ListMailboxesPage,
    with any limit, ends after at most one page per row and one more; unless a
    page failed it has then seen every row of its scope exactly once, in id
    order.  No page exceeds 500. *)
Theorem list_pages_complete ctx limit n (w : W) :
  ids_unique (tbl_rows (D := vhostRow) w) → Forall (λ r, row_Id r ≠ "") (tbl_rows (D := vhostRow) w) →
  ids_unique (tbl_rows (D := mailboxRow) w) → Forall (λ r, row_Id r ≠ "") (tbl_rows (D := mailboxRow) w) →
  (length (tbl_rows (D := vhostRow) w) < n)%nat → (length (tbl_rows (D := mailboxRow) w) < n)%nat →
  (∃ x, fst (walk (λ c, ListVhosts ctx c limit) vh_ID n "" w) = Some x ∧
     ∀ l, x = Ok l → l = (λ r, vhostFromRow r None) <$> in_order (tbl_rows w)) ∧
  (∀ vhostID, ∃ x, fst (walk (λ c, ListMailboxesPage ctx vhostID c limit) mb_ID n "" w) = Some x ∧
     ∀ l, x = Ok l →
       l = mailboxFromRow <$> in_order (filter (λ r, of_vhost vhostID r = true) (tbl_rows w))) ∧
  (∀ c l w', ListVhosts ctx c limit w = (Ok l, w') → (length l ≤ 500)%nat).
Proof.
  intros Hu1 Hne1 Hu2 Hne2 Hn1 Hn2.
  pose proof (page_limit_pos DefaultVhostPageSize MaxVhostPageSize limit) as Hlim.
  unfold DefaultVhostPageSize, MaxVhostPageSize in Hlim. split_and!.
  - destruct (walk _ _ n "" w) as [r w'] eqn:E.
    eapply (walk_complete (D := vhostRow)) in E as (x & -> & Hx);
      [|done|done|done|apply Hlim; lia|done].
    exists x. split; [done|]. intros l Hl. rewrite (Hx l Hl). do 2 f_equal.
    apply filter_all. by apply Forall_true.
  - intros vhostID. destruct (walk _ _ n "" w) as [r w'] eqn:E.
    eapply (walk_complete (D := mailboxRow)) in E as (x & -> & Hx);
      [|done|done|done|apply Hlim; lia|done].
    by exists x.
  - intros c l w' E. apply endpoint_ok in E as [_ E]; [|done]. rewrite (E l eq_refl).
    rewrite length_fmap, length_take. specialize (Hlim ltac:(lia) ltac:(lia)). unfold DefaultVhostPageSize, MaxVhostPageSize. lia.
Qed.

(** C13: master-key rotation is lossless and resumable.  [secrets] are the
    plaintext keys, each row holding its own under the old master key or, when
    an interrupted run already rewrote it, under the new one.  Whatever the
    outcome, every row still holds its secret under one of the two keys and no
    other column changed, so a rerun applies again; a run that reports success
    leaves every secret under the new key. *)
Theorem rotate_dkim_resumable (oldEnc newEnc : Encryptor W)
    `{!EncryptorSpec newEnc, !KeySeparate oldEnc newEnc} secrets ctx (w : W) m e w' :
  (∀ p, Preserves (tbl_rows (D := dkimKeyRow)) (Encrypt newEnc p)) →
  rot_inv dk_PrivateKeyPEM oldEnc newEnc secrets (tbl_rows w) →
  RotateDKIMKeys ctx oldEnc newEnc w = ((m, e), w') →
  rot_inv dk_PrivateKeyPEM oldEnc newEnc secrets (tbl_rows w') ∧
  blank set_PEM (tbl_rows w') = blank set_PEM (tbl_rows w) ∧
  (e = None → Forall (under_new dk_PrivateKeyPEM oldEnc newEnc secrets) (tbl_rows w')).
Proof. intros He Hi E. by eapply rotate_spec. Qed.

(** The legacy-account backfill is total, minimal and idempotent.
    Whatever the outcome every vhost row survives with all its columns, but
    that an empty account may have been filled; after success no vhost lacks
    an account; and on a table where none does, a run changes no vhost and
    creates no account. *)
Theorem backfill_idempotent `{!Separate W accountRow vhostRow, !Separate W vhostRow accountRow}
    (db_Exec : string → M W (res unit)) (w : W) x w' :
  (∀ s, Preserves (tbl_rows (D := vhostRow)) (db_Exec s)) →
  (∀ s, Preserves (tbl_rows (D := accountRow)) (db_Exec s)) →
  ids_unique (tbl_rows (D := vhostRow) w) →
  backfillLegacyAccounts db_Exec w = (x, w') →
  filled (vhosts_by_id w) (vhosts_by_id w') ∧
  (x = Ok tt → ∀ id r, vhosts_by_id w' !! id = Some r → no_account r = false) ∧
  ((∀ id r, vhosts_by_id w !! id = Some r → no_account r = false) →
     vhosts_by_id w' = vhosts_by_id w ∧ tbl_rows (D := accountRow) w' = tbl_rows w).
Proof.
  intros Hx1 Hx2 Hu. unfold backfillLegacyAccounts, mtry, wrap.
  destruct (tbl_Find _ _ w) as [[rows|e] w1] eqn:Ef; simpl.
  2:{ pose proof (Find_frame _ _ _ _ _ Ef) as Hw1.
      pose proof (preserves_eq (tbl_rows (D := accountRow)) _ _ _ _ Ef) as Ha1.
      intros [= <- <-]. unfold vhosts_by_id. rewrite Hw1.
      split_and!; [apply filled_refl|done|done]. }
  pose proof (Find_frame _ _ _ _ _ Ef) as Hw1.
  pose proof (preserves_eq (tbl_rows (D := accountRow)) _ _ _ _ Ef) as Ha1.
  apply Find_ok in Ef as (l & Hp & _ & ->); [|split; naive_solver]. simpl in *.
  assert (Hmem : ∀ v, v ∈ l ↔ v ∈ tbl_rows w ∧ no_account v = true).
  { intros v. rewrite Hp, list_elem_of_filter. unfold no_account. naive_solver. }
  assert (Hv1 : vhosts_by_id w1 = vhosts_by_id w) by (unfold vhosts_by_id; by rewrite Hw1).
  assert (Hnd : NoDup (row_Id <$> l)) by (rewrite Hp; by apply ids_unique_filter).
  destruct (backfill_rows l w1) as [y w2] eqn:Eb. pose proof Eb as Eb'.
  apply backfill_rows_spec in Eb as (Hu2 & Hfl & Hok); [|by rewrite Hw1|done|].
  2:{ apply Forall_forall. intros v [Hv Hn]%Hmem. split; [|done]. rewrite Hv1.
      by apply (kview_row row_Id id). }
  rewrite Hv1 in Hfl.
  assert (Hall : y = Ok tt → ∀ id r, vhosts_by_id w2 !! id = Some r → no_account r = false).
  { intros Hy i r Hr. specialize (Hfl i). rewrite Hr in Hfl.
    destruct (vhosts_by_id w !! i) as [r0|] eqn:E0; [|done].
    unfold vhosts_by_id in E0. apply kview_lookup in E0 as (v & Hv & <- & Hid); [|done]. simpl in Hid. subst r0.
    destruct (no_account v) eqn:Hn.
    - destruct (Hok Hy v) as (r' & Hr' & Hn'); [by apply Hmem|]. congruence.
    - destruct Hfl as [->|[Hx _]]; [done|congruence]. }
  assert (Hnone : (∀ id r, vhosts_by_id w !! id = Some r → no_account r = false) →
            w2 = w1 ∧ y = Ok tt).
  { intros Hn. assert (l = []) as ->.
    { apply elem_of_nil_inv. intros v [Hv Hnv]%Hmem.
      rewrite (Hn (row_Id v) v) in Hnv; [done|]. by apply (kview_row row_Id id). }
    by injection Eb' as <- <-. }
  destruct y as [[]|e]; [|intros [= <- <-]; split_and!; [done|done|]].
  2:{ intros Hn. by destruct (Hnone Hn). }
  destruct (db_Exec _ w2) as [z w3] eqn:Ex.
  pose proof (preserves_eq (tbl_rows (D := vhostRow)) _ _ _ _ Ex) as Hv3.
  pose proof (preserves_eq (tbl_rows (D := accountRow)) _ _ _ _ Ex) as Ha3.
  assert (Hw3 : vhosts_by_id w3 = vhosts_by_id w2) by (unfold vhosts_by_id; by rewrite Hv3).
  intros [= _ <-]. rewrite Hw3. split_and!; [done|by intros _; apply Hall|].
  intros Hn. destruct (Hnone Hn) as [-> _]. by rewrite Ha3, Ha1.
Qed.
End Properties.

(** ** Witnesses *)

Definition created : res Vhost * DirW := CreateVhost (cipher "n") Background "acc" "c.test" world.
Definition created_vhost : Vhost :=
  mkVhost "0" "acc" "c.test" true "envelope" (Some "KEY") policy_zero.

Lemma create_vhost_visible_witness :
  dir_inv (snd created) ∧ vh_Active created_vhost = true ∧ vh_Domain created_vhost = "c.test" ∧
  fst (Service_Vhost (cipher "n") Background "c.test" (snd created)) = Some created_vhost ∧
  created_vhost = created_vhost.
Proof.
  destruct (create_vhost_visible (W := DirW) (cipher "n") Background "acc" "c.test" world (Ok created_vhost) (snd created))
    as (Hi & _ & _ & _ & _ & Ha & Hd & _ & _ & _ & Hl & _);
    [unfold untouched; split_and!; by intros w|intros p; unfold untouched; split_and!; by intros w|apply world_inv|by vm_compute|].
  split_and!; [exact Hi|exact Ha|exact Hd|by vm_compute|].
  apply (Hl Background created_vhost (snd created)). by vm_compute.
Defined.

Lemma deactivate_immediate_witness :
  let w' := snd (DeactivateVhost Background "v1" world) in
  fst (VhostActive (cipher "o") Background "a.test" world) = true ∧
  dir_inv w' ∧ fst (VhostActive (cipher "o") Background "a.test" w') = false.
Proof.
  intros w'. split; [by vm_compute|].
  destruct (deactivate_immediate (W := DirW) (cipher "o") Background "v1" world w')
    as (Hi & row & Hr & Hid & Hv & _); [apply world_inv|by vm_compute|].
  split; [exact Hi|by vm_compute].
Defined.

Lemma mailbox_isolation_witness :
  fst (GetMailbox Background "v1" "m1" world) = Ok (mkMailbox "m1" "v1" "alice" "#pw") ∧
  fst (ListMailboxes Background "v2" world) = Ok [mkMailbox "m2" "v2" "bob" "#pw2"] ∧
  mrow "m2" "v2" "bob" "pw2" ∈ tbl_rows (snd (DeleteMailbox Background "v1" "m2" world)).
Proof.
  split; [by vm_compute|]. split; [by vm_compute|].
  destruct (mailbox_isolation (W := DirW) Background "v1" "m2" world) as (_ & _ & _ & Hdel).
  - repeat constructor; set_solver.
  - eapply Hdel; [apply surjective_pairing| |].
    + simpl. set_solver.
    + by left.
Defined.

Lemma authenticate_exact_witness :
  fst (Authenticate Background "a.test" "alice" "pw" world) = true ∧
  fst (Authenticate Background "a.test" "bob" "pw2" world) = false ∧
  is_Some (Some (Authenticate Background "a.test" "alice" "pw" world)).
Proof.
  destruct (authenticate_exact (W := DirW) Background "a.test" "alice" "pw" world true world)
    as [Ht _].
  - repeat constructor; set_solver.
  - repeat constructor; set_solver.
  - by vm_compute.
  - destruct (Ht eq_refl) as (v & r & _). split; [by vm_compute|]. split; [by vm_compute|]. by eexists.
Defined.

Lemma list_pages_complete_witness :
  fst (walk (λ c, ListVhosts Background c 1) vh_ID 3 "" world)
  = Some (Ok [vhostFromRow (vrow "v1" "a.test" "acc") None; vhostFromRow (vrow "v2" "b.test" "") None]) ∧
  (∃ x, fst (walk (λ c, ListVhosts Background c 1) vh_ID 3 "" world) = Some x).
Proof.
  split; [by vm_compute|].
  destruct (list_pages_complete (W := DirW) Background 1 3 world) as ((x & Hx & _) & _);
    [repeat constructor; set_solver..|simpl; lia|simpl; lia|]. exists x. exact Hx.
Defined.

Definition dkim_secrets : gmap string string := {["d1" := "K1"; "d2" := "K2"]}.

Lemma rotate_dkim_resumable_witness :
  let r := RotateDKIMKeys Background (cipher "o") (cipher "n") world in
  fst r = (1, None) ∧
  Forall (under_new dk_PrivateKeyPEM (cipher "o") (cipher "n") dkim_secrets) (t_dkim (snd r)).
Proof.
  intros r. split; [by vm_compute|].
  destruct (rotate_dkim_resumable (W := DirW) (cipher "o") (cipher "n") dkim_secrets Background world
              1 None (snd r)) as (_ & _ & Hn).
  - by intros p w.
  - split; [repeat constructor; set_solver|].
    apply Forall_cons. split; [left; exists "K1"; split; by vm_compute|].
    apply Forall_cons. split; [right; exists "K2"; split_and!; by vm_compute|constructor].
  - by vm_compute.
  - exact (Hn eq_refl).
Defined.

Lemma backfill_idempotent_witness :
  let w1 := snd (backfillLegacyAccounts (λ _, ret (Ok tt)) world) in
  filled (vhosts_by_id world) (vhosts_by_id w1) ∧
  t_accounts w1 = [mkRow "0" None (mkAccountRow "Legacy: b.test")] ∧
  t_accounts (snd (backfillLegacyAccounts (λ _, ret (Ok tt)) w1)) = t_accounts w1.
Proof.
  intros w1. split; [|split; by vm_compute].
  destruct (backfill_idempotent (W := DirW) (λ _, ret (Ok tt)) world (Ok tt) w1) as [Hf _];
    [by intros s w|by intros s w|repeat constructor; set_solver|by vm_compute|exact Hf].
Defined.
