(* ===== verification/Integrity.v ===== *)
(** * The directory's tables stay well formed

    One invariant over the vhost, mailbox and DKIM key tables of
    internal/directory, preserved by every operation that writes them, a master
    key rotation included, whatever its outcome.  The lookups of the protocol
    servers rely on it: a hosted domain has one row, an address one mailbox,
    and a vhost one key, which opens. *)

From S2P Require Import Prelude Table Kms Directory.

(** ** The invariant *)

(** The encryptors in use: one, or two while a rotation is unfinished. *)
Inductive mode (W : Type) := Settled (enc : Encryptor W) | Rotating (old new : Encryptor W).
Arguments Settled {W} enc.
Arguments Rotating {W} old new.

Definition in_use {W} (m : mode W) (enc : Encryptor W) : Prop :=
  match m with Settled e => enc = e | Rotating old new => enc = old ∨ enc = new end.

(** A stored value opens to [p]. *)
Definition opens {W} (m : mode W) (stored p : string) : Prop :=
  match m with
  | Settled e => plain e stored = Ok p
  | Rotating old new => plain old stored = Ok p ∨ plain new stored = Ok p ∧ is_Ok (plain old stored) = false
  end.

Definition readable {W} `{Crypto W} (m : mode W) (d : Row dkimKeyRow) : Prop :=
  dk_Active (row_data d) = true ∧ row_Id d ≠ "" ∧
  ∃ key, x509_ParsePKCS1 key = Ok key ∧ opens m (dk_PrivateKeyPEM (row_data d)) (encodeRSAKeyPEM key).

Definition domain_of (r : Row vhostRow) : string := vr_Domain (row_data r).
Definition address_of (d : mailboxRow) : string * string := (mr_VhostID d, mr_LocalPart d).
Definition owner_of (d : Row dkimKeyRow) : string := dk_VhostID (row_data d).

(** Rows have their own ids; a domain has one vhost and an address one mailbox;
    each vhost has exactly one DKIM key, active and readable. *)
Record integral (key_ok : Row dkimKeyRow → Prop) (vs : list (Row vhostRow)) (ms : list (Row mailboxRow))
    (ks : list (Row dkimKeyRow)) : Prop := {
  in_ids : ids_unique vs;
  in_domains : NoDup (domain_of <$> vs);
  in_mailboxes : ids_unique ms;
  in_addresses : NoDup ((λ r, address_of (row_data r)) <$> ms);
  in_keys : ids_unique ks;
  in_owners : owner_of <$> ks ≡ₚ row_Id <$> vs;
  in_readable : Forall key_ok ks;
}.

Lemma integral_empty key_ok : integral key_ok [] [] [].
Proof. split; by constructor. Qed.

(** The domain has a vhost that was deactivated. *)
Definition dark (domain : string) (vs : list (Row vhostRow)) : Prop :=
  ∃ r, r ∈ vs ∧ domain_of r = domain ∧ vr_Active (row_data r) = false.

(** Vhosts that changed neither id nor domain, and were not reactivated. *)
Definition relabelled (vs vs' : list (Row vhostRow)) : Prop :=
  row_Id <$> vs' ≡ₚ row_Id <$> vs ∧ domain_of <$> vs' ≡ₚ domain_of <$> vs ∧ ∀ domain, dark domain vs → dark domain vs'.

#[global] Instance relabelled_preorder : PreOrder relabelled.
Proof. split; [by split|]. intros l1 l2 l3 (H1 & H2 & Hd) (H3 & H4 & Hd'). split_and!; [by etransitivity..|auto]. Qed.

(** Updates of a vhost's other columns. *)
Definition mild (f : vhostRow → vhostRow) : Prop :=
  ∀ d, vr_Domain (f d) = vr_Domain d ∧ (vr_Active d = false → vr_Active (f d) = false).

Lemma relabelled_update vs vs' p f : mild f → vs' ≡ₚ (update_row p f <$> vs) → relabelled vs vs'.
Proof.
  intros Hf Hp. split_and!.
  - by rewrite Hp, (kview_keys_update row_Id _ _ _ (update_row_Id _ _)).
  - rewrite Hp, (kview_keys_update domain_of); [done|]. intros r. unfold update_row, domain_of.
    destruct (p r); simpl; [apply Hf|done].
  - intros domain (r & Hr & Hd & Ha). exists (update_row p f r). rewrite Hp. unfold update_row, domain_of in *.
    split; [by apply (list_elem_of_fmap_2 (update_row p f))|]. destruct (p r); simpl; [|done].
    destruct (Hf (row_data r)) as [-> Hx]. auto.
Qed.

Lemma integral_relabelled key_ok vs vs' ms ks : relabelled vs vs' → integral key_ok vs ms ks → integral key_ok vs' ms ks.
Proof. intros (Hi & Hd & _) [H1 H2 H3 H4 H5 H6 H7]. split; try done; [unfold ids_unique|..]; by rewrite ?Hi, ?Hd. Qed.

Lemma integral_new_vhost key_ok vs vs' ms ks ks' row d : integral key_ok vs ms ks →
  vs' ≡ₚ row :: vs → ks' ≡ₚ d :: ks → row_Id row ∉ row_Id <$> vs → domain_of row ∉ domain_of <$> vs →
  row_Id d ∉ row_Id <$> ks → owner_of d = row_Id row → key_ok d → integral key_ok vs' ms ks'.
Proof.
  intros [H1 H2 H3 H4 H5 H6 H7] Hv Hk Hid Hdom Hkid Ho Hd. split; try done; [unfold ids_unique|..| |].
  - rewrite Hv, fmap_cons. by apply NoDup_cons.
  - rewrite Hv, fmap_cons. by apply NoDup_cons.
  - unfold ids_unique. rewrite Hk, fmap_cons. by apply NoDup_cons.
  - by rewrite Hv, Hk, !fmap_cons, Ho, H6.
  - rewrite Hk. by constructor.
Qed.

Lemma integral_new_mailbox key_ok vs ms ms' ks r : integral key_ok vs ms ks → ms' ≡ₚ r :: ms →
  row_Id r ∉ row_Id <$> ms → address_of (row_data r) ∉ (λ r, address_of (row_data r)) <$> ms → integral key_ok vs ms' ks.
Proof.
  intros [H1 H2 H3 H4 H5 H6 H7] Hm Hid Ha.
  split; try done; [unfold ids_unique|]; rewrite Hm, fmap_cons; by apply NoDup_cons.
Qed.

Lemma integral_less_mailboxes key_ok vs ms ms' ks (p : Row mailboxRow → bool) : integral key_ok vs ms ks →
  ms' ≡ₚ filter (λ r, p r = false) ms → integral key_ok vs ms' ks.
Proof.
  intros [H1 H2 H3 H4 H5 H6 H7] Hm. split; try done.
  - eapply ids_unique_perm; [symmetry; exact Hm|]. by apply ids_unique_filter.
  - rewrite Hm. eapply sublist_NoDup; [exact H4|]. apply fmap_sublist, sublist_filter.
Qed.

(** ** A rotation *)

Section Rotation.
Context {W : Type} `{Crypto W}.
Context (old new : Encryptor W).

(** What a row's value is a ciphertext of. *)
Definition secret (d : Row dkimKeyRow) : string :=
  match plain old (dk_PrivateKeyPEM (row_data d)), plain new (dk_PrivateKeyPEM (row_data d)) with
  | Ok p, _ => p
  | Err _, Ok p => p
  | Err _, Err _ => ""
  end.

Definition secrets (ks : list (Row dkimKeyRow)) : gmap string string := kview row_Id secret ks.

(** Before the rotation, or in an unfinished one. *)
Definition rotatable (m : mode W) : Prop := m = Settled old ∨ m = Rotating old new.

Lemma opens_secret m d p : rotatable m → opens m (dk_PrivateKeyPEM (row_data d)) p →
  secret d = p ∧ opens (Rotating old new) (dk_PrivateKeyPEM (row_data d)) p.
Proof.
  unfold secret. intros [->| ->]; simpl; [intros ->; auto|].
  intros [->|[-> He]]; [auto|]. by destruct (plain old _); [|auto].
Qed.

Lemma rotation_starts m ks : rotatable m → ids_unique ks → Forall (readable m) ks →
  rot_inv dk_PrivateKeyPEM old new (secrets ks) ks.
Proof.
  intros Hm Hu Hr. split; [done|]. rewrite Forall_forall in Hr. apply Forall_forall. intros d Hd.
  destruct (Hr d Hd) as (_ & _ & key & _ & Ho). apply opens_secret in Ho as [Hs Ho]; [|done].
  assert (Hl : secrets ks !! row_Id d = Some (secret d)) by by apply kview_row.
  rewrite Hs in Hl. destruct Ho as [Ho|[Ho He]]; [left|right]; by eexists.
Qed.

(** The rows a rotation leaves: the ones there were, each with its key. *)
Lemma rotation_ends m m' vs ms ks ks' : rotatable m → (m' = Settled new ∨ m' = Rotating old new) →
  integral (readable m) vs ms ks → rot_inv dk_PrivateKeyPEM old new (secrets ks) ks' →
  blank set_PEM ks' = blank set_PEM ks →
  (m' = Settled new → Forall (under_new dk_PrivateKeyPEM old new (secrets ks)) ks') →
  integral (readable m') vs ms ks'.
Proof.
  intros Hm Hm' [H1 H2 H3 H4 H5 H6 H7] [Hu Hrot] Hb Hend.
  assert (Hsame : ∀ d', d' ∈ ks' → ∃ d, d ∈ ks ∧ row_Id d = row_Id d' ∧ owner_of d = owner_of d' ∧
    dk_Active (row_data d) = dk_Active (row_data d')).
  { intros d' Hd'. assert (Hl : blank set_PEM ks' !! row_Id d' =
      Some (mkRow (row_Id d') (row_CreatedAt d') (set_PEM "" (row_data d')))).
    { by apply (kview_row row_Id (λ r, mkRow (row_Id r) (row_CreatedAt r) (set_PEM "" (row_data r)))). }
    rewrite Hb in Hl. apply kview_lookup in Hl as (d & Hd & Hid & Heq); [|done]. exists d.
    injection Heq as _ _ Hown _ Hact. by split_and!. }
  split; try done.
  - rewrite <-H6. apply (f_equal (λ b, (λ kv, owner_of kv.2) <$> map_to_list b)) in Hb. unfold blank, kview in Hb.
    assert (Hown : ∀ l : list (Row dkimKeyRow), ids_unique l → owner_of <$> l ≡ₚ (λ kv, owner_of kv.2) <$>
      map_to_list (list_to_map (M := gmap string _) ((λ r, (row_Id r, mkRow (row_Id r) (row_CreatedAt r) (set_PEM "" (row_data r)))) <$> l))).
    { intros l Hl. rewrite map_to_list_to_map by (by rewrite <-list_fmap_compose). by rewrite <-list_fmap_compose. }
    by rewrite (Hown ks' Hu), Hb, <-(Hown ks H5).
  - rewrite Forall_forall in Hrot, H7. apply Forall_forall. intros d' Hd'.
    destruct (Hsame d' Hd') as (d & Hd & Hid & _ & Hact). destruct (H7 d Hd) as (Ha & Hne & key & Hk & Ho).
    split_and!; [congruence|congruence|]. exists key. split; [done|].
    apply opens_secret in Ho as [Hs _]; [|done].
    assert (Hl : secrets ks !! row_Id d' = Some (encodeRSAKeyPEM key)).
    { rewrite <-Hid, <-Hs. by apply kview_row. }
    destruct Hm' as [->| ->]; simpl.
    + specialize (Hend eq_refl). rewrite Forall_forall in Hend. destruct (Hend d' Hd') as (p & Hp & Hn & _). congruence.
    + destruct (Hrot d' Hd') as [(p & Hp & Hx)|(p & Hp & Hx & He)]; [left|right]; rewrite Hl in Hp; injection Hp as <-; auto.
Qed.
End Rotation.

(** ** The operations *)

Section Operations.
Context {W : Type} `{Db W, !Table W accountRow, !Table W vhostRow, !Table W mailboxRow, !Table W dkimKeyRow,
  !TableSpec W accountRow, !TableSpec W vhostRow, !TableSpec W mailboxRow, !TableSpec W dkimKeyRow, CryptoSpec W}.
Context `{!UniqueIndex W vhostRow string vr_Domain, !UniqueIndex W mailboxRow (string * string) address_of}.
Context `{!Separate W accountRow vhostRow, !Separate W accountRow mailboxRow, !Separate W accountRow dkimKeyRow,
  !Separate W vhostRow mailboxRow, !Separate W vhostRow dkimKeyRow, !Separate W mailboxRow vhostRow,
  !Separate W mailboxRow dkimKeyRow, !Separate W dkimKeyRow vhostRow, !Separate W dkimKeyRow mailboxRow}.

Definition tables (w : W) : list (Row vhostRow) * list (Row mailboxRow) * list (Row dkimKeyRow) :=
  (tbl_rows w, tbl_rows w, tbl_rows w).

Definition integrity (m : mode W) (w : W) : Prop := integral (readable m) (tables w).1.1 (tables w).1.2 (tables w).2.

(** What is not the tables' business: key generation, hashing, encryption. *)
Context (good : Encryptor W → Prop).
Record crypto_quiet : Prop := {
  cq_generate : Preserves tables rsa_GenerateKey;
  cq_hash : ∀ p, Preserves tables (bcrypt_Generate p);
  cq_encrypt : ∀ enc p, good enc → Preserves tables (Encrypt enc p);
  cq_spec : ∀ enc, good enc → EncryptorSpec enc;
  cq_separate : ∀ old new, good old → good new → old ≠ new → KeySeparate old new;
}.

(** At most the vhosts' other columns change. *)
Definition relabels (w w' : W) : Prop :=
  relabelled (tables w).1.1 (tables w').1.1 ∧ (tables w').1.2 = (tables w).1.2 ∧ (tables w').2 = (tables w).2.

#[local] Instance relabels_preorder : PreOrder relabels.
Proof. split; [by split|]. intros w1 w2 w3 (Hv & Hm & Hk) (Hv' & Hm' & Hk'). split_and!; [by etransitivity|congruence..]. Qed.

Lemma relabels_same w w' : tables w' = tables w → relabels w w'.
Proof. unfold relabels. intros ->. by split. Qed.

Lemma relabels_integrity m w w' : relabels w w' → integrity m w → integrity m w'.
Proof. unfold integrity. intros (Hv & -> & ->). by apply integral_relabelled. Qed.

Lemma tables_eq w w' : tbl_rows (D := vhostRow) w' = tbl_rows w → tbl_rows (D := mailboxRow) w' = tbl_rows w →
  tbl_rows (D := dkimKeyRow) w' = tbl_rows w → tables w' = tables w.
Proof. unfold tables. by intros -> -> ->. Qed.

Lemma relabels_tx {A} (m : M W (res A)) : along relabels m → along relabels (tx m).
Proof.
  intros Hm w [a|e] w' E.
  - pose proof (Tx_ok (D := vhostRow) _ _ _ _ E) as (w1 & Em & E1).
    pose proof (Tx_ok (D := mailboxRow) _ _ _ _ E) as (w2 & Em2 & E2).
    pose proof (Tx_ok (D := dkimKeyRow) _ _ _ _ E) as (w3 & Em3 & E3).
    rewrite Em in Em2, Em3. injection Em2 as <-. injection Em3 as <-. pose proof (Hm _ _ _ Em) as Hr.
    etransitivity; [exact Hr|]. apply relabels_same. by apply tables_eq.
  - apply relabels_same, tables_eq; by eapply Tx_err.
Qed.

Lemma relabels_vhost_update ctx p f : mild f → along relabels (tbl_Updates (D := vhostRow) ctx p f).
Proof.
  intros Hf w r w' E. pose proof (preserves_eq (tbl_rows (D := mailboxRow)) _ _ _ _ E) as Hm.
  pose proof (preserves_eq (tbl_rows (D := dkimKeyRow)) _ _ _ _ E) as Hk.
  split_and!; [|done..]. simpl. destruct r as [n|e].
  - apply Updates_ok in E as [_ Hp]. by eapply relabelled_update.
  - by rewrite (Updates_err _ _ _ _ _ _ E).
Qed.

Lemma relabels_account_create ctx (r : Row accountRow) : along relabels (tbl_Create ctx r).
Proof. intros w a w' E. apply relabels_same, tables_eq; by apply (preserves_eq _ _ _ _ _ E). Qed.

Lemma relabels_vhost_find ctx q : along relabels (tbl_Find (D := vhostRow) ctx q).
Proof. intros w a w' E. apply relabels_same, tables_eq; [by eapply Find_frame|by apply (preserves_eq _ _ _ _ _ E)..]. Qed.

Ltac relabel_calls := along_calls; try apply _; first [apply relabels_vhost_update; done|apply relabels_account_create|apply relabels_vhost_find|idtac].

Lemma CreateAccount_relabels ctx name : along relabels (CreateAccount ctx name).
Proof. unfold CreateAccount. relabel_calls. Qed.

Lemma update_vhost_relabels ctx id fmt f : mild f → along relabels (update_vhost ctx id fmt f).
Proof. intros Hf. unfold update_vhost. relabel_calls. Qed.

Lemma backfill_relabels (db_Exec : string → M W (res unit)) : (∀ s, Preserves tables (db_Exec s)) →
  along relabels (backfillLegacyAccounts db_Exec).
Proof.
  intros Hx. unfold backfillLegacyAccounts.
  assert (Hrows : ∀ rows, along relabels (backfill_rows rows)).
  { induction rows as [|v rows IH]; simpl; [relabel_calls|]. unfold backfill_one. relabel_calls; [|apply IH].
    apply relabels_tx. relabel_calls. }
  relabel_calls; [apply Hrows|]. intros w r w' E. apply relabels_same. by apply (preserves_eq tables _ _ _ _ E).
Qed.

Lemma tables_preserves {A} (m : M W A) : Preserves tables m →
  Preserves (tbl_rows (D := vhostRow)) m ∧ Preserves (tbl_rows (D := mailboxRow)) m ∧ Preserves (tbl_rows (D := dkimKeyRow)) m.
Proof. intros Hm. split_and!; intros w; specialize (Hm w); unfold tables in Hm; congruence. Qed.

(** *** The operations that add or remove rows *)

Definition same_mailboxes (w w' : W) : Prop := tbl_rows (D := mailboxRow) w' = tbl_rows w.

#[local] Instance same_mailboxes_preorder : PreOrder same_mailboxes.
Proof. split; [done|]. unfold same_mailboxes. intros w1 w2 w3. congruence. Qed.

Lemma preserves_along {A} (m : M W A) : Preserves (tbl_rows (D := mailboxRow)) m → along same_mailboxes m.
Proof. intros Hm w a w' E. by apply (preserves_eq _ _ _ _ _ E). Qed.

Context (CQ : crypto_quiet).

Lemma CreateVhost_mailboxes enc ctx a d : good enc → along same_mailboxes (CreateVhost enc ctx a d).
Proof.
  intros Hg. destruct (tables_preserves _ (cq_generate CQ)) as (_ & Hgen & _).
  assert (Henc : ∀ p, along same_mailboxes (Encrypt enc p)).
  { intros p. by destruct (tables_preserves _ (cq_encrypt CQ enc p Hg)) as (_ & ?%preserves_along & _). }
  apply preserves_along in Hgen. unfold CreateVhost, encryptPEM. along_calls; try apply _; auto.
  intros w [x|e] w' E; [|by eapply Tx_err].
  apply (Tx_ok (D := mailboxRow)) in E as (w1 & E & Hw). unfold same_mailboxes. rewrite Hw.
  match type of E with ?m w = _ => assert (Hm : along same_mailboxes m) end; [|by eapply Hm].
  along_calls; try apply _; apply preserves_along; apply _.
Qed.

Lemma readable_new m enc (d : Row dkimKeyRow) key : in_use m enc →
  (∀ e, in_use m e → good e) → (∀ old new, m = Rotating old new → old ≠ new) →
  dk_Active (row_data d) = true → row_Id d ≠ "" → x509_ParsePKCS1 key = Ok key →
  sealed enc (dk_PrivateKeyPEM (row_data d)) (encodeRSAKeyPEM key) → readable m d.
Proof.
  intros Hu Hg Hne Ha Hid Hp Hs. split_and!; [done..|]. exists key. split; [done|].
  pose proof (cq_spec CQ enc (Hg _ Hu)) as Hspec.
  assert (Hpl : plain enc (dk_PrivateKeyPEM (row_data d)) = Ok (encodeRSAKeyPEM key)).
  { destruct Hs as (w & w' & c & E & ->). unfold plain. rewrite Base64.decode_encode. by eapply Decrypt_Encrypt. }
  destruct m as [e|old new]; simpl in Hu |- *; [by subst|]. destruct Hu as [->| ->]; [by left|right; split; [done|]].
  pose proof (cq_separate CQ old new (Hg _ (or_introl eq_refl)) (Hg _ (or_intror eq_refl)) (Hne _ _ eq_refl)) as Hsep.
  destruct Hs as (w & w' & c & E & ->). unfold plain. rewrite Base64.decode_encode. by eapply key_separate.
Qed.

(** The mode's encryptors are good ones and differ. *)
Definition mode_ok (m : mode W) : Prop :=
  (∀ e, in_use m e → good e) ∧ ∀ old new, m = Rotating old new → old ≠ new.

Lemma CreateVhost_integrity m enc ctx a d (w : W) : mode_ok m → in_use m enc → integrity m w →
  integrity m (snd (CreateVhost enc ctx a d w)).
Proof.
  intros [Hg Hne] Hu Hi. destruct (CreateVhost enc ctx a d w) as [r w'] eqn:E. simpl.
  pose proof (CreateVhost_mailboxes enc ctx a d (Hg _ Hu) w r w' E) as Hm.
  destruct (tables_preserves _ (cq_generate CQ)) as (Hg1 & _ & Hg2).
  assert (He : ∀ p, Preserves (tbl_rows (D := vhostRow)) (Encrypt enc p) ∧ Preserves (tbl_rows (D := dkimKeyRow)) (Encrypt enc p)).
  { intros p. by destruct (tables_preserves _ (cq_encrypt CQ enc p (Hg _ Hu))) as (? & _ & ?). }
  pose proof (cq_spec CQ enc (Hg _ Hu)) as Hspec. apply CreateVhost_rows in E; [|first [done|apply _|apply He]..].
  unfold integrity, tables. simpl. rewrite Hm. destruct r as [v|e]; [|by destruct E as [-> ->]].
  destruct E as (row & k & key & _ & Hdat & Hid & Hdom & Hkid & Ho & Ha & Hk & Hs & Hp & Hpv & Hpk).
  eapply (integral_new_vhost _ (tbl_rows w) _ _ (tbl_rows w) _ row k); try done.
  - unfold domain_of at 1. by rewrite Hdat.
  - by eapply readable_new.
Qed.

Lemma CreateMailbox_integrity m ctx v l p (w : W) : integrity m w → integrity m (snd (CreateMailbox ctx v l p w)).
Proof.
  intros Hi. unfold CreateMailbox, mtry, wrap, ret. destruct (bcrypt_Generate p w) as [h w1] eqn:Eb.
  pose proof (cq_hash CQ p) as Hh. pose proof (preserves_eq tables _ _ _ _ Eb) as Ht.
  unfold integrity in *. rewrite <-Ht in Hi. destruct h as [h|e]; simpl; [|done].
  destruct (tbl_Create ctx _ w1) as [[r|e] w2] eqn:Ec; simpl;
    pose proof (preserves_eq (tbl_rows (D := vhostRow)) _ _ _ _ Ec) as ->;
    pose proof (preserves_eq (tbl_rows (D := dkimKeyRow)) _ _ _ _ Ec) as ->.
  - pose proof (unique_Create (K := string * string) (key := address_of) _ _ _ _ _ Ec) as Hfresh.
    apply Create_ok in Ec as (Hnew & _ & _ & _ & Hp). by eapply integral_new_mailbox.
  - by rewrite (Create_err _ _ _ _ _ Ec).
Qed.

Lemma DeleteMailbox_integrity m ctx v i (w : W) : integrity m w → integrity m (snd (DeleteMailbox ctx v i w)).
Proof.
  intros Hi. unfold DeleteMailbox, mtry, wrap, ret. destruct (tbl_Delete ctx _ w) as [r w1] eqn:Ed.
  assert (Hi1 : integrity m w1).
  { unfold integrity, tables in *. simpl in *.
    rewrite (preserves_eq (tbl_rows (D := vhostRow)) _ _ _ _ Ed), (preserves_eq (tbl_rows (D := dkimKeyRow)) _ _ _ _ Ed).
    destruct r as [n|e]; [|by rewrite (Delete_err _ _ _ _ _ Ed)].
    apply Delete_ok in Ed as [_ Hp]. exact (integral_less_mailboxes _ _ _ _ _ _ Hi Hp). }
  destruct r as [n|e]; simpl; [by destruct (n =? 0)|done].
Qed.

(** A rotation writes the key table alone. *)
Definition keys_only (w w' : W) : Prop :=
  tbl_rows (D := vhostRow) w' = tbl_rows w ∧ tbl_rows (D := mailboxRow) w' = tbl_rows w.

#[local] Instance keys_only_preorder : PreOrder keys_only.
Proof. split; [by split|]. unfold keys_only. intros w1 w2 w3 [Hv Hm] [Hv' Hm']. split; congruence. Qed.

Lemma rotate_keys_only ctx old new : good new → along keys_only (RotateDKIMKeys ctx old new).
Proof.
  intros Hg. unfold RotateDKIMKeys, rotate. apply along_bind; [apply _| |].
  { intros w r w' E. split; apply (preserves_eq _ _ _ _ _ E). }
  intros [rows|e]; [|apply along_ret, _]. generalize 0. induction rows as [|row rows IH]; intros n; simpl; [apply along_ret, _|].
  destruct (Base64.DecodeString _); [|apply along_ret, _].
  destruct (Decrypt old _) as [p|]; [|destruct (Decrypt new _); [apply IH|apply along_ret, _]].
  apply along_bind; [apply _| |].
  { intros w r w' E. destruct (tables_preserves _ (cq_encrypt CQ new p Hg)) as (? & ? & _).
    split; apply (preserves_eq _ _ _ _ _ E). }
  intros [c|e]; [|apply along_ret, _]. apply along_bind; [apply _| |].
  { intros w r w' E. split; apply (preserves_eq _ _ _ _ _ E). }
  intros [k|e]; [apply IH|apply along_ret, _].
Qed.

Lemma Rotate_integrity m ctx old new n e (w w' : W) : mode_ok m → rotatable old new m → good new → old ≠ new →
  RotateDKIMKeys ctx old new w = ((n, e), w') → integrity m w →
  integrity (if e is None then Settled new else Rotating old new) w' ∧
  mode_ok (if e is None then Settled new else Rotating old new).
Proof.
  intros [Hg _] Hm Hn Hne E Hi. pose proof Hi as [H1' H2' H3' H4' H5' H6' H7'].
  assert (Hgo : good old) by (apply Hg; destruct Hm as [->| ->]; simpl; auto).
  pose proof (cq_spec CQ new Hn) as Hspec. pose proof (cq_separate CQ old new Hgo Hn Hne) as Hsep.
  assert (Henc : ∀ p, Preserves (tbl_rows (D := dkimKeyRow)) (Encrypt new p)).
  { intros p. by destruct (tables_preserves _ (cq_encrypt CQ new p Hn)) as (_ & _ & ?). }
  pose proof E as E'. apply (rotate_spec dk_PrivateKeyPEM set_PEM dkim_text old new (λ _ _, eq_refl) (λ _ _ _, eq_refl)
    (secrets old new (tbl_rows w))) in E' as (Hr & Hb & Hend); [|by apply (rotation_starts old new m)].
  split.
  - unfold integrity in *. simpl in *.
    destruct (rotate_keys_only ctx old new Hn _ _ _ E) as [-> ->].
    eapply (rotation_ends old new m); [done| |exact Hi|done|done|].
    + destruct e; auto.
    + destruct e; [done|]. auto.
  - destruct e; split; simpl; [|by intros ? ? [= <- <-]| |done]; intros ? Hx; destruct_or?; by subst.
Qed.

(** *** The directory at work *)

Context (db_Exec : string → M W (res unit)).

Inductive dstep : mode W * W → mode W * W → Prop :=
| ds_account m ctx name w : dstep (m, w) (m, snd (CreateAccount ctx name w))
| ds_vhost m enc ctx account domain w : in_use m enc → dstep (m, w) (m, snd (CreateVhost enc ctx account domain w))
| ds_deactivate m ctx id w : dstep (m, w) (m, snd (DeactivateVhost ctx id w))
| ds_policy m ctx id policy w : dstep (m, w) (m, snd (UpdateVhostPolicy ctx id policy w))
| ds_mailbox m ctx v l p w : dstep (m, w) (m, snd (CreateMailbox ctx v l p w))
| ds_unmailbox m ctx v i w : dstep (m, w) (m, snd (DeleteMailbox ctx v i w))
| ds_backfill m w : dstep (m, w) (m, snd (backfillLegacyAccounts db_Exec w))
| ds_rotate m ctx old new w n e w' : rotatable old new m → good new → old ≠ new →
    RotateDKIMKeys ctx old new w = ((n, e), w') →
    dstep (m, w) ((if e is None then Settled new else Rotating old new), w')
| ds_other m w w' : tables w' = tables w → dstep (m, w) (m, w').

Lemma along_snd {A} (R : relation W) (c : M W A) w : along R c → R w (snd (c w)).
Proof. intros Hc. destruct (c w) eqn:E. by eapply Hc. Qed.

Lemma dstep_integrity x y : (∀ s, Preserves tables (db_Exec s)) → dstep x y →
  mode_ok x.1 ∧ integrity x.1 x.2 → mode_ok y.1 ∧ integrity y.1 y.2.
Proof.
  intros Hx Hs [Hm Hi]. destruct Hs; simpl in *; (split; [done|]) || idtac.
  - eapply relabels_integrity; [|exact Hi]. by apply along_snd, CreateAccount_relabels.
  - by apply CreateVhost_integrity.
  - eapply relabels_integrity; [|exact Hi]. by apply along_snd, update_vhost_relabels.
  - eapply relabels_integrity; [|exact Hi]. by apply along_snd, update_vhost_relabels.
  - by apply CreateMailbox_integrity.
  - by apply DeleteMailbox_integrity.
  - eapply relabels_integrity; [|exact Hi]. by apply along_snd, backfill_relabels.
  - edestruct Rotate_integrity; [done..|]. by split.
  - eapply relabels_integrity; [|exact Hi]. by apply relabels_same.
Qed.

Lemma integrity_dir_inv m w : integrity m w → dir_inv w.
Proof.
  intros [Hid Hdom _ _ _ Hown _]. split_and!; [done|done|]. apply Forall_forall. intros d Hd. simpl in Hown.
  rewrite <-Hown. by apply (list_elem_of_fmap_2 owner_of).
Qed.

(** No operation brings a deactivated vhost back. *)
Lemma mailbox_ops_vhosts ctx v l p i : ∀ w,
  tbl_rows (D := vhostRow) (snd (CreateMailbox ctx v l p w)) = tbl_rows w ∧
  tbl_rows (D := vhostRow) (snd (DeleteMailbox ctx v i w)) = tbl_rows w.
Proof.
  intros w. split.
  - destruct (tables_preserves _ (cq_hash CQ p)) as (Hb & _).
    unfold CreateMailbox, mtry, wrap, ret. destruct (bcrypt_Generate p w) as [h w1] eqn:Eb.
    pose proof (preserves_eq (tbl_rows (D := vhostRow)) _ _ _ _ Eb) as Hw1. destruct h as [h|e]; simpl; [|done].
    destruct (tbl_Create ctx _ w1) as [r w2] eqn:Ec. pose proof (preserves_eq (tbl_rows (D := vhostRow)) _ _ _ _ Ec).
    destruct r; simpl; congruence.
  - unfold DeleteMailbox, mtry, wrap, ret. destruct (tbl_Delete ctx _ w) as [r w1] eqn:Ed.
    pose proof (preserves_eq (tbl_rows (D := vhostRow)) _ _ _ _ Ed).
    destruct r as [n|e]; simpl; [by destruct (n =? 0)|done].
Qed.

Lemma CreateVhost_dark domain m enc ctx a d (w : W) : mode_ok m → in_use m enc →
  dark domain (tbl_rows w) → dark domain (tbl_rows (snd (CreateVhost enc ctx a d w))).
Proof.
  intros [Hg _] Hu (r0 & Hr0 & Hd0). destruct (CreateVhost enc ctx a d w) as [r w'] eqn:E. simpl.
  destruct (tables_preserves _ (cq_generate CQ)) as (Hg1 & _ & Hg2).
  assert (He : ∀ p, Preserves (tbl_rows (D := vhostRow)) (Encrypt enc p) ∧ Preserves (tbl_rows (D := dkimKeyRow)) (Encrypt enc p)).
  { intros p. by destruct (tables_preserves _ (cq_encrypt CQ enc p (Hg _ Hu))) as (? & _ & ?). }
  pose proof (cq_spec CQ enc (Hg _ Hu)) as Hspec. apply CreateVhost_rows in E; [|first [done|apply _|apply He]..].
  exists r0. split; [|done]. destruct r as [v|e]; [|by destruct E as [-> _]].
  destruct E as (row & k & key & _ & _ & _ & _ & _ & _ & _ & _ & _ & _ & Hpv & _). rewrite Hpv. by right.
Qed.

Lemma dstep_dark domain x y : (∀ s, Preserves tables (db_Exec s)) → mode_ok x.1 → dstep x y →
  dark domain (tbl_rows x.2) → dark domain (tbl_rows y.2).
Proof.
  intros Hx Hm Hs. destruct Hs; simpl in *.
  - apply (along_snd relabels), CreateAccount_relabels.
  - by eapply CreateVhost_dark.
  - by apply (along_snd relabels), update_vhost_relabels.
  - by apply (along_snd relabels), update_vhost_relabels.
  - by rewrite (proj1 (mailbox_ops_vhosts ctx v l p "" w)).
  - by rewrite (proj2 (mailbox_ops_vhosts ctx v "" "" i w)).
  - by apply (along_snd relabels), backfill_relabels.
  - match goal with E : RotateDKIMKeys _ _ _ _ = _ |- _ => by destruct (rotate_keys_only _ _ _ ltac:(eassumption) _ _ _ E) as [-> _] end.
  - match goal with E : tables _ = tables _ |- _ => injection E as -> _ _ end. done.
Qed.

(** After a deactivation the vhost's domain is dark, and stays so. *)
Lemma deactivated_dark ctx id (w : W) w1 m : DeactivateVhost ctx id w = (Ok tt, w1) → integrity m w →
  ∃ row, row ∈ tbl_rows w ∧ row_Id row = id ∧ dark (domain_of row) (tbl_rows w1).
Proof.
  intros E Hi. pose proof (integrity_dir_inv _ _ Hi) as Hd.
  apply update_vhost_ok in E as ((_ & Hn & _) & row & Hr & Hid & Hdom); [|done..]. exists row. split_and!; [done..|].
  assert (Hl : domains w1 !! domain_of row = Some (mkRow id (row_CreatedAt row) (deactivate (row_data row)))).
  { by rewrite Hdom, lookup_insert_eq. }
  apply kview_lookup in Hl as (r' & Hr' & Hd' & Heq); [|done]. simpl in Heq. exists r'. split_and!; [done|done|by rewrite <-Heq].
Qed.

Lemma deactivation_final ctx id (w : W) w1 m0 m w2 : (∀ s, Preserves tables (db_Exec s)) → mode_ok m0 →
  integrity m0 w → DeactivateVhost ctx id w = (Ok tt, w1) → rtc dstep (m0, w1) (m, w2) →
  ∃ row, row ∈ tbl_rows w ∧ row_Id row = id ∧ integrity m w2 ∧ dark (domain_of row) (tbl_rows w2).
Proof.
  intros Hx Hm Hi E Hr. destruct (deactivated_dark _ _ _ _ _ E Hi) as (row & Hrow & Hid & Hd). exists row.
  assert (Hi1 : integrity m0 w1).
  { replace w1 with (snd (DeactivateVhost ctx id w)) by by rewrite E.
    apply (dstep_integrity (m0, w) (m0, _) Hx (ds_deactivate _ _ _ _)). done. }
  assert (Hinv : (mode_ok (m, w2).1 ∧ integrity (m, w2).1 (m, w2).2) ∧ dark (domain_of row) (tbl_rows (m, w2).2)).
  { revert Hr. generalize (m, w2). apply rtc_ind_r; [done|]. intros x y _ Hs [Hxi Hxd].
    split; [by apply (dstep_integrity x)|]. by apply (dstep_dark _ x y Hx (proj1 Hxi)). }
  by destruct Hinv as [[_ ?] ?].
Qed.

Lemma dark_inactive m domain (w : W) row : integrity m w → dark domain (tbl_rows w) →
  domains w !! domain = Some row → vr_Active (row_data row) = false.
Proof.
  intros Hi (r & Hr & Hd & Ha) Hl. destruct (integrity_dir_inv _ _ Hi) as (_ & Hn & _).
  apply kview_lookup in Hl as (r' & Hr' & Hd' & ->); [|done].
  by rewrite (kview_key_inj domain_of _ r' r Hn Hr' Hr) by (unfold domain_of in *; congruence).
Qed.

(** Lookups carry the key. *)
Lemma integrity_key enc ctx domain (w : W) v w' : integrity (Settled enc) w →
  Service_Vhost enc ctx domain w = (Some v, w') → vh_Domain v = domain ∧ ∃ key, vh_DKIMKey v = Some key.
Proof.
  intros Hi. pose proof (integrity_dir_inv _ _ Hi) as Hd. intros (row & w1 & w2 & Hrow & Hf & Hh)%Service_Vhost_inv; [|done].
  unfold domains in Hrow. apply kview_lookup in Hrow as (r & Hr & Hdom & ->); [|apply Hd]. simpl in Hf, Hh.
  destruct Hi as [Hid _ _ _ Hkid Hown Hread]. simpl in *.
  assert (Hin : row_Id r ∈ owner_of <$> tbl_rows (D := dkimKeyRow) w) by (rewrite Hown; by apply list_elem_of_fmap_2).
  apply list_elem_of_fmap in Hin as (d & Ho & Hd'). rewrite Forall_forall in Hread.
  destruct (Hread d Hd') as (Ha & Hne & key & Hp & Hop). simpl in Hop.
  pose proof (preserves_eq (tbl_rows (D := dkimKeyRow)) _ _ _ _ Hf) as Hw1.
  apply (hydrate_key enc ctx r d key) in Hh as ->; [by eauto|by rewrite Hw1|done|done|done| |].
  - intros d' Hd2 Ho2. rewrite Hw1 in Hd2.
    assert (Hn : NoDup (owner_of <$> tbl_rows (D := dkimKeyRow) w)) by by rewrite Hown.
    apply (kview_key_inj owner_of _ _ _ Hn Hd2 Hd'). unfold owner_of at 1. by rewrite Ho2.
  - split; [|done]. unfold decryptPEM. unfold plain in Hop. destruct (Base64.DecodeString _); [|done]. simpl. by rewrite Hop.
Qed.

(** C14: the directory's tables stay well formed.  Whatever accounts, vhosts and
    mailboxes are created, changed or deleted, in whatever order and with
    whatever outcome, through the account backfill and through rotations of the
    master key, finished, failed half way or resumed: every id is unique, a
    domain has one vhost and an address one mailbox, and each vhost has exactly
    one DKIM key, active and opening under the master key in force (while a
    rotation is unfinished, under the old one or, if not, the new one).  So a
    lookup never yields a vhost of another domain or without its key. *)
Theorem directory_integrity m0 (w0 : W) m w : (∀ s, Preserves tables (db_Exec s)) →
  mode_ok m0 → integrity m0 w0 → rtc dstep (m0, w0) (m, w) →
  mode_ok m ∧ integrity m w ∧ dir_inv w ∧
  ∀ enc ctx domain v w', m = Settled enc → Service_Vhost enc ctx domain w = (Some v, w') →
    vh_Domain v = domain ∧ ∃ key, vh_DKIMKey v = Some key.
Proof.
  intros Hx Hm Hi Hr.
  assert (Hinv : mode_ok (m, w).1 ∧ integrity (m, w).1 (m, w).2).
  { revert Hr. generalize (m, w). apply rtc_ind_r; [done|]. intros x y _ Hs. by apply dstep_integrity. }
  destruct Hinv as [Hm' Hi']. split_and!; [done|done|by eapply integrity_dir_inv|].
  intros enc ctx domain v w' -> E. by eapply integrity_key.
Qed.
End Operations.

(** ** A run: the world of [DirExample] is half way through a rotation *)
Module IntegrityExample.
Import DirExample.
#[export] Instance s6 : Separate DirW accountRow mailboxRow.
Proof. by apply ListTable.separate_intro. Qed.
#[export] Instance s7 : Separate DirW accountRow dkimKeyRow.
Proof. by apply ListTable.separate_intro. Qed.
#[export] Instance s8 : Separate DirW mailboxRow vhostRow.
Proof. by apply ListTable.separate_intro. Qed.
#[export] Instance s9 : Separate DirW mailboxRow dkimKeyRow.
Proof. by apply ListTable.separate_intro. Qed.
#[export] Instance s10 : Separate DirW dkimKeyRow mailboxRow.
Proof. by apply ListTable.separate_intro. Qed.
#[export] Instance u2 : UniqueIndex DirW mailboxRow (string * string) address_of.
Proof.
  apply ListTable.unique_index_intro. intros a b [= Hv Hl]. unfold ListTable.conflicts, c3. by rewrite Hv, Hl, !String.eqb_refl.
Qed.

Definition old : Encryptor DirW := cipher "o".
Definition new : Encryptor DirW := cipher "n".
Definition good (e : Encryptor DirW) : Prop := e = old ∨ e = new.

Lemma old_new : old ≠ new.
Proof. intros E. apply (f_equal (λ e : Encryptor DirW, Decrypt e "ox")) in E. by vm_compute in E. Qed.

Lemma quiet : crypto_quiet good.
Proof.
  split.
  - by intros w.
  - by intros p w.
  - by intros enc p [->| ->] w.
  - intros enc [->| ->]; apply _.
  - intros e e' [->| ->] [->| ->] Hne; try done; intros p c w w' [= <- _]; done.
Qed.

Lemma world_integrity : integrity (Rotating old new) world.
Proof.
  split; simpl; try (repeat constructor; set_solver).
Qed.

(** A vhost is created while the rotation is under way; then it finishes. *)
Definition created : DirW := snd (CreateVhost old Background "acc" "c.test" world).
Definition rotated : DirW := snd (RotateDKIMKeys Background old new created).
End IntegrityExample.
Import DirExample IntegrityExample.

Lemma directory_integrity_witness :
  fst (RotateDKIMKeys Background old new created) = (2, None) ∧
  integrity (Settled new) rotated ∧
  vh_DKIMKey <$> fst (Service_Vhost new Background "c.test" rotated) = Some (Some "KEY").
Proof.
  split; [by vm_compute|]. split; [|by vm_compute].
  apply (directory_integrity good quiet (λ _, ret (Ok tt)) (Rotating old new) world (Settled new) rotated).
  - by intros s w.
  - split; [intros e [->| ->]; [by left|by right]|]. intros o n [= <- <-]. apply old_new.
  - apply world_integrity.
  - eapply rtc_l; [apply (ds_vhost _ _ (Rotating old new) old Background "acc" "c.test"); by left|].
    apply rtc_once. eapply (ds_rotate _ _ (Rotating old new) Background old new _ 2 None); [by right|by right|apply old_new|by vm_compute].
Defined.
