(* ===== verification/Acme.v ===== *)
(** * Certificate issuance policy (internal/acme/decision.go)

    The hook certmagic asks before it issues a certificate on demand. *)

From S2P Require Import Prelude Table Directory.

Definition DecisionFunc {W} `{Directory W} (ctx : Ctx) (name : string) : M W (res unit) :=
  let* active := d_VhostActive ctx name in
  ret (if negb active then Err (Errorf "acme: %q is not a registered, active vhost" [name]) else Ok tt).

(** A certificate is allowed exactly for the active vhosts. *)
Lemma decision_exact {W} `{Directory W} ctx name (w : W) r w' :
  DecisionFunc ctx name w = (r, w') → (r = Ok tt ↔ d_VhostActive ctx name w = (true, w')).
Proof.
  unfold DecisionFunc, bind, ret. destruct (d_VhostActive ctx name w) as [[] w1]; intros [= <- <-]; split; by try intros [=].
Qed.
