(* ===== verification/Certificates.v ===== *)
(** * The listeners' certificates (internal/platform/selfsigned.go, cmd/envelope/main.go)

    The TLS configurations the mail roles listen with: an ephemeral self-signed
    certificate, or certmagic issuing on demand.  The random source, x509's
    encoder and certmagic are parameters. *)

From stdpp Require Import base list strings.
From S2P Require Import Prelude Table Directory Acme.

(** ** Data *)

(** [tls.Certificate], a key by its encoding, and what the code sets of a
    [tls.Config]. *)
Record Certificate := mkCertificate { ct_DER : list string; ct_PrivateKey : string }.
Record tls_Config := mkTLS { Certificates : list Certificate; MinVersion : Z }.
Definition VersionTLS12 : Z := 771.

Definition KeyUsageDigitalSignature : Z := Z.shiftl 1 0.
Definition KeyUsageCertSign : Z := Z.shiftl 1 5.
Definition ExtKeyUsageServerAuth : Z := 1.

(** [x509.Certificate] as a template. *)
Record Template := mkTemplate {
  SerialNumber : Z;
  CommonName : string;
  DNSNames : list string;
  NotBefore : Time;
  NotAfter : Time;
  KeyUsage : Z;
  ExtKeyUsage : list Z;
  BasicConstraintsValid : bool;
  IsCA : bool;
}.

(** [ecdsa.GenerateKey] on P-256; [rand.Int], an integer below its argument;
    [x509.CreateCertificate] of a template, its parent, the public key of a
    private one and the signer. *)
Class CertSource (W : Type) := {
  ecdsa_GenerateKey : M W (res string);
  rand_Int : Z → M W (res Z);
  x509_CreateCertificate : Template → Template → string → string → M W (res string);
}.

Class CertMagic (W : Type) := {
  LetsEncryptProductionCA : string;
  LetsEncryptStagingCA : string;
  (* the configuration's TLSConfig: its decision function, and its issuer's
     email, agreement and CA *)
  cm_TLSConfig : (Ctx → string → M W (res unit)) → string → bool → string → tls_Config;
}.

(** ** Operations *)

Section Ops.
Context {W : Type} `{Env W}.

Definition dev_template (serial : Z) (hostnames : list string) (t1 t2 : Time) : Template := {|
  SerialNumber := serial;
  CommonName := "envelope-dev";
  DNSNames := hostnames;
  NotBefore := t1 + - Hour;
  NotAfter := t2 + 24 * Hour;
  KeyUsage := Z.lor KeyUsageDigitalSignature KeyUsageCertSign;
  ExtKeyUsage := [ExtKeyUsageServerAuth];
  BasicConstraintsValid := true;
  IsCA := true;
|}.

Definition SelfSignedTLSConfig `{CertSource W} (hostnames : list string) : M W (res tls_Config) :=
  let? key := wrap (ErrorfW "platform: generate TLS key: %w" []) ecdsa_GenerateKey in
  let? serial := wrap (ErrorfW "platform: generate certificate serial: %w" []) (rand_Int (Z.shiftl 1 128)) in
  let* t1 := now in
  let* t2 := now in
  let tmpl := dev_template serial hostnames t1 t2 in
  let? der := wrap (ErrorfW "platform: create certificate: %w" []) (x509_CreateCertificate tmpl tmpl key key) in
  ret (Ok (mkTLS [mkCertificate [der] key] VersionTLS12)).

(** The CA of [acmeTLSConfig]. *)
Definition acme_CA `{CertMagic W} (getenv : string → string) : string :=
  if negb (String.eqb (getenv "ENVELOPE_ACME_STAGING") "") then LetsEncryptStagingCA (W := W) else LetsEncryptProductionCA (W := W).

Definition acmeTLSConfig `{CertMagic W} (getenv : string → string) (dir : Directory W) (email : string) : tls_Config :=
  cm_TLSConfig (W := W) (DecisionFunc (H := dir)) email true (acme_CA getenv).
End Ops.

(** ** Facts *)

(** The certificate served is the one signed with its own key, for exactly the
    names asked for, valid at any time of its making and for less than two
    days, and TLS 1.2 is the least version. *)
Lemma self_signed_valid {W} `{Env W, CertSource W} hostnames (w : W) cfg w' :
  (∀ w : W, fst (now w) ≤ fst (now (snd (now w))) ≤ fst (now w) + Hour) →
  SelfSignedTLSConfig hostnames w = (Ok cfg, w') →
  MinVersion cfg = VersionTLS12 ∧ ∃ tmpl der key w1, Certificates cfg = [mkCertificate [der] key] ∧
    x509_CreateCertificate tmpl tmpl key key w1 = (Ok der, w') ∧ DNSNames tmpl = hostnames ∧
    NotAfter tmpl - NotBefore tmpl ≤ 26 * Hour ∧
    ∃ t1 t2, t1 ≤ t2 ∧ ∀ t, t1 ≤ t ≤ t2 → NotBefore tmpl < t < NotAfter tmpl.
Proof.
  intros Hclock. unfold SelfSignedTLSConfig, mtry, wrap, bind, ret.
  destruct (ecdsa_GenerateKey w) as [[key|e] w1]; simpl; [|done].
  destruct (rand_Int _ w1) as [[serial|e] w2]; simpl; [|done].
  destruct (now w2) as [t1 w3] eqn:E1. destruct (now w3) as [t2 w4] eqn:E2.
  destruct (x509_CreateCertificate _ _ _ _ w4) as [[der|e] w5] eqn:Ec; simpl; [|done].
  intros [= <- <-]. split; [done|]. exists (dev_template serial hostnames t1 t2), der, key, w4.
  pose proof (Hclock w2) as Ht. rewrite E1 in Ht. simpl in Ht. rewrite E2 in Ht. simpl in Ht. unfold Hour, Minute, Second in *. cbn.
  split_and!; [done..|unfold Hour, Minute, Second; lia|].
  exists t1, t2. split; [lia|]. intros t Hin. unfold Hour, Minute, Second. lia.
Qed.

(** certmagic is given the issuance policy: exactly the active vhosts. *)
Lemma acme_asks_directory {W} `{CertMagic W} getenv (dir : Directory W) email : ∃ hook,
  acmeTLSConfig getenv dir email = cm_TLSConfig hook email true (acme_CA getenv) ∧
  ∀ ctx name w r w', hook ctx name w = (r, w') → (r = Ok tt ↔ d_VhostActive ctx name w = (true, w')).
Proof. eexists. split; [reflexivity|]. intros ctx name w r w'. apply decision_exact. Qed.
