(* ===== verification/Webhook.v ===== *)
(** * Webhook subscriptions, history and queue (internal/webhook)

    The [Store] interface with its in-memory and Postgres implementations, the
    delivery queues as instances of the generic claim queue of [Queue], the
    event envelope and the FR-6.2 signature.  The dispatcher is in
    [Dispatcher]. *)

From S2P Require Import Prelude Float64 Table Queue Kms Paging.

(** ** Data (store.go, delivery.go) *)

Definition ErrNotFound : goerr := Sentinel "webhook.ErrNotFound".

Record Subscription := mkSubscription {
  sub_ID : string;
  sub_Vhost : string;
  sub_URL : string;
  sub_Secret : string;
  sub_EventTypes : list string;
  sub_Disabled : bool;
}.

#[export] Instance Subscription_eq_dec : EqDecision Subscription.
Proof. solve_decision. Defined.

Record DeliveryAttempt := mkAttempt {
  at_ID : string;
  at_Vhost : string;
  at_SubscriptionID : string;
  at_EventID : string;
  at_Attempt : Z;
  at_StatusCode : Z;
  at_Error : string;
  at_AttemptedAt : Time;
  at_Payload : string;
  at_EventType : string;
}.

Record DeliveryJob := mkDeliveryJob {
  dj_ID : string;
  dj_Vhost : string;
  dj_SubscriptionID : string;
  dj_URL : string;
  dj_Secret : string;
  dj_EventID : string;
  dj_EventType : string;
  dj_Payload : string;
  dj_Attempts : Z;
  dj_NextAttemptAt : Time;
  dj_LastError : string;
  dj_CorrelationID : string;
}.

#[export] Instance DeliveryJob_eq_dec : EqDecision DeliveryJob.
Proof. solve_decision. Defined.

Class Store (W : Type) := {
  st_CreateSubscription : Ctx → Subscription → M W (res unit);
  st_ListSubscriptions : Ctx → string → M W (res (list Subscription));
  st_ListSubscriptionsPage : Ctx → string → string → Z → M W (res (list Subscription));
  st_DisableSubscription : Ctx → string → string → M W (res unit);
  st_RecordAttempt : Ctx → DeliveryAttempt → M W (res unit);
  st_ListAttempts : Ctx → string → string → M W (res (list DeliveryAttempt));
  st_ListAttemptsPage : Ctx → string → string → string → Z → M W (res (list DeliveryAttempt));
}.

(** ** Signatures (signer.go)

    crypto/hmac over SHA-256 is outside the repository. *)
Class HMAC := hmac_sha256 : string → string → string.  (* key, message *)

Definition hex_digit (n : N) : ascii :=
  default "0"%char (String.get (N.to_nat n) "0123456789abcdef").

(** [hex.EncodeToString]. *)
Fixpoint hex_EncodeToString (s : string) : string :=
  match s with
  | EmptyString => ""
  | String c s =>
      let n := Ascii.N_of_ascii c in
      String (hex_digit (n / 16)%N) (String (hex_digit (n mod 16)%N) (hex_EncodeToString s))
  end.

Definition Sign `{HMAC} (secret body : string) : string :=
  "sha256=" +:+ hex_EncodeToString (hmac_sha256 secret body).

Definition Verify `{HMAC} (secret body sig : string) : bool :=
  let expected := Sign secret body in String.eqb expected sig.

(** ** Events (event.go)

    [json.Marshal] of the event data and of the envelope are arguments. *)
Definition EventMessageReceived : string := "message.received".
Definition EventMessageQueued : string := "message.queued".
Definition EventMessageDelivered : string := "message.delivered".
Definition EventMessageBounced : string := "message.bounced".
Definition EventMessageDeferred : string := "message.deferred".
Definition EventMessageComplained : string := "message.complained".

Record envelope := mkEnvelope {
  ev_ID : string;
  ev_Type : string;
  ev_Vhost : string;
  ev_CreatedAt : Time;
  ev_Data : string;
}.

(** The values the code puts into event data. *)
Inductive jval := JString (s : string) | JStrings (l : list string) | JInt (n : Z) | JTime (t : Time)
  | JBool (b : bool) | JBools (l : list (string * bool)).

Class JSON := {
  json_data : list (string * jval) → res string;
  json_envelope : envelope → res string;
}.

(** [Enqueuer]. *)
Class Enqueuer (W : Type) := wh_Enqueue : Ctx → string → string → string → M W (res unit).

(** The event data the code passes is a JSON object. *)
Definition NewEventPayload {W} `{Env W, JSON} (eventID eventType vhost : string)
  (data : list (string * jval)) : M W (res string) :=
  match json_data data with
  | Err e => ret (Err (ErrorfW "webhook: marshal event data: %w" [] e))
  | Ok raw =>
      let* t := now in
      ret (map_err (ErrorfW "webhook: marshal event envelope: %w" [])
             (json_envelope (mkEnvelope eventID eventType vhost t raw)))
  end.

(** ** Event type lists (postgres.go) *)

Definition encodeEventTypes (types : list string) : string := Join types ",".

Definition decodeEventTypes (s : string) : list string :=
  if String.eqb s "" then [] else SplitByte s ","%char.

Definition pageLimit (limit : Z) : Z :=
  if limit <=? 0 then 100 else if 500 <? limit then 500 else limit.

(** ** The in-memory store (memory.go) *)

Record MemoryStore := mkMemoryStore {
  subscriptions : gmap string Subscription;
  attempts : gmap string (list DeliveryAttempt);  (* by subscription ID *)
}.

Definition NewMemoryStore : MemoryStore := mkMemoryStore ∅ ∅.

(** The rows from the first that passes [p]. *)
Fixpoint from_first {A} (p : A → bool) (l : list A) : list A :=
  match l with
  | [] => []
  | a :: l' => if p a then l else from_first p l'
  end.

Section MemoryStoreOps.
Context {W : Type} `{Env W, !Has W MemoryStore}.
(** The iteration order of the subscriptions map. *)
Context (order : gmap string Subscription → list (string * Subscription)).

Definition mst_CreateSubscription (ctx : Ctx) (sub : Subscription) : M W (res unit) :=
  guard_ctx ctx (
    if String.eqb (sub_ID sub) "" then ret (Err (ErrNew "webhook: subscription ID is required"))
    else lift (λ m, (Ok tt, mkMemoryStore (<[sub_ID sub := sub]> (subscriptions m)) (attempts m)))).

Definition mst_ListSubscriptions (ctx : Ctx) (vhost : string) : M W (res (list Subscription)) :=
  guard_ctx ctx (lift (λ m,
    let out := filter (λ s, sub_Vhost s = vhost) ((order (subscriptions m)).*2) in
    (Ok (sort_by (order_by sub_ID) out), m))).

(** [all[start:end]] with [end] at most a page after [start]. *)
Definition window {A} (limit : Z) (rest : list A) : list A := take (Z.to_nat (pageLimit limit)) rest.

Definition mst_ListSubscriptionsPage (ctx : Ctx) (vhost cursor : string) (limit : Z)
  : M W (res (list Subscription)) :=
  let? all := mst_ListSubscriptions ctx vhost in
  ret (Ok (window limit
    (if String.eqb cursor "" then all else from_first (λ s, str_ltb cursor (sub_ID s)) all))).

Definition mst_DisableSubscription (ctx : Ctx) (vhost id : string) : M W (res unit) :=
  guard_ctx ctx (lift (λ m,
    match subscriptions m !! id with
    | Some sub =>
        if String.eqb (sub_Vhost sub) vhost then
          let sub := mkSubscription (sub_ID sub) (sub_Vhost sub) (sub_URL sub) (sub_Secret sub)
                       (sub_EventTypes sub) true in
          (Ok tt, mkMemoryStore (<[id := sub]> (subscriptions m)) (attempts m))
        else (Err (ErrorfW "webhook: subscription %q: %w" [id] ErrNotFound), m)
    | None => (Err (ErrorfW "webhook: subscription %q: %w" [id] ErrNotFound), m)
    end)).

Definition with_ids (id vhost : string) (a : DeliveryAttempt) : DeliveryAttempt :=
  mkAttempt id vhost (at_SubscriptionID a) (at_EventID a) (at_Attempt a) (at_StatusCode a)
    (at_Error a) (at_AttemptedAt a) (at_Payload a) (at_EventType a).

Definition mst_RecordAttempt (ctx : Ctx) (attempt : DeliveryAttempt) : M W (res unit) :=
  guard_ctx ctx (
    let sid := at_SubscriptionID attempt in
    if String.eqb sid "" then ret (Err (ErrNew "webhook: attempt subscription ID is required"))
    else
      let* id := uuid_NewString in
      lift (λ m,
        let vhost := match subscriptions m !! sid with
                     | Some sub => sub_Vhost sub
                     | None => at_Vhost attempt
                     end in
        (Ok tt, mkMemoryStore (subscriptions m)
           (<[sid := default [] (attempts m !! sid) ++ [with_ids id vhost attempt]]> (attempts m))))).

Definition mst_ListAttempts (ctx : Ctx) (vhost subscriptionID : string)
  : M W (res (list DeliveryAttempt)) :=
  guard_ctx ctx (lift (λ m,
    match subscriptions m !! subscriptionID with
    | Some sub =>
        if String.eqb (sub_Vhost sub) vhost
        then (Ok (default [] (attempts m !! subscriptionID)), m) else (Ok [], m)
    | None => (Ok [], m)
    end)).

Definition mst_ListAttemptsPage (ctx : Ctx) (vhost subscriptionID cursor : string) (limit : Z)
  : M W (res (list DeliveryAttempt)) :=
  let? all := mst_ListAttempts ctx vhost subscriptionID in
  ret (Ok (window limit
    (if String.eqb cursor "" then all
     else drop 1 (from_first (λ a, String.eqb (at_ID a) cursor) all)))).

Definition MemoryStore_Store : Store W := {|
  st_CreateSubscription := mst_CreateSubscription;
  st_ListSubscriptions := mst_ListSubscriptions;
  st_ListSubscriptionsPage := mst_ListSubscriptionsPage;
  st_DisableSubscription := mst_DisableSubscription;
  st_RecordAttempt := mst_RecordAttempt;
  st_ListAttempts := mst_ListAttempts;
  st_ListAttemptsPage := mst_ListAttemptsPage;
|}.
End MemoryStoreOps.

(** ** The Postgres store (postgres.go) *)

Record subscriptionRow := mkSubscriptionRow {
  sr_Vhost : string;
  sr_URL : string;
  sr_Secret : string;
  sr_EventTypes : string;
  sr_Disabled : bool;
}.

Record deliveryAttemptRow := mkAttemptRow {
  dr_Vhost : string;
  dr_SubscriptionID : string;
  dr_EventID : string;
  dr_Attempt : Z;
  dr_StatusCode : Z;
  dr_Error : string;
  dr_AttemptedAt : Time;
  dr_Payload : string;
  dr_EventType : string;
}.

Definition deliveryAttemptFromRow (r : Row deliveryAttemptRow) : DeliveryAttempt :=
  let d := row_data r in
  mkAttempt (row_Id r) (dr_Vhost d) (dr_SubscriptionID d) (dr_EventID d) (dr_Attempt d)
    (dr_StatusCode d) (dr_Error d) (dr_AttemptedAt d) (dr_Payload d) (dr_EventType d).

(** [ORDER BY attempted_at ASC, id ASC]. *)
Definition oldest_first (a b : Row deliveryAttemptRow) : bool :=
  let ta := dr_AttemptedAt (row_data a) in
  let tb := dr_AttemptedAt (row_data b) in
  (ta <? tb) || ((ta =? tb) && str_leb (row_Id a) (row_Id b)).

Section PostgresStoreOps.
Context {W : Type} `{Db W, Table W subscriptionRow, Table W deliveryAttemptRow}.
Context (enc : Encryptor W).

Definition encryptSecret (secret : string) : M W (res string) :=
  let? ciphertext := Encrypt enc secret in
  ret (Ok (Base64.EncodeToString ciphertext)).

Definition decryptSecret (stored : string) : res string :=
  match Base64.DecodeString stored with
  | Err e => Err (ErrorfW "decode stored ciphertext: %w" [] e)
  | Ok ciphertext => Decrypt enc ciphertext
  end.

Definition subscriptionFromRow (r : Row subscriptionRow) : res Subscription :=
  let d := row_data r in
  match decryptSecret (sr_Secret d) with
  | Err e => Err e
  | Ok secret =>
      Ok (mkSubscription (row_Id r) (sr_Vhost d) (sr_URL d) secret
            (decodeEventTypes (sr_EventTypes d)) (sr_Disabled d))
  end.

(** The conversion loop of both list methods. *)
Fixpoint subscriptionsFromRows (rows : list (Row subscriptionRow)) : res (list Subscription) :=
  match rows with
  | [] => Ok []
  | r :: rows =>
      match subscriptionFromRow r with
      | Err e => Err (ErrorfW "webhook: decrypt secret for subscription %q: %w" [row_Id r] e)
      | Ok sub =>
          match subscriptionsFromRows rows with
          | Err e => Err e
          | Ok l => Ok (sub :: l)
          end
      end
  end.

Definition pst_CreateSubscription (ctx : Ctx) (sub : Subscription) : M W (res unit) :=
  if String.eqb (sub_ID sub) "" then ret (Err (ErrNew "webhook: subscription ID is required"))
  else
    let? encryptedSecret := wrap (ErrorfW "webhook: encrypt secret for subscription %q: %w" [sub_ID sub])
                              (encryptSecret (sub_Secret sub)) in
    let? _ := wrap (ErrorfW "webhook: create subscription %q: %w" [sub_ID sub])
      (tbl_Create ctx (mkRow (sub_ID sub) None
         (mkSubscriptionRow (sub_Vhost sub) (sub_URL sub) encryptedSecret
            (encodeEventTypes (sub_EventTypes sub)) (sub_Disabled sub)))) in
    ret (Ok tt).

Definition vhost_is (vhost : string) (r : Row subscriptionRow) : bool :=
  String.eqb (sr_Vhost (row_data r)) vhost.

Definition pst_ListSubscriptions (ctx : Ctx) (vhost : string) : M W (res (list Subscription)) :=
  let? rows := wrap (ErrorfW "webhook: list subscriptions for vhost %q: %w" [vhost])
                 (tbl_Find ctx (mkQuery (vhost_is vhost) (order_by row_Id) None)) in
  ret (subscriptionsFromRows rows).

Definition pst_ListSubscriptionsPage (ctx : Ctx) (vhost cursor : string) (limit : Z)
  : M W (res (list Subscription)) :=
  let? rows := wrap (ErrorfW "webhook: list subscriptions for vhost %q: %w" [vhost])
                 (list_page (vhost_is vhost) ctx cursor (pageLimit limit)) in
  ret (subscriptionsFromRows rows).

Definition set_Secret (s : string) (d : subscriptionRow) : subscriptionRow :=
  mkSubscriptionRow (sr_Vhost d) (sr_URL d) s (sr_EventTypes d) (sr_Disabled d).

Definition secret_text : RotateText := mkRotateText
  "webhook: list subscriptions for rotation: %w"
  "webhook: decode stored ciphertext for subscription %q: %w"
  "webhook: decrypt secret for subscription %q under old key: %w"
  "webhook: re-encrypt secret for subscription %q under new key: %w"
  "webhook: write rotated secret for subscription %q: %w".

Definition RotateSecrets (ctx : Ctx) (oldEnc newEnc : Encryptor W) : M W (Z * option goerr) :=
  rotate sr_Secret set_Secret secret_text oldEnc newEnc ctx.

Definition disable (d : subscriptionRow) : subscriptionRow :=
  mkSubscriptionRow (sr_Vhost d) (sr_URL d) (sr_Secret d) (sr_EventTypes d) true.

Definition pst_DisableSubscription (ctx : Ctx) (vhost id : string) : M W (res unit) :=
  let? n := wrap (ErrorfW "webhook: disable subscription %q: %w" [id])
              (tbl_Updates ctx (λ r, vhost_is vhost r && by_id id r) disable) in
  if n =? 0 then ret (Err (ErrorfW "webhook: subscription %q: %w" [id] ErrNotFound))
  else ret (Ok tt).

Definition pst_RecordAttempt (ctx : Ctx) (a : DeliveryAttempt) : M W (res unit) :=
  let sid := at_SubscriptionID a in
  if String.eqb sid "" then ret (Err (ErrNew "webhook: attempt subscription ID is required"))
  else
    let? sub := wrap (ErrorfW "webhook: record attempt for subscription %q: resolve vhost: %w" [sid])
                  (tbl_First ctx (by_id (D := subscriptionRow) sid) (order_by row_Id)) in
    let? _ := wrap (ErrorfW "webhook: record attempt for subscription %q: %w" [sid])
      (tbl_Create ctx (mkRow "" None
         (mkAttemptRow (sr_Vhost (row_data sub)) sid (at_EventID a) (at_Attempt a) (at_StatusCode a)
            (at_Error a) (at_AttemptedAt a) (at_Payload a) (at_EventType a)))) in
    ret (Ok tt).

Definition attempt_of (vhost subscriptionID : string) (r : Row deliveryAttemptRow) : bool :=
  String.eqb (dr_Vhost (row_data r)) vhost
  && String.eqb (dr_SubscriptionID (row_data r)) subscriptionID.

Definition pst_ListAttempts (ctx : Ctx) (vhost subscriptionID : string)
  : M W (res (list DeliveryAttempt)) :=
  let? rows := wrap (ErrorfW "webhook: list attempts for subscription %q: %w" [subscriptionID])
                 (tbl_Find ctx (mkQuery (attempt_of vhost subscriptionID) oldest_first None)) in
  ret (Ok (deliveryAttemptFromRow <$> rows)).

(** The page query; [after] is the cursor's row. *)
Definition attempts_page (ctx : Ctx) (vhost subscriptionID : string) (limit : Z)
  (after : option (Row deliveryAttemptRow)) : M W (res (list DeliveryAttempt)) :=
  let? rows := wrap (ErrorfW "webhook: list attempts for subscription %q: %w" [subscriptionID])
    (tbl_Find ctx (mkQuery
       (λ r, attempt_of vhost subscriptionID r
             && match after with Some a => negb (oldest_first r a) | None => true end)
       oldest_first (Some (Z.to_nat (pageLimit limit))))) in
  ret (Ok (deliveryAttemptFromRow <$> rows)).

Definition pst_ListAttemptsPage (ctx : Ctx) (vhost subscriptionID cursor : string) (limit : Z)
  : M W (res (list DeliveryAttempt)) :=
  if String.eqb cursor "" then attempts_page ctx vhost subscriptionID limit None
  else
    let* r := tbl_First ctx (by_id (D := deliveryAttemptRow) cursor) (order_by row_Id) in
    match r with
    | Ok after => attempts_page ctx vhost subscriptionID limit (Some after)
    | Err e =>
        if errors_Is "gorm.ErrRecordNotFound" e then ret (Ok [])
        else ret (Err (ErrorfW "webhook: resolve attempts cursor %q: %w" [cursor] e))
    end.

Definition PostgresStore : Store W := {|
  st_CreateSubscription := pst_CreateSubscription;
  st_ListSubscriptions := pst_ListSubscriptions;
  st_ListSubscriptionsPage := pst_ListSubscriptionsPage;
  st_DisableSubscription := pst_DisableSubscription;
  st_RecordAttempt := pst_RecordAttempt;
  st_ListAttempts := pst_ListAttempts;
  st_ListAttemptsPage := pst_ListAttemptsPage;
|}.
End PostgresStoreOps.

(** ** The delivery queues (memory_queue.go, postgres_queue.go) *)

Definition DeliveryJob_retry (e : option string) (t : Time) (j : DeliveryJob) : DeliveryJob :=
  mkDeliveryJob (dj_ID j) (dj_Vhost j) (dj_SubscriptionID j) (dj_URL j) (dj_Secret j) (dj_EventID j)
    (dj_EventType j) (dj_Payload j) (dj_Attempts j + 1) t (default (dj_LastError j) e)
    (dj_CorrelationID j).

#[export] Program Instance DeliveryJob_QJob : QJob DeliveryJob := {
  j_ID := dj_ID; j_Next := dj_NextAttemptAt; j_Attempts := dj_Attempts; j_retry := DeliveryJob_retry;
}.
Solve Obligations with done.

#[export] Instance DeliveryJob_QText : QText DeliveryJob := {
  txt_ID_required := "webhook: delivery job ID is required";
  txt_not_found := "webhook: delivery job %q not found";
  txt_enqueue := "webhook: enqueue delivery %q: %w";
  txt_dequeue := "webhook: dequeue delivery: %w";
  txt_count := "";
  txt_complete := "webhook: complete delivery %q: %w";
  txt_fail := "webhook: fail delivery %q: %w";
}.

Record deliveryJobRow := mkDeliveryJobRow {
  jr_Vhost : string;
  jr_SubscriptionID : string;
  jr_URL : string;
  jr_Secret : string;
  jr_EventID : string;
  jr_EventType : string;
  jr_Payload : string;
  jr_Attempts : Z;
  jr_NextAttemptAt : Time;
  jr_LastError : string;
  jr_Claimed : bool;
  jr_CorrelationID : string;
}.

Definition deliveryJobRow_of (j : DeliveryJob) : deliveryJobRow :=
  mkDeliveryJobRow (dj_Vhost j) (dj_SubscriptionID j) (dj_URL j) (dj_Secret j) (dj_EventID j)
    (dj_EventType j) (dj_Payload j) (dj_Attempts j) (dj_NextAttemptAt j) (dj_LastError j) false
    (dj_CorrelationID j).

Definition deliveryJobFromRow (r : Row deliveryJobRow) : DeliveryJob :=
  let d := row_data r in
  mkDeliveryJob (row_Id r) (jr_Vhost d) (jr_SubscriptionID d) (jr_URL d) (jr_Secret d) (jr_EventID d)
    (jr_EventType d) (jr_Payload d) (jr_Attempts d) (jr_NextAttemptAt d) (jr_LastError d)
    (jr_CorrelationID d).

Definition deliveryJobRow_claim (b : bool) (d : deliveryJobRow) : deliveryJobRow :=
  mkDeliveryJobRow (jr_Vhost d) (jr_SubscriptionID d) (jr_URL d) (jr_Secret d) (jr_EventID d)
    (jr_EventType d) (jr_Payload d) (jr_Attempts d) (jr_NextAttemptAt d) (jr_LastError d) b
    (jr_CorrelationID d).

Definition deliveryJobRow_fail (cause : option string) (nextAttemptAt : Time) (d : deliveryJobRow)
  : deliveryJobRow :=
  mkDeliveryJobRow (jr_Vhost d) (jr_SubscriptionID d) (jr_URL d) (jr_Secret d) (jr_EventID d)
    (jr_EventType d) (jr_Payload d) (jr_Attempts d + 1) nextAttemptAt
    (default (jr_LastError d) cause) false (jr_CorrelationID d).

#[export] Program Instance DeliveryJob_QRow : QRow DeliveryJob deliveryJobRow := {
  r_make := deliveryJobRow_of; r_job := deliveryJobFromRow; r_Claimed := jr_Claimed;
  r_Next := jr_NextAttemptAt; r_claim := deliveryJobRow_claim; r_fail := deliveryJobRow_fail;
}.
Next Obligation. done. Qed.
Next Obligation. done. Qed.
Next Obligation. by intros []. Qed.
Next Obligation. done. Qed.
Next Obligation. done. Qed.
Next Obligation. done. Qed.
Next Obligation. done. Qed.
Next Obligation. done. Qed.

Definition MemoryEventQueue {W} `{ErrorText, Env W, !Has W (MemoryBackend DeliveryJob)}
  (order : gmap string DeliveryJob → list (string * DeliveryJob)) : QueueBackend W DeliveryJob :=
  MemoryQueue order.

Definition PostgresEventQueue {W} `{ErrorText, Env W, Db W, Table W deliveryJobRow}
  : QueueBackend W DeliveryJob := PostgresQueue.

(** Operation by operation, as in the source. *)
Section QueueOps.
Context `{ErrorText}.

Definition meq_Enqueue := mem_Enqueue (J := DeliveryJob).
Definition meq_Dequeue := mem_Dequeue (J := DeliveryJob).
Definition meq_Complete := mem_Complete (J := DeliveryJob).
Definition meq_Fail := mem_Fail (J := DeliveryJob).
Definition meq_Empty := mem_Empty (J := DeliveryJob).

Context {W : Type} `{Env W, Db W, Table W deliveryJobRow}.
Definition peq_Enqueue := pg_Enqueue (W := W) (J := DeliveryJob).
Definition peq_Dequeue := pg_Dequeue (W := W) (J := DeliveryJob).
Definition peq_Complete := pg_Complete (W := W) (J := DeliveryJob).
Definition peq_Fail := pg_Fail (W := W) (J := DeliveryJob).
End QueueOps.

(** ** Facts *)

(** Event type lists the comma-joined column can hold. *)
Definition storable_types (types : list string) : Prop :=
  Forall (λ t, str_in "," t = false) types ∧ types ≠ [""].

Lemma decode_encode_types types :
  storable_types types → decodeEventTypes (encodeEventTypes types) = types.
Proof.
  unfold decodeEventTypes, encodeEventTypes. intros [Hf Hne].
  destruct types as [|t ts]; [done|].
  rewrite SplitByte_Join by done.
  destruct (String.eqb_spec (Join (t :: ts) ",") "") as [He|]; [|done].
  destruct ts as [|u ts]; simpl in He; [by subst t|]. by destruct t.
Qed.

(** A stored [""] comes back as the empty list, which matches every event. *)
Lemma empty_type_widens : decodeEventTypes (encodeEventTypes [""]) = [].
Proof. done. Qed.

Section StoreFacts.
Context {W : Type} `{Db W, !Table W subscriptionRow, !TableSpec W subscriptionRow}.
Context (enc : Encryptor W).

Lemma subscriptionsFromRows_ok rows l :
  subscriptionsFromRows enc rows = Ok l →
  Forall2 (λ r s, subscriptionFromRow enc r = Ok s) rows l.
Proof.
  revert l. induction rows as [|r rows IH]; simpl; intros l; [intros [= <-]; constructor|].
  destruct (subscriptionFromRow enc r) eqn:E; [|done].
  destruct (subscriptionsFromRows enc rows); [|done]. intros [= <-]. constructor; auto.
Qed.

Lemma pst_ListSubscriptions_ok ctx vhost (w : W) l w' :
  pst_ListSubscriptions enc ctx vhost w = (Ok l, w') →
  ∀ s, s ∈ l ↔ ∃ r, r ∈ tbl_rows w ∧ sr_Vhost (row_data r) = vhost ∧ subscriptionFromRow enc r = Ok s.
Proof.
  unfold pst_ListSubscriptions, mtry, wrap, ret.
  destruct (tbl_Find _ _ w) as [[rows|e] w1] eqn:Ef; [|done]. simpl.
  destruct (subscriptionsFromRows enc rows) as [l'|e] eqn:Es; [|done]. intros [= <- _] s.
  apply subscriptionsFromRows_ok in Es.
  apply Find_ok in Ef as (l & Hp & _ & ->); [|apply order_by_total]. simpl in *.
  assert (Hmem : ∀ r, r ∈ l ↔ r ∈ tbl_rows w ∧ sr_Vhost (row_data r) = vhost).
  { intros r. rewrite Hp, list_elem_of_filter. unfold vhost_is. rewrite String.eqb_eq. tauto. }
  split.
  - intros Hs. apply list_elem_of_lookup in Hs as [i Hi].
    destruct (Forall2_lookup_r _ _ _ _ _ Es Hi) as (r & Hr & Hx).
    exists r. apply list_elem_of_lookup_2, Hmem in Hr as [? ?]. done.
  - intros (r & Hr & Hv & Hx). assert (Hin : r ∈ l) by (by apply Hmem).
    apply list_elem_of_lookup in Hin as [i Hi].
    destruct (Forall2_lookup_l _ _ _ _ _ Es Hi) as (s' & Hs' & Hx').
    rewrite Hx in Hx'. injection Hx' as <-. by eapply list_elem_of_lookup_2.
Qed.

Context `{!EncryptorSpec enc}.

Lemma encryptSecret_ok p s w w' :
  encryptSecret enc p w = (Ok s, w') → decryptSecret enc s = Ok p.
Proof.
  unfold encryptSecret, mtry, ret. destruct (Encrypt enc p w) as [[c|e] w1] eqn:E; [|done].
  intros [= <- _]. unfold decryptSecret. rewrite Base64.decode_encode.
  by rewrite (Decrypt_Encrypt p c w w1).
Qed.

Lemma pst_CreateSubscription_ok ctx sub (w : W) w' :
  (∀ p, Preserves tbl_rows (Encrypt enc p)) →
  storable_types (sub_EventTypes sub) →
  pst_CreateSubscription enc ctx sub w = (Ok tt, w') →
  ∃ r, tbl_rows w' ≡ₚ r :: tbl_rows w ∧ row_Id r ∉ row_Id <$> tbl_rows w ∧
       sr_Vhost (row_data r) = sub_Vhost sub ∧ subscriptionFromRow enc r = Ok sub.
Proof.
  intros He Ht. unfold pst_CreateSubscription, mtry, wrap, ret.
  destruct (String.eqb_spec (sub_ID sub) "") as [|Hid]; [done|].
  destruct (encryptSecret enc (sub_Secret sub) w) as [[s|e] w1] eqn:Es; [|done]. simpl.
  assert (Hw1 : tbl_rows w1 = tbl_rows w).
  { revert Es. unfold encryptSecret, mtry, ret.
    destruct (Encrypt enc _ w) as [[c|e] w3] eqn:E; [|done]. intros [= _ <-].
    by apply (preserves_eq _ _ _ _ _ E). }
  apply encryptSecret_ok in Es.
  destruct (tbl_Create _ _ w1) as [[r|e] w2] eqn:Ec; [|done]. intros [= <-].
  apply Create_ok in Ec as (Hnew & Hd & _ & Hi & Hp). rewrite Hw1 in *.
  exists r. split_and!; [done|done|by rewrite Hd|].
  unfold subscriptionFromRow. rewrite Hd. simpl. rewrite Es, (Hi Hid).
  rewrite decode_encode_types by done. by destruct sub.
Qed.
End StoreFacts.

(** A world for the witnesses. *)
Module WebhookExample.
#[export] Instance no_conflicts : ListTable.Conflicts subscriptionRow := λ _ _, false.
Definition DB : Type := list (Row subscriptionRow).
Definition cipher : Encryptor DB :=
  mkEncryptor (λ p, ret (Ok (String "k" p)))
    (λ c, match c with String "k" p => Ok p | _ => Err (ErrNew "wrong key") end).
#[export] Instance cipher_spec : EncryptorSpec cipher.
Proof. intros p c w w' [= <- _]. done. Qed.
Definition sub (id v : string) (types : list string) : Subscription :=
  mkSubscription id v "https://x" "s3cret" types false.
Definition db : DB := snd (pst_CreateSubscription cipher Background (sub "s1" "a.test" ["message.received"; "message.bounced"]) []).
End WebhookExample.
Import WebhookExample.

(** ** Properties *)

(** C16: subscriptions survive storage exactly and stay in their vhost.  After
    CreateSubscription, ListSubscriptions of a vhost yields exactly the
    subscription as given (signing secret through encryption and base64, event
    types through the comma-joined column) when it is the vhost's, and what it
    yielded before; event types must be comma-free and not the list [[""]]. *)
Theorem subscription_round_trip {W : Type} `{Db W, !Table W subscriptionRow, !TableSpec W subscriptionRow}
    (enc : Encryptor W) `{!EncryptorSpec enc} ctx ctx' sub vhost (w : W) w' l w'' :
  (∀ p, Preserves tbl_rows (Encrypt enc p)) →
  storable_types (sub_EventTypes sub) →
  pst_CreateSubscription enc ctx sub w = (Ok tt, w') →
  pst_ListSubscriptions enc ctx' vhost w' = (Ok l, w'') →
  ∀ s, s ∈ l ↔ (s = sub ∧ sub_Vhost sub = vhost) ∨
    ∃ r, r ∈ tbl_rows w ∧ sr_Vhost (row_data r) = vhost ∧ subscriptionFromRow enc r = Ok s.
Proof.
  intros He Ht Ec El s. apply pst_CreateSubscription_ok in Ec as (r0 & Hp & _ & Hv & Hs); [|done..].
  rewrite (pst_ListSubscriptions_ok enc _ _ _ _ _ El). setoid_rewrite Hp.
  setoid_rewrite elem_of_cons. split.
  - intros (r & [->|Hr] & Hrv & Hx); [|eauto 10].
    rewrite Hs in Hx. injection Hx as <-. left. by rewrite <-Hv.
  - intros [[-> <-]|(r & Hr & Hrv & Hx)]; [|eauto 10].
    exists r0. eauto.
Qed.

Lemma subscription_round_trip_witness :
  let new := sub "s2" "b.test" [] in
  let r := pst_CreateSubscription cipher Background new db in
  fst (pst_ListSubscriptions cipher Background "b.test" (snd r)) = Ok [new] ∧
  new ∈ [new] ∧
  fst (pst_ListSubscriptions cipher Background "a.test" (snd r))
  = Ok [sub "s1" "a.test" ["message.received"; "message.bounced"]].
Proof.
  intros new r. split; [by vm_compute|]. split; [|by vm_compute].
  eapply (subscription_round_trip cipher Background Background new "b.test" db (snd r)).
  - by intros p w.
  - split; [constructor|done].
  - by vm_compute.
  - by vm_compute.
  - by left.
Defined.
