(* ===== verification/Dispatcher.v ===== *)
(** * The webhook dispatcher (internal/webhook/dispatcher.go)

    Fan-out of an event into one durable job per matching subscription, the
    delivery of one claimed job with its retry policy, the manual redrive and
    the polling loop.  The store and the queue are the interfaces of [Webhook]
    and [Queue]; net/http is the class [HTTP]. *)

From S2P Require Import Prelude Float64 Table Logging Queue Webhook.

Record Request := mkRequest {
  rq_Method : string;
  rq_URL : string;
  rq_Header : list (string * string);
  rq_Body : string;
}.

(** net/http: whether a URL can be requested at all, and the response status
    of a request sent. *)
Class HTTP (W : Type) := {
  http_URL_error : string → option goerr;
  http_Do : Ctx → Request → M W (res Z);
}.

Definition DefaultBackoffBase : Duration := 30 * Second.
Definition DefaultBackoffMax : Duration := 30 * Minute.
Definition DefaultMaxAttempts : Z := 8.

(** The settings of a [Dispatcher]. *)
Record Dispatcher := mkDispatcher {
  BackoffBase : Duration;
  BackoffMax : Duration;
  MaxAttempts : Z;
}.

Definition NewDispatcher : Dispatcher :=
  mkDispatcher DefaultBackoffBase DefaultBackoffMax DefaultMaxAttempts.

Definition matchesEventType (sub : Subscription) (eventType : string) : bool :=
  match sub_EventTypes sub with
  | [] => true
  | ts => existsb (λ t, String.eqb t eventType) ts
  end.

(** The subscriptions an event goes to. *)
Definition wants (eventType : string) (sub : Subscription) : bool :=
  negb (sub_Disabled sub || negb (matchesEventType sub eventType)).

Section Ops.
Context {W : Type} `{Env W, Store W, QueueBackend W DeliveryJob, HTTP W, Rand W, HMAC, ErrorText}.
Context (d : Dispatcher).

Definition job_for (id vhost : string) (sub : Subscription) (eventID eventType payload : string)
  (t : Time) (correlationID : string) : DeliveryJob :=
  mkDeliveryJob id vhost (sub_ID sub) (sub_URL sub) (sub_Secret sub) eventID eventType payload 0 t
    "" correlationID.

(** The loop of [Enqueue]. *)
Fixpoint enqueue_subs (ctx : Ctx) (vhost eventType payload eventID : string) (t : Time)
  (subs : list Subscription) : M W (res unit) :=
  match subs with
  | [] => ret (Ok tt)
  | sub :: subs =>
      if sub_Disabled sub || negb (matchesEventType sub eventType)
      then enqueue_subs ctx vhost eventType payload eventID t subs
      else
        let* id := uuid_NewString in
        let? _ := wrap (ErrorfW "webhook: enqueue %s for subscription %q: %w" [eventType; sub_ID sub])
          (q_Enqueue ctx (job_for id vhost sub eventID eventType payload t (ctx_CorrelationID ctx))) in
        enqueue_subs ctx vhost eventType payload eventID t subs
  end.

Definition Enqueue (ctx : Ctx) (vhost eventType payload : string) : M W (res unit) :=
  let? subs := wrap (ErrorfW "webhook: enqueue %s for vhost %q: %w" [eventType; vhost])
                 (st_ListSubscriptions ctx vhost) in
  let* eventID := uuid_NewString in
  let* t := now in
  enqueue_subs ctx vhost eventType payload eventID t subs.

(** The last attempt for an event, oldest first in [attempts]. *)
Definition last_attempt (eventID : string) (attempts : list DeliveryAttempt) : option DeliveryAttempt :=
  foldl (λ last a, if String.eqb (at_EventID a) eventID then Some a else last) None attempts.

Definition Redrive (ctx : Ctx) (vhost subscriptionID eventID : string) : M W (res unit) :=
  let? subs := wrap (ErrorfW "webhook: redrive: list subscriptions: %w" [])
                 (st_ListSubscriptions ctx vhost) in
  match List.find (λ s, String.eqb (sub_ID s) subscriptionID) subs with
  | None => ret (Err (ErrorfW "webhook: redrive: subscription %q: %w" [subscriptionID] ErrNotFound))
  | Some sub =>
      if sub_Disabled sub
      then ret (Err (Errorf "webhook: redrive: subscription %q is disabled" [subscriptionID]))
      else
        let? atts := wrap (ErrorfW "webhook: redrive: list attempts: %w" [])
                       (st_ListAttempts ctx vhost subscriptionID) in
        match last_attempt eventID atts with
        | None =>
            ret (Err (ErrorfW "webhook: redrive: event %q was never attempted against subscription %q: %w"
                        [eventID; subscriptionID] ErrNotFound))
        | Some last =>
            let* id := uuid_NewString in
            let* t := now in
            wrap (ErrorfW "webhook: redrive: enqueue: %w" [])
              (q_Enqueue ctx (job_for id vhost sub eventID (at_EventType last) (at_Payload last) t
                                (ctx_CorrelationID ctx)))
        end
  end.

(** [send]: the status code and the error. *)
Definition send (ctx : Ctx) (job : DeliveryJob) : M W (Z * option goerr) :=
  match http_URL_error (dj_URL job) with
  | Some e => ret (0, Some (ErrorfW "webhook: build request: %w" [] e))
  | None =>
      let* resp := http_Do ctx (mkRequest "POST" (dj_URL job)
        [("Content-Type", "application/json");
         ("X-Envelope-Signature", Sign (dj_Secret job) (dj_Payload job));
         ("X-Envelope-Event", dj_EventType job)] (dj_Payload job)) in
      ret (match resp with
           | Err e => (0, Some (ErrorfW "webhook: request failed: %w" [] e))
           | Ok status =>
               if (status <? 200) || (300 <=? status)
               then (status, Some (Errorf "webhook: endpoint returned status %d" []))
               else (status, None)
           end)
  end.

Definition nextBackoff (attempt : Z) : M W (res Duration) :=
  FullJitter attempt (BackoffBase d) (BackoffMax d).

(** [deliverOne]; [Err] is the panic of the backoff. *)
Definition deliverOne (ctx : Ctx) (job : DeliveryJob) : M W (res unit) :=
  let ctx := WithCorrelationID ctx (dj_CorrelationID job) in
  let* r := send ctx job in
  let '(statusCode, sendErr) := r in
  let* t := now in
  let attempt := mkAttempt "" (dj_Vhost job) (dj_SubscriptionID job) (dj_EventID job)
    (dj_Attempts job + 1) statusCode (match sendErr with Some e => Error e | None => "" end) t
    (dj_Payload job) (dj_EventType job) in
  Inc_if (bool_decide (is_Some sendErr)) WebhookDeliveryFailuresTotal;;
  st_RecordAttempt ctx attempt;;
  match sendErr with
  | None => q_Complete (J := DeliveryJob) ctx (dj_ID job);; ret (Ok tt)
  | Some e =>
      if MaxAttempts d <=? dj_Attempts job + 1
      then q_Complete (J := DeliveryJob) ctx (dj_ID job);; ret (Ok tt)
      else
        let* t := now in
        let? delay := nextBackoff (dj_Attempts job) in
        q_Fail (J := DeliveryJob) ctx (dj_ID job) (Some e) (t + delay);; ret (Ok tt)
  end.

(** One turn of [Run] with an uncancelled context: claim a due job and deliver
    it (in the source, on its own goroutine); [false] when none was claimed
    and the loop sleeps. *)
Definition poll (ctx : Ctx) : M W (res bool) :=
  let* r := q_Dequeue ctx in
  match r with
  | Ok (Some job) => let? _ := deliverOne ctx job in ret (Ok true)
  | Ok None | Err _ => ret (Ok false)
  end.

(** [Run] for at most [n] turns; it stops when the context is cancelled. *)
Fixpoint Run (n : nat) (ctx : Ctx) : M W (res unit) :=
  match n with
  | O => ret (Ok tt)
  | S n => match ctx_Err ctx with
           | Some _ => ret (Ok tt)
           | None => let? _ := poll ctx in Run n ctx
           end
  end.
End Ops.

(** ** Facts *)

Section Facts.
Context {W : Type} {HE : Env W} {HSt : Store W} {HQ : QueueBackend W DeliveryJob} {HH : HTTP W}
  {HR : Rand W} {HM : HMAC} {HT : ErrorText}.
Context (q_inv : W → Prop) (q_view : W → QView DeliveryJob).
Context {QS : QueueSpec W DeliveryJob q_inv q_view}.

(** A program with no effect on the queue. *)
Definition quiet {A} (m : M W A) : Prop := Prelude.quiet q_inv q_view m.

(** What surrounds the queue leaves it alone, and fresh UUIDs are fresh. *)
Record quiet_world : Prop := {
  quiet_now : quiet now;
  quiet_inc : ∀ c, quiet (Inc c);
  quiet_uuid : quiet uuid_NewString;
  quiet_subs : ∀ ctx v, quiet (st_ListSubscriptions ctx v);
  quiet_atts : ∀ ctx v s, quiet (st_ListAttempts ctx v s);
  quiet_record : ∀ ctx a, quiet (st_RecordAttempt ctx a);
  quiet_http : ∀ ctx r, quiet (http_Do ctx r);
  quiet_rand : ∀ n, quiet (Int63n n);
  uuid_fresh : ∀ w id w', q_inv w → uuid_NewString w = (id, w') → q_view w !! id = None;
}.
Context (QW : quiet_world).

(** The jobs made for the targets. *)
Definition jobs_of (ctx : Ctx) (vhost et payload eid : string) (t : Time) :
  list Subscription → list DeliveryJob → Prop :=
  Forall2 (λ s j, j = job_for (dj_ID j) vhost s eid et payload t (ctx_CorrelationID ctx)).

Lemma enqueue_subs_spec ctx vhost et payload eid t subs (w : W) r w' :
  q_inv w → enqueue_subs ctx vhost et payload eid t subs w = (r, w') →
  q_inv w' ∧ ∃ targets rest jobs,
    filter (λ s, wants et s = true) subs = targets ++ rest ∧ (r = Ok tt → rest = []) ∧
    jobs_of ctx vhost et payload eid t targets jobs ∧ new_ids (q_view w) jobs ∧
    q_view w' = add_jobs (q_view w) jobs.
Proof.
  revert w. induction subs as [|sub subs IH]; intros w Hi; simpl.
  { unfold ret. intros [= <- <-]. split; [done|]. exists [], [], [].
    split_and!; try done; repeat constructor. }
  destruct (sub_Disabled sub || negb (matchesEventType sub et)) eqn:Hw.
  { intros Hr. rewrite filter_cons_False; [by apply IH|]. unfold wants. by rewrite Hw. }
  rewrite filter_cons_True by (unfold wants; by rewrite Hw).
  unfold bind. destruct (uuid_NewString w) as [id w1] eqn:Eu.
  destruct (quiet_uuid QW _ _ _ Eu) as [Hi1 Hv1]. specialize (Hi1 Hi).
  pose proof (uuid_fresh QW _ _ _ Hi Eu) as Hfr.
  unfold mtry, wrap. set (j := job_for id vhost sub eid et payload t (ctx_CorrelationID ctx)).
  destruct (q_Enqueue ctx j w1) as [[[]|e] w2] eqn:Ee; simpl.
  - pose proof (Enqueue_inv _ _ _ _ _ Hi1 Ee) as Hi2.
    apply Enqueue_ok in Ee as [_ Hv2]; [|done|by rewrite Hv1]. rewrite Hv1 in Hv2.
    intros Hr. apply IH in Hr as (Hi' & ts & rest & jobs & Hf & Hok & Hj & Hn & Hv'); [|done].
    split; [done|]. rewrite Hv2 in Hn, Hv'. exists (sub :: ts), rest, (j :: jobs).
    split_and!; [by rewrite Hf|done|by constructor| |done]. by apply new_ids_cons.
  - intros [= <- <-]. pose proof (Enqueue_inv _ _ _ _ _ Hi1 Ee) as Hi2.
    apply Enqueue_err in Ee; [|done]. split; [done|].
    eexists [], _, []. split_and!; [done|done|constructor|by repeat constructor|]. by rewrite Ee, Hv1.
Qed.

Lemma Enqueue_spec ctx vhost et payload (w : W) r w' :
  q_inv w → Enqueue ctx vhost et payload w = (r, w') →
  q_inv w' ∧
  ((∃ e, r = Err e ∧ q_view w' = q_view w) ∨
   ∃ subs eid t targets rest jobs,
    fst (st_ListSubscriptions ctx vhost w) = Ok subs ∧
    filter (λ s, wants et s = true) subs = targets ++ rest ∧ (r = Ok tt → rest = []) ∧
    jobs_of ctx vhost et payload eid t targets jobs ∧ new_ids (q_view w) jobs ∧
    q_view w' = add_jobs (q_view w) jobs).
Proof.
  intros Hi. unfold Enqueue, mtry, wrap, bind.
  destruct (st_ListSubscriptions ctx vhost w) as [[subs|e] w1] eqn:El; simpl.
  all: destruct (quiet_subs QW _ _ _ _ _ El) as [Hi1 Hv1].
  2:{ intros [= <- <-]. split; [auto|]. left. eauto. }
  destruct (uuid_NewString w1) as [eid w2] eqn:Eu.
  destruct (quiet_uuid QW _ _ _ Eu) as [Hi2 Hv2].
  destruct (now w2) as [t w3] eqn:En. destruct (quiet_now QW _ _ _ En) as [Hi3 Hv3].
  intros Hr. apply enqueue_subs_spec in Hr as (Hi' & ts & rest & jobs & Hf & Hok & Hj & Hn & Hv'); [|auto].
  split; [done|]. right. exists subs, eid, t, ts, rest, jobs.
  rewrite <-Hv1, <-Hv2, <-Hv3. by split_and!.
Qed.

Lemma Redrive_spec ctx vhost sid eid (w : W) r w' :
  q_inv w → Redrive ctx vhost sid eid w = (r, w') →
  q_inv w' ∧
  ((∃ e, r = Err e ∧ q_view w' = q_view w) ∨
   r = Ok tt ∧ ∃ subs atts sub last id t w1,
     fst (st_ListSubscriptions ctx vhost w) = Ok subs ∧ fst (st_ListAttempts ctx vhost sid w1) = Ok atts ∧
     sub ∈ subs ∧ sub_ID sub = sid ∧ sub_Disabled sub = false ∧ last_attempt eid atts = Some last ∧
     q_view w !! id = None ∧
     let j := job_for id vhost sub eid (at_EventType last) (at_Payload last) t (ctx_CorrelationID ctx) in
     q_view w' = <[id := (j, false)]> (q_view w)).
Proof.
  intros Hi. unfold Redrive, mtry, wrap, bind, ret.
  destruct (st_ListSubscriptions ctx vhost w) as [[subs|e] w1] eqn:El; simpl.
  all: destruct (quiet_subs QW _ _ _ _ _ El) as [Hi1 Hv1]; specialize (Hi1 Hi).
  2:{ intros [= <- <-]. split; [done|]. left. eauto. }
  destruct (List.find _ subs) as [sub|] eqn:Ef.
  2:{ intros [= <- <-]. split; [done|]. left. eauto. }
  apply find_some in Ef as [Hsub Hid%String.eqb_eq]. apply list_elem_of_In in Hsub.
  destruct (sub_Disabled sub) eqn:Hd.
  { intros [= <- <-]. split; [done|]. left. eauto. }
  destruct (st_ListAttempts ctx vhost sid w1) as [[atts|e] w2] eqn:Ea; simpl.
  all: destruct (quiet_atts QW _ _ _ _ _ _ Ea) as [Hi2 Hv2]; specialize (Hi2 Hi1).
  2:{ intros [= <- <-]. split; [done|]. left. eexists. split; [done|]. by rewrite Hv2. }
  destruct (last_attempt eid atts) as [last|] eqn:Hl.
  2:{ intros [= <- <-]. split; [done|]. left. eexists. split; [done|]. by rewrite Hv2. }
  destruct (uuid_NewString w2) as [id w3] eqn:Eu.
  destruct (quiet_uuid QW _ _ _ Eu) as [Hi3 Hv3]. specialize (Hi3 Hi2).
  pose proof (uuid_fresh QW _ _ _ Hi2 Eu) as Hfr.
  destruct (now w3) as [t w4] eqn:En. destruct (quiet_now QW _ _ _ En) as [Hi4 Hv4]. specialize (Hi4 Hi3).
  set (j := job_for id vhost sub eid (at_EventType last) (at_Payload last) t (ctx_CorrelationID ctx)).
  destruct (q_Enqueue ctx j w4) as [[[]|e] w5] eqn:Ee; simpl; intros [= <- <-].
  all: pose proof (Enqueue_inv _ _ _ _ _ Hi4 Ee) as Hi5; split; [done|].
  - right. split; [done|].
    apply Enqueue_ok in Ee as [_ Hv5]; [|done|by rewrite Hv4, Hv3].
    exists subs, atts, sub, last, id, t, w1. rewrite Ea. rewrite Hv4, Hv3, Hv2, Hv1 in Hv5.
    rewrite Hv2, Hv1 in Hfr. by split_and!.
  - left. eexists. split; [done|]. apply Enqueue_err in Ee; [|done].
    by rewrite Ee, Hv4, Hv3, Hv2, Hv1.
Qed.

Lemma send_quiet ctx job : quiet (send ctx job).
Proof.
  unfold send. intros w a w'. destruct (http_URL_error (dj_URL job)).
  - by intros [= _ <-].
  - unfold bind, ret. destruct (http_Do _ _ w) as [x w1] eqn:E. intros [= _ <-].
    by apply (quiet_http QW) in E.
Qed.

Lemma FullJitter_quiet n b m : quiet (FullJitter n b m).
Proof.
  intros w a w'. unfold FullJitter, ret, bind.
  repeat case_match; intros; simplify_eq; first [by split | by eapply (quiet_rand QW)].
Qed.

Context {RS : RandSpec W}.

(** Settings FullJitter accepts (see [Queue.FullJitter]). *)
Definition config_ok (d : Dispatcher) : Prop :=
  1 ≤ BackoffBase d < 2 ^ 53 ∧ 1 ≤ BackoffMax d < 2 ^ 53 ∧ 1 ≤ MaxAttempts d.

(** The new state of a delivered job in the queue. *)
Definition job_outcome (d : Dispatcher) (job : DeliveryJob) (err : option goerr)
  (v v' : QView DeliveryJob) : Prop :=
  match err with
  | None => v' = delete (dj_ID job) v
  | Some e =>
      if MaxAttempts d <=? dj_Attempts job + 1 then v' = delete (dj_ID job) v
      else ∃ j b t delay, v !! dj_ID job = Some (j, b) ∧
        0 ≤ delay < Z.min (BackoffMax d) (BackoffBase d * 2 ^ Z.max 0 (dj_Attempts job)) ∧
        v' = <[dj_ID job := (DeliveryJob_retry (Some (Error e)) (t + delay) j, false)]> v
  end.

(** The request of an attempt, and what its four outcomes are: the status to
    record, the error to report and the world after it. *)
Definition webhook_request (job : DeliveryJob) : Request := mkRequest "POST" (dj_URL job)
  [("Content-Type", "application/json"); ("X-Envelope-Signature", Sign (dj_Secret job) (dj_Payload job));
   ("X-Envelope-Event", dj_EventType job)] (dj_Payload job).

Inductive answered (ctx : Ctx) (job : DeliveryJob) (w : W) : Z → option goerr → W → Prop :=
| answered_bad_url e : http_URL_error (dj_URL job) = Some e →
    answered ctx job w 0 (Some (ErrorfW "webhook: build request: %w" [] e)) w
| answered_failed e w' : http_URL_error (dj_URL job) = None → http_Do ctx (webhook_request job) w = (Err e, w') →
    answered ctx job w 0 (Some (ErrorfW "webhook: request failed: %w" [] e)) w'
| answered_refused status w' : http_URL_error (dj_URL job) = None → http_Do ctx (webhook_request job) w = (Ok status, w') →
    ¬ (200 ≤ status < 300) → answered ctx job w status (Some (Errorf "webhook: endpoint returned status %d" [])) w'
| answered_accepted status w' : http_URL_error (dj_URL job) = None → http_Do ctx (webhook_request job) w = (Ok status, w') →
    200 ≤ status < 300 → answered ctx job w status None w'.

Lemma send_answered ctx job (w : W) status err w' : send ctx job w = ((status, err), w') → answered ctx job w status err w'.
Proof.
  unfold send, bind, ret. destruct (http_URL_error (dj_URL job)) as [e|] eqn:Eu; [intros [= <- <- <-]; by constructor|].
  destruct (http_Do _ _ w) as [[st|e] w1] eqn:Eh; [|intros [= <- <- <-]; by constructor].
  destruct (Z.ltb_spec st 200), (Z.leb_spec 300 st); simpl; intros [= <- <- <-]; constructor; try done; lia.
Qed.

(** The attempt is logged, under a reading of the clock, before its job is
    closed. *)
Definition logged (ctx : Ctx) (job : DeliveryJob) (status : Z) (err : option goerr) (w w' : W) : Prop :=
  ∃ t w1, now w = (t, w1) ∧
    w' = snd (st_RecordAttempt ctx (mkAttempt "" (dj_Vhost job) (dj_SubscriptionID job) (dj_EventID job) (dj_Attempts job + 1)
                status (match err with Some e => Error e | None => "" end) t (dj_Payload job) (dj_EventType job))
              (snd (Inc_if (bool_decide (is_Some err)) WebhookDeliveryFailuresTotal w1))).

(** What an attempt decides about its job: the closing operation, and the world
    it is performed in.  A retry is due the drawn backoff after the clock as it
    is read for it. *)
Inductive delivery_decision (d : Dispatcher) (job : DeliveryJob) (w : W) : option goerr → closing → W → Prop :=
| decide_delivered : delivery_decision d job w None (Removed (dj_ID job)) w
| decide_dead e : MaxAttempts d ≤ dj_Attempts job + 1 → delivery_decision d job w (Some e) (Removed (dj_ID job)) w
| decide_again e t w1 delay w2 : dj_Attempts job + 1 < MaxAttempts d → now w = (t, w1) →
    FullJitter (dj_Attempts job) (BackoffBase d) (BackoffMax d) w1 = (Ok delay, w2) →
    0 ≤ delay < Z.min (BackoffMax d) (BackoffBase d * 2 ^ Z.max 0 (dj_Attempts job)) →
    delivery_decision d job w (Some e) (Rescheduled (dj_ID job) e (t + delay)) w2.

Lemma delivery_decision_outcome d ctx job err c (w0 w1 w w' : W) : delivery_decision d job w0 err c w1 →
  closes q_inv q_view ctx c w w' → q_view w' = q_view w ∨ job_outcome d job err (q_view w) (q_view w').
Proof.
  intros Hd [?|Hc]%closes_cases; [by left|right]. unfold job_outcome. destruct Hd as [|e He|e t w3 delay w4 He _ _ Hr]; [done|..].
  - by rewrite (proj2 (Z.leb_le _ _) He).
  - rewrite (proj2 (Z.leb_gt _ _) He). destruct Hc as (j & b & ? & ?). by exists j, b, t, delay.
Qed.

(** One closing operation, the one the attempt decides, where it decides it. *)
Lemma deliverOne_closes d ctx job (w : W) r w' :
  config_ok d → q_inv w → deliverOne d ctx job w = (r, w') →
  let ctx' := WithCorrelationID ctx (dj_CorrelationID job) in
  r = Ok tt ∧ q_inv w' ∧ ∃ status w1 w2 c w3 x, let err := snd (fst (send ctx' job w)) in
    answered ctx' job w status err w1 ∧ logged ctx' job status err w1 w2 ∧ delivery_decision d job w2 err c w3 ∧
    close_job ctx' c w3 = (x, w') ∧ closes q_inv q_view ctx' c w w'.
Proof.
  intros (Hb & Hm & _) Hi. unfold deliverOne, bind, mtry, ret. cbv zeta.
  set (ctx' := WithCorrelationID ctx (dj_CorrelationID job)).
  destruct (send ctx' job w) as [[code err] w1] eqn:Es. pose proof (send_answered _ _ _ _ _ _ Es) as Hans.
  destruct (send_quiet _ _ _ _ _ Es) as [Hi1 Hv1]. specialize (Hi1 Hi).
  destruct (now w1) as [t w2] eqn:En. destruct (quiet_now QW _ _ _ En) as [Hi2 Hv2]. specialize (Hi2 Hi1).
  destruct (Inc_if _ _ w2) as [[] w2'] eqn:Em.
  destruct (Inc_if_quiet _ _ _ _ (quiet_inc QW _) _ _ _ Em) as [Hi2' Hv2']. specialize (Hi2' Hi2).
  destruct (st_RecordAttempt _ _ w2') as [x w3] eqn:Er.
  destruct (quiet_record QW _ _ _ _ _ Er) as [Hi3 Hv3]. specialize (Hi3 Hi2').
  assert (Hv : q_view w3 = q_view w) by (by rewrite Hv3, Hv2', Hv2, Hv1).
  assert (Hlog : logged ctx' job code err w1 w3) by (exists t, w2; split; [done|rewrite Em; simpl; by rewrite Er]).
  simpl. assert (Hend : ∀ c w4 y w5, q_inv w4 → q_view w4 = q_view w → delivery_decision d job w3 err c w4 →
      close_job ctx' c w4 = (y, w5) → q_inv w5 ∧ ∃ status w1 w2 c w3 x, answered ctx' job w status err w1 ∧
        logged ctx' job status err w1 w2 ∧ delivery_decision d job w2 err c w3 ∧
        close_job ctx' c w3 = (x, w5) ∧ closes q_inv q_view ctx' c w w5).
  { intros c w4 y w5 Hi4 Hv4 Hd Ec. destruct (closes_intro q_inv q_view ctx' c w w4 y w5 w5) as [Hi5 Hcl]; [done..|].
    split; [done|]. by exists code, w1, w3, c, w4, y. }
  assert (Hremove : delivery_decision d job w3 err (Removed (dj_ID job)) w3 → ∀ r w',
    (let '(_, w') := q_Complete (J := DeliveryJob) ctx' (dj_ID job) w3 in (Ok tt, w')) = (r, w') →
    r = Ok tt ∧ q_inv w' ∧ ∃ status w1 w2 c w3 x, answered ctx' job w status err w1 ∧
        logged ctx' job status err w1 w2 ∧ delivery_decision d job w2 err c w3 ∧
        close_job ctx' c w3 = (x, w') ∧ closes q_inv q_view ctx' c w w').
  { intros Hd r0 w0. destruct (q_Complete _ _ w3) as [y w4] eqn:Ec. intros [= <- <-]. split; [done|].
    by eapply (Hend (Removed (dj_ID job))). }
  destruct err as [e|]; [|apply Hremove; constructor].
  destruct (Z.leb_spec (MaxAttempts d) (dj_Attempts job + 1)) as [Hx|Hx]; [apply Hremove; by constructor|].
  destruct (now w3) as [t2 w4] eqn:En2. destruct (quiet_now QW _ _ _ En2) as [Hi4 Hv4]. specialize (Hi4 Hi3).
  unfold nextBackoff.
  destruct (FullJitter_spec (dj_Attempts job) (BackoffBase d) (BackoffMax d) w4 Hb Hm)
    as (delay & w5 & Ej & Hdelay).
  destruct (FullJitter_quiet _ _ _ _ _ _ Ej) as [Hi5 Hv5]. specialize (Hi5 Hi4). rewrite Ej.
  destruct (q_Fail _ _ _ _ w5) as [f w6] eqn:Ef. intros [= <- <-]. split; [done|].
  eapply (Hend (Rescheduled (dj_ID job) e (t2 + delay)) w5); [done|congruence| |done]. by econstructor.
Qed.

Lemma deliverOne_spec d ctx job (w : W) r w' :
  config_ok d → q_inv w → deliverOne d ctx job w = (r, w') →
  r = Ok tt ∧ q_inv w' ∧
  (q_view w' = q_view w ∨
   job_outcome d job (snd (fst (send (WithCorrelationID ctx (dj_CorrelationID job)) job w)))
     (q_view w) (q_view w')).
Proof.
  intros Hc Hi (? & ? & st & w1 & w2 & c & w3 & x & _ & _ & Hd & _ & Hcl)%deliverOne_closes; [|done..]. split_and!; [done..|].
  by eapply delivery_decision_outcome.
Qed.

(** ** The dispatchers as a transition system

    The goroutines of all processes that have claimed a job and not yet delivered
    it, and, for every job ID, how many deliveries were started for it so far. *)
Record dispatching := mkDispatching {
  ds_world : W;
  ds_held : list DeliveryJob;
  ds_started : gmap string Z;
}.

Definition started (m : gmap string Z) (id : string) : Z := default 0 (m !! id).
Definition start_one (job : DeliveryJob) (m : gmap string Z) : gmap string Z := <[dj_ID job := started m (dj_ID job) + 1]> m.

(** A UUID is never drawn twice: new jobs have IDs nothing was started for. *)
Definition unused_ids (m : gmap string Z) (w w' : W) : Prop :=
  ∀ id, q_view w !! id = None → is_Some (q_view w' !! id) → m !! id = None.

(** A claimed job is delivered once, by the goroutine that got it.  The process
    can die before the delivery, or in it: then nothing more happens to the queue. *)
Inductive dstep (d : Dispatcher) : dispatching → dispatching → Prop :=
| step_Enqueue ctx vhost et payload w held m : unused_ids m w (snd (Enqueue ctx vhost et payload w)) →
    dstep d (mkDispatching w held m) (mkDispatching (snd (Enqueue ctx vhost et payload w)) held m)
| step_Redrive ctx vhost sid eid w held m : unused_ids m w (snd (Redrive ctx vhost sid eid w)) →
    dstep d (mkDispatching w held m) (mkDispatching (snd (Redrive ctx vhost sid eid w)) held m)
| step_claim ctx w job w' held m : q_Dequeue ctx w = (Ok (Some job), w') →
    dstep d (mkDispatching w held m) (mkDispatching w' (job :: held) m)
| step_idle ctx w held m : (∀ job, fst (q_Dequeue (J := DeliveryJob) ctx w) ≠ Ok (Some job)) →
    dstep d (mkDispatching w held m) (mkDispatching (snd (q_Dequeue (J := DeliveryJob) ctx w)) held m)
| step_deliver ctx job w l1 l2 m :
    dstep d (mkDispatching w (l1 ++ job :: l2) m) (mkDispatching (snd (deliverOne d ctx job w)) (l1 ++ l2) (start_one job m))
| step_die w job l1 l2 m : dstep d (mkDispatching w (l1 ++ job :: l2) m) (mkDispatching w (l1 ++ l2) m)
| step_die_delivering w w' job l1 l2 m : (q_inv w → q_inv w') → q_view w' = q_view w →
    dstep d (mkDispatching w (l1 ++ job :: l2) m) (mkDispatching w' (l1 ++ l2) (start_one job m)).

(** The stored counter is the number of deliveries, up to the one that was
    started for a claimed job nobody holds any more. *)
Record attempts_counted (n : Z) (s : dispatching) : Prop := {
  ac_inv : q_inv (ds_world s);
  ac_held : NoDup (dj_ID <$> ds_held s);
  ac_claimed : ∀ j, j ∈ ds_held s → q_view (ds_world s) !! dj_ID j = Some (j, true);
  ac_below : ∀ id j c, q_view (ds_world s) !! id = Some (j, c) → dj_Attempts j < n;
  ac_free : ∀ id j c, q_view (ds_world s) !! id = Some (j, c) → c = false ∨ id ∈ dj_ID <$> ds_held s →
    started (ds_started s) id ≤ dj_Attempts j;
  ac_total : ∀ id, started (ds_started s) id ≤ n;
}.

Lemma started_one job m id : started (start_one job m) id = if decide (id = dj_ID job) then started m id + 1 else started m id.
Proof. unfold start_one. unfold started at 1. rewrite lookup_insert. unfold started. case_decide; case_decide; subst; done. Qed.

(** New jobs have not been tried. *)
Lemma counted_new n w w' held m : 0 < n → attempts_counted n (mkDispatching w held m) → q_inv w' → unused_ids m w w' →
  (∀ id, is_Some (q_view w !! id) → q_view w' !! id = q_view w !! id) →
  (∀ id j c, q_view w !! id = None → q_view w' !! id = Some (j, c) → dj_Attempts j = 0) →
  attempts_counted n (mkDispatching w' held m).
Proof.
  intros Hn [H1 H2 H3 H4 H5 H6] Hi Hu Hold Hnew. simpl in *. split; simpl; try done.
  - intros j Hj. specialize (H3 j Hj). rewrite Hold; [done|by eexists].
  - intros id j c Hl. destruct (q_view w !! id) as [[j0 c0]|] eqn:E; [rewrite Hold in Hl by (by rewrite E); by eapply H4|].
    rewrite (Hnew _ _ _ E Hl). lia.
  - intros id j c Hl Hor. destruct (q_view w !! id) as [[j0 c0]|] eqn:E; [rewrite Hold in Hl by (by rewrite E); by eapply H5|].
    rewrite (Hnew _ _ _ E Hl). unfold started. rewrite (Hu id E); [done|by rewrite Hl].
Qed.

(** A goroutine's job is gone from its hands. *)
Lemma held_drop (l1 l2 : list DeliveryJob) job : NoDup (dj_ID <$> (l1 ++ job :: l2)) →
  NoDup (dj_ID <$> (l1 ++ l2)) ∧ ∀ x, x ∈ l1 ++ l2 → dj_ID x ≠ dj_ID job.
Proof.
  rewrite <-Permutation_middle, fmap_cons, NoDup_cons. intros [Hn Hd]. split; [done|].
  intros x Hx He. apply Hn. rewrite <-He. by apply list_elem_of_fmap_2.
Qed.

Lemma counted_closed n w w' l1 job l2 m m' : attempts_counted n (mkDispatching w (l1 ++ job :: l2) m) → q_inv w' →
  (∀ id, started m' id = if decide (id = dj_ID job) then started m' id else started m id) →
  (∀ id, id ≠ dj_ID job → q_view w' !! id = q_view w !! id) → started m' (dj_ID job) ≤ dj_Attempts job + 1 →
  (∀ j c, q_view w' !! dj_ID job = Some (j, c) → dj_Attempts j < n ∧ (c = false → started m' (dj_ID job) ≤ dj_Attempts j)) →
  attempts_counted n (mkDispatching w' (l1 ++ l2) m').
Proof.
  intros [H1 H2 H3 H4 H5 H6] Hi Hm Hother Hstart Hjob. simpl in *. apply held_drop in H2 as [H2 Hne].
  assert (Hin : ∀ x, x ∈ l1 ++ l2 → x ∈ l1 ++ job :: l2) by (intros x; rewrite <-Permutation_middle; by right).
  assert (Hj : q_view w !! dj_ID job = Some (job, true)) by (apply H3; rewrite <-Permutation_middle; by left).
  split; simpl; try done.
  - intros j Hx. rewrite Hother by by apply Hne. by apply H3, Hin.
  - intros id j c Hl. destruct (decide (id = dj_ID job)) as [->|Hid]; [by eapply Hjob|]. rewrite Hother in Hl by done. by eapply H4.
  - intros id j c Hl Hor. destruct (decide (id = dj_ID job)) as [->|Hid].
    + destruct Hor as [->|(x & Hx1 & Hx2)%list_elem_of_fmap]; [by eapply Hjob|]. by destruct (Hne x Hx2).
    + rewrite Hother in Hl by done. specialize (Hm id). rewrite decide_False in Hm by done. rewrite Hm.
      eapply H5; [done|]. destruct Hor as [|Hx]; [by left|right]. apply list_elem_of_fmap in Hx as (x & -> & Hx).
      by apply list_elem_of_fmap_2, Hin.
  - intros id. specialize (Hm id). case_decide as Hid; [subst id|by rewrite Hm]. specialize (H4 _ _ _ Hj). lia.
Qed.

Lemma counted_deliver d ctx job w l1 l2 m : config_ok d → attempts_counted (MaxAttempts d) (mkDispatching w (l1 ++ job :: l2) m) →
  attempts_counted (MaxAttempts d) (mkDispatching (snd (deliverOne d ctx job w)) (l1 ++ l2) (start_one job m)).
Proof.
  intros Hc Ha. pose proof Ha as [H1 H2 H3 H4 H5 H6]. simpl in *.
  assert (Hheld : job ∈ l1 ++ job :: l2) by (rewrite <-Permutation_middle; by left).
  pose proof (H3 _ Hheld) as Hj. pose proof (H5 _ _ _ Hj (or_intror (list_elem_of_fmap_2 dj_ID _ _ Hheld))) as Hst.
  destruct (deliverOne d ctx job w) as [r w1] eqn:E. simpl.
  apply deliverOne_spec in E as (_ & Hi1 & Hv); [|done..].
  assert (Hone : started (start_one job m) (dj_ID job) = started m (dj_ID job) + 1) by (rewrite started_one; by rewrite decide_True).
  eapply counted_closed; [exact Ha|done| | |rewrite Hone; lia|].
  - intros id. rewrite started_one. by case_decide.
  - intros id Hid. destruct Hv as [->|Hv]; [done|]. unfold job_outcome in Hv. repeat case_match; subst;
      try (rewrite Hv; by rewrite lookup_delete_ne). destruct Hv as (j & b & t & delay & _ & _ & ->). by rewrite lookup_insert_ne.
  - intros j c Hl. destruct Hv as [Hv|Hv].
    + rewrite Hv, Hj in Hl. injection Hl as <- <-. split; [by eapply H4|done].
    + unfold job_outcome in Hv. destruct (snd _) as [e|]; [|rewrite Hv, lookup_delete_eq in Hl; done].
      destruct (Z.leb_spec (MaxAttempts d) (dj_Attempts job + 1)); [rewrite Hv, lookup_delete_eq in Hl; done|].
      destruct Hv as (j0 & b & t & delay & Hj0 & _ & Hv). rewrite Hj in Hj0. injection Hj0 as <- _.
      rewrite Hv, lookup_insert_eq in Hl. injection Hl as <- <-. simpl. rewrite Hone. split; [lia|]. intros _. lia.
Qed.

(** A job lost with its process stays claimed. *)
Lemma counted_lost n w w' job l1 l2 m m' : attempts_counted n (mkDispatching w (l1 ++ job :: l2) m) →
  (q_inv w → q_inv w') → q_view w' = q_view w → m' = m ∨ m' = start_one job m →
  attempts_counted n (mkDispatching w' (l1 ++ l2) m').
Proof.
  intros Ha Hi Hv Hm. pose proof Ha as [H1 H2 H3 H4 H5 H6]. simpl in *.
  assert (Hheld : job ∈ l1 ++ job :: l2) by (rewrite <-Permutation_middle; by left).
  pose proof (H3 _ Hheld) as Hj. pose proof (H5 _ _ _ Hj (or_intror (list_elem_of_fmap_2 dj_ID _ _ Hheld))) as Hst.
  eapply counted_closed; [exact Ha|by apply Hi| | | |].
  - intros id. destruct Hm as [->| ->]; [by case_decide|]. rewrite started_one. by case_decide.
  - by rewrite Hv.
  - destruct Hm as [->| ->]; [lia|]. rewrite started_one, decide_True by done. lia.
  - rewrite Hv, Hj. intros j c [= <- <-]. split; [by eapply H4|done].
Qed.

Lemma dstep_counted d s s' : config_ok d → dstep d s s' → attempts_counted (MaxAttempts d) s → attempts_counted (MaxAttempts d) s'.
Proof.
  intros Hc Hs Ha. pose proof Hc as (_ & _ & Hmax). pose proof (ac_inv _ _ Ha) as Hi.
  destruct Hs as [ctx v et p w held m Hu|ctx v sid e w held m Hu|ctx w job w' held m E|ctx w held m Hne|ctx job w l1 l2 m|w job l1 l2 m|w w' job l1 l2 m Hi' Hv]; simpl in *.
  - destruct (Enqueue ctx v et p w) as [r w1] eqn:E. simpl in *.
    apply Enqueue_spec in E as [Hi1 Hv]; [|done].
    destruct Hv as [(e & _ & Hv)|(subs & eid & t & ts & rest & jobs & _ & _ & _ & Hj & Hn & Hv)].
    { apply (counted_new _ w); try done; [lia|by intros id _; rewrite Hv|intros id j c; rewrite Hv; congruence]. }
    pose proof Hn as [_ Hn2]. rewrite Forall_forall in Hn2.
    apply (counted_new _ w); try done; [lia|..]; intros id; rewrite Hv, (add_jobs_lookup (J := DeliveryJob)) by done.
    + intros [x Hx]. destruct (List.find _ jobs) as [j|] eqn:Ef; [|done]. apply find_some in Ef as [Hin%list_elem_of_In <-%String.eqb_eq].
      specialize (Hn2 j Hin). change (j_ID j) with (dj_ID j) in *; congruence.
    + intros j c Hnone. destruct (List.find _ jobs) as [j'|] eqn:Ef; [|congruence]. intros [= <- _].
      apply find_some in Ef as [Hin%list_elem_of_In _]. apply list_elem_of_lookup in Hin as [i Hin].
      destruct (Forall2_lookup_r _ _ _ _ _ Hj Hin) as (sub & _ & ->). done.
  - destruct (Redrive ctx v sid e w) as [r w1] eqn:E. simpl in *.
    apply Redrive_spec in E as [Hi1 Hv]; [|done].
    destruct Hv as [(e2 & _ & Hv)|(_ & subs & atts & sub & last & id0 & t & w2 & _ & _ & _ & _ & _ & _ & Hn & Hv)].
    { apply (counted_new _ w); try done; [lia|by intros id _; rewrite Hv|intros id j c; rewrite Hv; congruence]. }
    simpl in Hv. apply (counted_new _ w); try done; [lia|..]; intros id; rewrite Hv, lookup_insert; case_decide as Hd; subst.
    + intros [x Hx]. congruence.
    + done.
    + by intros j c _ [= <- _].
    + congruence.
  - pose proof (Dequeue_inv _ _ _ _ Hi E) as Hi1. apply Dequeue_some in E as (Hu & Hv & _); [|done].
    change (j_ID job) with (dj_ID job) in *. destruct Ha as [H1 H2 H3 H4 H5 H6]. simpl in *.
    assert (Hnew : ∀ x, x ∈ held → dj_ID x ≠ dj_ID job). { intros x Hx He. specialize (H3 x Hx). rewrite He in H3. congruence. }
    split; simpl; try done.
    + apply NoDup_cons. split; [|done]. intros (x & He & Hx)%list_elem_of_fmap. by apply (Hnew x Hx).
    + intros x [->|Hx]%elem_of_cons; rewrite Hv; [apply lookup_insert_eq|]. rewrite lookup_insert_ne; [by apply H3|].
      intros He. by apply (Hnew x Hx).
    + intros id j c. rewrite Hv, lookup_insert. case_decide as Hd; [|apply H4]. intros [= <- _]. by eapply H4.
    + intros id j c. rewrite Hv, lookup_insert. case_decide as Hd; [subst id; intros [= <- _] _; eapply H5; [done|by left]|].
      intros Hl Hor. eapply H5; [done|]. rewrite elem_of_cons in Hor. destruct Hor as [|[->|]]; [by left|done|by right].
  - destruct (q_Dequeue ctx w) as [[[j|]|e] w1] eqn:E; simpl in *; [by destruct (Hne j)|..];
      pose proof (Dequeue_inv _ _ _ _ Hi E) as Hi1.
    + apply Dequeue_none in E as [Hv _]; [|done]. destruct Ha. split; simpl in *; rewrite ?Hv; done.
    + apply Dequeue_err in E as Hv; [|done]. destruct Ha. split; simpl in *; rewrite ?Hv; done.
  - by apply counted_deliver.
  - eapply counted_lost; [exact Ha|done|done|by left].
  - eapply counted_lost; [exact Ha|done|done|by right].
Qed.
End Facts.

(** A world for the witnesses: in-memory store and queue, a clock at 100, an
    endpoint that answers 500, a generator that returns the lower bound. *)
Module DispatchExample.
Record DW := mkDW { dw_queue : MemoryBackend DeliveryJob; dw_store : MemoryStore }.
#[export] Program Instance has_queue : Has DW (MemoryBackend DeliveryJob) :=
  { getS := dw_queue; setS q w := mkDW q (dw_store w) }.
Solve Obligations with done.
#[export] Program Instance has_store : Has DW MemoryStore :=
  { getS := dw_store; setS s w := mkDW (dw_queue w) s }.
Solve Obligations with done.
#[export] Instance env : Env DW := { env_metrics := unread;
  now := ret 100;
  uuid_NewString w := (fresh ({[""]} ∪ dom (jobs (dw_queue w))), w);
}.
#[export] Instance text : ErrorText := λ _, "error".
#[export] Instance hmac : HMAC := λ k m, k +:+ m.
#[export] Instance http : HTTP DW := { http_URL_error _ := None; http_Do _ _ := ret (Ok 500) }.
#[export] Instance rand : Rand DW := λ _, ret 0.
#[export] Instance rand_spec : RandSpec DW.
Proof. intros n w Hn. simpl. lia. Qed.
Definition order {A} (m : gmap string A) : list (string * A) := map_to_list m.
#[export] Instance store : Store DW := MemoryStore_Store order.
#[export] Instance queue : QueueBackend DW DeliveryJob := MemoryEventQueue order.
#[export] Instance queue_spec : QueueSpec DW DeliveryJob (memq_inv (J := DeliveryJob)) (memq_view (J := DeliveryJob)).
Proof. apply memq_spec; [done|by intros w]. Qed.

Lemma lift_store_quiet {A} (m : M MemoryStore A) :
  quiet (W := DW) (memq_inv (J := DeliveryJob)) (memq_view (J := DeliveryJob)) (lift m).
Proof. intros w a w'. unfold lift. destruct (m (getS w)). by intros [= _ <-]. Qed.

Lemma world_quiet : quiet_world (W := DW) (memq_inv (J := DeliveryJob)) (memq_view (J := DeliveryJob)).
Proof.
  split.
  - intros w a w' [= _ <-]. done.
  - intros c w a w' [= _ <-]. done.
  - intros w a w' [= _ <-]. done.
  - intros ctx v. simpl. unfold mst_ListSubscriptions, guard_ctx. destruct (ctx_Err ctx).
    + intros w a w' [= _ <-]. done.
    + apply lift_store_quiet.
  - intros ctx v s. simpl. unfold mst_ListAttempts, guard_ctx. destruct (ctx_Err ctx).
    + intros w a w' [= _ <-]. done.
    + apply lift_store_quiet.
  - intros ctx a. simpl. unfold mst_RecordAttempt, guard_ctx. destruct (ctx_Err ctx).
    + intros w x w' [= _ <-]. done.
    + destruct (String.eqb _ _); [intros w x w' [= _ <-]; done|]. intros w x w'. unfold bind. simpl.
      apply lift_store_quiet.
  - intros ctx r w a w' [= _ <-]. done.
  - intros n w a w' [= _ <-]. done.
  - intros w id w' _ [= <- _]. simpl. unfold memq_view. rewrite mem_view_lookup.
    assert (Hf : fresh ({[""]} ∪ dom (jobs (dw_queue w))) ∉ {[""]} ∪ dom (jobs (dw_queue w)))
      by apply is_fresh.
    assert (Hd : fresh ({[""]} ∪ dom (jobs (dw_queue w))) ∉ dom (jobs (dw_queue w))) by set_solver.
    apply not_elem_of_dom in Hd. simpl. by rewrite Hd.
Qed.

Definition sub (id : string) (types : list string) (off : bool) : Subscription :=
  mkSubscription id "a.test" ("https://" +:+ id) "key" types off.
Definition world : DW := mkDW NewMemoryBackend
  (mkMemoryStore {["s1" := sub "s1" [] false; "s2" := sub "s2" ["message.bounced"] false;
                   "s3" := sub "s3" [] true]} ∅).
Lemma dworld_inv : memq_inv (J := DeliveryJob) world.
Proof. apply mem_wf_new. Qed.
Definition ctx : Ctx := mkCtx None "corr".
Definition sent : DW := snd (Enqueue ctx "a.test" "message.received" "{}" world).
Definition claimed : option DeliveryJob := default None (match fst (q_Dequeue ctx sent) with Ok o => Some o | _ => None end).
End DispatchExample.

(** ** Properties *)

Section Properties.
Context {W : Type} {HE : Env W} {HSt : Store W} {HQ : QueueBackend W DeliveryJob} {HH : HTTP W}
  {HR : Rand W} {HM : HMAC} {HT : ErrorText}.
Context (q_inv : W → Prop) (q_view : W → QView DeliveryJob).
Context {QS : QueueSpec W DeliveryJob q_inv q_view} {RS : RandSpec W}.

(** C17: fan-out is exact.  When Enqueue succeeds the queue has gained exactly
    one unclaimed job, under a fresh ID, for each enabled subscription of the
    vhost that lists the event type or lists none, carrying that
    subscription's URL and secret, the payload, one shared event ID and the
    caller's correlation ID; nothing else in the queue changed.  When it
    fails, the jobs gained are those of the first so many targets. *)
Theorem dispatch_exact ctx vhost eventType payload (w : W) r w' :
  quiet_world q_inv q_view → q_inv w → Enqueue ctx vhost eventType payload w = (r, w') →
  q_inv w' ∧
  ∃ eid t targets jobs,
    (∀ subs, fst (st_ListSubscriptions ctx vhost w) = Ok subs →
       targets `prefix_of` filter (λ s, wants eventType s = true) subs ∧
       (r = Ok tt → targets = filter (λ s, wants eventType s = true) subs)) ∧
    Forall2 (λ s j, j = job_for (dj_ID j) vhost s eid eventType payload t (ctx_CorrelationID ctx)) targets jobs ∧
    NoDup (dj_ID <$> jobs) ∧
    (∀ id, q_view w' !! id =
       match List.find (λ j, String.eqb (dj_ID j) id) jobs with
       | Some j => Some (j, false)
       | None => q_view w !! id
       end) ∧
    (∀ j, j ∈ jobs → q_view w !! dj_ID j = None).
Proof.
  intros HQ' Hi E. apply (Enqueue_spec q_inv q_view HQ') in E as [Hi' Hv]; [|done]. split; [done|].
  destruct Hv as [(e & -> & Hv)|(subs & eid & t & ts & rest & jobs & Hl & Hf & Hok & Hj & Hn & Hv)].
  - exists "", 0, [], []. split_and!; [|constructor|constructor|by intros id; rewrite Hv|set_solver].
    intros subs _. split; [by apply prefix_nil|done].
  - exists eid, t, ts, jobs. pose proof Hn as [Hn1 Hn2]. split_and!; [|done|done| |].
    + intros subs' Hl'. rewrite Hl in Hl'. injection Hl' as <-. rewrite Hf. split; [by eexists|].
      intros Hr. by rewrite (Hok Hr), app_nil_r.
    + intros id. rewrite Hv. by rewrite (add_jobs_lookup (J := DeliveryJob)).
    + intros j Hin. rewrite Forall_forall in Hn2. by apply Hn2.
Qed.

(** C18: the outcome of a delivery.  deliverOne never panics.  It makes one
    request, logs the attempt with the status and error it got, and then performs
    exactly one operation on the queue, on its own job: after a 2xx answer it
    removes the job; after any other answer, a transport error or a bad URL it
    removes it when this was attempt MaxAttempts (dead-letter) and otherwise
    reschedules it unclaimed with one more attempt and the error, due after the
    clock's reading by the backoff drawn for this attempt, which is below
    min(BackoffMax, BackoffBase * 2^attempts).  Only if that operation itself
    fails is the queue as it was. *)
Theorem deliver_outcome d ctx job (w : W) r w' :
  quiet_world q_inv q_view → config_ok d → q_inv w → deliverOne d ctx job w = (r, w') →
  let ctx' := WithCorrelationID ctx (dj_CorrelationID job) in
  r = Ok tt ∧ q_inv w' ∧
  ∃ status err w1 w2 c w3 x,
    answered ctx' job w status err w1 ∧ logged ctx' job status err w1 w2 ∧ delivery_decision d job w2 err c w3 ∧
    close_job ctx' c w3 = (x, w') ∧ closes q_inv q_view ctx' c w w'.
Proof.
  intros HQ' Hc Hi E. apply (deliverOne_closes q_inv q_view HQ' d) in E as (? & ? & st & w1 & w2 & c & w3 & x & Hx); [|done..].
  split_and!; [done..|]. by eexists st, _, w1, w2, c, w3, x.
Qed.

(** C19: no event is sent to a subscription more than MaxAttempts times per
    job.  Count the deliveries started for each job ID, over all processes: in any
    interleaving of Enqueue, Redrive, Dequeue, and deliverOne by the goroutine that
    got the job, with closing operations that fail and processes that die before
    or in a delivery, the count never exceeds MaxAttempts, and for a job in the
    queue that is unclaimed or in a goroutine's hands it is at most the attempts
    it has stored.  (One delivery makes at most one request: C18.) *)
Theorem attempts_bounded d (w : W) m s :
  quiet_world q_inv q_view → config_ok d → q_inv w →
  (∀ id j c, q_view w !! id = Some (j, c) → started m id ≤ dj_Attempts j < MaxAttempts d) →
  (∀ id, started m id ≤ MaxAttempts d) →
  rtc (dstep q_inv q_view d) (mkDispatching w [] m) s →
  ∀ id, started (ds_started s) id ≤ MaxAttempts d ∧
    ∀ j c, q_view (ds_world s) !! id = Some (j, c) → dj_Attempts j < MaxAttempts d ∧
      (c = false ∨ id ∈ dj_ID <$> ds_held s → started (ds_started s) id ≤ dj_Attempts j).
Proof.
  intros HQ' Hc Hi Ha Hm Hr. assert (H : attempts_counted q_inv q_view (MaxAttempts d) (mkDispatching w [] m)).
  { split; simpl; try done; [constructor|by intros j ?%elem_of_nil|intros id j c Hl; by apply (Ha id j c)|intros id j c Hl _; by eapply Ha]. }
  clear Ha Hm Hi. induction Hr as [s|s1 s2 s3 Hs _ IH]; [|by apply IH; eapply dstep_counted]. destruct H. intros id. split; [done|].
  intros j c Hl. eauto.
Qed.
End Properties.

Import DispatchExample.

Lemma dispatch_exact_witness :
  memq_inv (J := DeliveryJob) sent ∧
  (λ x, (dj_SubscriptionID (fst x), dj_URL (fst x), snd x)) <$> (map_to_list (memq_view (J := DeliveryJob) sent)).*2
  = [("s1", "https://s1", false)].
Proof.
  split; [|by vm_compute].
  eapply (dispatch_exact (memq_inv (J := DeliveryJob)) (memq_view (J := DeliveryJob)) ctx "a.test" "message.received" "{}" world (Ok tt) sent);
    [apply world_quiet|apply dworld_inv|by vm_compute].
Defined.

Definition the_job : DeliveryJob :=
  mkDeliveryJob "0" "a.test" "s1" "https://s1" "key" "0" "message.received" "{}" 0 100 "" "corr".

Lemma sent_inv : memq_inv (J := DeliveryJob) sent.
Proof.
  eapply (Enqueue_spec (memq_inv (J := DeliveryJob)) (memq_view (J := DeliveryJob)) world_quiet ctx "a.test"
    "message.received" "{}" world (Ok tt) sent); [apply dworld_inv|by vm_compute].
Qed.

Lemma deliver_outcome_witness :
  claimed = Some the_job ∧
  let w1 := snd (q_Dequeue (J := DeliveryJob) ctx sent) in
  let r := deliverOne NewDispatcher ctx the_job w1 in
  fst r = Ok tt ∧
  memq_view (J := DeliveryJob) (snd r) !! "0" = Some (DeliveryJob_retry (Some "error") 100 the_job, false).
Proof.
  split; [by vm_compute|]. intros w1 r. split; [|by vm_compute].
  eapply (deliver_outcome (memq_inv (J := DeliveryJob)) (memq_view (J := DeliveryJob)) NewDispatcher ctx the_job w1 (fst r) (snd r)).
  - apply world_quiet.
  - unfold config_ok; simpl. unfold DefaultBackoffBase, DefaultBackoffMax, DefaultMaxAttempts, Minute, Second. lia.
  - apply (Dequeue_inv ctx sent (fst (q_Dequeue ctx sent))); [apply sent_inv|apply surjective_pairing].
  - apply surjective_pairing.
Defined.

(** The endpoint always answers 500: claimed and delivered until it is dead. *)
Fixpoint hammer (n : nat) (s : dispatching (W := DW)) : dispatching (W := DW) :=
  match n with
  | O => s
  | S n =>
      match q_Dequeue (J := DeliveryJob) ctx (ds_world s) with
      | (Ok (Some job), w) =>
          hammer n (mkDispatching (snd (deliverOne NewDispatcher ctx job w)) (ds_held s) (start_one job (ds_started s)))
      | _ => s
      end
  end.

Lemma hammer_steps n w m : rtc (dstep (memq_inv (J := DeliveryJob)) (memq_view (J := DeliveryJob)) NewDispatcher)
  (mkDispatching w [] m) (hammer n (mkDispatching w [] m)).
Proof.
  revert w m. induction n as [|n IH]; intros w m; [done|]. cbn [hammer ds_world].
  destruct (q_Dequeue ctx w) as [[[job|]|e] w1] eqn:E; [|done..].
  eapply rtc_l; [by eapply step_claim|]. eapply rtc_l; [apply (step_deliver _ _ _ ctx job w1 [] [])|]. apply IH.
Qed.

Lemma attempts_bounded_witness :
  let s := hammer 20 (mkDispatching sent [] ∅) in
  started (ds_started s) "0" = 8 ∧ memq_view (J := DeliveryJob) (ds_world s) = ∅ ∧ started (ds_started s) "0" ≤ MaxAttempts NewDispatcher.
Proof.
  intros s. split; [by vm_compute|]. split; [by vm_compute|].
  pose proof (hammer_steps 20 sent ∅) as Hs. fold s in Hs. clearbody s.
  refine (proj1 (attempts_bounded (memq_inv (J := DeliveryJob)) (memq_view (J := DeliveryJob)) NewDispatcher sent ∅ s _ _ _ _ _ _ "0")).
  - apply world_quiet.
  - unfold config_ok; simpl. unfold DefaultBackoffBase, DefaultBackoffMax, DefaultMaxAttempts, Minute, Second. lia.
  - apply sent_inv.
  - assert (Hv : memq_view (J := DeliveryJob) sent = {["0" := (the_job, false)]}) by (by vm_compute).
    rewrite Hv. intros id j c [<- [= <- <-]]%lookup_singleton_Some. split; by vm_compute.
  - intros id. by vm_compute.
  - exact Hs.
Defined.
