(* ===== verification/Storage.v ===== *)
(** * Message storage (internal/storage)

    The [Store] contract, as an interface and as the laws its clients use, and
    the Postgres backend.  The maildir backend is in [Maildir]. *)

From S2P Require Import Prelude Table Webhook.

(** ** The interface (store.go) *)

Definition FlagSeen : string := "\Seen".
Definition FlagAnswered : string := "\Answered".
Definition FlagFlagged : string := "\Flagged".
Definition FlagDeleted : string := "\Deleted".
Definition FlagDraft : string := "\Draft".

Definition OutboxMailbox : string := "Outbox".

Record MessageRef := mkRef { rf_Vhost : string; rf_Mailbox : string; rf_Key : string }.

#[export] Instance MessageRef_eq_dec : EqDecision MessageRef.
Proof. solve_decision. Defined.

Record MessageMeta := mkMeta {
  mm_Ref : MessageRef;
  mm_Size : Z;
  mm_Flags : list string;
  mm_CreatedAt : Time;
}.

(** A body is an [io.Reader]: the bytes it yields, or its read error. *)
Class MessageStore (W : Type) := {
  s_Write : Ctx → string → string → res string → M W (res MessageRef);
  s_Read : Ctx → MessageRef → M W (res string);
  s_List : Ctx → string → string → M W (res (list MessageMeta));
  s_ListVhost : Ctx → string → M W (res (list MessageMeta));
  s_UpdateFlags : Ctx → MessageRef → list string → M W (res unit);
  s_Delete : Ctx → MessageRef → M W (res unit);
}.

(** ** The contract

    [holds w a body flags]: the store holds at address [a] a message with that
    body and those flags.  [addr] locates a reference (two references may name
    one place), [norm] is the form in which a backend keeps a flag list;
    [box] and [valid] are the mailboxes and the references the backend can
    tell apart. *)
Class StoreSpec (W Addr : Type) `{MessageStore W} (inv : W → Prop) (addr : MessageRef → Addr)
  (norm : list string → list string) (box : string → string → Prop) (valid : MessageRef → Prop)
  (holds : W → Addr → string → list string → Prop) : Prop := {
  sp_holds_fun : ∀ w a b f b' f', inv w → holds w a b f → holds w a b' f' → b = b' ∧ f = f';
  sp_Write_ok : ∀ ctx v m body w ref w', inv w → box v m → s_Write ctx v m body w = (Ok ref, w') →
    inv w' ∧ valid ref ∧ rf_Vhost ref = v ∧ rf_Mailbox ref = m ∧ ∃ b, body = Ok b ∧
    (∀ b' f', ¬ holds w (addr ref) b' f') ∧
    ∀ a b' f', holds w' a b' f' ↔ (a = addr ref ∧ b' = b ∧ f' = []) ∨ holds w a b' f';
  sp_Write_err : ∀ ctx v m body w e w', inv w → box v m → s_Write ctx v m body w = (Err e, w') →
    inv w' ∧ ∀ a b f, holds w' a b f ↔ holds w a b f;
  sp_Read_ok : ∀ ctx ref w b w', inv w → valid ref → s_Read ctx ref w = (Ok b, w') →
    inv w' ∧ (∀ a b f, holds w' a b f ↔ holds w a b f) ∧ ∃ f, holds w (addr ref) b f;
  sp_List_ok : ∀ ctx v m w l w', inv w → box v m → s_List ctx v m w = (Ok l, w') →
    inv w' ∧ (∀ a b f, holds w' a b f ↔ holds w a b f) ∧
    (∀ x, x ∈ l → rf_Vhost (mm_Ref x) = v ∧ rf_Mailbox (mm_Ref x) = m ∧
       ∃ b, holds w (addr (mm_Ref x)) b (mm_Flags x)) ∧
    (∀ k b f, valid (mkRef v m k) → holds w (addr (mkRef v m k)) b f →
       ∃ x, x ∈ l ∧ mm_Ref x = mkRef v m k ∧ mm_Flags x = f);
  sp_ListVhost_ok : ∀ ctx v m0 w l w', inv w → box v m0 → s_ListVhost ctx v w = (Ok l, w') →
    inv w' ∧ (∀ a b f, holds w' a b f ↔ holds w a b f) ∧
    (∀ x, x ∈ l → rf_Vhost (mm_Ref x) = v ∧ ∃ b, holds w (addr (mm_Ref x)) b (mm_Flags x)) ∧
    (∀ m k b f, box v m → valid (mkRef v m k) → holds w (addr (mkRef v m k)) b f →
       ∃ x, x ∈ l ∧ mm_Ref x = mkRef v m k ∧ mm_Flags x = f);
  sp_UpdateFlags_ok : ∀ ctx ref fl w w', inv w → valid ref → s_UpdateFlags ctx ref fl w = (Ok tt, w') →
    inv w' ∧ ∃ b f0, holds w (addr ref) b f0 ∧
    ∀ a b' f', holds w' a b' f' ↔
      (a = addr ref ∧ b' = b ∧ f' = norm fl) ∨ (a ≠ addr ref ∧ holds w a b' f');
  sp_UpdateFlags_err : ∀ ctx ref fl w e w', inv w → valid ref → s_UpdateFlags ctx ref fl w = (Err e, w') →
    inv w' ∧ ∀ a b f, holds w' a b f ↔ holds w a b f;
  sp_Delete_ok : ∀ ctx ref w w', inv w → valid ref → s_Delete ctx ref w = (Ok tt, w') →
    inv w' ∧ (∃ b f, holds w (addr ref) b f) ∧
    ∀ a b' f', holds w' a b' f' ↔ a ≠ addr ref ∧ holds w a b' f';
  sp_Delete_err : ∀ ctx ref w e w', inv w → valid ref → s_Delete ctx ref w = (Err e, w') →
    inv w' ∧ ∀ a b f, holds w' a b f ↔ holds w a b f;
}.

(** Whatever is true of every address a reference can name, and of every
    message held to begin with, stays true: the contract holds with it in the
    invariant. *)
Lemma StoreSpec_strengthen {W Addr} {HS : MessageStore W} {inv : W → Prop} {addr : MessageRef → Addr} {norm box valid holds}
  {SS : StoreSpec W Addr inv addr norm box valid holds} (P : Addr → Prop) : (∀ ref, valid ref → P (addr ref)) →
  StoreSpec W Addr (λ w, inv w ∧ ∀ a b f, holds w a b f → P a) addr norm box valid holds.
Proof.
  intros HP. split.
  - intros w a b f b' f' [Hi _]. by eapply sp_holds_fun.
  - intros ctx v m body w ref w' [Hi Hk] Hb E. destruct (sp_Write_ok _ _ _ _ _ _ _ Hi Hb E) as (Hi' & Hv & ? & ? & b & ? & ? & Hh).
    split_and!; [done| |done..|by exists b]. intros a b' f' [(-> & _)|?]%Hh; [by apply HP|by eapply Hk].
  - intros ctx v m body w e w' [Hi Hk] Hb E. destruct (sp_Write_err _ _ _ _ _ _ _ Hi Hb E) as [? Hh].
    split_and!; [done| |done]. intros a b f Hx%Hh. by eapply Hk.
  - intros ctx ref w b w' [Hi Hk] Hv E. destruct (sp_Read_ok _ _ _ _ _ Hi Hv E) as (? & Hh & ?).
    split_and!; [done| |done..]. intros a b' f Hx%Hh. by eapply Hk.
  - intros ctx v m w l w' [Hi Hk] Hb E. destruct (sp_List_ok _ _ _ _ _ _ Hi Hb E) as (? & Hh & ? & ?).
    split_and!; [done| |done..]. intros a b f Hx%Hh. by eapply Hk.
  - intros ctx v m0 w l w' [Hi Hk] Hb E. destruct (sp_ListVhost_ok _ _ _ _ _ _ Hi Hb E) as (? & Hh & ? & ?).
    split_and!; [done| |done..]. intros a b f Hx%Hh. by eapply Hk.
  - intros ctx ref fl w w' [Hi Hk] Hv E. destruct (sp_UpdateFlags_ok _ _ _ _ _ Hi Hv E) as (? & b & f0 & ? & Hh).
    split_and!; [done| |by exists b, f0]. intros a b' f' [(-> & _)|[_ ?]]%Hh; [by apply HP|by eapply Hk].
  - intros ctx ref fl w e w' [Hi Hk] Hv E. destruct (sp_UpdateFlags_err _ _ _ _ _ _ Hi Hv E) as [? Hh].
    split_and!; [done| |done]. intros a b f Hx%Hh. by eapply Hk.
  - intros ctx ref w w' [Hi Hk] Hv E. destruct (sp_Delete_ok _ _ _ _ Hi Hv E) as (? & ? & Hh).
    split_and!; [done| |done..]. intros a b f [_ Hx]%Hh. by eapply Hk.
  - intros ctx ref w e w' [Hi Hk] Hv E. destruct (sp_Delete_err _ _ _ _ _ Hi Hv E) as [? Hh].
    split_and!; [done| |done]. intros a b f Hx%Hh. by eapply Hk.
Qed.

(** ** The Postgres backend (postgres/postgres.go) *)

Module Postgres.

(** [messageRow], less the embedded sql.BaseEntity. *)
Record messageRow := mkMessageRow {
  ms_Vhost : string;
  ms_Mailbox : string;
  ms_Body : string;
  ms_Size : Z;
  ms_Flags : string;
}.

Definition encodeFlags (flags : list string) : string := Join flags ",".
Definition decodeFlags (s : string) : list string :=
  if String.eqb s "" then [] else SplitByte s ","%char.

Definition createdAt (r : Row messageRow) : Time := default 0 (row_CreatedAt r).

(** [ORDER BY created_at ASC]. *)
Definition by_creation (a b : Row messageRow) : bool := createdAt a <=? createdAt b.

Definition meta_of (r : Row messageRow) : MessageMeta :=
  let d := row_data r in
  mkMeta (mkRef (ms_Vhost d) (ms_Mailbox d) (row_Id r)) (ms_Size d) (decodeFlags (ms_Flags d)) (createdAt r).

Section Ops.
Context {W : Type} `{Table W messageRow}.

(** [WHERE id = ? AND vhost = ? AND mailbox = ?]. *)
Definition ref_is (ref : MessageRef) (r : Row messageRow) : bool :=
  String.eqb (row_Id r) (rf_Key ref) && String.eqb (ms_Vhost (row_data r)) (rf_Vhost ref)
  && String.eqb (ms_Mailbox (row_data r)) (rf_Mailbox ref).

Definition find (ctx : Ctx) (ref : MessageRef) : M W (res messageRow) :=
  let? row := wrap (ErrorfW "postgres: message %q not found: %w" [rf_Key ref])
                (tbl_First ctx (ref_is ref) (order_by row_Id)) in
  ret (Ok (row_data row)).

Definition Write (ctx : Ctx) (vhost mailbox : string) (body : res string) : M W (res MessageRef) :=
  match body with
  | Err e => ret (Err (ErrorfW "postgres: read body: %w" [] e))
  | Ok data =>
      let? row := wrap (ErrorfW "postgres: write message: %w" [])
        (tbl_Create ctx (mkRow "" None
           (mkMessageRow vhost mailbox data (Z.of_nat (String.length data)) ""))) in
      ret (Ok (mkRef vhost mailbox (row_Id row)))
  end.

Definition Read (ctx : Ctx) (ref : MessageRef) : M W (res string) :=
  let? row := find ctx ref in ret (Ok (ms_Body row)).

Definition List_ (ctx : Ctx) (vhost mailbox : string) : M W (res (list MessageMeta)) :=
  let? rows := wrap (ErrorfW "postgres: list %s/%s: %w" [vhost; mailbox])
    (tbl_Find ctx (mkQuery
       (λ r, String.eqb (ms_Vhost (row_data r)) vhost && String.eqb (ms_Mailbox (row_data r)) mailbox)
       by_creation None)) in
  ret (Ok (meta_of <$> rows)).

Definition ListVhost (ctx : Ctx) (vhost : string) : M W (res (list MessageMeta)) :=
  let? rows := wrap (ErrorfW "postgres: list vhost %s: %w" [vhost])
    (tbl_Find ctx (mkQuery (λ r, String.eqb (ms_Vhost (row_data r)) vhost) by_creation None)) in
  ret (Ok (meta_of <$> rows)).

Definition set_flags (s : string) (d : messageRow) : messageRow :=
  mkMessageRow (ms_Vhost d) (ms_Mailbox d) (ms_Body d) (ms_Size d) s.

Definition UpdateFlags (ctx : Ctx) (ref : MessageRef) (flags : list string) : M W (res unit) :=
  let? n := wrap (ErrorfW "postgres: update flags for %q: %w" [rf_Key ref])
              (tbl_Updates ctx (ref_is ref) (set_flags (encodeFlags flags))) in
  if n =? 0 then ret (Err (Errorf "postgres: message %q not found" [rf_Key ref])) else ret (Ok tt).

Definition Delete (ctx : Ctx) (ref : MessageRef) : M W (res unit) :=
  let? n := wrap (ErrorfW "postgres: delete %q: %w" [rf_Key ref]) (tbl_Delete ctx (ref_is ref)) in
  if n =? 0 then ret (Err (Errorf "postgres: message %q not found" [rf_Key ref])) else ret (Ok tt).

Definition Backend : MessageStore W := {|
  s_Write := Write; s_Read := Read; s_List := List_; s_ListVhost := ListVhost;
  s_UpdateFlags := UpdateFlags; s_Delete := Delete;
|}.
End Ops.

(** *** The backend meets the contract *)

Section Facts.
Context {W : Type} `{Db W, !Table W messageRow, !TableSpec W messageRow}.

Definition pinv (w : W) : Prop := ids_unique (tbl_rows w).

Definition ref_of (r : Row messageRow) : MessageRef :=
  mkRef (ms_Vhost (row_data r)) (ms_Mailbox (row_data r)) (row_Id r).

Definition pholds (w : W) (a : MessageRef) (b : string) (f : list string) : Prop :=
  ∃ r, r ∈ tbl_rows w ∧ ref_of r = a ∧ ms_Body (row_data r) = b ∧ decodeFlags (ms_Flags (row_data r)) = f.

Lemma ref_is_true ref r : ref_is ref r = true ↔ ref_of r = ref.
Proof.
  unfold ref_is, ref_of. rewrite !andb_true_iff, !String.eqb_eq. destruct ref; simpl.
  split; [by intros [[-> ->] ->]|by intros [= -> -> ->]].
Qed.

Lemma ref_of_inj w r r' : pinv w → r ∈ tbl_rows w → r' ∈ tbl_rows w → ref_of r = ref_of r' → r = r'.
Proof. intros Hu Hr Hr' [= _ _ He]. by eapply ids_unique_eq. Qed.

Lemma pholds_frame w w' : tbl_rows w' = tbl_rows w → pinv w →
  pinv w' ∧ ∀ a b f, pholds w' a b f ↔ pholds w a b f.
Proof. intros Hw Hu. unfold pinv, pholds. by rewrite Hw. Qed.

Lemma no_match_perm w p f :
  length (filter (λ r, p r = true) (tbl_rows w)) = 0%nat → update_row p f <$> tbl_rows w = tbl_rows w.
Proof.
  intros Hl. apply length_zero_iff_nil in Hl. rewrite <-(list_fmap_id (tbl_rows w)) at 2.
  apply list_fmap_ext. intros i r Hr. unfold update_row. destruct (p r) eqn:E; [|done].
  exfalso. eapply (filter_nil_not_elem_of _ _ _ Hl E). by eapply list_elem_of_lookup_2.
Qed.

Lemma pWrite_spec ctx v m body (w : W) r w' :
  pinv w → Write ctx v m body w = (r, w') →
  match r with
  | Ok ref => pinv w' ∧ rf_Vhost ref = v ∧ rf_Mailbox ref = m ∧ ∃ b, body = Ok b ∧
      (∀ b' f', ¬ pholds w ref b' f') ∧
      ∀ a b' f', pholds w' a b' f' ↔ (a = ref ∧ b' = b ∧ f' = []) ∨ pholds w a b' f'
  | Err _ => tbl_rows w' = tbl_rows w
  end.
Proof.
  intros Hu. unfold Write, mtry, wrap, ret. destruct body as [data|e]; [|by intros [= <- <-]].
  destruct (tbl_Create _ _ w) as [[row|e] w1] eqn:Ec; intros [= <- <-].
  2:{ by eapply Create_err. }
  apply Create_ok in Ec as (Hnew & Hd & _ & _ & Hp). simpl in Hd.
  assert (Hro : ref_of row = mkRef v m (row_Id row)) by (unfold ref_of; by rewrite Hd).
  split_and!; [|done|done|exists data; split_and!; [done|..]].
  - unfold pinv, ids_unique. rewrite Hp, fmap_cons. by apply NoDup_cons.
  - intros b' f' (r & Hr & Hrr & _). apply Hnew. injection Hrr as _ _ <-. by apply list_elem_of_fmap_2.
  - intros a b' f'. unfold pholds. setoid_rewrite Hp. setoid_rewrite elem_of_cons. split.
    + intros (r & [->|Hr] & <- & <- & <-); [left|right; by eauto 10]. by rewrite Hro, Hd.
    + intros [(-> & -> & ->)|(r & Hr & Ha & Hb & Hf)]; [|by eauto 10].
      exists row. rewrite Hro, Hd. split_and!; try done. by left.
Qed.

Lemma pUpdateFlags_spec ctx ref fl (w : W) r w' :
  pinv w → UpdateFlags ctx ref fl w = (r, w') →
  match r with
  | Ok _ => pinv w' ∧ ∃ b f0, pholds w ref b f0 ∧
      ∀ a b' f', pholds w' a b' f' ↔
        (a = ref ∧ b' = b ∧ f' = decodeFlags (encodeFlags fl)) ∨ (a ≠ ref ∧ pholds w a b' f')
  | Err _ => pinv w' ∧ ∀ a b f, pholds w' a b f ↔ pholds w a b f
  end.
Proof.
  intros Hu. unfold UpdateFlags, mtry, wrap, ret.
  destruct (tbl_Updates _ _ _ w) as [[n|e] w1] eqn:Eu; simpl.
  2:{ intros [= <- <-]. apply pholds_frame; [by eapply Updates_err|done]. }
  apply Updates_ok in Eu as [-> Hp].
  assert (Hu1 : pinv w1).
  { unfold pinv. eapply ids_unique_perm; [symmetry; exact Hp|]. by apply ids_unique_update. }
  destruct (Z.eqb_spec (Z.of_nat (length (filter (λ r, ref_is ref r = true) (tbl_rows w)))) 0) as [Hz|Hn];
    intros [= <- <-]; (split; [done|]).
  { intros a b f. unfold pholds. setoid_rewrite Hp. rewrite no_match_perm by lia. done. }
  destruct (filter (λ r, ref_is ref r = true) (tbl_rows w)) as [|row l] eqn:Efl; [done|].
  assert (Hr : row ∈ filter (λ r, ref_is ref r = true) (tbl_rows w)) by (rewrite Efl; set_solver).
  apply list_elem_of_filter in Hr as [Hro%ref_is_true Hr].
  do 2 eexists. split; [by exists row|].
  intros a b' f'. unfold pholds. setoid_rewrite Hp. setoid_rewrite list_elem_of_fmap.
  assert (Hupd : ∀ x, ref_of (update_row (ref_is ref) (set_flags (encodeFlags fl)) x) = ref_of x).
  { intros x. unfold update_row. by destruct (ref_is ref x). }
  split.
  - intros (r & (x & -> & Hx) & <- & <- & <-). rewrite Hupd. unfold update_row.
    destruct (ref_is ref x) eqn:Ex; simpl.
    + apply ref_is_true in Ex. left. rewrite (ref_of_inj w x row Hu Hx Hr); [done|congruence].
    + right. split; [|by exists x]. intros He%ref_is_true. congruence.
  - intros [(-> & -> & ->)|(Hne & x & Hx & <- & <- & <-)].
    + eexists. split; [exists row; split; [done|done]|]. rewrite Hupd. unfold update_row.
      rewrite (proj2 (ref_is_true ref row) Hro). done.
    + eexists. split; [exists x; split; [done|done]|]. rewrite Hupd. unfold update_row.
      destruct (ref_is ref x) eqn:Ex; [|done]. apply ref_is_true in Ex. congruence.
Qed.

Lemma pDelete_spec ctx ref (w : W) r w' :
  pinv w → Delete ctx ref w = (r, w') →
  match r with
  | Ok _ => pinv w' ∧ (∃ b f, pholds w ref b f) ∧
      ∀ a b' f', pholds w' a b' f' ↔ a ≠ ref ∧ pholds w a b' f'
  | Err _ => pinv w' ∧ ∀ a b f, pholds w' a b f ↔ pholds w a b f
  end.
Proof.
  intros Hu. unfold Delete, mtry, wrap, ret.
  destruct (tbl_Delete _ _ w) as [[n|e] w1] eqn:Eu; simpl.
  2:{ intros [= <- <-]. apply pholds_frame; [by eapply Delete_err|done]. }
  apply Delete_ok in Eu as [-> Hp].
  assert (Hu1 : pinv w1).
  { unfold pinv. eapply ids_unique_perm; [symmetry; exact Hp|]. by apply ids_unique_filter. }
  assert (Hv : ∀ a b' f', pholds w1 a b' f' ↔ a ≠ ref ∧ pholds w a b' f').
  { intros a b' f'. unfold pholds. setoid_rewrite Hp. setoid_rewrite list_elem_of_filter.
    setoid_rewrite <-not_true_iff_false. setoid_rewrite ref_is_true. naive_solver. }
  destruct (Z.eqb_spec (Z.of_nat (length (filter (λ r, ref_is ref r = true) (tbl_rows w)))) 0) as [Hz|Hn];
    intros [= <- <-]; (split; [done|]).
  - intros a b f. rewrite Hv. split; [tauto|]. intros Hh. split; [|done]. intros ->.
    destruct Hh as (r & Hr & Hro & _).
    assert (Hl : filter (λ r, ref_is ref r = true) (tbl_rows w) = []) by (apply length_zero_iff_nil; lia).
    eapply (filter_nil_not_elem_of _ _ r Hl); [by apply ref_is_true|done].
  - split; [|done]. destruct (filter (λ r, ref_is ref r = true) (tbl_rows w)) as [|row l] eqn:Efl; [done|].
    assert (Hr : row ∈ filter (λ r, ref_is ref r = true) (tbl_rows w)) by (rewrite Efl; set_solver).
    apply list_elem_of_filter in Hr as [Hro%ref_is_true Hr]. do 2 eexists. by exists row.
Qed.

Lemma by_creation_total : total_order by_creation.
Proof. split; unfold by_creation; intros; lia. Qed.

Lemma pList_spec ctx v m (w : W) l w' :
  List_ ctx v m w = (Ok l, w') →
  ∀ x, x ∈ l ↔ ∃ r, r ∈ tbl_rows w ∧ ms_Vhost (row_data r) = v ∧ ms_Mailbox (row_data r) = m ∧ x = meta_of r.
Proof.
  unfold List_, mtry, wrap, ret. destruct (tbl_Find _ _ w) as [[rows|e] w1] eqn:Ef; [|done].
  intros [= <- _] x. apply Find_ok in Ef as (l' & Hp & _ & ->); [|apply by_creation_total]. simpl.
  rewrite list_elem_of_fmap. setoid_rewrite Hp. setoid_rewrite list_elem_of_filter. simpl.
  setoid_rewrite andb_true_iff. setoid_rewrite String.eqb_eq. naive_solver.
Qed.

Lemma pListVhost_spec ctx v (w : W) l w' :
  ListVhost ctx v w = (Ok l, w') →
  ∀ x, x ∈ l ↔ ∃ r, r ∈ tbl_rows w ∧ ms_Vhost (row_data r) = v ∧ x = meta_of r.
Proof.
  unfold ListVhost, mtry, wrap, ret. destruct (tbl_Find _ _ w) as [[rows|e] w1] eqn:Ef; [|done].
  intros [= <- _] x. apply Find_ok in Ef as (l' & Hp & _ & ->); [|apply by_creation_total]. simpl.
  rewrite list_elem_of_fmap. setoid_rewrite Hp. setoid_rewrite list_elem_of_filter. simpl.
  setoid_rewrite String.eqb_eq. naive_solver.
Qed.

Lemma postgres_store_spec :
  @StoreSpec W MessageRef Backend pinv id (λ fl, decodeFlags (encodeFlags fl))
    (λ _ _, True) (λ _, True) pholds.
Proof.
  constructor.
  - intros w a b f b' f' Hu (r & Hr & Ha & <- & <-) (r' & Hr' & Ha' & <- & <-).
    by rewrite (ref_of_inj w r r' Hu Hr Hr') by congruence.
  - intros ctx v m body w ref w' Hu _ E. by apply pWrite_spec in E as (? & ? & ? & ?).
  - intros ctx v m body w e w' Hu _ E. apply pholds_frame; [|done]. by apply pWrite_spec in E.
  - intros ctx ref w b w' Hu _ E. simpl in E. revert E. unfold Read, find, mtry, wrap, ret.
    destruct (tbl_First _ _ _ w) as [[row|e] w1] eqn:Ef; [|done]. intros [= <- <-].
    pose proof (First_frame _ _ _ _ _ _ Ef) as Hw. apply First_ok in Ef as (Hr & Hro%ref_is_true & _).
    destruct (pholds_frame w w1 Hw Hu) as [? ?]. split_and!; [done..|]. eexists. by exists row.
  - intros ctx v m w l w' Hu _ E. simpl in E. pose proof (pList_spec _ _ _ _ _ _ E) as Hl.
    assert (Hw : tbl_rows w' = tbl_rows w).
    { revert E. unfold List_, mtry, wrap, ret. destruct (tbl_Find _ _ w) as [[x|e] w1] eqn:Ef; [|done].
      intros [= _ <-]. by eapply Find_frame. }
    destruct (pholds_frame w w' Hw Hu) as [? ?]. split_and!; [done..| |].
    + intros x (r & Hr & <- & <- & ->)%Hl. split_and!; [done..|]. eexists. by exists r.
    + intros k b f _ (r & Hr & Hro & _ & <-). exists (meta_of r). injection Hro as <- <- <-.
      split_and!; [|done..]. apply Hl. eauto 10.
  - intros ctx v m0 w l w' Hu _ E. simpl in E. pose proof (pListVhost_spec _ _ _ _ _ E) as Hl.
    assert (Hw : tbl_rows w' = tbl_rows w).
    { revert E. unfold ListVhost, mtry, wrap, ret. destruct (tbl_Find _ _ w) as [[x|e] w1] eqn:Ef; [|done].
      intros [= _ <-]. by eapply Find_frame. }
    destruct (pholds_frame w w' Hw Hu) as [? ?]. split_and!; [done..| |].
    + intros x (r & Hr & <- & ->)%Hl. split; [done|]. eexists. by exists r.
    + intros m k b f _ _ (r & Hr & Hro & _ & <-). exists (meta_of r). injection Hro as <- <- <-.
      split_and!; [|done..]. apply Hl. eauto 10.
  - intros ctx ref fl w w' Hu _ E. by apply pUpdateFlags_spec in E.
  - intros ctx ref fl w e w' Hu _ E. by apply pUpdateFlags_spec in E.
  - intros ctx ref w w' Hu _ E. by apply pDelete_spec in E.
  - intros ctx ref w e w' Hu _ E. by apply pDelete_spec in E.
Qed.

(** C20: the Postgres backend implements the store contract: a written message
    is held at a fresh reference with the bytes given and no flags, reading,
    listing and the vhost-wide listing return what is held and nothing else,
    flags are replaced and messages removed at the named reference only, and a
    failed operation changes nothing. *)
Theorem postgres_store_contract :
  @StoreSpec W MessageRef Backend pinv id (λ fl, decodeFlags (encodeFlags fl))
    (λ _ _, True) (λ _, True) pholds.
Proof. apply postgres_store_spec. Qed.
End Facts.

(** *** A run *)

#[local] Instance message_conflicts : ListTable.Conflicts messageRow := λ _ _, false.

Definition example_run : list bool :=
  let w0 : list (Row messageRow) := [] in
  let '(r1, w1) := Write Background "a.test" "alice/INBOX" (Ok "hello") w0 in
  let '(r2, w2) := Write Background "b.test" "bob/INBOX" (Ok "other") w1 in
  match r1, r2 with
  | Ok a, Ok b =>
      let '(u, w3) := UpdateFlags Background a [FlagSeen; FlagFlagged] w2 in
      let '(l, w4) := ListVhost Background "a.test" w3 in
      let '(d, w5) := Delete Background b w4 in
      [ is_Ok u; is_Ok d;
        bool_decide (fst (Read Background a w5) = Ok "hello");
        negb (is_Ok (fst (Read Background b w5)));
        match l with Ok [x] => bool_decide (mm_Flags x = [FlagSeen; FlagFlagged]) | _ => false end ]
  | _, _ => [false]
  end.

Lemma example_run_ok : example_run = [true; true; true; true; true].
Proof. vm_compute. reflexivity. Qed.

Lemma postgres_store_contract_witness :
  @StoreSpec (list (Row messageRow)) MessageRef Backend pinv id (λ fl, decodeFlags (encodeFlags fl))
    (λ _ _, True) (λ _, True) pholds.
Proof. apply postgres_store_contract. Defined.
End Postgres.
