(* ===== verification/Maildir.v ===== *)
(** * The maildir backend (internal/storage/maildir/maildir.go)

    A small model of the file system calls the backend makes, its operations,
    and the proof that they implement the [Storage] contract. *)

From S2P Require Import Prelude Storage.
From stdpp Require Import pretty fin_sets.

(** ** The file system

    A path, innermost component first: [path/filepath]'s [Join] on an absolute,
    clean base.  [Join] cleans: empty and "." elements vanish, ".." removes the
    last component. *)
Notation Path := (list string) (only parsing).

Definition join_elem (p : Path) (c : string) : Path :=
  if String.eqb c "" || String.eqb c "." then p
  else if String.eqb c ".." then tail p
  else c :: p.

Definition join_path (p : Path) (s : string) : Path := foldl join_elem p (SplitByte s "/"%char).

(** Regular files with their contents and modification times, and the calls'
    outcomes the operating system decides: [fs_oracle] makes the next calls
    fail ([true]), and also picks the iteration order of a Go map. *)
Record Fs := mkFs {
  fs_dirs : gset Path;
  fs_files : gmap Path (string * Time);
  fs_seq : N;
  fs_clock : Time;
  fs_oracle : list bool;
}.

Definition set_files (f : gmap Path (string * Time)) (w : Fs) : Fs :=
  mkFs (fs_dirs w) f (fs_seq w) (fs_clock w) (fs_oracle w).

Definition ErrNotExist : goerr := Sentinel "os.ErrNotExist".
Definition ErrExist : goerr := Sentinel "os.ErrExist".
Definition ErrIO : goerr := Sentinel "syscall.EIO".
Definition ErrNotDir : goerr := Sentinel "syscall.ENOTDIR".
Definition IsNotExist (e : goerr) : bool := errors_Is "os.ErrNotExist" e.

(** Whether the next call fails. *)
Definition fault : M Fs bool := λ w,
  match fs_oracle w with
  | [] => (false, w)
  | b :: o => (b, mkFs (fs_dirs w) (fs_files w) (fs_seq w) (fs_clock w) o)
  end.

(** A call that the system may refuse. *)
Definition call {A} (f : Fs → res A * Fs) : M Fs (res A) :=
  let* b := fault in if b : bool then ret (Err ErrIO) else f.

Definition is_dir (p : Path) (w : Fs) : bool := bool_decide (p ∈ fs_dirs w).
Definition is_file (p : Path) (w : Fs) : bool := bool_decide (is_Some (fs_files w !! p)).

(** The directory itself and its ancestors. *)
Fixpoint ancestors (p : Path) : list Path :=
  p :: match p with [] => [] | _ :: p' => ancestors p' end.

Definition MkdirAll (p : Path) : M Fs (res unit) := call (λ w,
  if existsb (λ q, is_file q w) (ancestors p) then (Err ErrNotDir, w)
  else (Ok tt, mkFs (list_to_set (ancestors p) ∪ fs_dirs w) (fs_files w) (fs_seq w) (fs_clock w) (fs_oracle w))).

Definition Stat (p : Path) : M Fs (res unit) := call (λ w,
  (if is_dir p w || is_file p w then Ok tt else Err ErrNotExist, w)).

(** The entries of a directory, sorted by name; [true] marks directories. *)
Definition children (p : Path) (l : list Path) : list string :=
  omap (λ q, match q with c :: q' => if decide (q' = p) then Some c else None | [] => None end) l.

Definition entries (p : Path) (w : Fs) : list (string * bool) :=
  sort_by (λ a b, str_leb (fst a) (fst b))
    (((λ c, (c, true)) <$> children p (elements (fs_dirs w))) ++
     ((λ c, (c, false)) <$> children p (elements (dom (fs_files w))))).

Definition ReadDir (p : Path) : M Fs (res (list (string * bool))) := call (λ w,
  (if is_file p w then Err ErrNotDir else if is_dir p w then Ok (entries p w) else Err ErrNotExist, w)).

(** [os.OpenFile] with [O_WRONLY|O_CREATE|O_EXCL]. *)
Definition OpenExcl (p : Path) : M Fs (res unit) := call (λ w,
  if is_dir p w || is_file p w then (Err ErrExist, w)
  else if is_dir (tail p) w then (Ok tt, set_files (<[p := ("", fs_clock w)]> (fs_files w)) w)
  else (Err ErrNotExist, w)).

(** [io.Copy] into an open file: a reader that fails, or a failing disk, leaves
    a part of the body. *)
Definition CopyTo (p : Path) (body : res string) : M Fs (res unit) :=
  match body with
  | Ok s => call (λ w, (Ok tt, set_files (<[p := (s, fs_clock w)]> (fs_files w)) w))
  | Err e => ret (Err e)
  end.

(** [File.Sync] and [File.Close]: nothing to see but their errors. *)
Definition Sync : M Fs (res unit) := call (λ w, (Ok tt, w)).
Definition Close : M Fs (res unit) := call (λ w, (Ok tt, w)).

(** [rename(2)] on a regular file: replaces a file at the target. *)
Definition Rename (p q : Path) : M Fs (res unit) := call (λ w,
  match fs_files w !! p with
  | None => (Err ErrNotExist, w)
  | Some x =>
      if is_dir q w then (Err ErrExist, w)
      else if is_dir (tail q) w then (Ok tt, set_files (<[q := x]> (delete p (fs_files w))) w)
      else (Err ErrNotExist, w)
  end).

(** [os.Remove]: a file, or an empty directory. *)
Definition Remove (p : Path) : M Fs (res unit) := call (λ w,
  if is_file p w then (Ok tt, set_files (delete p (fs_files w)) w)
  else if is_dir p w then
    match entries p w with
    | [] => (Ok tt, mkFs (fs_dirs w ∖ {[p]}) (fs_files w) (fs_seq w) (fs_clock w) (fs_oracle w))
    | _ => (Err ErrExist, w)
    end
  else (Err ErrNotExist, w)).

(** [os.Open] and reading to the end. *)
Definition Open (p : Path) : M Fs (res string) := call (λ w,
  (match fs_files w !! p with
   | Some (s, _) => Ok s
   | None => if is_dir p w then Ok "" else Err ErrNotExist
   end, w)).

(** [DirEntry.Info]: size and modification time. *)
Definition Info (p : Path) : M Fs (res (Z * Time)) := call (λ w,
  (match fs_files w !! p with
   | Some (s, t) => Ok (Z.of_nat (String.length s), t)
   | None => Err ErrNotExist
   end, w)).

(** ** The backend *)

Definition dirNew : string := "new".
Definition dirCur : string := "cur".
Definition dirTmp : string := "tmp".
Definition infoSep : string := ":2,".

Definition maildirFlagLetters (f : string) : option ascii :=
  if String.eqb f FlagDraft then Some "D"%char
  else if String.eqb f FlagFlagged then Some "F"%char
  else if String.eqb f FlagAnswered then Some "R"%char
  else if String.eqb f FlagSeen then Some "S"%char
  else if String.eqb f FlagDeleted then Some "T"%char
  else None.

Definition letterToFlag (c : ascii) : option string :=
  if decide (c = "D"%char) then Some FlagDraft
  else if decide (c = "F"%char) then Some FlagFlagged
  else if decide (c = "R"%char) then Some FlagAnswered
  else if decide (c = "S"%char) then Some FlagSeen
  else if decide (c = "T"%char) then Some FlagDeleted
  else None.

Definition letter_leb (a b : ascii) : bool := (Ascii.nat_of_ascii a <=? Ascii.nat_of_ascii b)%nat.

Definition encodeFlags (flags : list string) : string :=
  String.string_of_list_ascii (sort_by letter_leb (omap maildirFlagLetters flags)).

Definition decodeFlags (info : string) : list string :=
  omap letterToFlag (String.list_ascii_of_string info).

Section Backend.
Context (base : Path) (pid : N) (host : string).

Definition mailboxDir (vhost mailbox : string) : Path := join_path (join_path base vhost) mailbox.

Definition mkdir_sub (dir : Path) (sub : string) (k : M Fs (res Path)) : M Fs (res Path) :=
  let? _ := wrap (ErrorfW "maildir: create %s/%s: %w" [sub]) (MkdirAll (join_path dir sub)) in k.

Definition ensureMailboxDirs (vhost mailbox : string) : M Fs (res Path) :=
  let dir := mailboxDir vhost mailbox in
  mkdir_sub dir dirNew (mkdir_sub dir dirCur (mkdir_sub dir dirTmp (ret (Ok dir)))).

(** [%d.%d_%d.%s] *)
Definition name_of (nanos : Time) (seq : N) : string :=
  pretty nanos +:+ "." +:+ pretty pid +:+ "_" +:+ pretty seq +:+ "." +:+ host.

(** The counter is process-wide; it does not wrap before 2^64 deliveries. *)
Definition uniqueName : M Fs string := λ w,
  let n := (fs_seq w + 1)%N in
  (name_of (fs_clock w) n, mkFs (fs_dirs w) (fs_files w) n (fs_clock w) (fs_oracle w)).

(** A step of [Write] after the file exists: on failure the temporary file is
    removed and [Write] returns the error. *)
Definition or_remove {A B} (tmpPath : Path) (f : string) (m : M Fs (res A)) (k : M Fs (res B)) : M Fs (res B) :=
  λ w, match m w with
       | (Ok _, w1) => k w1
       | (Err e, w1) => (let* _ := Remove tmpPath in ret (Err (ErrorfW f [] e))) w1
       end.

Definition Write (ctx : Ctx) (vhost mailbox : string) (body : res string) : M Fs (res MessageRef) :=
  guard_ctx ctx
  (let? dir := ensureMailboxDirs vhost mailbox in
   let* name := uniqueName in
   let tmpPath := join_path (join_path dir dirTmp) name in
   let? _ := wrap (ErrorfW "maildir: create tmp file: %w" []) (OpenExcl tmpPath) in
   or_remove tmpPath "maildir: write tmp file: %w" (CopyTo tmpPath body)
   (or_remove tmpPath "maildir: sync tmp file: %w" Sync
   (or_remove tmpPath "maildir: close tmp file: %w" Close
   (let newPath := join_path (join_path dir dirNew) name in
    or_remove tmpPath "maildir: deliver to new: %w" (Rename tmpPath newPath)
    (ret (Ok (mkRef vhost mailbox name))))))).

(** Key and flags of a file name in cur/. *)
Definition cut_info (n : string) : string * list string :=
  let '(k, info, hasInfo) := Cut n infoSep in (k, if hasInfo : bool then decodeFlags info else []).

Definition locate (ref : MessageRef) : M Fs (res (Path * list string * bool)) :=
  let dir := mailboxDir (rf_Vhost ref) (rf_Mailbox ref) in
  let newPath := join_path (join_path dir dirNew) (rf_Key ref) in
  let* st := Stat newPath in
  if is_Ok st then ret (Ok (newPath, [], true))
  else
    let* rd := ReadDir (join_path dir dirCur) in
    match rd with
    | Err e => ret (Err (if IsNotExist e
                         then ErrorfW "maildir: message %q not found: %w" [rf_Key ref] ErrNotExist
                         else ErrorfW "maildir: read cur: %w" [] e))
    | Ok es =>
        match List.find (λ e, String.eqb (fst (cut_info (fst e))) (rf_Key ref)) es with
        | Some e => ret (Ok (join_path (join_path dir dirCur) (fst e), snd (cut_info (fst e)), false))
        | None => ret (Err (ErrorfW "maildir: message %q not found: %w" [rf_Key ref] ErrNotExist))
        end
    end.

Definition Read (ctx : Ctx) (ref : MessageRef) : M Fs (res string) :=
  guard_ctx ctx (let? l := locate ref in Open (fst (fst l))).

(** One directory entry of [List]. *)
Definition list_entry (vhost mailbox : string) (dir : Path) (isNew : bool) (e : string * bool)
    (out : list MessageMeta) : M Fs (res (list MessageMeta) + list MessageMeta) :=
  if snd e then ret (inr out)
  else
    let* i := Info (join_path dir (fst e)) in
    match i with
    | Err err => ret (inl (Err (ErrorfW "maildir: stat %s: %w" [fst e] err)))
    | Ok (size, mtime) =>
        let '(key, flags) := if isNew then (fst e, []) else cut_info (fst e) in
        ret (inr (out ++ [mkMeta (mkRef vhost mailbox key) size flags mtime]))
    end.

(** One iteration of the loop over new/ and cur/. *)
Definition list_sub (vhost mailbox : string) (sub : string * bool)
    (out : list MessageMeta) : M Fs (res (list MessageMeta) + list MessageMeta) :=
  let dir := join_path (mailboxDir vhost mailbox) (fst sub) in
  let* rd := ReadDir dir in
  match rd with
  | Err e => if IsNotExist e then ret (inr out)
             else ret (inl (Err (ErrorfW "maildir: read %s: %w" [fst sub] e)))
  | Ok es => mfor es (list_entry vhost mailbox dir (snd sub)) out
  end.

(** Ranging over the map literal visits new/ and cur/ in either order. *)
Definition map_order : M Fs (list (string * bool)) :=
  let* b := fault in
  ret (if b : bool then [(dirCur, false); (dirNew, true)] else [(dirNew, true); (dirCur, false)]).

Definition List_ (ctx : Ctx) (vhost mailbox : string) : M Fs (res (list MessageMeta)) :=
  guard_ctx ctx
  (let* subs := map_order in
   let* r := mfor subs (list_sub vhost mailbox) [] in
   ret (match r with inl x => x | inr out => Ok out end)).

(** [filepath.WalkDir] with the callback of [ListVhost]: the relative paths of
    the directories that hold a directory named new, which is not entered. *)
Fixpoint walk (fuel : nat) (p : Path) (acc : list Path) : M Fs (res (list Path)) :=
  match fuel with
  | O => ret (Err (ErrNew "walk: out of fuel"))
  | S fuel =>
      if String.eqb (default "" (head p)) dirNew then
        ret (Ok (if decide (tail p ∈ acc) then acc else acc ++ [tail p]))
      else
        let? es := ReadDir p in
        let* r := mfor es (λ e acc,
          if snd e then
            let* r := walk fuel (fst e :: p) acc in
            ret (match r with Ok acc' => inr acc' | Err e => inl (Err e) end)
          else ret (inr acc)) acc in
        ret (match r with inl x => x | inr acc' => Ok acc' end)
  end.

(** Deep enough for every directory there is. *)
Definition walk_fuel (w : Fs) : nat := S (max_list (length <$> elements (fs_dirs w))).

(** [filepath.Rel(vhostDir, dir)] for a [dir] at or below [vhostDir], or its
    parent. *)
Definition Rel (vhostDir dir : Path) : string :=
  if (length dir <? length vhostDir)%nat then ".."
  else match rev (take (length dir - length vhostDir) dir) with
  | [] => "."
  | l => Prelude.Join l "/"
  end.

(** The walk itself: a root that is a file has nothing below it. *)
Definition WalkDir (root : Path) : M Fs (res (list Path)) :=
  let? _ := Stat root in
  let* w := get in
  if is_dir root w then walk (walk_fuel w) root [] else ret (Ok []).

Definition ListVhost (ctx : Ctx) (vhost : string) : M Fs (res (list MessageMeta)) :=
  guard_ctx ctx
  (let vhostDir := join_path base vhost in
   let* st := Stat vhostDir in
   match st with
   | Err e => ret (if IsNotExist e then Ok [] else Err (ErrorfW "maildir: stat vhost dir: %w" [] e))
   | Ok _ =>
       let? dirs := wrap (ErrorfW "maildir: walk vhost dir: %w" []) (WalkDir vhostDir) in
       let* r := mfor (Rel vhostDir <$> dirs) (λ mailbox out,
         let* msgs := List_ ctx vhost mailbox in
         ret (match msgs with Ok l => inr (out ++ l) | Err e => inl (Err e) end)) [] in
       ret (match r with inl x => x | inr out => Ok out end)
   end).

Definition UpdateFlags (ctx : Ctx) (ref : MessageRef) (flags : list string) : M Fs (res unit) :=
  guard_ctx ctx
  (let? l := locate ref in
   let path := fst (fst l) in
   let dir := mailboxDir (rf_Vhost ref) (rf_Mailbox ref) in
   let newName := rf_Key ref +:+ infoSep +:+ encodeFlags flags in
   let newPath := join_path (join_path dir dirCur) newName in
   if decide (path = newPath) then ret (Ok tt)
   else wrap (ErrorfW "maildir: update flags: %w" []) (Rename path newPath)).

Definition Delete (ctx : Ctx) (ref : MessageRef) : M Fs (res unit) :=
  guard_ctx ctx
  (let? l := locate ref in
   wrap (ErrorfW "maildir: delete: %w" []) (Remove (fst (fst l)))).

#[global] Instance Backend : MessageStore Fs := {
  s_Write := Write; s_Read := Read; s_List := List_; s_ListVhost := ListVhost;
  s_UpdateFlags := UpdateFlags; s_Delete := Delete;
}.
End Backend.

(** ** Names and paths *)

(** A name a directory entry can have. *)
Definition clean (c : string) : bool :=
  negb (String.eqb c "") && negb (String.eqb c ".") && negb (String.eqb c "..") && negb (str_in "/" c).

Definition reserved (c : string) : bool :=
  String.eqb c dirNew || String.eqb c dirCur || String.eqb c dirTmp.

Definition good (c : string) : bool := clean c && negb (reserved c).

Lemma join_elem_clean p c : clean c = true → join_elem p c = c :: p.
Proof.
  unfold clean, join_elem. rewrite !andb_true_iff, !negb_true_iff.
  intros [[[-> ->] ->] _]. done.
Qed.

Lemma join_path_app p l : Forall (λ c, clean c = true) l → foldl join_elem p l = rev l ++ p.
Proof.
  revert p. induction l as [|c l IH]; intros p Hl; [done|]. apply Forall_cons in Hl as [Hc Hl]. simpl.
  by rewrite join_elem_clean, IH, <-app_assoc.
Qed.

Lemma clean_slash c : clean c = true → str_in "/" c = false.
Proof. unfold clean. rewrite !andb_true_iff, !negb_true_iff. tauto. Qed.

Lemma join_path_clean p c : clean c = true → join_path p c = c :: p.
Proof.
  intros Hc. unfold join_path. rewrite SplitByte_plain by by apply clean_slash.
  by apply join_elem_clean.
Qed.

Lemma good_clean c : good c = true → clean c = true.
Proof. unfold good. rewrite andb_true_iff. tauto. Qed.

Lemma good_reserved c : good c = true → reserved c = true → False.
Proof. unfold good. rewrite andb_true_iff, negb_true_iff. by intros [_ ->]. Qed.

Lemma str_in_pretty_N c (n : N) :
  (∀ m : N, c ≠ pretty_N_char m) → str_in c (pretty n) = false.
Proof.
  intros Hc. assert (Hgo : ∀ n s, str_in c s = false → str_in c (pretty_N_go n s) = false).
  { clear n. intros n. induction (N.lt_wf_0 n) as [n _ IH]; intros s Hs.
    destruct (decide (n = 0)%N) as [->|Hn]; [by rewrite pretty_N_go_0|].
    rewrite pretty_N_go_step by lia. apply IH; [apply N.div_lt; lia|]. simpl.
    rewrite Hs, bool_decide_false by auto. done. }
  unfold pretty, pretty_N. case_decide; [|by apply Hgo]. simpl.
  rewrite bool_decide_false; [done|]. apply (Hc 0%N).
Qed.

Lemma str_in_pretty_Z c (z : Z) :
  (∀ m : N, c ≠ pretty_N_char m) → c ≠ "-"%char → str_in c (pretty z) = false.
Proof.
  intros Hc Hd. destruct z as [|p|p].
  - simpl. rewrite bool_decide_false; [done|]. apply (Hc 0%N).
  - apply (str_in_pretty_N c (Npos p) Hc).
  - change (pretty (Zneg p)) with ("-" +:+ pretty (Npos p)). rewrite str_in_app, (str_in_pretty_N c _ Hc). simpl.
    by rewrite bool_decide_false.
Qed.

Lemma not_digit c : (∃ m, c = pretty_N_char m) → Ascii.nat_of_ascii c ∈ seq 48 10.
Proof.
  intros [m ->]. unfold pretty_N_char. repeat case_match; by vm_compute; set_solver.
Qed.

(** A string up to the first separator is determined. *)
Lemma app_sep_inj c s t x y :
  str_in c s = false → str_in c t = false → s +:+ String c x = t +:+ String c y → s = t ∧ x = y.
Proof.
  intros Hs Ht He. pose proof (f_equal (λ u, SplitByte u c) He) as Hsp. simpl in Hsp.
  rewrite !SplitByte_app in Hsp by done. injection Hsp as -> Hxy. split; [done|].
  by rewrite <-(Join_SplitByte c x), Hxy, Join_SplitByte.
Qed.

Lemma digit_not c : Ascii.nat_of_ascii c ∉ seq 48 10 → ∀ m : N, c ≠ pretty_N_char m.
Proof. intros Hc m ->. apply Hc, not_digit. by exists m. Qed.

Lemma Cut_step c d s p : d ≠ c →
  Cut (String c s) (String d p) = (let '(b, a, f) := Cut s (String d p) in (String c b, a, f)).
Proof.
  intros Hd. assert (E : HasPrefix (String c s) (String d p) = false).
  { unfold HasPrefix. cbn [String.prefix]. by destruct (Ascii.ascii_dec d c). }
  cbn [Cut]. by rewrite E.
Qed.

Lemma Cut_info k x : str_in ":" k = false → Cut (k +:+ infoSep +:+ x) infoSep = (k, x, true).
Proof.
  induction k as [|c k IH]; [by intros; destruct x|]. intros [Hc Hk]%orb_false_iff.
  apply bool_decide_eq_false in Hc. change (String c k +:+ infoSep +:+ x) with (String c (k +:+ infoSep +:+ x)).
  unfold infoSep at 2. rewrite Cut_step by done. fold infoSep. by rewrite IH.
Qed.

Lemma Cut_plain k : str_in ":" k = false → Cut k infoSep = (k, "", false).
Proof.
  induction k as [|c k IH]; [done|]. intros [Hc Hk]%orb_false_iff.
  apply bool_decide_eq_false in Hc. unfold infoSep. rewrite Cut_step by done. fold infoSep. by rewrite IH.
Qed.

(** ** What a mailbox holds

    The message a path stands for: the mailbox directory, the key, the flags. *)
Definition slot (p : Path) : option (Path * string * list string) :=
  match p with
  | name :: sub :: D =>
      if String.eqb sub dirNew then Some (D, name, [])
      else if String.eqb sub dirCur then Some (D, fst (cut_info name), snd (cut_info name))
      else None
  | _ => None
  end.

Definition norm (flags : list string) : list string := decodeFlags (encodeFlags flags).

Lemma slot_new k D : slot (k :: dirNew :: D) = Some (D, k, []).
Proof. done. Qed.

Lemma slot_cur n D : slot (n :: dirCur :: D) = Some (D, fst (cut_info n), snd (cut_info n)).
Proof. done. Qed.

Lemma slot_tmp n D : slot (n :: dirTmp :: D) = None.
Proof. done. Qed.

Lemma cut_info_flags k fl : str_in ":" k = false → cut_info (k +:+ infoSep +:+ encodeFlags fl) = (k, norm fl).
Proof. intros Hk. unfold cut_info. by rewrite Cut_info. Qed.

Section Files.
Context (base : Path).
Implicit Types (p q D : Path) (a : Path * string) (files : gmap Path (string * Time)).

Definition holds_in files a (b : string) (f : list string) : Prop :=
  suffix base (fst a) ∧ ∃ p t, slot p = Some (a, f) ∧ files !! p = Some (b, t).

(** A key names one file of a mailbox. *)
Definition uniq files : Prop := ∀ p p' a f f' x x',
  slot p = Some (a, f) → slot p' = Some (a, f') → suffix base (fst a) →
  files !! p = Some x → files !! p' = Some x' → p = p'.

Lemma holds_in_fun files a b f b' f' :
  uniq files → holds_in files a b f → holds_in files a b' f' → b = b' ∧ f = f'.
Proof.
  intros Hu (Hs & p & t & Hp & Hx) (_ & p' & t' & Hp' & Hx').
  assert (p = p') as <- by (by eapply Hu). by simplify_eq.
Qed.

(** Files outside new/ and cur/ do not matter. *)
Lemma holds_in_other files files' :
  (∀ p, slot p ≠ None → files' !! p = files !! p) →
  (∀ a b f, holds_in files' a b f ↔ holds_in files a b f) ∧ (uniq files → uniq files').
Proof.
  intros Hs. split.
  - intros a b f. unfold holds_in. split; intros (Hb & p & t & Hp & Hx); (split; [done|]); exists p, t;
      (split; [done|]); [rewrite <-Hs|rewrite Hs]; congruence.
  - intros Hu p p' a f f' x x' Hp Hp' Hb Hx Hx'. rewrite Hs in Hx by congruence.
    rewrite Hs in Hx' by congruence. by eapply Hu.
Qed.

Lemma holds_in_delete files p a f x :
  uniq files → suffix base (fst a) → slot p = Some (a, f) → files !! p = Some x →
  uniq (delete p files) ∧
  ∀ a' b' f', holds_in (delete p files) a' b' f' ↔ a' ≠ a ∧ holds_in files a' b' f'.
Proof.
  intros Hu Hb Hp Hx. split.
  - intros q q' a' g g' y y' Hq Hq' Hb' [? Hy]%lookup_delete_Some [? Hy']%lookup_delete_Some. by eapply Hu.
  - intros a' b' f'. unfold holds_in. split.
    + intros (Hb' & q & t & Hq & [Hne Hy]%lookup_delete_Some). split; [|by eauto 10].
      intros ->. apply Hne. by eapply Hu.
    + intros (Hne & Hb' & q & t & Hq & Hy). split; [done|]. exists q, t. split; [done|].
      apply lookup_delete_Some. split; [|done]. congruence.
Qed.

Lemma holds_in_insert files q a f b t :
  uniq files → suffix base (fst a) → slot q = Some (a, f) → (∀ b' f', ¬ holds_in files a b' f') →
  uniq (<[q := (b, t)]> files) ∧
  ∀ a' b' f', holds_in (<[q := (b, t)]> files) a' b' f' ↔
    (a' = a ∧ b' = b ∧ f' = f) ∨ holds_in files a' b' f'.
Proof.
  intros Hu Hb Hq Hn.
  assert (Hfree : ∀ p a' f' y, slot p = Some (a', f') → files !! p = Some y → a' ≠ a).
  { intros p a' f' [b' t'] Hp Hy ->. apply (Hn b' f'). split; [done|]. by exists p, t'. }
  split.
  - intros p p' a' g g' y y' Hp Hp' Hb' Hy Hy'.
    apply lookup_insert_Some in Hy as [[<- _]|[_ Hy]]; apply lookup_insert_Some in Hy' as [[<- _]|[_ Hy']].
    + done.
    + exfalso. eapply Hfree; [exact Hp'|done|congruence].
    + exfalso. eapply Hfree; [exact Hp|done|congruence].
    + by eapply Hu.
  - intros a' b' f'. unfold holds_in. split.
    + intros (Hb' & p & t' & Hp & [[<- He]|[_ Hy]]%lookup_insert_Some); [left|right; by eauto 10].
      by simplify_eq.
    + intros [(-> & -> & ->)|(Hb' & p & t' & Hp & Hy)].
      * split; [done|]. exists q, t. split; [done|]. apply lookup_insert_eq.
      * split; [done|]. exists p, t'. split; [done|]. rewrite lookup_insert_ne; [done|].
        intros <-. eapply Hfree; [exact Hp|done|congruence].
Qed.
End Files.

(** ** The calls *)

Definition same (w w' : Fs) : Prop :=
  fs_dirs w' = fs_dirs w ∧ fs_files w' = fs_files w ∧ fs_seq w' = fs_seq w ∧ fs_clock w' = fs_clock w.

(** Only regular files differ. *)
Definition files_to (f : gmap Path (string * Time)) (w w' : Fs) : Prop :=
  fs_dirs w' = fs_dirs w ∧ fs_files w' = f ∧ fs_seq w' = fs_seq w ∧ fs_clock w' = fs_clock w.

#[global] Instance same_preorder : PreOrder same.
Proof.
  split; [done|]. intros x y z (?&?&?&?) (?&?&?&?). unfold same. split_and!; congruence.
Qed.

Lemma fault_inv w b w' : fault w = (b, w') → same w w'.
Proof. unfold fault. destruct (fs_oracle w); by intros [= <- <-]. Qed.

Lemma call_inv {A} (f : Fs → res A * Fs) w r w' : call f w = (r, w') →
  ∃ w1, same w w1 ∧ ((r = Err ErrIO ∧ w' = w1) ∨ f w1 = (r, w')).
Proof.
  unfold call, bind. destruct (fault w) as [b w1] eqn:E. apply fault_inv in E.
  intros Hr. exists w1. split; [done|]. destruct b; [left|by right]. by injection Hr as <- <-.
Qed.

(** Without scheduled faults every call runs. *)
Lemma call_run {A} (f : Fs → res A * Fs) w : fs_oracle w = [] → call f w = f w.
Proof. intros Ho. unfold call, bind, fault. by rewrite Ho. Qed.

Lemma in_children c p l : c ∈ children p l ↔ c :: p ∈ l.
Proof.
  unfold children. rewrite list_elem_of_omap. split.
  - intros ([|d q] & Hq & Hx); [done|]. by case_decide; simplify_eq.
  - intros Hc. exists (c :: p). split; [done|]. by rewrite decide_True.
Qed.

Lemma in_entries c d p w :
  (c, d) ∈ entries p w ↔ if d : bool then c :: p ∈ fs_dirs w else is_Some (fs_files w !! (c :: p)).
Proof.
  unfold entries. rewrite sort_by_perm, elem_of_app, !list_elem_of_fmap.
  setoid_rewrite in_children. setoid_rewrite elem_of_elements. setoid_rewrite elem_of_dom.
  destruct d; naive_solver.
Qed.

Lemma Stat_inv p w r w' : Stat p w = (r, w') →
  same w w' ∧
  match r with
  | Ok _ => p ∈ fs_dirs w ∨ is_Some (fs_files w !! p)
  | Err e => IsNotExist e = true → p ∉ fs_dirs w
  end.
Proof.
  intros (w1 & (Hd&Hf&Hs&Hc) & [[-> ->]|E])%call_inv; [done|]. revert E. unfold is_dir, is_file.
  rewrite Hd, Hf. intros [= <- <-]. split; [done|]. repeat case_bool_decide; simpl; auto.
Qed.

Lemma ReadDir_inv p w r w' : ReadDir p w = (r, w') → same w w' ∧
  match r with
  | Ok es => p ∈ fs_dirs w ∧ ∀ c d, (c, d) ∈ es ↔ (if d : bool then c :: p ∈ fs_dirs w else is_Some (fs_files w !! (c :: p)))
  | Err e => IsNotExist e = true → p ∉ fs_dirs w
  end.
Proof.
  intros (w1 & Hw & [[-> ->]|E])%call_inv; [done|]. pose proof Hw as (Hd&Hf&_). revert E.
  unfold is_dir, is_file. rewrite Hf, Hd. intros [= <- <-]. split; [done|].
  repeat case_bool_decide; [done| |done]. split; [done|]. intros c d. by rewrite in_entries, Hd, Hf.
Qed.

Lemma Info_inv p w r w' : Info p w = (r, w') → same w w' ∧
  ∀ n t, r = Ok (n, t) → ∃ s, fs_files w !! p = Some (s, t) ∧ n = Z.of_nat (String.length s).
Proof.
  intros (w1 & Hw & [[-> ->]|E])%call_inv; [done|]. pose proof Hw as (Hd&Hf&_). revert E.
  rewrite Hf. intros [= <- <-]. split; [done|]. intros n t.
  destruct (fs_files w !! p) as [[s t']|]; [|done]. intros [= <- <-]. eauto.
Qed.

Lemma Open_inv p w r w' : Open p w = (r, w') → same w w' ∧
  ∀ s, r = Ok s → (∃ t, fs_files w !! p = Some (s, t)) ∨ p ∈ fs_dirs w.
Proof.
  intros (w1 & Hw & [[-> ->]|E])%call_inv; [done|]. pose proof Hw as (Hd&Hf&_). revert E.
  unfold is_dir. rewrite Hf, Hd. intros [= <- <-]. split; [done|]. intros s.
  destruct (fs_files w !! p) as [[s' t']|]; [intros [= <-]; eauto|].
  case_bool_decide; [by right|done].
Qed.

Lemma MkdirAll_inv p w r w' : MkdirAll p w = (r, w') →
  match r with
  | Ok _ => (∀ q, q ∈ ancestors p → fs_files w !! q = None) ∧
      fs_dirs w' = list_to_set (ancestors p) ∪ fs_dirs w ∧ fs_files w' = fs_files w ∧
      fs_seq w' = fs_seq w ∧ fs_clock w' = fs_clock w
  | Err _ => same w w'
  end.
Proof.
  intros (w1 & Hw & [[-> ->]|E])%call_inv; [done|]. pose proof Hw as (Hd&Hf&Hs&Hc). revert E.
  case_match eqn:Ee; intros [= <- <-]; [done|]. simpl. split_and!; try congruence.
  intros q Hq. rewrite <-not_true_iff_false, existsb_exists in Ee. apply eq_None_not_Some.
  intros Hx. apply Ee. exists q. split; [by apply list_elem_of_In|]. unfold is_file. rewrite Hf.
  by apply bool_decide_eq_true.
Qed.

Lemma OpenExcl_inv p w r w' : OpenExcl p w = (r, w') →
  match r with
  | Ok _ => p ∉ fs_dirs w ∧ fs_files w !! p = None ∧ tail p ∈ fs_dirs w ∧
      files_to (<[p := ("", fs_clock w)]> (fs_files w)) w w'
  | Err _ => same w w'
  end.
Proof.
  intros (w1 & Hw & [[-> ->]|E])%call_inv; [done|]. pose proof Hw as (Hd&Hf&Hs&Hc). revert E.
  unfold is_dir, is_file. rewrite Hd, Hf, Hc. repeat case_bool_decide; intros [= <- <-]; try done.
  split_and!; [done|by apply eq_None_not_Some|done|by unfold files_to].
Qed.

Lemma CopyTo_inv p b w r w' : CopyTo p b w = (r, w') →
  match r with
  | Ok _ => ∃ s, b = Ok s ∧ files_to (<[p := (s, fs_clock w)]> (fs_files w)) w w'
  | Err _ => same w w'
  end.
Proof.
  destruct b as [s|e]; simpl; [|by intros [= <- <-]].
  intros (w1 & Hw & [[-> ->]|E])%call_inv; [done|]. pose proof Hw as (Hd&Hf&Hs&Hc). revert E.
  rewrite Hf, Hc. intros [= <- <-]. exists s. by unfold files_to.
Qed.

Lemma Sync_inv w r w' : Sync w = (r, w') → same w w'.
Proof. intros (w1 & Hw & [[-> ->]|E])%call_inv; [done|]. by injection E as <- <-. Qed.

Lemma Rename_inv p q w r w' : Rename p q w = (r, w') →
  match r with
  | Ok _ => ∃ x, fs_files w !! p = Some x ∧ q ∉ fs_dirs w ∧ tail q ∈ fs_dirs w ∧
      files_to (<[q := x]> (delete p (fs_files w))) w w'
  | Err _ => same w w'
  end.
Proof.
  intros (w1 & Hw & [[-> ->]|E])%call_inv; [done|]. pose proof Hw as (Hd&Hf&Hs&Hc). revert E.
  unfold is_dir. rewrite Hf, Hd. destruct (fs_files w !! p) as [x|]; [|by intros [= <- <-]].
  repeat case_bool_decide; intros [= <- <-]; try done. exists x. by unfold files_to.
Qed.

(** [Remove] on a path that is not a directory. *)
Lemma Remove_inv p w r w' : Remove p w = (r, w') → p ∉ fs_dirs w →
  match r with
  | Ok _ => is_Some (fs_files w !! p) ∧ files_to (delete p (fs_files w)) w w'
  | Err _ => same w w'
  end.
Proof.
  intros (w1 & Hw & [[-> ->]|E])%call_inv Hn; [done|]. pose proof Hw as (Hd&Hf&Hs&Hc). revert E.
  unfold is_dir, is_file. rewrite Hf, Hd, (bool_decide_false (p ∈ fs_dirs w)) by done.
  case_bool_decide; by intros [= <- <-].
Qed.

(** ** The invariant *)

Lemma in_ancestors p q : q ∈ ancestors p ↔ suffix q p.
Proof.
  induction p as [|c p IH]; simpl.
  - rewrite list_elem_of_singleton. split; [by intros ->|]. intros [k Hk]. by destruct k, q.
  - rewrite elem_of_cons, IH. split.
    + intros [->|Hs]; [done|]. by apply suffix_cons_r.
    + intros [[|d k] Hk]; simplify_eq/=; [by left|right]. by exists k.
Qed.

Lemma in_rev_elem {A} (c : A) l : c ∈ rev l ↔ c ∈ l.
Proof. rewrite !list_elem_of_In. symmetry. apply in_rev. Qed.

Section Contract.
Context (base : Path) (pid : N) (host : string).
Context (base_clean : Forall (λ c, clean c = true) base).
Context (host_plain : str_in "/" host = false ∧ str_in ":" host = false).
Implicit Types (p q D : Path) (w : Fs).

Definition box (vhost mailbox : string) : Prop :=
  good vhost = true ∧ Forall (λ c, good c = true) (SplitByte mailbox "/").

Definition valid (ref : MessageRef) : Prop :=
  box (rf_Vhost ref) (rf_Mailbox ref) ∧ clean (rf_Key ref) = true ∧ str_in ":" (rf_Key ref) = false.

Definition addr (ref : MessageRef) : Path * string :=
  (mailboxDir base (rf_Vhost ref) (rf_Mailbox ref), rf_Key ref).

(** The tree is one: directories are closed under parents, files lie in
    directories, names are file names.  Below the base, new/, cur/ and tmp/
    hold no directories, and a message in cur/ has a new/ beside it. *)
Record dinv (w : Fs) : Prop := {
  di_base : base ∈ fs_dirs w;
  di_closed : ∀ c p, c :: p ∈ fs_dirs w → p ∈ fs_dirs w;
  di_parent : ∀ p x, fs_files w !! p = Some x → p ≠ [] ∧ tail p ∈ fs_dirs w;
  di_disj : ∀ p x, fs_files w !! p = Some x → p ∉ fs_dirs w;
  di_clean_dir : ∀ c p, c :: p ∈ fs_dirs w → clean c = true;
  di_clean_file : ∀ c p x, fs_files w !! (c :: p) = Some x → clean c = true;
  di_flat : ∀ c sub D, reserved sub = true → suffix base D → c :: sub :: D ∉ fs_dirs w;
  di_new : ∀ c D x, suffix base D → fs_files w !! (c :: dirCur :: D) = Some x → dirNew :: D ∈ fs_dirs w;
}.

(** Names this process has yet to use are free: those of its next deliveries,
    from now on.  (A process started anew under the same pid counts from zero
    again; its names are fresh because its clock is past the old ones'.) *)
Definition names_fresh (w : Fs) : Prop := ∀ p D t n f,
  slot p = Some (D, name_of pid host t n, f) → suffix base D → (fs_clock w ≤ t)%Z → (fs_seq w < n)%N →
  fs_files w !! p = None.

Record minv (w : Fs) : Prop := {
  mi_dirs : dinv w;
  mi_uniq : uniq base (fs_files w);
  mi_fresh : names_fresh w;
}.

Definition mholds (w : Fs) : Path * string → string → list string → Prop := holds_in base (fs_files w).

Lemma minv_same w w' : same w w' → minv w → minv w'.
Proof.
  intros (Hd&Hf&Hs&Ht) [[] Hu Hn]. split; [split|..]; unfold names_fresh in *; rewrite ?Hd, ?Hf, ?Hs, ?Ht; done.
Qed.

Lemma dinv_same w w' : same w w' → dinv w → dinv w'.
Proof. intros (Hd&Hf&_) []. split; rewrite ?Hd, ?Hf; done. Qed.

Lemma mholds_same w w' a b f : same w w' → mholds w' a b f ↔ mholds w a b f.
Proof. intros (_&Hf&_). unfold mholds. by rewrite Hf. Qed.

Definition mdir (vhost mailbox : string) : Path := rev (SplitByte mailbox "/") ++ vhost :: base.

Lemma mailboxDir_box v m : box v m → mailboxDir base v m = mdir v m.
Proof.
  intros [Hv Hm]. unfold mailboxDir, mdir. rewrite (join_path_clean base v) by by apply good_clean.
  unfold join_path. rewrite join_path_app; [done|]. eapply Forall_impl; [done|]. apply good_clean.
Qed.

Lemma mdir_suffix v m : suffix base (mdir v m).
Proof. unfold mdir. exists (rev (SplitByte m "/") ++ [v]). by rewrite <-app_assoc. Qed.

Lemma mdir_good v m c : box v m → c ∈ rev (SplitByte m "/") ++ [v] → good c = true.
Proof.
  intros [Hv Hm]. rewrite elem_of_app, list_elem_of_singleton. intros [Hc| ->]; [|done].
  rewrite Forall_forall in Hm. apply Hm. by apply in_rev_elem.
Qed.

Lemma clean_reserved c : reserved c = true → clean c = true.
Proof. unfold reserved. rewrite !orb_true_iff, !String.eqb_eq. intros Hc. by destruct Hc as [[Hc|Hc]|Hc]; rewrite Hc. Qed.

(** *** Generated names *)

Lemma name_char c t n :
  Ascii.nat_of_ascii c ∉ seq 48 10 → c ∉ ["-"; "."; "_"]%char → str_in c host = false →
  str_in c (name_of pid host t n) = false.
Proof.
  intros Hd Hs Hh. pose proof (digit_not c Hd) as Hc. unfold name_of.
  rewrite !str_in_app, str_in_pretty_Z, !str_in_pretty_N, Hh by (done || set_solver).
  simpl. rewrite !bool_decide_false by set_solver. done.
Qed.

Lemma name_colon t n : str_in ":" (name_of pid host t n) = false.
Proof. apply name_char; [vm_compute; set_solver|vm_compute; set_solver|apply host_plain]. Qed.

Lemma name_clean t n : clean (name_of pid host t n) = true.
Proof.
  assert (Hu : str_in "_" (name_of pid host t n) = true).
  { unfold name_of. rewrite !str_in_app. by rewrite !orb_true_r. }
  unfold clean. rewrite !andb_true_iff, !negb_true_iff, !String.eqb_neq. split_and!.
  1-3: by intros He; rewrite He in Hu.
  apply name_char; [vm_compute; set_solver|vm_compute; set_solver|apply host_plain].
Qed.

Lemma name_inj t n t' n' : name_of pid host t n = name_of pid host t' n' → n = n'.
Proof.
  assert (Hdot : ∀ k : N, str_in "." (pretty k) = false).
  { intros k. apply str_in_pretty_N, digit_not. vm_compute. set_solver. }
  assert (Hund : ∀ k : N, str_in "_" (pretty k) = false).
  { intros k. apply str_in_pretty_N, digit_not. vm_compute. set_solver. }
  unfold name_of. intros He. apply app_sep_inj in He as [_ He].
  - apply app_sep_inj in He as [_ He]; [|done..]. apply app_sep_inj in He as [He _]; [|done..].
    by apply (inj pretty) in He.
  - apply str_in_pretty_Z; [apply digit_not; vm_compute; set_solver|done].
  - apply str_in_pretty_Z; [apply digit_not; vm_compute; set_solver|done].
Qed.

(** *** Steps that keep the invariant *)

Lemma minv_mkdir v m sub w r w' :
  minv w → box v m → reserved sub = true → MkdirAll (sub :: mdir v m) w = (r, w') →
  minv w' ∧ fs_files w' = fs_files w ∧ fs_seq w' = fs_seq w ∧ fs_dirs w ⊆ fs_dirs w' ∧
  (is_Ok r = true → sub :: mdir v m ∈ fs_dirs w').
Proof.
  intros Hi Hb Hr E%MkdirAll_inv. destruct r as [[]|e].
  2:{ pose proof (minv_same _ _ E Hi). destruct E as (Hd&Hf&Hs&_). rewrite Hd. done. }
  destruct E as (Hnf & Hd & Hf & Hs & Hck).
  set (A := list_to_set (ancestors (sub :: mdir v m)) : gset Path) in *.
  assert (HA : ∀ q, q ∈ A ↔ suffix q (sub :: mdir v m)).
  { intros q. unfold A. by rewrite elem_of_list_to_set, in_ancestors. }
  assert (Hsub : ∀ c p, c :: p ∈ A → clean c = true).
  { intros c p [k Hk]%HA. unfold mdir in Hk.
    assert (Hc : c ∈ sub :: (rev (SplitByte m "/") ++ [v]) ++ base).
    { rewrite <-app_assoc. simpl. rewrite Hk. set_solver. }
    apply elem_of_cons in Hc as [->|Hc]; [by apply clean_reserved|].
    apply elem_of_app in Hc as [Hc|Hc]; [by eapply good_clean, mdir_good|].
    rewrite Forall_forall in base_clean. by apply base_clean. }
  split_and!; [|done|done|set_solver|].
  2:{ intros _. rewrite Hd. apply elem_of_union_l, HA. done. }
  destruct Hi as [[] Hu Hn]. split; [split|by rewrite Hf|]; unfold names_fresh in *; rewrite ?Hd, ?Hf, ?Hs, ?Hck; try done.
  - set_solver.
  - intros c p [Hc|Hc]%elem_of_union; apply elem_of_union; [left|right; by eauto].
    apply HA. apply HA in Hc. etrans; [|exact Hc]. by apply suffix_cons_r.
  - intros p x Hx. destruct (di_parent0 p x Hx). set_solver.
  - intros p x Hx [Hp|Hp]%elem_of_union; [|by eapply di_disj0].
    unfold A in Hp. rewrite elem_of_list_to_set in Hp. by rewrite (Hnf p Hp) in Hx.
  - intros c p [Hc|Hc]%elem_of_union; eauto.
  - intros c sub' D Hr' [l ->] [Hc|Hc]%elem_of_union; [|eapply di_flat0; [exact Hr'| |exact Hc]; by exists l].
    apply HA in Hc as [k Hk]. unfold mdir in Hk.
    assert (Hk' : sub :: rev (SplitByte m "/") ++ [v] = k ++ c :: sub' :: l).
    { apply (app_inv_tail base). rewrite <-!app_assoc. simpl. rewrite <-!app_assoc. done. }
    eapply (good_reserved sub'); [|done]. apply (mdir_good v m); [done|].
    destruct k as [|d k]; simpl in Hk'; injection Hk' as _ Hk'; rewrite Hk'; [by left|].
    apply elem_of_app. right. right. left.
  - intros c D x Hs' Hx. apply elem_of_union_r. by eapply di_new0.
Qed.

Lemma dinv_files f w w' : dinv w → files_to f w w' →
  (∀ p x, f !! p = Some x → is_Some (fs_files w !! p) ∨
     (p ∉ fs_dirs w ∧ ∃ c q, p = c :: q ∧ q ∈ fs_dirs w ∧ clean c = true)) →
  (∀ c D x, suffix base D → f !! (c :: dirCur :: D) = Some x → dirNew :: D ∈ fs_dirs w) →
  dinv w'.
Proof.
  intros [] (Hd & Hf & Hs & _) Hnew Hcur. split; rewrite ?Hd, ?Hf; try done.
  - intros p x [[y Hy]|(_ & c & q & -> & Hq & _)]%Hnew; [by eapply di_parent0|done].
  - intros p x [[y Hy]|[Hp _]]%Hnew; [by eapply di_disj0|done].
  - intros c p x [[y Hy]|(_ & c' & q & [= <- <-] & _ & Hc)]%Hnew; [by eapply di_clean_file0|done].
Qed.

Lemma names_fresh_slots f w w' : names_fresh w → files_to f w w' →
  (∀ p D k fl x, slot p = Some (D, k, fl) → suffix base D → f !! p = Some x →
     (∃ q fl' y, slot q = Some (D, k, fl') ∧ fs_files w !! q = Some y) ∨
     (∀ t n, k = name_of pid host t n → (n ≤ fs_seq w)%N)) →
  names_fresh w'.
Proof.
  intros Hn (_ & Hf & Hs & Hc) Hslots p D t n fl Hp HD Ht Hlt. rewrite Hs in Hlt. rewrite Hc in Ht. rewrite Hf.
  apply eq_None_not_Some. intros [x Hx]. destruct (Hslots _ _ _ _ _ Hp HD Hx) as [(q & fl' & y & Hq & Hy)|Hle].
  - by rewrite (Hn q D t n fl' Hq HD Ht Hlt) in Hy.
  - specialize (Hle t n eq_refl). lia.
Qed.

(** *** Write *)

(** Nothing that can be observed through the store has changed since [w0];
    the mailbox directories exist. *)
Record quiet (w0 : Fs) (D : Path) (w : Fs) : Prop := {
  qu_minv : minv w;
  qu_holds : ∀ a b f, mholds w a b f ↔ mholds w0 a b f;
  qu_dirs : ∀ sub, reserved sub = true → sub :: D ∈ fs_dirs w;
}.

Lemma quiet_same w0 D w w' : quiet w0 D w → same w w' → quiet w0 D w'.
Proof.
  intros [Hm Hh Hd] Hs. split; [by eapply minv_same|..].
  - intros a b f. by rewrite (mholds_same _ _ a b f Hs).
  - destruct Hs as (-> & _). done.
Qed.

Lemma quiet_tmp f w0 D w w' n x :
  quiet w0 D w → suffix base D → clean n = true → files_to f w w' →
  f = <[n :: dirTmp :: D := x]> (fs_files w) ∨ f = delete (n :: dirTmp :: D) (fs_files w) →
  quiet w0 D w'.
Proof.
  intros [[Hd Hu Hn] Hh Hdirs] HD Hc Hf Hor.
  assert (Hslot : ∀ p, slot p ≠ None → f !! p = fs_files w !! p).
  { intros p Hp. assert (n :: dirTmp :: D ≠ p) by (by intros <-).
    destruct Hor as [-> | ->]; [by rewrite lookup_insert_ne|by rewrite lookup_delete_ne]. }
  assert (Hmem : ∀ p y, f !! p = Some y → fs_files w !! p = Some y ∨ p = n :: dirTmp :: D).
  { intros p y. destruct Hor as [-> | ->]; rewrite ?lookup_insert_Some, ?lookup_delete_Some; naive_solver. }
  destruct (holds_in_other base (fs_files w) f Hslot) as [Hiff Huf].
  split; [split|..].
  - eapply dinv_files; [exact Hd|exact Hf|..].
    + intros p y [Hy| ->]%Hmem; [by left|right]. split; [by eapply di_flat|]. eauto 10.
    + intros c D' y HD'. rewrite Hslot by done. by eapply di_new.
  - destruct Hf as (_ & -> & _). auto.
  - eapply names_fresh_slots; [exact Hn|exact Hf|]. intros p D' k fl y Hp _ Hy. left.
    rewrite Hslot in Hy by congruence. eauto.
  - intros a b fl. rewrite <-Hh. destruct Hf as (_ & Hf & _). unfold mholds. by rewrite Hf.
  - destruct Hf as (-> & _). done.
Qed.

Lemma quiet_remove w0 D w n r w' :
  quiet w0 D w → suffix base D → clean n = true →
  Remove (n :: dirTmp :: D) w = (r, w') → quiet w0 D w'.
Proof.
  intros Hq HD Hc E. pose proof Hq as [[Hd _ _] _ _]. apply Remove_inv in E; [|by eapply di_flat].
  destruct r as [[]|e]; [|by eapply quiet_same].
  destruct E as [_ Hf]. eapply (quiet_tmp _ _ _ _ _ n ("", 0%Z)); eauto.
Qed.

(** The steps after the temporary file exists. *)
Lemma or_remove_quiet {A B} w0 D n f (m : M Fs (res A)) (k : M Fs (res B)) w r w' :
  suffix base D → clean n = true → quiet w0 D w →
  (∀ r1 w1, m w = (r1, w1) → is_Ok r1 = false → quiet w0 D w1) →
  or_remove (n :: dirTmp :: D) f m k w = (r, w') →
  (∃ a w1, m w = (Ok a, w1) ∧ k w1 = (r, w')) ∨ (is_Ok r = false ∧ quiet w0 D w').
Proof.
  intros HD Hc Hq Hm. unfold or_remove, bind, ret. destruct (m w) as [[a|e] w1] eqn:E; [by eauto|].
  destruct (Remove _ w1) as [r2 w2] eqn:Er. intros [= <- <-]. right. split; [done|].
  eapply quiet_remove; [|exact HD|exact Hc|exact Er]. by eapply Hm.
Qed.

(** Delivery of the temporary file to new/. *)
Lemma deliver_spec w0 D w n body t w' :
  quiet w0 D w → suffix base D → clean n = true → str_in ":" n = false →
  fs_files w !! (n :: dirTmp :: D) = Some (body, t) → (∀ b f, ¬ mholds w0 (D, n) b f) →
  (∀ t' k, n = name_of pid host t' k → (k ≤ fs_seq w)%N) →
  Rename (n :: dirTmp :: D) (n :: dirNew :: D) w = (Ok tt, w') →
  minv w' ∧ ∀ a b f, mholds w' a b f ↔ (a = (D, n) ∧ b = body ∧ f = []) ∨ mholds w0 a b f.
Proof.
  intros Hq HD Hc Hcol Hx Hfree Hseq (x & Hx' & Hnd & _ & Hf)%Rename_inv.
  rewrite Hx in Hx'. injection Hx' as <-.
  set (mid := mkFs (fs_dirs w) (delete (n :: dirTmp :: D) (fs_files w)) (fs_seq w) (fs_clock w) (fs_oracle w)).
  assert (Hqm : quiet w0 D mid).
  { eapply (quiet_tmp _ _ _ w _ n ("", 0%Z)); [exact Hq|done|done|by unfold files_to|by right]. }
  destruct Hqm as [[Hd Hu Hnf] Hh Hdirs].
  destruct (holds_in_insert base (fs_files mid) (n :: dirNew :: D) (D, n) [] body t Hu HD (slot_new n D)) as [Hu' Hh'].
  { intros b f Hx'. eapply Hfree, Hh, Hx'. }
  assert (Hfm : files_to (<[n :: dirNew :: D := (body, t)]> (fs_files mid)) mid w') by exact Hf.
  split; [split|].
  - eapply dinv_files; [exact Hd|exact Hfm|..].
    + intros p y [[<- _]|[_ Hy]]%lookup_insert_Some; [right|by left]. split; [done|].
      exists n, (dirNew :: D). split_and!; [done|by apply Hdirs|done].
    + intros c D' y HD' [[? _]|[_ Hy]]%lookup_insert_Some; [done|]. by eapply di_new.
  - destruct Hfm as (_ & -> & _). done.
  - eapply names_fresh_slots; [exact Hnf|exact Hfm|].
    intros p D' k fl y Hp HD' [[<- _]|[_ Hy]]%lookup_insert_Some; [right|left; by eauto].
    injection Hp as <- <- <-. exact Hseq.
  - intros a b f. rewrite <-Hh. destruct Hfm as (_ & Hfm & _). unfold mholds. rewrite Hfm. apply Hh'.
Qed.

Lemma mkdir_sub_inv v m sub k w r w' :
  box v m → reserved sub = true →
  minv w → mkdir_sub (mdir v m) sub k w = (r, w') →
  ∃ w1, minv w1 ∧ fs_files w1 = fs_files w ∧ fs_seq w1 = fs_seq w ∧ fs_dirs w ⊆ fs_dirs w1 ∧
  ((is_Ok r = false ∧ w' = w1) ∨ (sub :: mdir v m ∈ fs_dirs w1 ∧ k w1 = (r, w'))).
Proof.
  intros Hb Hr Hi. unfold mkdir_sub, mtry, wrap. rewrite join_path_clean by by apply clean_reserved.
  destruct (MkdirAll _ w) as [[[]|e] w1] eqn:E; simpl; intros Hk;
    pose proof (minv_mkdir v m sub w _ w1 Hi Hb Hr E) as (Hi1 & Hf & Hs & Hd & Hok); exists w1; split_and!; try done.
  - right. by split; [apply Hok|].
  - left. by injection Hk as <- <-.
Qed.

Lemma ensure_spec v m w r w' :
  minv w → box v m → ensureMailboxDirs base v m w = (r, w') →
  match r with
  | Ok D => D = mdir v m ∧ quiet w D w' ∧ fs_files w' = fs_files w ∧ fs_seq w' = fs_seq w
  | Err _ => minv w' ∧ ∀ a b f, mholds w' a b f ↔ mholds w a b f
  end.
Proof.
  intros Hi Hb. unfold ensureMailboxDirs, mholds. rewrite mailboxDir_box by done.
  intros (w1 & Hi1 & Hf1 & Hs1 & Hd1 & [[Hr ->]|[H1 E]])%mkdir_sub_inv; [..|done|done|done].
  { destruct r; [done|]. by rewrite Hf1. }
  apply mkdir_sub_inv in E as (w2 & Hi2 & Hf2 & Hs2 & Hd2 & [[Hr ->]|[H2 E]]); [..|done|done|done].
  { destruct r; [done|]. by rewrite Hf2, Hf1. }
  apply mkdir_sub_inv in E as (w3 & Hi3 & Hf3 & Hs3 & Hd3 & [[Hr ->]|[H3 E]]); [..|done|done|done].
  { destruct r; [done|]. by rewrite Hf3, Hf2, Hf1. }
  injection E as <- <-. split_and!; [done| |congruence|congruence]. split; [done| |].
  - intros a b f. unfold mholds. by rewrite Hf3, Hf2, Hf1.
  - intros sub Hr. unfold reserved in Hr. rewrite !orb_true_iff, !String.eqb_eq in Hr.
    destruct Hr as [[Hr|Hr]|Hr]; rewrite Hr; set_solver.
Qed.

Lemma uniqueName_spec w0 D w :
  quiet w0 D w → suffix base D → ∃ n w', uniqueName pid host w = (n, w') ∧ quiet w0 D w' ∧
  clean n = true ∧ str_in ":" n = false ∧ (∀ b f, ¬ mholds w0 (D, n) b f) ∧
  (∀ t k, n = name_of pid host t k → (k ≤ fs_seq w')%N).
Proof.
  intros [[Hd Hu Hn] Hh Hdirs] HD. unfold uniqueName. do 2 eexists. split; [done|].
  split; [split; [split|..]|split_and!].
  - destruct Hd. by split.
  - done.
  - intros p D' t n f Hp HD' Ht Hlt. simpl in *. eapply Hn; [done..|lia].
  - done.
  - done.
  - apply name_clean.
  - apply name_colon.
  - intros b f Hx. apply Hh in Hx as (_ & p & t & Hp & Hx). simpl in Hp.
    rewrite (Hn p D _ _ f Hp HD) in Hx; [done|lia..].
  - intros t k He%name_inj. simpl. lia.
Qed.

Lemma Write_spec ctx v m body w r w' :
  minv w → box v m → Write base pid host ctx v m body w = (r, w') →
  match r with
  | Ok ref => minv w' ∧ valid ref ∧ rf_Vhost ref = v ∧ rf_Mailbox ref = m ∧ ∃ b, body = Ok b ∧
      (∀ b' f', ¬ mholds w (addr ref) b' f') ∧
      ∀ a b' f', mholds w' a b' f' ↔ (a = addr ref ∧ b' = b ∧ f' = []) ∨ mholds w a b' f'
  | Err _ => minv w' ∧ ∀ a b f, mholds w' a b f ↔ mholds w a b f
  end.
Proof.
  intros Hi Hb. unfold Write, guard_ctx. destruct (ctx_Err ctx); [by intros [= <- <-]|]. unfold mtry at 1.
  destruct (ensureMailboxDirs base v m w) as [[D|e] w1] eqn:E1.
  2:{ intros [= <- <-]. by apply ensure_spec in E1. }
  apply ensure_spec in E1 as (-> & Hq & _ & _); [|done|done].
  pose proof (mdir_suffix v m) as HD. set (D := mdir v m) in *.
  destruct (uniqueName_spec _ _ _ Hq HD) as (n & w2 & E2 & Hq2 & Hc & Hcol & Hfree & Hseq).
  unfold bind at 1. rewrite E2. rewrite !join_path_clean by (done || by apply clean_reserved).
  unfold mtry, wrap. destruct (OpenExcl _ w2) as [r3 w3] eqn:E3. apply OpenExcl_inv in E3.
  assert (Hquiet : ∀ w', quiet w D w' → is_Ok r = false → match r with
    | Ok ref => minv w' ∧ valid ref ∧ rf_Vhost ref = v ∧ rf_Mailbox ref = m ∧ ∃ b, body = Ok b ∧
      (∀ b' f', ¬ mholds w (addr ref) b' f') ∧
      ∀ a b' f', mholds w' a b' f' ↔ (a = addr ref ∧ b' = b ∧ f' = []) ∨ mholds w a b' f'
    | Err _ => minv w' ∧ ∀ a b f, mholds w' a b f ↔ mholds w a b f
    end).
  { intros w4 [Hm Hh _]. by destruct r. }
  destruct r3 as [[]|e]; simpl.
  2:{ intros [= <- <-]. apply Hquiet; [by eapply quiet_same|done]. }
  destruct E3 as (_ & _ & _ & Hf3). assert (Hq3 : quiet w D w3) by (eapply quiet_tmp; eauto).
  intros E. apply (or_remove_quiet w D) in E as [(? & w4 & E4 & E)|[? ?]]; [|by apply Hquiet|done|done|done|].
  2:{ intros r1 w4 E4%CopyTo_inv Hr. destruct r1; [done|]. by eapply quiet_same. }
  apply CopyTo_inv in E4 as (s & -> & Hf4). assert (Hq4 : quiet w D w4) by (eapply quiet_tmp; eauto).
  apply (or_remove_quiet w D) in E as [(? & w5 & E5%Sync_inv & E)|[? ?]]; [|by apply Hquiet|done|done|done|].
  2:{ intros r1 w5 E5%Sync_inv _. by eapply quiet_same. }
  assert (Hq5 : quiet w D w5) by (by eapply quiet_same).
  apply (or_remove_quiet w D) in E as [(? & w6 & E6%Sync_inv & E)|[? ?]]; [|by apply Hquiet|done|done|done|].
  2:{ intros r1 w6 E6%Sync_inv _. by eapply quiet_same. }
  assert (Hq6 : quiet w D w6) by (by eapply quiet_same).
  apply (or_remove_quiet w D) in E as [([] & w7 & E7 & E)|[? ?]]; [|by apply Hquiet|done|done|done|].
  2:{ intros r1 w7 E7%Rename_inv Hr. destruct r1; [done|]. by eapply quiet_same. }
  injection E as <- <-.
  assert (Hfile : fs_files w6 !! (n :: dirTmp :: D) = Some (s, fs_clock w3)).
  { destruct E6 as (_ & -> & _), E5 as (_ & -> & _), Hf4 as (_ & -> & _). apply lookup_insert_eq. }
  eapply (deliver_spec w) in E7 as [Hm7 Hh7]; [|done..| ].
  - unfold addr, valid. simpl. rewrite mailboxDir_box by done. split_and!; try done. exists s. by split_and!.
  - destruct E6 as (_ & _ & -> & _), E5 as (_ & _ & -> & _), Hf4 as (_ & _ & -> & _), Hf3 as (_ & _ & -> & _). done.
Qed.

(** *** Locating, reading, flags, removal *)

Lemma slot_inv p D k f : slot p = Some (D, k, f) →
  (p = k :: dirNew :: D ∧ f = []) ∨ ∃ c, p = c :: dirCur :: D ∧ cut_info c = (k, f).
Proof.
  destruct p as [|c [|sub p]]; try done. simpl. destruct (String.eqb_spec sub dirNew) as [->|].
  - intros [= -> -> <-]. by left.
  - destruct (String.eqb_spec sub dirCur) as [->|]; [|done]. intros [= -> <- <-]. right.
    exists c. split; [done|]. by destruct (cut_info c).
Qed.

Lemma addr_suffix ref : valid ref → suffix base (fst (addr ref)).
Proof. intros [Hb _]. simpl. rewrite mailboxDir_box by done. apply mdir_suffix. Qed.

Lemma locate_spec ref w r w' : minv w → valid ref → locate base ref w = (r, w') →
  same w w' ∧ ∀ p fl b, r = Ok (p, fl, b) → slot p = Some (addr ref, fl) ∧ is_Some (fs_files w !! p).
Proof.
  intros [Hd _ _] Hv. pose proof (addr_suffix ref Hv) as HD. destruct Hv as (Hb & Hc & _).
  unfold locate, addr in *. simpl in HD. set (D := mailboxDir base (rf_Vhost ref) (rf_Mailbox ref)) in *.
  rewrite !(join_path_clean D), !join_path_clean by done. unfold bind, ret.
  destruct (Stat _ w) as [r1 w1] eqn:E1. apply Stat_inv in E1 as [Hs1 Hr1].
  destruct r1 as [[]|e1]; simpl.
  { intros [= <- <-]. split; [done|]. intros p fl b [= <- <- <-]. split; [apply slot_new|].
    destruct Hr1 as [Hin|Hin]; [|done]. exfalso. by eapply di_flat in Hin. }
  destruct (ReadDir _ w1) as [r2 w2] eqn:E2. apply ReadDir_inv in E2 as [Hs2 Hr2].
  assert (Hs : same w w2) by (by etrans).
  destruct r2 as [es|e2]; [|by intros [= <- <-]].
  destruct (List.find _ es) as [[c d]|] eqn:Ef; [|by intros [= <- <-]].
  intros [= <- <-]. split; [done|]. intros p fl b [= <- <- <-].
  apply List.find_some in Ef as [Hin%list_elem_of_In Hk%String.eqb_eq]. destruct Hr2 as [_ Hr2].
  apply Hr2 in Hin. destruct Hs1 as (Hd1&Hf1&_). rewrite Hd1, Hf1 in Hin. simpl in *. destruct d.
  - exfalso. by eapply di_flat in Hin.
  - destruct Hin as [x Hx]. rewrite join_path_clean by by eapply di_clean_file. rewrite slot_cur, Hk. eauto.
Qed.

Lemma Read_spec ctx ref w b w' : minv w → valid ref → Read base ctx ref w = (Ok b, w') →
  same w w' ∧ ∃ f, mholds w (addr ref) b f.
Proof.
  intros Hi Hv. pose proof (addr_suffix ref Hv) as HD. unfold Read, guard_ctx, mtry.
  destruct (ctx_Err ctx); [done|]. destruct (locate base ref w) as [[[[p fl] i]|e] w1] eqn:E1; [|done].
  apply locate_spec in E1 as [Hs Hl]; [|done..]. destruct (Hl p fl i eq_refl) as [Hp [x Hx]].
  simpl. intros E2%Open_inv. destruct E2 as [Hs2 Hr]. split; [by etrans|].
  pose proof Hs as (Hd&Hf&_). destruct (Hr b eq_refl) as [[t Ht]|Hin].
  - exists fl. split; [done|]. exists p, t. by rewrite <-Hf.
  - exfalso. rewrite Hd in Hin. by eapply di_disj; [apply Hi| |].
Qed.

Lemma str_in_letters c l : c ∉ l → str_in c (String.string_of_list_ascii l) = false.
Proof.
  induction l as [|d l IH]; simpl; [done|]. rewrite not_elem_of_cons. intros [Hc Hl].
  by rewrite bool_decide_false, IH.
Qed.

Lemma flags_clean k fl : clean k = true → clean (k +:+ infoSep +:+ encodeFlags fl) = true.
Proof.
  intros Hk%clean_slash. set (n := k +:+ infoSep +:+ encodeFlags fl).
  assert (Hn : str_in ":" n = true) by (unfold n; rewrite !str_in_app; by rewrite orb_true_r).
  unfold clean. rewrite !andb_true_iff, !negb_true_iff, !String.eqb_neq. split_and!.
  1-3: by intros He; rewrite He in Hn.
  unfold n. rewrite !str_in_app, Hk. simpl. apply str_in_letters. rewrite sort_by_perm, list_elem_of_omap.
  intros (f & _ & Hf). unfold maildirFlagLetters in Hf. by repeat case_match.
Qed.

(** A message moved to another file name of the same mailbox and key. *)
Lemma move_spec w p q ref fl fl' b t w' :
  minv w → valid ref → slot p = Some (addr ref, fl) → slot q = Some (addr ref, fl') →
  fs_files w !! p = Some (b, t) → q ∉ fs_dirs w → tail q ∈ fs_dirs w → clean (default "" (head q)) = true →
  files_to (<[q := (b, t)]> (delete p (fs_files w))) w w' →
  minv w' ∧ ∀ a b' f', mholds w' a b' f' ↔
    (a = addr ref ∧ b' = b ∧ f' = fl') ∨ (a ≠ addr ref ∧ mholds w a b' f').
Proof.
  intros [Hd Hu Hn] Hv Hp Hq Hx Hqd Hqt Hqc Hf. pose proof (addr_suffix ref Hv) as HD.
  destruct (holds_in_delete base _ p (addr ref) fl (b, t) Hu HD Hp Hx) as [Hu1 Hh1].
  destruct (holds_in_insert base (delete p (fs_files w)) q (addr ref) fl' b t Hu1 HD Hq) as [Hu2 Hh2].
  { intros b' f' [Hne _]%Hh1. done. }
  split; [split|].
  - eapply dinv_files; [exact Hd|exact Hf|..].
    + intros p' y [[<- _]|[_ [_ Hy]%lookup_delete_Some]]%lookup_insert_Some; [right|by left].
      split; [done|]. destruct q as [|c q]; [done|]. by exists c, q.
    + intros c D y HD' [[He _]|[_ [_ Hy]%lookup_delete_Some]]%lookup_insert_Some; [|by eapply di_new].
      rewrite He, slot_cur in Hq. clear Hh1 Hh2. destruct (addr ref) as [D0 k0]. injection Hq as <- _ _.
      destruct (slot_inv _ _ _ _ Hp) as [[-> _]|(c' & -> & _)]; [|by eapply di_new].
      by apply (di_parent w Hd) in Hx as [_ Hx].
  - destruct Hf as (_ & -> & _). done.
  - eapply names_fresh_slots; [exact Hn|exact Hf|]. intros p' D k g y Hp' HD' Hy. left.
    apply lookup_insert_Some in Hy as [[<- _]|[_ [_ Hy]%lookup_delete_Some]]; [|by eauto].
    rewrite Hq in Hp'. injection Hp' as <- <- <-. eauto.
  - intros a b' f'. destruct Hf as (_ & Hf & _). unfold mholds. by rewrite Hf, Hh2, Hh1.
Qed.

Lemma UpdateFlags_spec ctx ref fl w r w' : minv w → valid ref → UpdateFlags base ctx ref fl w = (r, w') →
  match r with
  | Ok _ => minv w' ∧ ∃ b f0, mholds w (addr ref) b f0 ∧ ∀ a b' f', mholds w' a b' f' ↔
      (a = addr ref ∧ b' = b ∧ f' = norm fl) ∨ (a ≠ addr ref ∧ mholds w a b' f')
  | Err _ => same w w'
  end.
Proof.
  intros Hi Hv. pose proof (addr_suffix ref Hv) as HD. unfold UpdateFlags, guard_ctx, mtry, wrap.
  destruct (ctx_Err ctx); [by intros [= <- <-]|].
  destruct (locate base ref w) as [r1 w1] eqn:E1. apply locate_spec in E1 as [Hs Hl]; [|done..].
  destruct r1 as [[[p g] i]|e]; [|by intros [= <- <-]].
  destruct (Hl p g i eq_refl) as [Hp [[b t] Hx]].
  assert (Hi1 : minv w1) by (by eapply minv_same). pose proof Hs as (_&Hf1&_). rewrite <-Hf1 in Hx.
  pose proof Hv as (Hb & Hc & Hcol). cbn [fst snd].
  rewrite (join_path_clean (mailboxDir _ _ _) dirCur), join_path_clean by (done || by apply flags_clean).
  set (q := (rf_Key ref +:+ infoSep +:+ encodeFlags fl) :: dirCur :: mailboxDir base (rf_Vhost ref) (rf_Mailbox ref)).
  assert (Hq : slot q = Some (addr ref, norm fl)) by (unfold q; by rewrite slot_cur, cut_info_flags).
  assert (Hheld : mholds w1 (addr ref) b g) by (split; [done|]; by exists p, t).
  assert (Hw : ∀ a b f, mholds w1 a b f ↔ mholds w a b f) by (intros; by apply mholds_same).
  case_decide as Hpq.
  - intros [= <- <-]. split; [done|]. exists b, g. split; [by apply Hw|]. intros a b' f'. rewrite <-Hw.
    rewrite Hpq, Hq in Hp. injection Hp as <-. split.
    + intros Ha. destruct (decide (a = addr ref)) as [->|]; [left|by right].
      by destruct (holds_in_fun base _ _ _ _ _ _ (mi_uniq _ Hi1) Hheld Ha) as [-> ->].
    + by intros [(-> & -> & ->)|[_ ?]].
  - destruct (Rename p q w1) as [r2 w2] eqn:E2. apply Rename_inv in E2. destruct r2 as [[]|e2]; simpl.
    2:{ intros [= <- <-]. by etrans. }
    destruct E2 as (x & Hx' & Hqd & Hqt & Hf2). rewrite Hx in Hx'. injection Hx' as <-. intros [= <- <-].
    apply (move_spec w1 p q ref g (norm fl) b t w2) in Hf2 as [Hi2 Hh2];
      [|try done..|by apply flags_clean].
    split; [done|]. exists b, g. split; [by apply Hw|]. intros a b' f'. by rewrite Hh2, Hw.
Qed.

Lemma Delete_spec ctx ref w r w' : minv w → valid ref → Delete base ctx ref w = (r, w') →
  match r with
  | Ok _ => minv w' ∧ (∃ b f, mholds w (addr ref) b f) ∧
      ∀ a b' f', mholds w' a b' f' ↔ a ≠ addr ref ∧ mholds w a b' f'
  | Err _ => same w w'
  end.
Proof.
  intros Hi Hv. pose proof (addr_suffix ref Hv) as HD. unfold Delete, guard_ctx, mtry, wrap.
  destruct (ctx_Err ctx); [by intros [= <- <-]|].
  destruct (locate base ref w) as [r1 w1] eqn:E1. apply locate_spec in E1 as [Hs Hl]; [|done..].
  destruct r1 as [[[p g] i]|e]; [|by intros [= <- <-]].
  destruct (Hl p g i eq_refl) as [Hp [[b t] Hx]].
  assert (Hi1 : minv w1) by (by eapply minv_same). pose proof Hs as (_&Hf1&_). rewrite <-Hf1 in Hx.
  assert (Hw : ∀ a b f, mholds w1 a b f ↔ mholds w a b f) by (intros; by apply mholds_same).
  simpl. destruct (Remove p w1) as [r2 w2] eqn:E2.
  apply Remove_inv in E2; [|by eapply di_disj; [apply Hi1|]]. destruct r2 as [[]|e2]; simpl.
  2:{ intros [= <- <-]. by etrans. }
  destruct E2 as [_ Hf2]. intros [= <- <-]. destruct Hi1 as [Hd Hu Hn].
  destruct (holds_in_delete base _ p (addr ref) g (b, t) Hu HD Hp Hx) as [Hu2 Hh2].
  split; [split|split].
  - eapply dinv_files; [exact Hd|exact Hf2|..].
    + intros p' y [_ Hy]%lookup_delete_Some. by left.
    + intros c D y HD' [_ Hy]%lookup_delete_Some. by eapply di_new.
  - destruct Hf2 as (_ & -> & _). done.
  - eapply names_fresh_slots; [exact Hn|exact Hf2|]. intros p' D k f y Hp' HD' [_ Hy]%lookup_delete_Some.
    left. eauto.
  - exists b, g. apply Hw. split; [done|]. by exists p, t.
  - intros a b' f'. rewrite <-Hw. destruct Hf2 as (_ & Hf2 & _). unfold mholds. by rewrite Hf2, Hh2.
Qed.

(** *** Listing a mailbox *)

Definition entry_meta (v m : string) (isNew : bool) (c : string) (x : string * Time) : MessageMeta :=
  mkMeta (mkRef v m (if isNew then c else fst (cut_info c))) (Z.of_nat (String.length (fst x)))
    (if isNew then [] else snd (cut_info c)) (snd x).

Lemma list_entry_inv v m dir isNew c d out w r w' :
  clean c = true → list_entry v m dir isNew (c, d) out w = (r, w') → same w w' ∧
  match r with
  | inl x => is_Ok x = false
  | inr out' => (d = true ∧ out' = out) ∨
      (d = false ∧ ∃ x, fs_files w !! (c :: dir) = Some x ∧ out' = out ++ [entry_meta v m isNew c x])
  end.
Proof.
  intros Hc. unfold list_entry, bind, ret. simpl. destruct d; [intros [= <- <-]; by split; [|left]|].
  rewrite join_path_clean by done. destruct (Info _ w) as [[[n t]|e] w1] eqn:E; apply Info_inv in E as [Hs Hi].
  2:{ by intros [= <- <-]. }
  destruct (Hi n t eq_refl) as (s & Hx & ->). unfold entry_meta.
  destruct isNew, (cut_info c) as [k fl]; intros [= <- <-]; (split; [done|right; eauto]).
Qed.

Lemma list_entries_spec v m dir isNew es w0 w out :
  dinv w0 → same w0 w → (∀ c d, (c, d) ∈ es ↔ (if d : bool then c :: dir ∈ fs_dirs w0 else is_Some (fs_files w0 !! (c :: dir)))) →
  let '(r, w') := mfor es (list_entry v m dir isNew) out w in same w0 w' ∧
  match r with
  | inl x => is_Ok x = false
  | inr out' => ∀ x, x ∈ out' ↔ x ∈ out ∨
      ∃ c y, fs_files w0 !! (c :: dir) = Some y ∧ x = entry_meta v m isNew c y
  end.
Proof.
  intros Hd Hs Hes.
  set (P := λ (pre : list (string * bool)) (out' : list MessageMeta) w', same w0 w' ∧ ∀ x, x ∈ out' ↔ x ∈ out ∨
     ∃ c y, (c, false) ∈ pre ∧ fs_files w0 !! (c :: dir) = Some y ∧ x = entry_meta v m isNew c y).
  assert (Hpre : P [] out w).
  { split; [done|]. intros x. split; [by left|]. intros [?|(c & y & Hn & _)]; [done|]. by apply elem_of_nil in Hn. }
  assert (Hstep : ∀ pre a acc w1, (∃ post, es = pre ++ a :: post) → P pre acc w1 →
    match list_entry v m dir isNew a acc w1 with
    | (inl r, w2) => same w0 w2 ∧ is_Ok r = false
    | (inr acc', w2) => P (pre ++ [a]) acc' w2
    end).
  { intros pre [c d] acc w1 [post ->] [Hs1 Hacc].
    assert (Hin : (c, d) ∈ pre ++ (c, d) :: post) by set_solver. apply Hes in Hin.
    assert (Hc : clean c = true).
    { destruct d; [by eapply di_clean_dir|]. destruct Hin. by eapply di_clean_file. }
    destruct (list_entry v m dir isNew (c, d) acc w1) as [r1 w2] eqn:E.
    apply list_entry_inv in E as [Hs2 Hr]; [|done]. assert (same w0 w2) by (by etrans).
    destruct r1 as [x|out']; [done|]. split; [done|]. pose proof Hs1 as (_ & Hf1 & _).
    destruct Hr as [[-> ->]|(-> & y & Hy & ->)]; intros x; rewrite ?elem_of_app, Hacc;
      setoid_rewrite elem_of_app; setoid_rewrite list_elem_of_singleton; [naive_solver|].
    rewrite Hf1 in Hy. split.
    - intros [[?|(c' & y' & ? & ? & ?)]| ->]; [by left|right; eauto 10|right; eauto 10].
    - intros [?|(c' & y' & [?|[= ->]] & Hy' & ->)]; [by left; left|left; right; eauto 10|right]. congruence. }
  pose proof (mfor_rule _ _ _ _ Hstep out w Hpre) as Hrule. destruct (mfor es _ out w) as [[r|out'] w']; [done|].
  destruct Hrule as [Hs' Hout]. split; [done|]. intros x. rewrite Hout. split.
  - intros [?|(c & y & _ & ? & ?)]; [by left|right; eauto].
  - intros [?|(c & y & Hy & ->)]; [by left|right]. exists c, y. split; [|done]. apply Hes. by eexists.
Qed.

Lemma list_sub_spec v m w0 w sub isNew out :
  dinv w0 → same w0 w → reserved sub = true →
  let '(r, w') := list_sub base v m (sub, isNew) out w in same w0 w' ∧
  match r with
  | inl x => is_Ok x = false
  | inr out' => ∀ x, x ∈ out' ↔ x ∈ out ∨
      ∃ c y, fs_files w0 !! (c :: sub :: mailboxDir base v m) = Some y ∧ x = entry_meta v m isNew c y
  end.
Proof.
  intros Hd Hs Hr. unfold list_sub, bind. cbn [fst snd]. rewrite join_path_clean by by apply clean_reserved.
  destruct (ReadDir _ w) as [[es|e] w1] eqn:E; apply ReadDir_inv in E as [Hs1 He];
    (assert (same w0 w1) by (by etrans)); destruct Hs as (Hd0 & Hf0 & _).
  - apply list_entries_spec; [done..|]. destruct He as [_ He]. intros c d. by rewrite He, Hd0, Hf0.
  - destruct (IsNotExist e); [|done]. split; [done|]. intros x. split; [by left|].
    intros [?|(c & y & Hy & _)]; [done|]. apply (di_parent w0 Hd) in Hy as [_ Hy].
    rewrite <-Hd0 in Hy. by destruct He.
Qed.

Lemma List_spec ctx v m w r w' :
  dinv w → List_ base ctx v m w = (r, w') → same w w' ∧
  ∀ l, r = Ok l → ∀ x, x ∈ l ↔ ∃ p k fl y, slot p = Some (mailboxDir base v m, k, fl) ∧
    fs_files w !! p = Some y ∧ x = mkMeta (mkRef v m k) (Z.of_nat (String.length (fst y))) fl (snd y).
Proof.
  intros Hd. unfold List_, guard_ctx. destruct (ctx_Err ctx); [by intros [= <- <-]|].
  unfold map_order, bind, ret. destruct (fault w) as [b w1] eqn:Ef. apply fault_inv in Ef.
  set (subs := if b then [(dirCur, false); (dirNew, true)] else [(dirNew, true); (dirCur, false)]).
  assert (Hsubs : ∀ sub i, (sub, i) ∈ subs ↔ (sub = dirNew ∧ i = true) ∨ (sub = dirCur ∧ i = false)).
  { intros sub i. unfold subs. destruct b; rewrite !elem_of_cons, elem_of_nil; naive_solver. }
  set (P := λ (pre : list (string * bool)) (out : list MessageMeta) w2, same w w2 ∧ ∀ x, x ∈ out ↔ ∃ sub i c y, (sub, i) ∈ pre ∧
     fs_files w !! (c :: sub :: mailboxDir base v m) = Some y ∧ x = entry_meta v m i c y).
  assert (Hpre : P [] [] w1).
  { split; [done|]. intros x. split; [by intros ?%elem_of_nil|]. by intros (?&?&?&?&?%elem_of_nil&_). }
  assert (Hstep : ∀ pre a acc w2, (∃ post, subs = pre ++ a :: post) → P pre acc w2 →
    match list_sub base v m a acc w2 with
    | (inl r, w3) => same w w3 ∧ is_Ok r = false
    | (inr acc', w3) => P (pre ++ [a]) acc' w3
    end).
  { intros pre [sub i] acc w2 [post Hl] [Hs2 Hacc].
    assert (Hin : (sub, i) ∈ subs) by (rewrite Hl; set_solver).
    assert (Hr : reserved sub = true) by (by apply Hsubs in Hin as [[-> _]|[-> _]]).
    pose proof (list_sub_spec v m w w2 sub i acc Hd Hs2 Hr) as Hls.
    destruct (list_sub base v m (sub, i) acc w2) as [[x|out] w3]; [done|]. destruct Hls as [Hs3 Hout].
    split; [done|]. intros x. rewrite Hout, Hacc. setoid_rewrite elem_of_app.
    setoid_rewrite list_elem_of_singleton. clear. naive_solver. }
  pose proof (mfor_rule _ _ _ _ Hstep [] w1 Hpre) as Hrule.
  cbv beta iota. destruct (mfor subs _ [] w1) as [[x|out] w3]; intros [= <- <-].
  { destruct Hrule as [? Hx]. split; [done|]. intros l ->. done. }
  destruct Hrule as [Hs3 Hout]. split; [done|]. intros l [= <-] x. rewrite Hout. split.
  - intros (sub & i & c & y & Hin & Hy & ->). apply Hsubs in Hin as [[-> ->]|[-> ->]].
    + exists (c :: dirNew :: mailboxDir base v m), c, [], y. done.
    + exists (c :: dirCur :: mailboxDir base v m). do 3 eexists. split; [apply slot_cur|done].
  - intros (p & k & fl & y & Hp & Hy & ->). apply slot_inv in Hp as [[-> ->]|(c & -> & Hc)].
    + exists dirNew, true, k, y. split; [apply Hsubs; by left|]. done.
    + exists dirCur, false, c, y. split; [apply Hsubs; by right|]. split; [done|]. unfold entry_meta. by rewrite Hc.
Qed.

(** *** Listing a vhost *)

(** The mailbox directories the walk from [p] finds. *)
Definition found (w : Fs) (p d : Path) : Prop :=
  (head p = Some dirNew ∧ d = tail p) ∨
  (head p ≠ Some dirNew ∧ dirNew :: d ∈ fs_dirs w ∧ ∃ l, d = l ++ p ∧ Forall (λ c, c ≠ dirNew) l).

Lemma dirs_suffix w p q : dinv w → q ∈ fs_dirs w → suffix p q → p ∈ fs_dirs w.
Proof.
  intros Hd Hq [k ->]. induction k as [|c k IH]; [done|]. apply IH. by eapply di_closed.
Qed.

Lemma found_children w p d : dinv w → head p ≠ Some dirNew →
  found w p d ↔ ∃ c, c :: p ∈ fs_dirs w ∧ found w (c :: p) d.
Proof.
  intros Hd Hp. split.
  - intros [[? _]|(_ & Hin & l & -> & Hl)]; [done|].
    destruct l as [|c l _] using rev_ind; [exists dirNew; split; [done|by left]|].
    apply Forall_app in Hl as [Hl Hc]. rewrite Forall_singleton in Hc. exists c.
    rewrite <-app_assoc in *. simpl in *. split.
    + eapply (dirs_suffix w); [done|exact Hin|]. by exists (dirNew :: l).
    + right. split; [intros [= He]; by apply Hc|]. split; [done|]. by exists l.
  - intros (c & Hc & [[[= ->] ->]|(Hn & Hin & l & -> & Hl)]); right; (split; [done|]); simpl in *.
    + split; [done|]. by exists [].
    + split; [done|]. exists (l ++ [c]). rewrite <-app_assoc. split; [done|].
      apply Forall_app. split; [done|]. apply Forall_singleton. congruence.
Qed.

Lemma walk_head (p : Path) : String.eqb (default "" (head p)) dirNew = true ↔ head p = Some dirNew.
Proof. rewrite String.eqb_eq. destruct p; simpl; [done|]. naive_solver. Qed.

Lemma walk_spec w0 : dinv w0 → ∀ fuel p acc w, same w0 w →
  let '(r, w') := walk fuel p acc w in same w0 w' ∧
  ∀ acc', r = Ok acc' → ∀ d, d ∈ acc' ↔ d ∈ acc ∨ found w0 p d.
Proof.
  intros Hd. induction fuel as [|fuel IH]; intros p acc w Hs; simpl; [done|].
  destruct (String.eqb _ dirNew) eqn:Eh; [apply walk_head in Eh|apply not_true_iff_false in Eh; rewrite walk_head in Eh].
  { split; [done|]. intros acc' [= <-] d. unfold found.
    assert (Hx : d ∈ (if decide (tail p ∈ acc) then acc else acc ++ [tail p]) ↔ d ∈ acc ∨ d = tail p).
    { case_decide; [naive_solver|]. by rewrite elem_of_app, list_elem_of_singleton. }
    rewrite Hx. tauto. }
  unfold mtry, bind, ret. destruct (ReadDir p w) as [[es|e] w1] eqn:E; apply ReadDir_inv in E as [Hs1 He];
    (assert (same w0 w1) as Hs01 by (by etrans)); [|by split].
  destruct He as [_ He]. destruct Hs as (Hd0 & Hf0 & _). setoid_rewrite Hd0 in He.
  set (P := λ (pre : list (string * bool)) (out : list Path) w2, same w0 w2 ∧
    ∀ d, d ∈ out ↔ d ∈ acc ∨ ∃ c, (c, true) ∈ pre ∧ found w0 (c :: p) d).
  set (body := λ (e : string * bool) (acc : list Path), _ : M Fs (res (list Path) + list Path)).
  assert (Hpre : P [] acc w1).
  { split; [done|]. intros d. split; [by left|]. by intros [?|(c & ?%elem_of_nil & _)]. }
  assert (Hstep : ∀ pre a acc w2, (∃ post, es = pre ++ a :: post) → P pre acc w2 →
    match body a acc w2 with
    | (inl r, w3) => same w0 w3 ∧ is_Ok r = false
    | (inr acc', w3) => P (pre ++ [a]) acc' w3
    end).
  { intros pre [c []] acc2 w2 _ [Hs2 Hacc]; unfold body; cbn [fst snd].
    - specialize (IH (c :: p) acc2 w2 Hs2). destruct (walk fuel (c :: p) acc2 w2) as [[acc3|e] w3]; [|by destruct IH].
      destruct IH as [Hs3 Hacc3]. split; [done|]. intros d. rewrite (Hacc3 acc3 eq_refl), Hacc.
      setoid_rewrite elem_of_app. setoid_rewrite list_elem_of_singleton. clear. naive_solver.
    - split; [done|]. intros d. rewrite Hacc. setoid_rewrite elem_of_app. setoid_rewrite list_elem_of_singleton.
      clear. naive_solver. }
  pose proof (mfor_rule _ _ _ _ Hstep acc w1 Hpre) as Hrule.
  destruct (mfor es body acc w1) as [[x|out] w3].
  { destruct Hrule as [? Hx]. split; [done|]. intros l ->. done. }
  destruct Hrule as [Hs3 Hout]. split; [done|]. intros l [= <-] d. rewrite Hout, found_children by done.
  setoid_rewrite He. done.
Qed.

Lemma WalkDir_spec w0 : dinv w0 → ∀ root w, same w0 w → head root ≠ Some dirNew →
  let '(r, w') := WalkDir root w in same w0 w' ∧
  ∀ dirs, r = Ok dirs → ∀ d, d ∈ dirs ↔ found w0 root d.
Proof.
  intros Hd root w Hs Hr. unfold WalkDir, mtry. destruct (Stat root w) as [[[]|e] w1] eqn:E;
    apply Stat_inv in E as [Hs1 _]; (assert (same w0 w1) as Hs01 by (by etrans)); [|done].
  unfold bind, get, ret. destruct (is_dir root w1) eqn:Ed.
  - pose proof (walk_spec w0 Hd (walk_fuel w1) root [] w1 Hs01) as Hw. destruct (walk _ _ _ w1) as [r w2].
    destruct Hw as [Hs2 Hdirs]. split; [done|]. intros dirs -> d. rewrite (Hdirs dirs eq_refl), elem_of_nil. naive_solver.
  - split; [done|]. intros dirs [= <-] d. split; [by intros ?%elem_of_nil|].
    intros [[? _]|(_ & Hin & l & -> & _)]; [done|]. exfalso. apply bool_decide_eq_false in Ed. apply Ed.
    destruct Hs01 as (-> & _). eapply (dirs_suffix w0); [done|exact Hin|]. by exists (dirNew :: l).
Qed.

Lemma Rel_app (p l : Path) : Rel p (l ++ p) = match rev l with [] => "." | r => Prelude.Join r "/" end.
Proof.
  unfold Rel. rewrite length_app, (proj2 (Nat.ltb_ge _ _)) by lia.
  by rewrite Nat.add_sub, take_app_length.
Qed.

Lemma mailboxDir_Rel v l : clean v = true → Forall (λ c, clean c = true) l →
  mailboxDir base v (Rel (v :: base) (l ++ v :: base)) = l ++ v :: base.
Proof.
  intros Hv Hl. unfold mailboxDir. rewrite (join_path_clean base v Hv), Rel_app.
  destruct (rev l) as [|c r] eqn:E.
  - apply (f_equal (@rev string)) in E. rewrite rev_involutive in E. by subst l.
  - assert (Hr : Forall (λ c, clean c = true) (c :: r)) by (rewrite <-E; by apply Forall_rev).
    unfold join_path. rewrite SplitByte_Join; [|done|].
    + rewrite join_path_app by done. by rewrite <-E, rev_involutive.
    + eapply Forall_impl; [exact Hr|]. apply clean_slash.
Qed.

Lemma found_below v w d : good v = true → found w (v :: base) d → suffix base d.
Proof.
  intros Hv [[[= ->] _]|(_ & _ & l & -> & _)]; [by apply (good_reserved dirNew) in Hv|].
  exists (l ++ [v]). by rewrite <-app_assoc.
Qed.

Lemma found_dir v w d : good v = true → dinv w → found w (v :: base) d →
  mailboxDir base v (Rel (v :: base) d) = d.
Proof.
  intros Hv Hd [[[= ->] _]|(_ & Hin & l & -> & _)]; [by apply (good_reserved dirNew) in Hv|].
  apply mailboxDir_Rel; [by apply good_clean|].
  apply Forall_forall. intros c [l1 [l2 ->]]%list_elem_of_split. eapply di_clean_dir; [done|].
  eapply (dirs_suffix w); [done|exact Hin|]. exists (dirNew :: l1). by rewrite <-!app_assoc.
Qed.

Lemma ListVhost_spec ctx v w r w' :
  dinv w → good v = true → ListVhost base ctx v w = (r, w') → same w w' ∧
  ∀ l, r = Ok l → ∀ x, x ∈ l ↔ ∃ d p k fl y, found w (v :: base) d ∧ slot p = Some (d, k, fl) ∧
    fs_files w !! p = Some y ∧
    x = mkMeta (mkRef v (Rel (v :: base) d) k) (Z.of_nat (String.length (fst y))) fl (snd y).
Proof.
  intros Hd Hv. pose proof (good_clean v Hv) as Hc. unfold ListVhost, guard_ctx.
  destruct (ctx_Err ctx); [by intros [= <- <-]|]. rewrite (join_path_clean base v Hc).
  assert (Hnew : head (v :: base) ≠ Some dirNew) by (intros [= ->]; by apply (good_reserved dirNew)).
  unfold bind at 1. destruct (Stat _ w) as [r1 w1] eqn:E1. apply Stat_inv in E1 as [Hs1 H1].
  destruct r1 as [[]|e]; unfold ret at 1.
  2:{ intros [= <- <-]. split; [done|]. intros l. destruct (IsNotExist e); [|done]. intros [= <-] x.
      split; [by intros ?%elem_of_nil|]. intros (d & p & k & fl & y & Hf & _). exfalso. apply H1; [done|].
      destruct Hf as [[? _]|(_ & Hin & l & -> & _)]; [done|]. eapply (dirs_suffix w); [done|exact Hin|].
      by exists (dirNew :: l). }
  unfold mtry, wrap. pose proof (WalkDir_spec w Hd (v :: base) w1 Hs1 Hnew) as Hwalk.
  destruct (WalkDir _ w1) as [r3 w3]. destruct Hwalk as [Hs3 Hdirs].
  destruct r3 as [dirs|e]; simpl; [|by intros [= <- <-]]. specialize (Hdirs dirs eq_refl).
  set (listed := λ (m : string) (x : MessageMeta), ∃ p k fl y, slot p = Some (mailboxDir base v m, k, fl) ∧
    fs_files w !! p = Some y ∧ x = mkMeta (mkRef v m k) (Z.of_nat (String.length (fst y))) fl (snd y)).
  set (P := λ (pre : list string) (out : list MessageMeta) w4, same w w4 ∧
    ∀ x, x ∈ out ↔ ∃ m, m ∈ pre ∧ listed m x).
  set (body := λ (mailbox : string) (out : list MessageMeta), _ : M Fs (res (list MessageMeta) + list MessageMeta)).
  assert (Hpre : P [] [] w3).
  { split; [done|]. intros x. split; [by intros ?%elem_of_nil|]. by intros (m & ?%elem_of_nil & _). }
  assert (Hstep : ∀ pre a acc w4, (∃ post, Rel (v :: base) <$> dirs = pre ++ a :: post) → P pre acc w4 →
    match body a acc w4 with
    | (inl r, w5) => same w w5 ∧ is_Ok r = false
    | (inr acc', w5) => P (pre ++ [a]) acc' w5
    end).
  { intros pre m acc w4 _ [Hs4 Hacc]. unfold body, bind, ret.
    destruct (List_ base ctx v m w4) as [r4 w5] eqn:E4. apply List_spec in E4 as [Hs5 Hl].
    2:{ by eapply dinv_same. }
    assert (same w w5) by (by etrans). destruct r4 as [l|e]; [|done]. split; [done|]. intros x.
    rewrite elem_of_app, Hacc, (Hl l eq_refl). destruct Hs4 as (_ & -> & _).
    etrans; [|by setoid_rewrite elem_of_app; setoid_rewrite list_elem_of_singleton].
    change (?A ∨ _ ↔ _) with (A ∨ listed m x ↔ ∃ m', (m' ∈ pre ∨ m' = m) ∧ listed m' x).
    clear. naive_solver. }
  pose proof (mfor_rule _ _ _ _ Hstep [] w3 Hpre) as Hrule. unfold bind at 1.
  destruct (mfor _ body [] w3) as [[x|out] w4]; intros [= <- <-].
  { destruct Hrule as [? Hx]. split; [done|]. intros l ->. done. }
  destruct Hrule as [Hs4 Hout]. split; [done|]. intros l [= <-] x. rewrite Hout. unfold listed.
  setoid_rewrite list_elem_of_fmap. setoid_rewrite Hdirs. split.
  - intros (m & (d & -> & Hf) & p & k & fl & y & Hp & Hy & ->).
    rewrite (found_dir v w d Hv Hd Hf) in Hp. eauto 10.
  - intros (d & p & k & fl & y & Hf & Hp & Hy & ->). exists (Rel (v :: base) d). split; [by exists d|].
    rewrite (found_dir v w d Hv Hd Hf). eauto 10.
Qed.

(** *** The contract *)

Lemma minv_frame w w' : same w w' → minv w → minv w' ∧ ∀ a b f, mholds w' a b f ↔ mholds w a b f.
Proof. intros Hs Hi. split; [by eapply minv_same|]. intros a b f. by apply mholds_same. Qed.

(** Every mailbox with a message has a new/ directory the walk reaches. *)
Lemma held_found w v m k b f :
  dinv w → box v m → mholds w (mailboxDir base v m, k) b f → found w (v :: base) (mailboxDir base v m).
Proof.
  intros Hd Hb (HD & p & t & Hp & Hx). simpl in HD. pose proof Hb as [Hv _]. right. split_and!.
  - intros [= ->]. by apply (good_reserved dirNew).
  - apply slot_inv in Hp as [[-> _]|(c & -> & _)]; [|by eapply di_new].
    by apply (di_parent w Hd) in Hx as [_ Hx].
  - rewrite mailboxDir_box by done. exists (rev (SplitByte m "/")). split; [done|].
    apply Forall_forall. intros c Hc ->. eapply (good_reserved dirNew); [|done].
    apply (mdir_good v m dirNew); [done|]. by apply elem_of_app; left.
Qed.

Lemma Rel_box v m : box v m → Rel (v :: base) (mailboxDir base v m) = m.
Proof.
  intros Hb. rewrite mailboxDir_box by done. unfold mdir. rewrite Rel_app, rev_involutive.
  destruct (SplitByte m "/") as [|c l] eqn:E; [by apply SplitByte_not_nil in E|].
  rewrite <-E. apply (Join_SplitByte "/").
Qed.

Lemma maildir_store_spec :
  @StoreSpec Fs (Path * string) (Backend base pid host) minv addr norm box valid mholds.
Proof.
  constructor; simpl.
  - intros w a b f b' f' Hi. apply holds_in_fun, Hi.
  - intros ctx v m body w ref w' Hi Hb E. by apply Write_spec in E.
  - intros ctx v m body w e w' Hi Hb E. by apply Write_spec in E.
  - intros ctx ref w b w' Hi Hv E. apply Read_spec in E as [Hs Hf]; [|done..].
    destruct (minv_frame _ _ Hs Hi). by split_and!.
  - intros ctx v m w l w' Hi Hb E. apply List_spec in E as [Hs Hl]; [|by apply Hi].
    destruct (minv_frame _ _ Hs Hi). specialize (Hl l eq_refl).
    assert (HD : suffix base (mailboxDir base v m)) by (rewrite mailboxDir_box by done; apply mdir_suffix).
    split_and!; [done..| |].
    + intros x (p & k & fl & [b t] & Hp & Hy & ->)%Hl. split_and!; [done..|]. exists b. split; [done|].
      simpl. eauto.
    + intros k b f _ (_ & p & t & Hp & Hy). eexists. split; [apply Hl; by exists p, k, f, (b, t)|done].
  - intros ctx v m0 w l w' Hi Hb E. apply ListVhost_spec in E as [Hs Hl]; [|by apply Hi|by apply Hb].
    destruct (minv_frame _ _ Hs Hi). specialize (Hl l eq_refl).
    split_and!; [done..| |].
    + intros x (d & p & k & fl & [b t] & Hf & Hp & Hy & ->)%Hl. split; [done|]. exists b.
      unfold addr. simpl. rewrite (found_dir v w d (proj1 Hb)) by (done || apply Hi).
      split; [exact (found_below v w d (proj1 Hb) Hf)|]. eauto.
    + intros m k b f Hb' _ Hh. pose proof (held_found w v m k b f (mi_dirs _ Hi) Hb' Hh) as Hf.
      destruct Hh as (_ & p & t & Hp & Hy). eexists. split; [apply Hl; by exists (mailboxDir base v m), p, k, f, (b, t)|].
      simpl. by rewrite Rel_box.
  - intros ctx ref fl w w' Hi Hv E. by apply UpdateFlags_spec in E.
  - intros ctx ref fl w e w' Hi Hv E. apply UpdateFlags_spec in E; [|done..]. by apply minv_frame.
  - intros ctx ref w w' Hi Hv E. by apply Delete_spec in E.
  - intros ctx ref w e w' Hi Hv E. apply Delete_spec in E; [|done..]. by apply minv_frame.
Qed.

(** C21: the maildir backend implements the same store contract, on references
    whose vhost, mailbox folders and key are plain names other than the
    reserved new, cur and tmp: whatever a call's outcome, a partly written
    message is never visible, an accepted one is held whole under a new key,
    flags keep their maildir letters, and nothing else changes. *)
Theorem maildir_store_contract :
  @StoreSpec Fs (Path * string) (Backend base pid host) minv addr norm box valid mholds.
Proof. apply maildir_store_spec. Qed.

(** *** What a session over the backend relies on *)

(** Valid references name one message each. *)
Lemma addr_inj r1 r2 : valid r1 → valid r2 → addr r1 = addr r2 → r1 = r2.
Proof.
  destruct r1 as [v1 m1 k1], r2 as [v2 m2 k2]. intros [Hb1 _] [Hb2 _] [= Hd ->]. simpl in Hb1, Hb2.
  rewrite !mailboxDir_box in Hd by done. unfold mdir in Hd.
  rewrite !(cons_middle _ _ base), !app_assoc in Hd. apply app_inv_tail, app_inj_tail in Hd as [Hm ->].
  apply (f_equal (@rev string)) in Hm. rewrite !rev_involutive in Hm.
  by rewrite <-(Join_SplitByte "/" m1), Hm, Join_SplitByte.
Qed.

(** Every key held is one a reference can carry.  The store keeps it so: it
    strengthens the invariant. *)
Definition keyed (a : Path * string) : Prop := clean (snd a) = true ∧ str_in ":" (snd a) = false.
Definition kinv (w : Fs) : Prop := minv w ∧ ∀ a b f, mholds w a b f → keyed a.

Lemma maildir_keyed_spec :
  @StoreSpec Fs (Path * string) (Backend base pid host) kinv addr norm box valid mholds.
Proof. apply (StoreSpec_strengthen (SS := maildir_store_spec)). by intros ref (_ & ? & ?). Qed.

Lemma List_valid ctx v m w l w' :
  kinv w → box v m → List_ base ctx v m w = (Ok l, w') → Forall (λ x, valid (mm_Ref x)) l.
Proof.
  intros Hi Hb E. destruct (sp_List_ok (StoreSpec := maildir_keyed_spec) _ _ _ _ _ _ Hi Hb E) as (_ & _ & Hl & _).
  apply Forall_forall. intros x (Hv & Hm & b & Hh)%Hl. destruct Hi as [_ Hk]. destruct (Hk _ _ _ Hh) as [Hc Hs].
  unfold valid. rewrite Hv, Hm. by split_and!.
Qed.

(** Reading and listing, whatever the names, only ask. *)
Lemma asking_quiet {A} (m : M Fs A) : along same m → Prelude.quiet kinv mholds m.
Proof.
  intros Hs w a w' E. apply Hs in E. split.
  - intros [Hi Hk]. split; [by eapply minv_same|]. intros a' b f. rewrite (mholds_same w w') by done. apply Hk.
  - destruct E as (_ & Hf & _). unfold mholds. by rewrite Hf.
Qed.

Lemma mfor_along {A B R} (body : A → B → M Fs (R + B)) l :
  (∀ a acc, along same (body a acc)) → ∀ acc, along same (mfor l body acc).
Proof.
  intros Hb. induction l as [|a l IH]; intros acc w r w'; simpl; [by intros [= _ <-]|].
  unfold bind, ret. destruct (body a acc w) as [[x|acc'] w1] eqn:E; apply Hb in E.
  - by intros [= _ <-].
  - intros E2. etrans; [done|by eapply IH].
Qed.

Lemma Read_along ctx ref : along same (Read base ctx ref).
Proof.
  unfold Read, guard_ctx. destruct (ctx_Err ctx); [apply along_ret, _|]. apply along_mtry; [apply _| |].
  - unfold locate. apply along_bind; [apply _|by intros w r w' [? _]%Stat_inv|]. intros st. destruct (is_Ok st); [apply along_ret, _|].
    apply along_bind; [apply _|by intros w r w' [? _]%ReadDir_inv|]. intros [es|e]; [|apply along_ret, _].
    destruct (List.find _ es); apply along_ret, _.
  - intros x w r w' E. by apply Open_inv in E as [? _].
Qed.

Lemma List_along ctx v m : along same (List_ base ctx v m).
Proof.
  unfold List_, guard_ctx. destruct (ctx_Err ctx); [apply along_ret, _|]. apply along_bind; [apply _| |].
  { apply along_bind; [apply _|by intros w b w' ?%fault_inv|]. intros b. apply along_ret, _. }
  intros subs. apply along_bind; [apply _| |intros r; apply along_ret, _]. apply mfor_along. intros sub acc.
  apply along_bind; [apply _|by intros w r w' [? _]%ReadDir_inv|]. intros [es|e]; [|destruct (IsNotExist e); apply along_ret, _].
  apply mfor_along. intros e out. unfold list_entry. destruct (snd e); [apply along_ret, _|].
  apply along_bind; [apply _|by intros w r w' [? _]%Info_inv|]. intros [[size t]|err]; [|apply along_ret, _].
  destruct (if snd sub then _ else _). apply along_ret, _.
Qed.

(** *** A healthy file system *)

(** Below the base, the reserved names are directories only. *)
Definition tidy (w : Fs) : Prop := ∀ sub D, reserved sub = true → suffix base D → fs_files w !! (sub :: D) = None.

Lemma mfor_constant {A B R} (body : A → B → M Fs (R + B)) l w :
  (∀ a acc, a ∈ l → ∃ acc', body a acc w = (inr acc', w)) → ∀ acc, ∃ acc', mfor l body acc w = (inr acc', w).
Proof.
  induction l as [|a l IH]; intros Hb acc; simpl; [by eexists|].
  destruct (Hb a acc) as [acc1 E]; [by left|]. rewrite E. apply IH. intros a' acc' Ha'. apply Hb. by right.
Qed.

Lemma ReadDir_run p w : fs_oracle w = [] → fs_files w !! p = None →
  ReadDir p w = (if is_dir p w then Ok (entries p w) else Err ErrNotExist, w).
Proof.
  intros Ho Hf. unfold ReadDir. rewrite call_run by done. unfold is_file. rewrite Hf.
  by rewrite bool_decide_false by apply is_Some_None.
Qed.

Lemma List_run ctx v m w :
  ctx_Err ctx = None → fs_oracle w = [] → dinv w → tidy w → suffix base (mailboxDir base v m) →
  ∃ l, List_ base ctx v m w = (Ok l, w).
Proof.
  intros Hc Ho Hd Ht HD. unfold List_, guard_ctx. rewrite Hc. unfold map_order, bind, ret, fault at 1.
  rewrite Ho. cbv beta iota. edestruct (mfor_constant (list_sub base v m) [(dirNew, true); (dirCur, false)] w) as [l E].
  2:{ rewrite E. by eexists. }
  intros [sub i] acc Hin.
  assert (Hr : reserved sub = true) by (rewrite !elem_of_cons, elem_of_nil in Hin; naive_solver).
  unfold list_sub, bind. cbn [fst snd]. rewrite join_path_clean by by apply clean_reserved.
  rewrite ReadDir_run by (done || by apply Ht). destruct (is_dir _ w) eqn:Edir; [|by eexists].
  apply mfor_constant. intros [c d] acc1 Hcd%in_entries. unfold list_entry. simpl. destruct d; [by eexists|].
  destruct Hcd as [[b t] Hx]. rewrite join_path_clean by by eapply di_clean_file. unfold bind, Info.
  rewrite call_run, Hx by done. by destruct i, (cut_info c); eexists.
Qed.

Lemma walk_run w : fs_oracle w = [] → dinv w → ∀ fuel p acc, p ∈ fs_dirs w →
  (∀ q, q ∈ fs_dirs w → suffix p q → (length q < length p + fuel)%nat) →
  ∃ acc', walk fuel p acc w = (Ok acc', w).
Proof.
  intros Ho Hd. induction fuel as [|fuel IH]; intros p acc Hp Hlen.
  { specialize (Hlen p Hp). assert (length p < length p + 0)%nat by by apply Hlen. lia. }
  simpl. destruct (String.eqb _ dirNew); [by eexists|].
  assert (Hnf : fs_files w !! p = None).
  { apply eq_None_not_Some. intros [x Hx]. by eapply di_disj. }
  unfold mtry, bind, ret. rewrite ReadDir_run by done. unfold is_dir. rewrite bool_decide_true by done.
  match goal with |- context [mfor (entries p w) ?body] => edestruct (mfor_constant body (entries p w) w) as [l E] end.
  2:{ rewrite E. by eexists. }
  intros [c []] acc1 Hin%in_entries; simpl; [|by eexists].
  destruct (IH (c :: p) acc1 Hin) as [acc2 E]; [|rewrite E; by eexists].
  intros q Hq Hs. simpl. rewrite <-Nat.add_succ_r. apply Hlen; [done|]. etrans; [|exact Hs]. by apply suffix_cons_r.
Qed.

Lemma walk_fuel_enough w p q : q ∈ fs_dirs w → (length q < length p + walk_fuel w)%nat.
Proof.
  intros Hq. unfold walk_fuel. enough (length q ≤ max_list (length <$> elements (fs_dirs w)))%nat by lia.
  apply max_list_elem_of_le. apply list_elem_of_fmap_2. by apply elem_of_elements.
Qed.

Lemma locate_run ref w b f :
  fs_oracle w = [] → minv w → tidy w → valid ref → mholds w (addr ref) b f →
  ∃ x, locate base ref w = (Ok x, w).
Proof.
  intros Ho Hi Ht Hv Hh. pose proof (mi_dirs _ Hi) as Hd. pose proof (addr_suffix ref Hv) as HD.
  destruct Hv as (_ & Hc & _). unfold locate. unfold addr in Hh, HD. simpl in HD.
  set (D := mailboxDir base (rf_Vhost ref) (rf_Mailbox ref)) in *.
  rewrite !(join_path_clean D), !join_path_clean by done. unfold bind, ret, Stat. rewrite call_run by done.
  destruct (is_dir _ w || is_file _ w) eqn:En; simpl; [by eexists|].
  rewrite ReadDir_run by (done || by apply Ht). destruct Hh as (_ & p & t & Hp & Hx).
  apply slot_inv in Hp as [[-> _]|(c & -> & Hcut)].
  - apply orb_false_iff in En as [_ En]. unfold is_file in En. rewrite Hx in En. apply bool_decide_eq_false in En; destruct En; by eexists.
  - apply (di_parent w Hd) in Hx as Hx'. unfold is_dir. rewrite bool_decide_true by apply Hx'.
    destruct (List.find _ _) as [[c' d]|] eqn:Ef; [by eexists|]. exfalso.
    eapply List.find_none in Ef; [|apply list_elem_of_In, (in_entries c false); by eexists].
    simpl in Ef. by rewrite Hcut, String.eqb_refl in Ef.
Qed.

(** C22: on a healthy file system no listing fails: the mailbox listing, and
    the vhost listing, whose walk reaches the bottom of the tree, return a
    result for every mailbox, and reading a held message returns its bytes;
    none of them changes anything. *)
Theorem maildir_listing_total ctx v m w :
  ctx_Err ctx = None → fs_oracle w = [] → minv w → tidy w → box v m →
  (∃ l, List_ base ctx v m w = (Ok l, w)) ∧
  (∃ l, ListVhost base ctx v w = (Ok l, w)) ∧
  ∀ k b f, valid (mkRef v m k) → mholds w (addr (mkRef v m k)) b f → Read base ctx (mkRef v m k) w = (Ok b, w).
Proof.
  intros Hc Ho Hi Ht Hb. pose proof (mi_dirs _ Hi) as Hd. pose proof (good_clean v (proj1 Hb)) as Hv.
  assert (HD : suffix base (mailboxDir base v m)) by (rewrite mailboxDir_box by done; apply mdir_suffix).
  split_and!.
  - by apply List_run.
  - unfold ListVhost, guard_ctx. rewrite Hc, (join_path_clean base v Hv). unfold bind at 1, Stat at 1.
    rewrite call_run by done. destruct (is_dir (v :: base) w || is_file (v :: base) w) eqn:Ex; [|by eexists].
    unfold mtry, wrap, WalkDir, mtry at 1, Stat. rewrite call_run, Ex by done. unfold bind at 1, get.
    assert (Hlist : ∀ dirs, (∀ d, d ∈ dirs → suffix base (mailboxDir base v (Rel (v :: base) d))) →
      ∃ l, (let* r := mfor (Rel (v :: base) <$> dirs) (λ mailbox out,
         let* msgs := List_ base ctx v mailbox in
         ret (match msgs with Ok l => inr (out ++ l) | Err e => inl (Err e) end)) [] in
       ret (match r with inl x => x | inr out => Ok out end)) w = (Ok l, w)).
    { intros dirs Hdirs. unfold bind at 1.
      match goal with |- context [mfor ?l ?body] => edestruct (mfor_constant body l w) as [out E] end.
      2:{ rewrite E. by eexists. }
      intros mb acc (d & -> & Hin)%list_elem_of_fmap. unfold bind, ret.
      destruct (List_run ctx v (Rel (v :: base) d) w Hc Ho Hd Ht) as [l El]; [by apply Hdirs|].
      rewrite El. by eexists. }
    destruct (is_dir (v :: base) w) eqn:Edir; [|apply (Hlist []); by intros d ?%elem_of_nil].
    apply bool_decide_eq_true in Edir.
    destruct (walk_run w Ho Hd (walk_fuel w) (v :: base) [] Edir) as [dirs Ew].
    { intros q Hq _. by apply walk_fuel_enough. }
    pose proof (walk_spec w Hd (walk_fuel w) (v :: base) [] w (reflexivity w)) as Hw. rewrite Ew in Hw |- *.
    destruct Hw as [_ Hw]. apply Hlist. intros d Hin%(Hw dirs eq_refl).
    destruct Hin as [?%elem_of_nil|Hf]; [done|].
    rewrite (found_dir v w d (proj1 Hb) Hd Hf). exact (found_below v w d (proj1 Hb) Hf).
  - intros k b f Hvr Hh. destruct (locate_run (mkRef v m k) w b f Ho Hi Ht Hvr Hh) as [[[p fl] i] El].
    pose proof (locate_spec _ _ _ _ Hi Hvr El) as [_ Hl]. destruct (Hl p fl i eq_refl) as [Hp [[b' t] Hx]].
    assert (Er : Read base ctx (mkRef v m k) w = (Ok b', w)).
    { unfold Read, guard_ctx. rewrite Hc. unfold mtry. rewrite El. simpl. unfold Open. by rewrite call_run, Hx. }
    rewrite Er. apply Read_spec in Er as [_ [f' Hr]]; [|done..].
    by destruct (holds_in_fun base _ _ _ _ _ _ (mi_uniq _ Hi) Hh Hr) as [-> _].
Qed.
End Contract.

(** ** A run *)

Module Run.
Local Open Scope Z_scope.
Definition base : Path := ["mail"].
Definition host : string := "mx1".
Definition w0 : Fs := mkFs {[ ["mail"]; [] ]} ∅ 0 100 [].

Definition ref1 : MessageRef := mkRef "a.test" "alice/INBOX" "100.7_1.mx1".

(** A delivery, a flag change and the vhost listing after them. *)
Definition w1 : Fs := snd (Write base 7 host Background "a.test" "alice/INBOX" (Ok "hello") w0).
Definition w2 : Fs := snd (UpdateFlags base Background ref1 [FlagSeen; FlagDraft] w1).

Lemma write_ok : fst (Write base 7 host Background "a.test" "alice/INBOX" (Ok "hello") w0) = Ok ref1.
Proof. vm_compute. reflexivity. Qed.

Lemma listing_ok : fst (ListVhost base Background "a.test" w2) = Ok [mkMeta ref1 5 [FlagDraft; FlagSeen] 100].
Proof. vm_compute. reflexivity. Qed.

(** Every step may fail: the disk refuses the seventh call, the rename to
    new/, and the temporary file is removed. *)
Lemma write_fails :
  let w := mkFs (fs_dirs w0) ∅ 0 100 [false; false; false; false; false; false; false; true] in
  let '(r, w') := Write base 7 host Background "a.test" "alice/INBOX" (Ok "hello") w in
  r = Err (ErrorfW "maildir: deliver to new: %w" [] ErrIO) ∧ fs_files w' = ∅.
Proof. vm_compute. split; reflexivity. Qed.

(** An account called new hides its whole mail from the vhost listing, and the
    vhost directory is taken for a mailbox. *)
Lemma account_new_not_listed :
  let w := snd (Write base 7 host Background "a.test" "new/INBOX" (Ok "hello") w0) in
  is_Ok (fst (List_ base Background "a.test" "new/INBOX" w)) = true ∧
  (∃ x, fst (List_ base Background "a.test" "new/INBOX" w) = Ok [x]) ∧
  fst (ListVhost base Background "a.test" w) = Ok [].
Proof. vm_compute. split_and!; [done|by eexists|done]. Qed.

(** Mailbox names are joined as paths: a dot-dot component reaches the mailbox
    of another account. *)
Lemma dot_dot_escapes v m : mailboxDir base v ("alice/../bob/" +:+ m) = mailboxDir base v ("bob/" +:+ m).
Proof. done. Qed.

Lemma base_clean : Forall (λ c, clean c = true) base.
Proof. by repeat constructor. Qed.

Lemma host_plain : str_in "/" host = false ∧ str_in ":" host = false.
Proof. done. Qed.

Lemma w0_minv : minv base 7 host w0.
Proof.
  assert (Hnf : ∀ p, fs_files w0 !! p = None) by (intros p; apply lookup_empty).
  split; [split|..]; try (intros; rewrite Hnf in *; done).
  - by vm_compute; set_solver.
  - intros c p. unfold w0. simpl. rewrite !elem_of_union, !elem_of_singleton. naive_solver.
  - intros c p. unfold w0. simpl. rewrite !elem_of_union, !elem_of_singleton. naive_solver.
  - intros c sub D Hr [l ->]. unfold w0. simpl. rewrite !elem_of_union, !elem_of_singleton.
    intros [[= _ _ He]|[=]].
  - intros p p' a f f' x x'. by rewrite Hnf.
  - intros p D t n f _ _ _ _. apply Hnf.
Qed.

Lemma box_ok : box "a.test" "alice/INBOX".
Proof. split; [done|]. by repeat constructor. Qed.

Lemma w1_minv : minv base 7 host w1.
Proof.
  pose proof (Write_spec base 7 host base_clean host_plain Background "a.test" "alice/INBOX" (Ok "hello") w0 _ w1
    w0_minv box_ok (surjective_pairing _)) as H.
  rewrite write_ok in H. apply H.
Qed.

Lemma w1_tidy : tidy base w1.
Proof.
  assert (Hf : fs_files w1 = {[ ["100.7_1.mx1"; "new"; "INBOX"; "alice"; "a.test"; "mail"] := ("hello", 100) ]}).
  { vm_compute. reflexivity. }
  intros sub D Hr _. rewrite Hf. apply lookup_singleton_None. intros [= <- _]. done.
Qed.

Lemma maildir_store_contract_witness :
  @StoreSpec Fs (Path * string) (Backend base 7 host) (minv base 7 host) (addr base) norm box valid (mholds base).
Proof. apply maildir_store_contract; [apply base_clean|apply host_plain]. Defined.

Lemma maildir_listing_total_witness :
  (∃ l, List_ base Background "a.test" "alice/INBOX" w1 = (Ok l, w1)) ∧
  Read base Background ref1 w1 = (Ok "hello", w1).
Proof.
  destruct (maildir_listing_total base 7 host host_plain Background "a.test" "alice/INBOX" w1) as (Hl & _ & Hr).
  - reflexivity.
  - vm_compute. reflexivity.
  - apply w1_minv.
  - apply w1_tidy.
  - apply box_ok.
  - split; [exact Hl|]. apply (Hr "100.7_1.mx1" "hello" []).
    + split; [apply box_ok|split; reflexivity].
    + split; [exists ["INBOX"; "alice"; "a.test"]; reflexivity|].
      exists ["100.7_1.mx1"; "new"; "INBOX"; "alice"; "a.test"; "mail"], 100. vm_compute. split; reflexivity.
Defined.
End Run.
