(* ===== verification/Deliverer.v ===== *)
(** * The outbound deliverer (internal/deliverer)

    One delivery attempt of a queued job: MX lookup, the SMTP dialogue with each
    host in turn, the classification of its failures, the retry or bounce that
    follows, and the per-domain semaphores that gate the worker goroutines.
    Sockets, TLS and the SMTP client library are the class [Net], the resolver
    is [Resolver]; the queue, the store, the directory and the webhook enqueuer
    are the interfaces of their own files. *)

From stdpp Require Import pretty.
From S2P Require Import Prelude Float64 Table Logging Queue Directory Storage Webhook.

(** ** Error classification (classify.go) *)

Definition permanentErr (e : goerr) : goerr := DeliveryError e true.
Definition temporaryErr (e : goerr) : goerr := DeliveryError e false.

(** [errors.As] for the three error types the package looks for: the first of
    the kind on the chain of wrapped errors. *)
Fixpoint As_deliveryError (e : goerr) : option bool :=
  match e with
  | DeliveryError _ p => Some p
  | ErrorfW _ _ w => As_deliveryError w
  | _ => None
  end.

Fixpoint As_SMTPError (e : goerr) : option Z :=
  match e with
  | SMTPError c _ _ => Some c
  | ErrorfW _ _ w => As_SMTPError w
  | DeliveryError w _ => As_SMTPError w
  | _ => None
  end.

Fixpoint As_DNSError (e : goerr) : option bool :=
  match e with
  | DNSError nf => Some nf
  | ErrorfW _ _ w => As_DNSError w
  | DeliveryError w _ => As_DNSError w
  | _ => None
  end.

(** go-smtp's [SMTPError.Temporary]; Go's division truncates. *)
Definition smtp_Temporary (code : Z) : bool := Z.quot code 100 =? 4.

Definition isPermanent (e : goerr) : bool :=
  match As_deliveryError e with
  | Some p => p
  | None => match As_SMTPError e with
            | Some c => negb (smtp_Temporary c)
            | None => false
            end
  end.

(** The [*SMTPError] on the chain, which is what the new error wraps. *)
Fixpoint the_SMTPError (e : goerr) : goerr :=
  match e with
  | ErrorfW _ _ w => the_SMTPError w
  | DeliveryError w _ => the_SMTPError w
  | _ => e
  end.

Definition classifySMTPErr (stage : string) (e : goerr) : goerr :=
  match As_SMTPError e with
  | Some c =>
      let wrapped := ErrorfW "deliverer: %s: %w" [stage] (the_SMTPError e) in
      if smtp_Temporary c then temporaryErr wrapped else permanentErr wrapped
  | None => temporaryErr (ErrorfW "deliverer: %s: %w" [stage] e)
  end.

Definition isNotFoundDNSError (e : goerr) : bool := default false (As_DNSError e).

(** ** The world of a delivery *)

Record MX := mkMX { mx_Host : string; mx_Pref : Z }.

Class Resolver (W : Type) := LookupMX : Ctx → string → M W (res (list MX)).

(** net.Dialer and the go-smtp client. *)
Class Net (W : Type) := {
  Conn : Type;
  Client : Type;
  DialContext : Ctx → string → M W (res Conn);
  NewClientStartTLS : Conn → string → M W (res Client);
  NewClient : Conn → Client;
  cl_Hello : Client → string → M W (res unit);
  cl_Mail : Client → string → M W (res unit);
  cl_Rcpt : Client → string → M W (res unit);
  cl_Data : Client → M W (res unit);
  wc_Write : Client → string → M W (res unit);
  wc_Close : Client → M W (res unit);
  cl_Quit : Client → M W (res unit);
  cl_Close : Client → M W (res unit);
}.

(** [time.Time.Format(time.RFC1123Z)] in UTC. *)
Class TimeText := FormatRFC1123Z : Time → string.

(** ** Configuration (deliverer.go) *)

Definition DefaultBackoffBase : Duration := 30 * Second.
Definition DefaultBackoffMax : Duration := 30 * Minute.
Definition DefaultMaxAttempts : Z := 8.
Definition DefaultPerDomainConcurrency : Z := 5.
Definition DefaultPort : Z := 25.
Definition DefaultDialTimeout : Duration := 30 * Second.
Definition DefaultPollInterval : Duration := Second.
Definition DefaultQueueDepthSampleInterval : Duration := 15 * Second.

(** The settings; the interfaces are type classes, [Webhooks] says whether an
    enqueuer is configured. *)
Record Config := mkConfig {
  Webhooks : bool;
  Domain : string;
  Port : Z;
  BackoffBase : Duration;
  BackoffMax : Duration;
  MaxAttempts : Z;
  PerDomainConcurrency : Z;
  PollInterval : Duration;
  DialTimeout : Duration;
  QueueDepthSampleInterval : Duration;
}.

Definition or_default (v d : Z) : Z := if v <=? 0 then d else v.

Definition withDefaults (c : Config) : Config := {|
  Webhooks := Webhooks c;
  Domain := Domain c;
  Port := or_default (Port c) DefaultPort;
  BackoffBase := or_default (BackoffBase c) DefaultBackoffBase;
  BackoffMax := or_default (BackoffMax c) DefaultBackoffMax;
  MaxAttempts := or_default (MaxAttempts c) DefaultMaxAttempts;
  PerDomainConcurrency := or_default (PerDomainConcurrency c) DefaultPerDomainConcurrency;
  PollInterval := or_default (PollInterval c) DefaultPollInterval;
  DialTimeout := or_default (DialTimeout c) DefaultDialTimeout;
  QueueDepthSampleInterval := or_default (QueueDepthSampleInterval c) DefaultQueueDepthSampleInterval;
|}.

Definition destinationDomain (rcpt : string) : string :=
  match ParseAddress rcpt with None => rcpt | Some (_, dom) => dom end.

(** ** Delivery status notifications (bounce.go) *)

Definition CRLF : string := String "013" (String "010" "").

Definition DQ : string := String "034" "".

Definition sanitizeHeaderValue (s : string) : string :=
  replace_byte "010" " " (replace_byte "013" " " s).

(** mime/multipart's writer: the characters a boundary may have, a part, the end. *)
Definition boundary_char (c : ascii) : bool :=
  let n := Ascii.nat_of_ascii c in
  ((48 <=? n) && (n <=? 57) || (65 <=? n) && (n <=? 90) || (97 <=? n) && (n <=? 122))%nat ||
  str_in c "'()+_,-./:=?".

(** A space may not come last. *)
Fixpoint boundary_chars (b : string) : bool :=
  match b with
  | EmptyString => true
  | String c b' => (boundary_char c || bool_decide (c = " "%char ∧ b' ≠ "")) && boundary_chars b'
  end.

Definition SetBoundary (b : string) : res unit :=
  if (Nat.ltb (String.length b) 1) || (Nat.ltb 70 (String.length b)) then Err (ErrNew "mime: invalid boundary length")
  else if boundary_chars b then Ok tt
  else Err (ErrNew "mime: invalid boundary character").

Definition mime_part (first : bool) (b ctype body : string) : string :=
  (if first then "--" else CRLF +:+ "--") +:+ b +:+ CRLF +:+ "Content-Type: " +:+ ctype +:+ CRLF +:+ CRLF +:+ body.

Definition mime_end (b : string) : string := CRLF +:+ "--" +:+ b +:+ "--" +:+ CRLF.

Section Ops.
Context {W : Type} `{Env W, QueueBackend W Job, MessageStore W, Directory W, Enqueuer W, Resolver W, Net W,
  Rand W, JSON, ErrorText, TimeText}.
Context (cfg : Config).

Definition dsn_text (job : Job) (mtaDomain boundary msgid date cause : string) : string :=
  "From: Mail Delivery System <postmaster@" +:+ mtaDomain +:+ ">" +:+ CRLF +:+
  "To: " +:+ From job +:+ CRLF +:+
  "Subject: Undelivered Mail Returned to Sender" +:+ CRLF +:+
  "Message-Id: <" +:+ msgid +:+ "@" +:+ mtaDomain +:+ ">" +:+ CRLF +:+
  "Date: " +:+ date +:+ CRLF +:+
  "MIME-Version: 1.0" +:+ CRLF +:+
  "Content-Type: multipart/report; report-type=delivery-status; boundary=" +:+ DQ +:+ boundary +:+ DQ +:+ CRLF +:+
  CRLF +:+
  mime_part true boundary "text/plain; charset=utf-8"
    ("This is an automatically generated Delivery Status Notification." +:+ CRLF +:+ CRLF +:+
     "Delivery to the following recipient failed permanently:" +:+ CRLF +:+ CRLF +:+
     "    " +:+ To job +:+ CRLF +:+ CRLF +:+
     "Technical details:" +:+ CRLF +:+ sanitizeHeaderValue cause +:+ CRLF) +:+
  mime_part false boundary "message/delivery-status"
    ("Reporting-MTA: dns;" +:+ mtaDomain +:+ CRLF +:+ CRLF +:+
     "Final-Recipient: rfc822;" +:+ To job +:+ CRLF +:+
     "Action: failed" +:+ CRLF +:+ "Status: 5.0.0" +:+ CRLF +:+
     "Diagnostic-Code: smtp;" +:+ sanitizeHeaderValue cause +:+ CRLF) +:+
  mime_part false boundary "message/rfc822-headers"
    ("From: " +:+ From job +:+ CRLF +:+ "To: " +:+ To job +:+ CRLF) +:+
  mime_end boundary.

Definition buildDSN (job : Job) (mtaDomain : string) (cause : goerr) : M W (res string) :=
  let* u1 := uuid_NewString in
  let boundary := "DSN_" +:+ u1 in
  let* u2 := uuid_NewString in
  let* t := now in
  match SetBoundary boundary with
  | Err e => ret (Err (ErrorfW "deliverer: set DSN boundary: %w" [] e))
  | Ok _ => ret (Ok (dsn_text job mtaDomain boundary u2 (FormatRFC1123Z t) (Error cause)))
  end.

Definition deliverBounce (ctx : Ctx) (job : Job) (cause : goerr) : M W unit :=
  match ParseAddress (From job) with
  | None => ret tt
  | Some (local, dom) =>
      let* active := d_VhostActive ctx dom in
      if negb active then ret tt
      else
        let* dsn := buildDSN job (Domain cfg) cause in
        match dsn with
        | Err _ => ret tt
        | Ok dsn => let* _ := s_Write ctx dom (MailboxPath local "INBOX") (Ok dsn) in ret tt
        end
  end.

(** ** Sending (send.go) *)

(** [sort.Slice] by preference; it promises no order among equal preferences,
    here they keep theirs. *)
Definition pref_leb (a b : MX) : bool := mx_Pref a <=? mx_Pref b.

Definition lookupMX (ctx : Ctx) (domain : string) : M W (res (list MX)) :=
  let* r := LookupMX ctx domain in
  ret (match r with
       | Err e =>
           if isNotFoundDNSError e
           then Err (permanentErr (ErrorfW "deliverer: no MX records for %q: %w" [domain] e))
           else Err (temporaryErr (ErrorfW "deliverer: MX lookup for %q failed: %w" [domain] e))
       | Ok [] => Err (permanentErr (Errorf "deliverer: no MX records for %q" [domain]))
       | Ok mxs => Ok (sort_by pref_leb mxs)
       end).

Definition dial (ctx : Ctx) (addr host : string) : M W (res Client) :=
  let? conn := DialContext ctx addr in
  let* c := NewClientStartTLS conn host in
  match c with
  | Ok client => ret (Ok client)
  | Err _ => let? conn2 := DialContext ctx addr in ret (Ok (NewClient conn2))
  end.

(** [strings.TrimSuffix(host, ".")]. *)
Definition TrimDot (s : string) : string :=
  let n := String.length s in
  if String.eqb (String.substring (n - 1) 1 s) "." then String.substring 0 (n - 1) s else s.

(** [net.JoinHostPort]. *)
Definition JoinHostPort (host port : string) : string :=
  if str_in ":" host || str_in "%" host then "[" +:+ host +:+ "]:" +:+ port else host +:+ ":" +:+ port.

Definition sendToHost (ctx : Ctx) (host : string) (job : Job) (body : string) : M W (res unit) :=
  let addr := JoinHostPort (TrimDot host) (pretty (Port cfg)) in
  let? client := wrap (λ e, temporaryErr (ErrorfW "deliverer: connect to %s: %w" [addr] e)) (dial ctx addr host) in
  let* r :=
    (let? _ := wrap (classifySMTPErr "HELO") (cl_Hello client (Domain cfg)) in
     let? _ := wrap (classifySMTPErr "MAIL FROM") (cl_Mail client (From job)) in
     let? _ := wrap (classifySMTPErr "RCPT TO") (cl_Rcpt client (To job)) in
     let? _ := wrap (classifySMTPErr "DATA") (cl_Data client) in
     let* wr := wc_Write client body in
     match wr with
     | Err e => let* _ := wc_Close client in
                ret (Err (temporaryErr (ErrorfW "deliverer: write message body: %w" [] e)))
     | Ok _ =>
         let? _ := wrap (classifySMTPErr "DATA") (wc_Close client) in
         let* _ := cl_Quit client in ret (Ok tt)
     end) in
  let* _ := cl_Close client in ret r.

(** The loop of [send]; [last] is [lastErr], nil at first: no host at all would
    count as sent. *)
Fixpoint send_hosts (ctx : Ctx) (mxs : list MX) (job : Job) (body : string) (last : res unit) : M W (res unit) :=
  match mxs with
  | [] => ret last
  | mx :: mxs =>
      let* r := sendToHost ctx (mx_Host mx) job body in
      match r with
      | Ok _ => ret (Ok tt)
      | Err e => if isPermanent e then ret (Err e) else send_hosts ctx mxs job body (Err e)
      end
  end.

Definition send (ctx : Ctx) (mxs : list MX) (job : Job) (body : string) : M W (res unit) :=
  send_hosts ctx mxs job body (Ok tt).

(** ** One job (deliverer.go) *)

Definition attempt (ctx : Ctx) (job : Job) : M W (res unit) :=
  let domain := destinationDomain (To job) in
  if String.eqb domain (To job)
  then ret (Err (permanentErr (Errorf "deliverer: malformed recipient address %q" [To job])))
  else
    let? mxs := lookupMX ctx domain in
    let? body := wrap (λ e, temporaryErr (ErrorfW "deliverer: read staged body: %w" [] e))
      (s_Read ctx (mkRef (Queue.Vhost job) OutboxMailbox (BodyRef job))) in
    send ctx mxs job body.

Definition nextBackoff (n : Z) : M W (res Duration) := FullJitter n (BackoffBase cfg) (BackoffMax cfg).

Definition fire (ctx : Ctx) (job : Job) (eventType : string) (data : list (string * jval)) : M W unit :=
  if negb (Webhooks cfg) then ret tt
  else
    let* id := uuid_NewString in
    let* payload := NewEventPayload id eventType (Queue.Vhost job) data in
    match payload with
    | Err _ => ret tt
    | Ok p => let* _ := wh_Enqueue ctx (Queue.Vhost job) eventType p in ret tt
    end.

Definition fireDelivered (ctx : Ctx) (job : Job) : M W unit :=
  fire ctx job EventMessageDelivered [("from", JString (From job)); ("to", JString (To job))].

Definition fireBounced (ctx : Ctx) (job : Job) (cause : goerr) : M W unit :=
  fire ctx job EventMessageBounced
    [("from", JString (From job)); ("to", JString (To job)); ("attempts", JInt (Attempts job + 1));
     ("error", JString (Error cause))].

Definition fireDeferred (ctx : Ctx) (job : Job) (cause : goerr) (nextAttemptAt : Time) : M W unit :=
  fire ctx job EventMessageDeferred
    [("from", JString (From job)); ("to", JString (To job)); ("attempts", JInt (Attempts job + 1));
     ("error", JString (Error cause)); ("nextAttemptAt", JTime nextAttemptAt)].

(** The attempt and its duration. *)
Definition measured (ctx : Ctx) (job : Job) : M W (res unit) :=
  let* start := now in
  let* r := attempt ctx job in
  let* stop := now in
  let* _ := Observe DeliveryLatencySeconds (Sub stop start) in
  ret r.

(** The end of a job that is not retried. *)
Definition giving_up (ctx : Ctx) (job : Job) (cause : goerr) : M W (res unit) :=
  let* _ := Inc BouncesTotal in
  let* _ := q_Complete (J := Job) ctx (ID job) in
  let* _ := deliverBounce ctx job cause in
  let* _ := fireBounced ctx job cause in
  ret (Ok tt).

(** [handle]; [Err] is the panic of the backoff. *)
Definition handle (ctx : Ctx) (job : Job) : M W (res unit) :=
  let ctx := WithCorrelationID ctx (CorrelationID job) in
  let* r := measured ctx job in
  match r with
  | Ok _ =>
      let* _ := q_Complete (J := Job) ctx (ID job) in
      let* _ := fireDelivered ctx job in
      ret (Ok tt)
  | Err e =>
      if isPermanent e then giving_up ctx job e
      else if MaxAttempts cfg <=? Attempts job + 1
      then giving_up ctx job (ErrorfW "exhausted %d delivery attempts, last error: %w" [pretty (MaxAttempts cfg)] e)
      else
        let* t := now in
        let? delay := nextBackoff (Attempts job) in
        let next := t + delay in
        let* _ := q_Fail (J := Job) ctx (ID job) (Some e) next in
        let* _ := fireDeferred ctx job e next in
        ret (Ok tt)
  end.
End Ops.

(** ** Semaphores (semaphore.go)

    A buffered channel per domain, created on first use: its occupancy. *)
Record domainSemaphores := mkSems { sems : gmap string nat; limit : nat }.

Definition newDomainSemaphores (limit : Z) : domainSemaphores :=
  mkSems ∅ (if limit <=? 0 then 1%nat else Z.to_nat limit).

Definition occupancy (d : domainSemaphores) (domain : string) : nat := default 0%nat (sems d !! domain).

(** The first half of [acquire]: the domain's channel exists afterwards. *)
Definition open_sem (d : domainSemaphores) (domain : string) : domainSemaphores :=
  mkSems (<[domain := occupancy d domain]> (sems d)) (limit d).

(** [sem <- struct{}{}], possible while the buffer has room. *)
Definition try_acquire (d : domainSemaphores) (domain : string) : option domainSemaphores :=
  if Nat.ltb (occupancy d domain) (limit d)
  then Some (mkSems (<[domain := S (occupancy d domain)]> (sems d)) (limit d))
  else None.

(** [<-sem]. *)
Definition release (d : domainSemaphores) (domain : string) : domainSemaphores :=
  mkSems (<[domain := pred (occupancy d domain)]> (sems d)) (limit d).

(** ** The worker pool of [Run]

    A claimed job has a goroutine, waiting for a slot of its destination or
    holding one.  Any interleaving of the goroutines' steps is possible; a
    delivery is one step, since it only shares the interfaces with others.  The
    context may be cancelled between the loop's check and its Dequeue. *)
Inductive phase := Waiting | Holding.

Record worker := mkWorker { wk_job : Job; wk_domain : string; wk_phase : phase }.

Record pool (W : Type) := mkPool { pl_world : W; pl_sems : domainSemaphores; pl_workers : list worker }.
Arguments mkPool {W} _ _ _.
Arguments pl_world {W} _.
Arguments pl_sems {W} _.
Arguments pl_workers {W} _.

Section Run.
Context {W : Type} `{Env W, QueueBackend W Job, MessageStore W, Directory W, Enqueuer W, Resolver W, Net W,
  Rand W, JSON, ErrorText, TimeText, QueueCounter W}.
(** The jobs other roles may enqueue. *)
Context (admissible : W → Job → Prop).
Context (cfg : Config).

(** [refresh] of the sampler: the gauge gets the queue's count. *)
Definition refresh_depth (ctx : Ctx) : M W unit :=
  let* count := q_Count ctx in
  match count with
  | Ok n => Set_ QueueDepth n
  | Err _ => ret tt
  end.

Inductive rstep : pool W → pool W → Prop :=
| run_claim ctx w w' d ws job :
    q_Dequeue ctx w = (Ok (Some job), w') →
    rstep (mkPool w d ws) (mkPool w' d (mkWorker job (destinationDomain (To job)) Waiting :: ws))
| run_idle ctx w w' d ws r :
    q_Dequeue (J := Job) ctx w = (r, w') → (∀ job, r ≠ Ok (Some job)) →
    rstep (mkPool w d ws) (mkPool w' d ws)
| run_acquire w d d' l1 l2 job domain :
    try_acquire (open_sem d domain) domain = Some d' →
    rstep (mkPool w d (l1 ++ mkWorker job domain Waiting :: l2))
      (mkPool w d' (l1 ++ mkWorker job domain Holding :: l2))
| run_cancelled ctx w d l1 l2 job domain : ctx_Err ctx ≠ None →
    rstep (mkPool w d (l1 ++ mkWorker job domain Waiting :: l2)) (mkPool w (open_sem d domain) (l1 ++ l2))
| run_handle ctx w d l1 l2 job domain :
    rstep (mkPool w d (l1 ++ mkWorker job domain Holding :: l2))
      (mkPool (snd (handle cfg ctx job w)) (release d domain) (l1 ++ l2))
| run_sample ctx w d ws :
    rstep (mkPool w d ws) (mkPool (snd (refresh_depth ctx w)) d ws)
| run_submit ctx w w' d ws job r : (* another role enqueues a job *)
    q_Enqueue ctx job w = (r, w') → admissible w job →
    rstep (mkPool w d ws) (mkPool w' d ws).
End Run.

Lemma rstep_weaken {W} `{Env W, QueueBackend W Job, MessageStore W, Directory W, Enqueuer W, Resolver W, Net W,
  Rand W, JSON, ErrorText, TimeText, QueueCounter W} (P Q : W → Job → Prop) cfg p p' :
  (∀ w job, P w job → Q w job) → rstep P cfg p p' → rstep Q cfg p p'.
Proof.
  intros HPQ []; [eapply run_claim|eapply run_idle|eapply run_acquire|eapply run_cancelled|apply run_handle|apply run_sample|eapply run_submit];
    eauto.
Qed.

(** ** Facts *)

Lemma config_defaults c :
  let c' := withDefaults c in 0 < Port c' ∧ 0 < BackoffBase c' ∧ 0 < BackoffMax c' ∧ 0 < MaxAttempts c' ∧
  0 < PerDomainConcurrency c' ∧ 0 < PollInterval c' ∧ 0 < DialTimeout c' ∧ 0 < QueueDepthSampleInterval c'.
Proof.
  assert (Hor : ∀ v d, 0 < d → 0 < or_default v d).
  { intros v d. unfold or_default. destruct (Z.leb_spec v 0); lia. }
  simpl. split_and!; by apply Hor.
Qed.

Section Facts.
Context {W : Type} {HE : Env W} {HQ : QueueBackend W Job} {HS : MessageStore W} {HD : Directory W}
  {HW : Enqueuer W} {HRes : Resolver W} {HN : Net W} {HR : Rand W} {HJ : JSON} {HT : ErrorText} {HF : TimeText}
  {QC : QueueCounter W}.
Context (q_inv : W → Prop) (q_view : W → QView Job).
Context {QS : QueueSpec W Job q_inv q_view} {CS : CounterSpec W q_inv q_view} {RS : RandSpec W}.

Notation qquiet := (quiet q_inv q_view).

(** What surrounds the queue leaves it alone. *)
Record quiet_world : Prop := {
  qw_now : qquiet now;
  qw_uuid : qquiet uuid_NewString;
  qw_inc : ∀ m, qquiet (Inc m);
  qw_observe : ∀ m d, qquiet (Observe m d);
  qw_set : ∀ m n, qquiet (Set_ m n);
  qw_mx : ∀ ctx d, qquiet (LookupMX ctx d);
  qw_dial : ∀ ctx a, qquiet (DialContext ctx a);
  qw_tls : ∀ c h, qquiet (NewClientStartTLS c h);
  qw_hello : ∀ c s, qquiet (cl_Hello c s);
  qw_mail : ∀ c s, qquiet (cl_Mail c s);
  qw_rcpt : ∀ c s, qquiet (cl_Rcpt c s);
  qw_data : ∀ c, qquiet (cl_Data c);
  qw_write : ∀ c s, qquiet (wc_Write c s);
  qw_wclose : ∀ c, qquiet (wc_Close c);
  qw_quit : ∀ c, qquiet (cl_Quit c);
  qw_close : ∀ c, qquiet (cl_Close c);
  qw_read : ∀ ctx r, qquiet (s_Read ctx r);
  qw_store : ∀ ctx v m b, qquiet (s_Write ctx v m b);
  qw_active : ∀ ctx v, qquiet (d_VhostActive ctx v);
  qw_hook : ∀ ctx v t p, qquiet (wh_Enqueue ctx v t p);
  qw_rand : ∀ n, qquiet (Int63n n);
}.
Context (QW : quiet_world).

Ltac world_calls := quiet_calls; destruct QW; auto.

Lemma sendToHost_quiet cfg ctx host job body : qquiet (sendToHost cfg ctx host job body).
Proof. unfold sendToHost, dial. world_calls. Qed.

Lemma send_hosts_quiet cfg ctx mxs job body last : qquiet (send_hosts cfg ctx mxs job body last).
Proof.
  revert last. induction mxs as [|mx mxs IH]; intros last; simpl; [world_calls|].
  apply quiet_bind; [apply sendToHost_quiet|]. quiet_calls; apply IH.
Qed.

Lemma attempt_quiet cfg ctx job : qquiet (attempt cfg ctx job).
Proof.
  unfold attempt, lookupMX, send. quiet_calls; first [apply send_hosts_quiet|destruct QW; auto].
Qed.

Lemma measured_quiet cfg ctx job : qquiet (measured cfg ctx job).
Proof. unfold measured. pose proof attempt_quiet. quiet_calls; destruct QW; auto. Qed.

Lemma measured_attempt cfg ctx job (w : W) : fst (measured cfg ctx job w) = fst (attempt cfg ctx job (snd (now w))).
Proof.
  unfold measured, bind, ret. destruct (now w) as [start w1]. simpl. destruct (attempt cfg ctx job w1) as [r w2].
  destruct (now w2) as [stop w3]. by destruct (Observe _ _ w3).
Qed.

Lemma refresh_quiet ctx : qquiet (refresh_depth ctx).
Proof. unfold refresh_depth. pose proof (Count_quiet (q_inv := q_inv) (q_view := q_view)). world_calls. Qed.

(** The gauge is set to the number of jobs not completed. *)
Lemma depth_exact ctx (w : W) n w1 : q_inv w → q_Count ctx w = (Ok n, w1) →
  refresh_depth ctx w = Set_ QueueDepth (Z.of_nat (size (q_view w))) w1.
Proof. intros Hi E. unfold refresh_depth, bind. rewrite E. by rewrite (Count_ok _ _ _ _ Hi E). Qed.

Lemma deliverBounce_quiet cfg ctx job e : qquiet (deliverBounce cfg ctx job e).
Proof. unfold deliverBounce, buildDSN. world_calls. Qed.

Lemma fire_quiet cfg ctx job et data : qquiet (fire cfg ctx job et data).
Proof. unfold fire, NewEventPayload. world_calls. Qed.

Lemma jitter_quiet n b m : qquiet (FullJitter n b m).
Proof. unfold FullJitter. cbv zeta. world_calls. Qed.

(** Settings FullJitter accepts (see [Queue.FullJitter]). *)
Definition config_ok (c : Config) : Prop :=
  1 ≤ BackoffBase c < 2 ^ 53 ∧ 1 ≤ BackoffMax c < 2 ^ 53 ∧ 1 ≤ MaxAttempts c.

(** What the result of an attempt does to the queue. *)
Definition job_outcome (cfg : Config) (job : Job) (r : res unit) (v v' : QView Job) : Prop :=
  match r with
  | Ok _ => v' = delete (ID job) v
  | Err e =>
      if isPermanent e || (MaxAttempts cfg <=? Attempts job + 1) then v' = delete (ID job) v
      else ∃ j b t delay, v !! ID job = Some (j, b) ∧
        0 ≤ delay < Z.min (BackoffMax cfg) (BackoffBase cfg * 2 ^ Z.max 0 (Attempts job)) ∧
        v' = <[ID job := (Job_retry (Some (Error e)) (t + delay) j, false)]> v
  end.

(** Why a job is given up: a permanent failure at once, another one at the last
    attempt, which the notification says. *)
Inductive final_failure (cfg : Config) (job : Job) : goerr → goerr → Prop :=
| fails_for_good e : isPermanent e = true → final_failure cfg job e e
| fails_at_last e : isPermanent e = false → MaxAttempts cfg ≤ Attempts job + 1 →
    final_failure cfg job e (ErrorfW "exhausted %d delivery attempts, last error: %w" [pretty (MaxAttempts cfg)] e).

(** How a job ends after an attempt with this result, from the world the attempt
    leaves: the closing operation, and what is done besides.  A job given up is
    counted and its sender notified; a retry is due the drawn backoff after the
    clock as it is read for it. *)
Inductive ending (cfg : Config) (ctx : Ctx) (job : Job) (w : W) : res unit → closing → W → Prop :=
| end_sent x w1 : q_Complete ctx (ID job) w = (x, w1) →
    ending cfg ctx job w (Ok tt) (Removed (ID job)) (snd (fireDelivered cfg ctx job w1))
| end_bounced e cause x w1 : final_failure cfg job e cause →
    q_Complete ctx (ID job) (snd (Inc BouncesTotal w)) = (x, w1) →
    ending cfg ctx job w (Err e) (Removed (ID job)) (snd (fireBounced cfg ctx job cause (snd (deliverBounce cfg ctx job cause w1))))
| end_deferred e t w1 delay w2 x w3 : isPermanent e = false → Attempts job + 1 < MaxAttempts cfg →
    now w = (t, w1) → FullJitter (Attempts job) (BackoffBase cfg) (BackoffMax cfg) w1 = (Ok delay, w2) →
    0 ≤ delay < Z.min (BackoffMax cfg) (BackoffBase cfg * 2 ^ Z.max 0 (Attempts job)) →
    q_Fail ctx (ID job) (Some e) (t + delay) w2 = (x, w3) →
    ending cfg ctx job w (Err e) (Rescheduled (ID job) e (t + delay)) (snd (fireDeferred cfg ctx job e (t + delay) w3)).

Notation qcloses := (closes q_inv q_view).

Lemma ending_outcome cfg ctx ctx' job w0 a c w1 (w w' : W) : ending cfg ctx job w0 a c w1 → qcloses ctx' c w w' →
  q_view w' = q_view w ∨ job_outcome cfg job a (q_view w) (q_view w').
Proof.
  intros Hd [?|Hc]%closes_cases; [by left|right].
  destruct Hd as [x w2 _|e cause x w2 [e' He|e' He Hm] _|e t w2 delay w3 x w4 He Hm _ _ Hr _]; simpl; [done|by rewrite He|..].
  - by rewrite He, (proj2 (Z.leb_le _ _) Hm).
  - rewrite He, (proj2 (Z.leb_gt _ _) Hm). destruct Hc as (j & b & ? & ?). by exists j, b, t, delay.
Qed.

(** The attempt, timed: its result, and the world it leaves. *)
Definition attempted (cfg : Config) (ctx : Ctx) (job : Job) (w : W) (a : res unit) (w' : W) : Prop :=
  ∃ start w1 w2 stop w3, now w = (start, w1) ∧ attempt cfg ctx job w1 = (a, w2) ∧ now w2 = (stop, w3) ∧
    w' = snd (Observe DeliveryLatencySeconds (Sub stop start) w3).

Lemma measured_attempted cfg ctx job (w : W) a w' : measured cfg ctx job w = (a, w') → attempted cfg ctx job w a w'.
Proof.
  unfold measured, bind, ret. destruct (now w) as [start w1] eqn:E1. destruct (attempt cfg ctx job w1) as [r w2] eqn:E2.
  destruct (now w2) as [stop w3] eqn:E3. destruct (Observe _ _ w3) as [u w4] eqn:E4. intros [= <- <-].
  exists start, w1, w2, stop, w3. by rewrite E4.
Qed.

Lemma give_up_spec cfg ctx job e cause (w : W) r w' : final_failure cfg job e cause →
  q_inv w → giving_up cfg ctx job cause w = (r, w') →
  r = Ok tt ∧ q_inv w' ∧ ending cfg ctx job w (Err e) (Removed (ID job)) w' ∧ qcloses ctx (Removed (ID job)) w w'.
Proof.
  intros He Hi. unfold giving_up, bind, ret. destruct (Inc BouncesTotal w) as [u w0] eqn:Eu.
  destruct (qw_inc QW BouncesTotal _ _ _ Eu) as [Hi0 Hv0]. specialize (Hi0 Hi).
  destruct (q_Complete ctx (ID job) w0) as [c w1] eqn:Ec.
  pose proof (end_bounced cfg ctx job w e cause c w1 He) as Hend. rewrite Eu in Hend. specialize (Hend Ec).
  destruct (deliverBounce cfg ctx job cause w1) as [x w2] eqn:Eb. destruct (deliverBounce_quiet _ _ _ _ _ _ _ Eb) as [Hi2 Hv2].
  simpl in Hend. destruct (fireBounced cfg ctx job cause w2) as [y w3] eqn:Ef. destruct (fire_quiet _ _ _ _ _ _ _ _ Ef) as [Hi3 Hv3].
  intros [= <- <-]. destruct (closes_intro q_inv q_view ctx (Removed (ID job)) w w0 c w1 w3) as [Hi1 Hcl];
    [done|done|done|congruence|]. by split_and!; [|auto|..].
Qed.

(** One closing operation, the one the attempt decides. *)
Lemma handle_closes cfg ctx job (w : W) r w' :
  config_ok cfg → q_inv w → handle cfg ctx job w = (r, w') →
  let ctx' := WithCorrelationID ctx (CorrelationID job) in
  r = Ok tt ∧ q_inv w' ∧ ∃ w1 c, let a := fst (measured cfg ctx' job w) in
    attempted cfg ctx' job w a w1 ∧ ending cfg ctx' job w1 a c w' ∧ qcloses ctx' c w w'.
Proof.
  intros (Hb & Hm & _) Hi. unfold handle. set (ctx' := WithCorrelationID ctx (CorrelationID job)). cbv zeta.
  unfold bind at 1. destruct (measured cfg ctx' job w) as [a w1] eqn:Ea. pose proof (measured_attempted _ _ _ _ _ _ Ea) as Hatt.
  destruct (measured_quiet _ _ _ _ _ _ Ea) as [Hi1 Hv1]. specialize (Hi1 Hi). cbn [fst].
  assert (Hgive : ∀ e cause, a = Err e → final_failure cfg job e cause → giving_up cfg ctx' job cause w1 = (r, w') →
    r = Ok tt ∧ q_inv w' ∧ ∃ w1 c, attempted cfg ctx' job w a w1 ∧ ending cfg ctx' job w1 a c w' ∧ qcloses ctx' c w w').
  { intros e cause -> He (-> & Hi' & Hend & Hcl)%(give_up_spec _ _ _ e); [|done..]. split_and!; [done..|].
    exists w1, (Removed (ID job)). split_and!; [done..|]. unfold closes in *. by rewrite Hv1 in Hcl. }
  destruct a as [[]|e].
  { unfold bind, ret. destruct (q_Complete ctx' (ID job) w1) as [c w2] eqn:Ec. pose proof (end_sent cfg ctx' job w1 c w2 Ec) as Hend.
    destruct (fireDelivered cfg ctx' job w2) as [x w3] eqn:Ef. destruct (fire_quiet _ _ _ _ _ _ _ _ Ef) as [Hi3 Hv3].
    intros [= <- <-]. destruct (closes_intro q_inv q_view ctx' (Removed (ID job)) w w1 c w2 w3) as [Hi2 Hcl]; [done..|].
    split_and!; [done|auto|]. by eexists w1, _. }
  destruct (isPermanent e) eqn:Hp; [apply (Hgive e); [done|by constructor]|].
  destruct (Z.leb_spec (MaxAttempts cfg) (Attempts job + 1)) as [Hx|Hx]; [apply (Hgive e); [done|by constructor]|].
  unfold bind, mtry, ret. destruct (now w1) as [t w2] eqn:En. destruct (qw_now QW _ _ _ En) as [Hi2 Hv2].
  unfold nextBackoff.
  destruct (FullJitter_spec (Attempts job) (BackoffBase cfg) (BackoffMax cfg) w2 Hb Hm) as (delay & w3 & Ej & Hdelay).
  destruct (jitter_quiet _ _ _ _ _ _ Ej) as [Hi3 Hv3]. rewrite Ej.
  destruct (q_Fail ctx' (ID job) (Some e) (t + delay) w3) as [f w4] eqn:Ef.
  pose proof (end_deferred cfg ctx' job w1 e t w2 delay w3 f w4 Hp Hx En Ej Hdelay Ef) as Hend.
  destruct (fireDeferred cfg ctx' job e (t + delay) w4) as [x w5] eqn:Ed.
  destruct (fire_quiet _ _ _ _ _ _ _ _ Ed) as [Hi5 Hv5]. intros [= <- <-].
  destruct (closes_intro q_inv q_view ctx' (Rescheduled (ID job) e (t + delay)) w w3 f w4 w5) as [Hi4 Hcl];
    [auto|congruence|done|done|]. split_and!; [done|auto|]. by eexists w1, _.
Qed.

Lemma handle_spec cfg ctx job (w : W) r w' :
  config_ok cfg → q_inv w → handle cfg ctx job w = (r, w') →
  r = Ok tt ∧ q_inv w' ∧
  (q_view w' = q_view w ∨
   job_outcome cfg job (fst (measured cfg (WithCorrelationID ctx (CorrelationID job)) job w)) (q_view w) (q_view w')).
Proof.
  intros Hc Hi (? & ? & w1 & c & _ & Hd & Hcl)%handle_closes; [|done..]. split_and!; [done..|]. by eapply ending_outcome.
Qed.

(** *** The pool *)

Definition holds_slot (domain : string) (x : worker) : Prop := wk_phase x = Holding ∧ wk_domain x = domain.

#[global] Instance phase_eq_dec : EqDecision phase.
Proof. solve_decision. Defined.

#[global] Instance holds_slot_dec domain x : Decision (holds_slot domain x).
Proof. unfold holds_slot. apply _. Defined.

Definition holders (domain : string) (ws : list worker) : nat := length (filter (holds_slot domain) ws).

Lemma holders_app domain l1 l2 : holders domain (l1 ++ l2) = (holders domain l1 + holders domain l2)%nat.
Proof. unfold holders. by rewrite filter_app, length_app. Qed.

Lemma holders_waiting k job dom l : holders k (mkWorker job dom Waiting :: l) = holders k l.
Proof. unfold holders. rewrite filter_cons_False; [done|]. by intros [? _]. Qed.

Lemma holders_holding k job dom l :
  holders k (mkWorker job dom Holding :: l) = ((if decide (dom = k) then 1 else 0) + holders k l)%nat.
Proof.
  unfold holders. case_decide; [rewrite filter_cons_True|rewrite filter_cons_False]; try done. by intros [_ ?].
Qed.

(** The semaphores count the workers that hold a slot, within the limit. *)
Definition sems_ok (d : domainSemaphores) (ws : list worker) : Prop :=
  ∀ domain, holders domain ws = occupancy d domain ∧ (occupancy d domain ≤ limit d)%nat.

(** Each worker has a job of its own, claimed in the queue. *)
Definition claims_ok (w : W) (ws : list worker) : Prop :=
  NoDup ((λ x, ID (wk_job x)) <$> ws) ∧
  ∀ x, x ∈ ws → q_view w !! ID (wk_job x) = Some (wk_job x, true).

Definition pool_ok (p : pool W) : Prop :=
  q_inv (pl_world p) ∧ sems_ok (pl_sems p) (pl_workers p) ∧ claims_ok (pl_world p) (pl_workers p).

Lemma occupancy_insert d k n k' :
  occupancy (mkSems (<[k := n]> (sems d)) (limit d)) k' = if decide (k = k') then n else occupancy d k'.
Proof. unfold occupancy. simpl. rewrite lookup_insert. by case_decide. Qed.

Lemma occupancy_open d k k' : occupancy (open_sem d k) k' = occupancy d k'.
Proof. unfold open_sem. rewrite occupancy_insert. by case_decide; subst. Qed.

Lemma sems_acquire d d' l1 l2 job domain :
  sems_ok d (l1 ++ mkWorker job domain Waiting :: l2) → try_acquire (open_sem d domain) domain = Some d' →
  sems_ok d' (l1 ++ mkWorker job domain Holding :: l2).
Proof.
  intros Hs. unfold try_acquire. rewrite occupancy_open. simpl.
  destruct (Nat.ltb_spec (occupancy d domain) (limit d)); [|done]. intros [= <-] k. destruct (Hs k) as [Hh Hl].
  rewrite insert_insert_eq, occupancy_insert. simpl.
  rewrite holders_app, holders_waiting in Hh. rewrite holders_app, holders_holding.
  case_decide; [subst k|]; lia.
Qed.

Lemma sems_drop d l1 l2 job domain :
  sems_ok d (l1 ++ mkWorker job domain Waiting :: l2) → sems_ok (open_sem d domain) (l1 ++ l2).
Proof.
  intros Hs k. destruct (Hs k) as [Hh Hl]. rewrite occupancy_open.
  rewrite holders_app, holders_waiting in Hh. by rewrite holders_app.
Qed.

Lemma sems_release d l1 l2 job domain :
  sems_ok d (l1 ++ mkWorker job domain Holding :: l2) → sems_ok (release d domain) (l1 ++ l2).
Proof.
  intros Hs k. destruct (Hs k) as [Hh Hl]. unfold release. rewrite occupancy_insert, holders_app. simpl.
  rewrite holders_app, holders_holding in Hh. case_decide; [subst k|]; lia.
Qed.

Lemma claims_sub w l1 l2 x : claims_ok w (l1 ++ x :: l2) → claims_ok w (l1 ++ l2).
Proof.
  intros [Hn Hc]. split.
  - rewrite fmap_app, fmap_cons in Hn. rewrite fmap_app.
    apply NoDup_app in Hn as (H1 & H12 & [_ H2]%NoDup_cons). apply NoDup_app. split_and!; [done| |done].
    intros y Hy Hy2. apply (H12 y Hy). by right.
  - intros y [Hy|Hy]%elem_of_app; apply Hc, elem_of_app; [by left|]. right. by right.
Qed.

(** What another queue operation on a different job leaves of the claims. *)
Lemma claims_frame w w' ws :
  (∀ x, x ∈ ws → q_view w' !! ID (wk_job x) = q_view w !! ID (wk_job x)) → claims_ok w ws → claims_ok w' ws.
Proof. intros Hv [Hn Hc]. split; [done|]. intros x Hx. rewrite Hv by done. by apply Hc. Qed.

Lemma outcome_frame cfg job r (v v' : QView Job) id :
  job_outcome cfg job r v v' → id ≠ ID job → v' !! id = v !! id.
Proof.
  unfold job_outcome. intros Ho Hid. destruct r as [[]|e]; [rewrite Ho; by apply lookup_delete_ne|].
  destruct (_ || _); [rewrite Ho; by apply lookup_delete_ne|].
  destruct Ho as (j & b & t & delay & _ & _ & ->). by apply lookup_insert_ne.
Qed.

Lemma handle_frame cfg ctx job (w : W) r w' id :
  config_ok cfg → q_inv w → handle cfg ctx job w = (r, w') → id ≠ ID job → q_view w' !! id = q_view w !! id.
Proof.
  intros Hc Hi E%handle_spec Hid; [|done..]. destruct E as (_ & _ & [->|Ho]); [done|]. by eapply outcome_frame.
Qed.

(** No job in the queue has the job's ID. *)
Definition unused_id (w : W) (job : Job) : Prop := q_view w !! ID job = None.

Lemma rstep_sems cfg adm p p' : rstep adm cfg p p' → sems_ok (pl_sems p) (pl_workers p) →
  sems_ok (pl_sems p') (pl_workers p') ∧ limit (pl_sems p') = limit (pl_sems p).
Proof.
  intros Hstep Hs. destruct Hstep as [ctx w w' d ws job E|ctx w w' d ws r E Hr|w d d' l1 l2 job dom Ha|ctx w d l1 l2 job dom Hcan
    |ctx w d l1 l2 job dom|ctx w d ws|ctx w w' d ws job r E Hfree]; simpl in *; try done.
  - split; [by eapply sems_acquire|]. unfold try_acquire in Ha. destruct (Nat.ltb _ _); [|done]. by injection Ha as <-.
  - split; [by eapply sems_drop|done].
  - split; [by eapply sems_release|done].
Qed.

(** The claims depend on the workers only, not on their order. *)
Lemma claims_perm w ws ws' : ws ≡ₚ ws' → claims_ok w ws → claims_ok w ws'.
Proof. intros Hp [Hn Hc]. split; [by rewrite <-Hp|]. intros x Hx. apply Hc. by rewrite Hp. Qed.

(** A worker's own job is not any other worker's. *)
Lemma claims_other w l1 x l2 y : claims_ok w (l1 ++ x :: l2) → y ∈ l1 ++ l2 → ID (wk_job y) ≠ ID (wk_job x).
Proof.
  intros [Hn _] Hy He. rewrite fmap_app, fmap_cons in Hn. apply NoDup_app in Hn as (_ & Hn1 & [Hn2 _]%NoDup_cons).
  apply (list_elem_of_fmap_2 (λ x, ID (wk_job x))) in Hy. rewrite fmap_app, elem_of_app, He in Hy.
  destruct Hy as [Hy|Hy]; [|done]. by apply (Hn1 _ Hy), elem_of_cons; left.
Qed.

(** One step of a pool, as the queue and every other worker see it: [rest] are
    workers that share the queue with the pool. *)
Lemma rstep_claims cfg p p' rest : config_ok cfg → rstep unused_id cfg p p' → q_inv (pl_world p) →
  claims_ok (pl_world p) (pl_workers p ++ rest) →
  q_inv (pl_world p') ∧ claims_ok (pl_world p') (pl_workers p' ++ rest).
Proof.
  intros Hcfg Hstep Hi Hc.
  destruct Hstep as [ctx w w' d ws job E|ctx w w' d ws r E Hr|w d d' l1 l2 job dom Ha|ctx w d l1 l2 job dom Hcan
    |ctx w d l1 l2 job dom|ctx w d ws|ctx w w' d ws job r E Hfree]; simpl in *.
  - split; [by eapply Dequeue_inv|]. apply Dequeue_some in E as (Hu & Hv & _); [|done].
    change (j_ID job) with (ID job) in *. destruct Hc as [Hn Hc].
    assert (Hnew : ∀ x, x ∈ ws ++ rest → ID (wk_job x) ≠ ID job).
    { intros x Hx He. specialize (Hc x Hx). rewrite He, Hu in Hc. done. }
    split.
    + rewrite fmap_cons. apply NoDup_cons. split; [|done]. intros (x & He & Hx)%list_elem_of_fmap. by apply (Hnew x Hx).
    + intros x [->|Hx]%elem_of_cons; rewrite Hv; simpl; [apply lookup_insert_eq|].
      rewrite lookup_insert_ne; [by apply Hc|]. intros He. by apply (Hnew x Hx).
  - split; [by eapply Dequeue_inv|]. eapply claims_frame; [|exact Hc].
    intros x _. destruct r as [[j|]|e]; [by destruct (Hr j)| |].
    + by apply Dequeue_none in E as [-> _].
    + by apply Dequeue_err in E as ->.
  - split; [done|]. rewrite <-!app_assoc in *. simpl in *. destruct Hc as [Hn Hc]. split.
    + by rewrite fmap_app, fmap_cons in Hn |- *.
    + intros x Hx. apply elem_of_app in Hx as [Hx|[->|Hx]%elem_of_cons].
      * apply Hc, elem_of_app. by left.
      * apply (Hc (mkWorker job dom Waiting)), elem_of_app. right. by left.
      * apply Hc, elem_of_app. right. by right.
  - split; [done|]. rewrite <-!app_assoc in *. simpl in *. by eapply claims_sub.
  - destruct (handle cfg ctx job w) as [r w'] eqn:E. simpl. rewrite <-!app_assoc in *. simpl in *.
    pose proof (handle_spec _ _ _ _ _ _ Hcfg Hi E) as (_ & Hi' & _). split; [done|].
    eapply claims_frame; [|by eapply claims_sub]. intros x Hx. eapply handle_frame; [done..|].
    exact (claims_other _ _ _ _ _ Hc Hx).
  - destruct (refresh_depth ctx w) as [x w'] eqn:E. destruct (refresh_quiet _ _ _ _ E) as [Hi' Hv]. simpl.
    split; [auto|]. eapply claims_frame; [|exact Hc]. by rewrite Hv.
  - split; [by eapply Enqueue_inv|]. eapply claims_frame; [|exact Hc].
    intros x Hx. destruct r as [[]|e]; [|by rewrite (Enqueue_err _ _ _ _ _ Hi E)].
    eapply Enqueue_other; [exact Hi|exact E|]. intros He. destruct Hc as [_ Hc]. specialize (Hc x Hx).
    unfold unused_id in Hfree. rewrite He in Hc. change (j_ID job) with (ID job) in Hc. congruence.
Qed.

Lemma rstep_pool_ok cfg p p' : config_ok cfg → rstep unused_id cfg p p' → pool_ok p → pool_ok p'.
Proof.
  intros Hcfg Hstep (Hi & Hs & Hc). rewrite <-(app_nil_r (pl_workers p)) in Hc.
  destruct (rstep_claims _ _ _ [] Hcfg Hstep Hi Hc) as [Hi' Hc']. rewrite app_nil_r in Hc'.
  split_and!; [done|by eapply rstep_sems|done].
Qed.

Lemma pool_ok_start w n : q_inv w → pool_ok (mkPool w (newDomainSemaphores n) []).
Proof.
  intros Hi. split_and!; [done| |split; [constructor|]]; simpl.
  - intros k. unfold occupancy, newDomainSemaphores. simpl. rewrite lookup_empty. simpl. split; [done|]. lia.
  - intros x Hx. by apply elem_of_nil in Hx.
Qed.

Lemma pool_reachable_ok cfg w n p :
  config_ok cfg → q_inv w → rtc (rstep unused_id cfg) (mkPool w (newDomainSemaphores n) []) p →
  pool_ok p ∧ limit (pl_sems p) = (if n <=? 0 then 1%nat else Z.to_nat n).
Proof.
  intros Hcfg Hi Hr. revert p Hr. apply rtc_ind_r.
  - split; [by apply pool_ok_start|done].
  - intros p p' _ Hs [Hp Hl]. split; [by eapply rstep_pool_ok|]. rewrite <-Hl. eapply rstep_sems; [exact Hs|apply Hp].
Qed.

(** A worker waiting for a domain below its cap can take a slot. *)
Lemma slot_available adm cfg (w : W) d l1 l2 job domain :
  sems_ok d (l1 ++ mkWorker job domain Waiting :: l2) →
  (holders domain (l1 ++ mkWorker job domain Waiting :: l2) < limit d)%nat →
  ∃ d', rstep adm cfg (mkPool w d (l1 ++ mkWorker job domain Waiting :: l2)) (mkPool w d' (l1 ++ mkWorker job domain Holding :: l2)).
Proof.
  intros Hs Hlt. destruct (Hs domain) as [Hh _]. eexists. apply run_acquire. unfold try_acquire. rewrite occupancy_open. simpl.
  destruct (Nat.ltb_spec (occupancy d domain) (limit d)); [done|lia].
Qed.

(** C23: what becomes of a job.  [handle] never panics; whatever the network,
    the store and the webhooks do, it makes one attempt, observes its duration,
    and performs exactly one operation on the queue.  After success it removes the
    job and announces the delivery.  After a permanent failure or the last allowed
    attempt it counts a bounce, removes the job, and then has the sender notified
    of the cause and announces the bounce.  Otherwise it reschedules the job,
    unclaimed, with one more attempt and the error, due after the clock's reading
    by the backoff drawn for this attempt, which is below the full-jitter bound,
    and announces that.  Only if the operation on the queue itself fails is the
    queue as it was. *)
Theorem handle_outcome cfg ctx job (w : W) r w' :
  config_ok cfg → q_inv w → handle cfg ctx job w = (r, w') →
  let ctx' := WithCorrelationID ctx (CorrelationID job) in
  r = Ok tt ∧ q_inv w' ∧
  ∃ a w1 c, attempted cfg ctx' job w a w1 ∧ ending cfg ctx' job w1 a c w' ∧ closes q_inv q_view ctx' c w w'.
Proof.
  intros Hc Hi (? & ? & w1 & c & Hx)%handle_closes; [|done..]. split_and!; [done..|]. by eexists _, w1, c.
Qed.

(** One process on its own: deliveries never overlap on a job, and never exceed
    the cap of a destination.  In every state the pool reaches, by any
    interleaving of claims, slots, deliveries, cancellations and submissions, the
    running workers have pairwise distinct jobs, each still claimed in the queue;
    each domain has at most the configured number of slots in use; and a worker
    waiting for a domain below its cap can take a slot, however congested other
    domains are.  [Fleet] has the processes that share a queue. *)
Lemma pool_exclusive_and_capped cfg (w : W) n p :
  config_ok cfg → q_inv w → rtc (rstep unused_id cfg) (mkPool w (newDomainSemaphores n) []) p →
  NoDup ((λ x, ID (wk_job x)) <$> pl_workers p) ∧
  (∀ x, x ∈ pl_workers p → q_view (pl_world p) !! ID (wk_job x) = Some (wk_job x, true)) ∧
  (∀ domain, Z.of_nat (holders domain (pl_workers p)) ≤ Z.max 1 n) ∧
  (∀ l1 l2 job domain, pl_workers p = l1 ++ mkWorker job domain Waiting :: l2 →
     Z.of_nat (holders domain (pl_workers p)) < Z.max 1 n →
     ∃ d', rstep unused_id cfg p (mkPool (pl_world p) d' (l1 ++ mkWorker job domain Holding :: l2))).
Proof.
  intros Hcfg Hi Hr. destruct (pool_reachable_ok cfg w n p Hcfg Hi Hr) as [(Hi' & Hs & Hn & Hc) Hl].
  assert (Hlim : Z.of_nat (limit (pl_sems p)) = Z.max 1 n) by (rewrite Hl; destruct (Z.leb_spec n 0); lia).
  split_and!; [done|done|..].
  - intros k. destruct (Hs k). lia.
  - intros l1 l2 job dom Hw Hlt. destruct p as [wd d ws]. simpl in *. subst ws.
    destruct (slot_available unused_id cfg wd d l1 l2 job dom Hs) as [d' Hd]; [lia|by exists d'].
Qed.
End Facts.

(** ** Classification and host order *)

Lemma Cut_length s sep : let '(b, a, f) := Cut s sep in
  f = true → (String.length b + String.length a ≤ String.length s)%nat ∧
    (sep ≠ "" → String.length a < String.length s)%nat.
Proof.
  induction s as [|c s IH].
  - destruct sep; simpl; [|done]. intros _. split; [lia|done].
  - cbn [Cut]. destruct (HasPrefix (String c s) sep) eqn:E.
    + intros _. assert (Hd : ∀ n t, (String.length (str_drop n t) ≤ String.length t)%nat).
      { induction n as [|n IHn]; intros [|d t]; simpl; try lia. specialize (IHn t). lia. }
      split; [apply (Hd (String.length sep) (String c s))|]. destruct sep as [|d sep]; [done|]. intros _. simpl.
      specialize (Hd (String.length sep) s). lia.
    + destruct (Cut s sep) as [[b a] f]. intros Hf. destruct (IH Hf) as [H1 H2]. simpl. split; [lia|].
      intros Hs. specialize (H2 Hs). lia.
Qed.

Lemma parsed_shorter addr l d : ParseAddress addr = Some (l, d) → d ≠ addr.
Proof.
  unfold ParseAddress. pose proof (Cut_length addr "@") as Hc. destruct (Cut addr "@") as [[b a] f].
  destruct f; [|done]. simpl. destruct (_ || _); [done|]. intros [= <- <-] ->. destruct (Hc eq_refl) as [_ Hlt].
  specialize (Hlt ltac:(done)). lia.
Qed.

Section Classify.
Context {W : Type} {HRes : Resolver W} {HN : Net W} {HS : MessageStore W}.

(** The failures a job is given up for at once. *)
Definition is_final (e : goerr) : Prop := ∃ c, As_SMTPError e = Some c ∧ smtp_Temporary c = false.

Definition tagged (e : goerr) : Prop := ∃ e0 p, e = DeliveryError e0 p.

Lemma the_SMTPError_As e c : As_SMTPError e = Some c → As_SMTPError (the_SMTPError e) = Some c.
Proof. induction e; simpl; auto. Qed.

Lemma classify_spec stage e : tagged (classifySMTPErr stage e) ∧
  (isPermanent (classifySMTPErr stage e) = true ↔ is_final e) ∧
  (is_final e → is_final (classifySMTPErr stage e)).
Proof.
  unfold classifySMTPErr, is_final. destruct (As_SMTPError e) as [c|] eqn:E.
  - destruct (smtp_Temporary c) eqn:Et; (split; [by do 2 eexists|]); unfold isPermanent; simpl.
    + split; [split; [done|]|]; intros (c' & [= <-] & Hc); congruence.
    + split; [split; [by intros _; exists c|done]|]. intros _. exists c. split; [by apply the_SMTPError_As|done].
  - split; [by do 2 eexists|]. split; [split; [done|]|]; by intros (c & ? & _).
Qed.

Definition host_err (e : goerr) : Prop := tagged e ∧ (isPermanent e = true → is_final e).

Lemma classified stage e : host_err (classifySMTPErr stage e).
Proof. destruct (classify_spec stage e) as (Ht & Hp & Hf). split; [done|]. by intros ?%Hp%Hf. Qed.

Lemma temporary_host_err e : host_err (temporaryErr e).
Proof. split; [by do 2 eexists|done]. Qed.

(** A program whose errors all satisfy [host_err]. *)
Definition classifies {A} (m : M W (res A)) : Prop := ∀ w e w', m w = (Err e, w') → host_err e.

Lemma classifies_stage {A B} stage (m : M W (res A)) (k : A → M W (res B)) :
  (∀ a, classifies (k a)) → classifies (mtry (wrap (classifySMTPErr stage) m) k).
Proof.
  intros Hk w e w'. unfold mtry, wrap. destruct (m w) as [[a|e'] w1]; simpl; [apply Hk|].
  intros [= <- _]. apply classified.
Qed.

Lemma sendToHost_classifies cfg ctx host job body : classifies (sendToHost cfg ctx host job body).
Proof.
  intros w e w'. unfold sendToHost. cbv zeta. unfold mtry at 1, wrap at 1.
  destruct (dial _ _ _ w) as [[client|e'] w1]; simpl; [|intros [= <- _]; apply temporary_host_err].
  unfold bind at 1. match goal with |- context [let '(_, _) := ?m w1 in _] => assert (Hm : classifies m) end.
  { do 4 (apply classifies_stage; intros _). intros w2 e2 w3. unfold bind at 1.
    destruct (wc_Write client body w2) as [[[]|e3] w4].
    - apply (classifies_stage "DATA"). intros _ w5 e5 w6. unfold bind, ret. by destruct (cl_Quit client w5).
    - unfold bind, ret. destruct (wc_Close client w4). intros [= <- _]. apply temporary_host_err. }
  match goal with |- context [let '(_, _) := ?m w1 in _] => destruct (m w1) as [r w2] eqn:E end.
  unfold bind, ret. destruct (cl_Close client w2) as [x w3]. intros [= -> _]. by eapply Hm.
Qed.

Lemma send_hosts_classifies cfg ctx mxs job body last :
  (∀ e, last = Err e → host_err e) → classifies (send_hosts cfg ctx mxs job body last).
Proof.
  revert last. induction mxs as [|mx mxs IH]; intros last Hl w e w'; simpl; [by intros [= -> _]; apply Hl|].
  unfold bind. destruct (sendToHost cfg ctx (mx_Host mx) job body w) as [[[]|e'] w1] eqn:E; [done|].
  pose proof (sendToHost_classifies _ _ _ _ _ _ _ _ E) as He.
  destruct (isPermanent e'); [by intros [= <- _]|]. apply IH. by intros e2 [= <-].
Qed.

Lemma pref_total : total_order pref_leb.
Proof. split; unfold pref_leb; intros; lia. Qed.

(** C24: a failed attempt is classified by what failed.  Its error always
    carries a tag; the tag is permanent only for a malformed recipient, for a
    domain without MX records, or when a host answered with a reply that is not
    4xx; so no network, TLS, resolver or storage failure bounces a message.  The
    hosts come from the resolver's answer, lowest preference first, none
    dropped. *)
Theorem attempt_classified cfg ctx job (w : W) :
  (∀ e w', attempt cfg ctx job w = (Err e, w') → tagged e ∧
     (isPermanent e = true →
        ParseAddress (To job) = None ∨
        (∃ r w1, LookupMX ctx (destinationDomain (To job)) w = (r, w1) ∧
           (r = Ok [] ∨ ∃ e0, r = Err e0 ∧ isNotFoundDNSError e0 = true)) ∨
        is_final e)) ∧
  (∀ domain mxs w1 l w2, LookupMX ctx domain w = (Ok mxs, w1) → lookupMX ctx domain w = (Ok l, w2) →
     l ≡ₚ mxs ∧ sorted_by pref_leb l ∧ l ≠ []).
Proof.
  split.
  - intros e w'. unfold attempt. cbv zeta. destruct (String.eqb_spec (destinationDomain (To job)) (To job)) as [Hd|Hd].
    { unfold ret. intros [= <- _]. split; [by do 2 eexists|]. intros _. left.
      unfold destinationDomain in Hd. destruct (ParseAddress (To job)) as [[l d]|] eqn:E; [|done].
      exfalso. by apply (parsed_shorter (To job) l d). }
    unfold mtry at 1. unfold lookupMX, bind at 1. destruct (LookupMX ctx (destinationDomain (To job)) w) as [r w1] eqn:El.
    unfold ret. destruct r as [[|mx mxs]|e0].
    + intros [= <- _]. split; [by do 2 eexists|]. intros _. right. left. exists (Ok []), w1. split; [done|by left].
    + unfold mtry, wrap. destruct (s_Read _ _ w1) as [[body|e1] w2]; simpl.
      * intros E. unfold send in E. apply send_hosts_classifies in E as [Ht Hp]; [|done]. split; [done|]. auto.
      * intros [= <- _]. split; [by do 2 eexists|done].
    + destruct (isNotFoundDNSError e0) eqn:En; intros [= <- _]; (split; [by do 2 eexists|]); [|done].
      intros _. right. left. exists (Err e0), w1. split; [done|]. right. by exists e0.
  - intros domain mxs w1 l w2 El. unfold lookupMX, bind. rewrite El. unfold ret.
    destruct mxs as [|mx mxs]; [done|]. intros E. injection E as <- _.
    change (insert_by pref_leb mx (sort_by pref_leb mxs)) with (sort_by pref_leb (mx :: mxs)).
    split_and!; [apply sort_by_perm|apply sort_by_sorted, pref_total|].
    intros Hn. pose proof (sort_by_perm pref_leb (mx :: mxs)) as Hp. rewrite Hn in Hp.
    by apply Permutation_nil_cons in Hp.
Qed.
End Classify.

(** ** Bounces *)

Fixpoint count_char (c : ascii) (s : string) : nat :=
  match s with
  | EmptyString => 0
  | String d s => (if decide (d = c) then 1 else 0) + count_char c s
  end.

Lemma count_char_app c s t : count_char c (s +:+ t) = (count_char c s + count_char c t)%nat.
Proof. induction s as [|d s IH]; simpl; [done|]. rewrite IH. lia. Qed.

Lemma count_replace c o n s : o ≠ n → count_char c (replace_byte o n s) =
  if decide (c = o) then 0%nat
  else if decide (c = n) then (count_char c s + count_char o s)%nat else count_char c s.
Proof.
  intros Hn. induction s as [|d s IH]; simpl; [by repeat case_decide|]. rewrite IH.
  repeat case_decide; simplify_eq; lia.
Qed.

Lemma sanitize_no_break c s : c = "010"%char ∨ c = "013"%char → count_char c (sanitizeHeaderValue s) = 0%nat.
Proof.
  unfold sanitizeHeaderValue. intros [-> | ->].
  - rewrite count_replace by done. by rewrite decide_True.
  - rewrite count_replace by done. rewrite !decide_False by done. rewrite count_replace by done. by rewrite decide_True.
Qed.

Section Bounce.
Context {W : Type} {HE : Env W} {HS : MessageStore W} {HD : Directory W} {HT : ErrorText} {HF : TimeText}.

Lemma composing_keeps {X} (stored : W → X) `{!Preserves stored now, !Preserves stored uuid_NewString} job mta cause w r w' :
  buildDSN job mta cause w = (r, w') → stored w' = stored w.
Proof.
  unfold buildDSN, bind, ret. destruct (uuid_NewString w) as [u1 w1] eqn:E1. destruct (uuid_NewString w1) as [u2 w2] eqn:E2.
  destruct (now w2) as [t w3] eqn:E3. rewrite <-(preserves_eq stored _ _ _ _ E1), <-(preserves_eq stored _ _ _ _ E2),
    <-(preserves_eq stored _ _ _ _ E3). by destruct (SetBoundary _); intros [= _ <-].
Qed.

(** C25: bounces stay at home and cannot be forged by the remote server.  All
    that a bounce can do to what the directory's lookups, the clock and fresh
    UUIDs leave alone, such as the stored mail, is one Write: only when the
    envelope sender parses and its domain is a hosted active vhost, into the
    sender's own INBOX in that vhost, of the notification for this job.
    Whatever text the failed delivery produced, the notification has the line
    breaks it would have without it: an error message can add no header and no
    part. *)
Theorem bounce_safe {X} (stored : W → X) cfg ctx job cause (w : W) w' :
  (∀ ctx v, Preserves stored (d_VhostActive ctx v)) → Preserves stored now → Preserves stored uuid_NewString →
  deliverBounce cfg ctx job cause w = (tt, w') →
  (stored w' ≠ stored w → ∃ local dom w1 dsn w2,
     ParseAddress (From job) = Some (local, dom) ∧ d_VhostActive ctx dom w = (true, w1) ∧
     buildDSN job (Domain cfg) cause w1 = (Ok dsn, w2) ∧ stored w2 = stored w ∧
     w' = snd (s_Write ctx dom (MailboxPath local "INBOX") (Ok dsn) w2)) ∧
  (∀ mta dsn w0 w1, buildDSN job mta cause w0 = (Ok dsn, w1) →
     ∃ boundary msgid date, dsn = dsn_text job mta boundary msgid date (Error cause) ∧
       ∀ c, c = "010"%char ∨ c = "013"%char →
         count_char c dsn = count_char c (dsn_text job mta boundary msgid date "")).
Proof.
  intros Ha Hn Hu E. split.
  - intros Hne. unfold deliverBounce in E. destruct (ParseAddress (From job)) as [[local dom]|]; [|by injection E as <-].
    unfold bind at 1 in E. destruct (d_VhostActive ctx dom w) as [active w1] eqn:Ea.
    pose proof (preserves_eq stored _ _ _ _ Ea) as H1. destruct active; [|by injection E as <-]. simpl in E.
    unfold bind, ret in E. destruct (buildDSN job (Domain cfg) cause w1) as [dsn w2] eqn:Eb.
    assert (H2 : stored w2 = stored w) by by rewrite <-H1; eapply (composing_keeps stored).
    destruct dsn as [dsn|e]; [|by injection E as <-].
    destruct (s_Write _ _ _ _ w2) as [x w3] eqn:Ew. injection E as <-. exists local, dom, w1, dsn, w2.
    split_and!; [done..|by rewrite Ew].
  - intros mta dsn w0 w1. unfold buildDSN, bind. destruct (uuid_NewString w0) as [u1 w2].
    destruct (uuid_NewString w2) as [u2 w3]. destruct (now w3) as [t w4]. unfold ret.
    destruct (SetBoundary _); [|done]. intros [= <- _]. exists ("DSN_" +:+ u1), u2, (FormatRFC1123Z t).
    split; [done|]. intros c Hc. unfold dsn_text, mime_part. rewrite !count_char_app.
    rewrite !(sanitize_no_break c _ Hc). done.
Qed.
End Bounce.

(** ** A world for the witnesses

    An in-memory queue, one hosted domain, a destination whose first host is
    down and whose second accepts everything but one address. *)
Module DeliverExample.
Record DW := mkDW { dw_queue : MemoryBackend Job; dw_mail : list (string * string * string) }.
#[export] Program Instance has_queue : Has DW (MemoryBackend Job) := { getS := dw_queue; setS q w := mkDW q (dw_mail w) }.
Solve Obligations with done.
#[export] Instance env : Env DW := { env_metrics := unread; now := ret 100; uuid_NewString := ret "u" }.
#[export] Instance text : ErrorText := λ _, "550 no" +:+ CRLF +:+ "Bcc: x@y".
#[export] Instance time : TimeText := λ _, "today".
#[export] Instance json : JSON := { json_data _ := Ok "{}"; json_envelope _ := Ok "{}" }.
#[export] Instance rand : Rand DW := λ _, ret 0.
#[export] Instance rand_spec : RandSpec DW.
Proof. intros n w Hn. simpl. lia. Qed.
#[export] Instance directory : Directory DW := {
  d_Vhost _ _ := ret None;
  d_VhostActive _ v := ret (String.eqb v "a.test");
  d_Authenticate _ _ _ _ := ret false;
}.
#[export] Instance hooks : Enqueuer DW := λ _ _ _ _, ret (Ok tt).
#[export] Instance store : MessageStore DW := {
  s_Write _ v m body w :=
    match body with
    | Ok b => (Ok (mkRef v m "k"), mkDW (dw_queue w) ((v, m, b) :: dw_mail w))
    | Err e => (Err e, w)
    end;
  s_Read _ _ := ret (Ok "body");
  s_List _ _ _ := ret (Ok []);
  s_ListVhost _ _ := ret (Ok []);
  s_UpdateFlags _ _ _ := ret (Ok tt);
  s_Delete _ _ := ret (Ok tt);
}.
#[export] Instance resolver : Resolver DW := λ _ d,
  ret (if String.eqb d "b.test" then Ok [mkMX "mx2.b.test." 20; mkMX "mx1.b.test." 10] else Err (DNSError true)).
#[export] Instance net : Net DW := {|
  Conn := string; Client := string;
  DialContext _ a := ret (if String.eqb a "mx1.b.test:25" then Err (ErrNew "refused") else Ok a);
  NewClientStartTLS _ _ := ret (Err (ErrNew "no tls"));
  NewClient c := c;
  cl_Hello _ _ := ret (Ok tt);
  cl_Mail _ _ := ret (Ok tt);
  cl_Rcpt _ a := ret (if String.eqb a "gone@b.test" then Err (SMTPError 550 (5, 1, 1) "no such user") else Ok tt);
  cl_Data _ := ret (Ok tt);
  wc_Write _ _ := ret (Ok tt);
  wc_Close _ := ret (Ok tt);
  cl_Quit _ := ret (Ok tt);
  cl_Close _ := ret (Ok tt);
|}.
Definition order (m : gmap string Job) : list (string * Job) := map_to_list m.
#[export] Instance queue : QueueBackend DW Job := MemoryQueue order.
#[export] Instance queue_count : QueueCounter DW := MemoryCounter (J := Job).
#[export] Instance queue_count_spec : CounterSpec DW (memq_inv (J := Job)) (memq_view (J := Job)).
Proof. apply memq_count. Qed.
#[export] Instance queue_spec : QueueSpec DW Job (memq_inv (J := Job)) (memq_view (J := Job)).
Proof. apply memq_spec; [done|by intros w]. Qed.

Lemma queue_quiet : quiet_world (W := DW) (memq_inv (J := Job)) (memq_view (J := Job)).
Proof.
  split; intros; try (intros ? ? ? [= _ <-]; done).
  destruct b; intros ? ? ? [= _ <-]; done.
Qed.

Definition cfg : Config := withDefaults (mkConfig true "mx.a.test" 0 0 0 0 0 0 0 0).
Definition job (id to : string) : Job := mkJob id "a.test" "alice@a.test" to "ref" 0 5 "" "corr".
Definition world : DW := snd (q_Enqueue Background (job "j1" "bob@b.test") (mkDW NewMemoryBackend [])).
Definition claimed (to : string) : DW := snd (q_Dequeue (J := Job) Background (snd (q_Enqueue Background (job "j1" to) (mkDW NewMemoryBackend [])))).

Lemma start_inv : memq_inv (J := Job) (mkDW NewMemoryBackend []).
Proof. apply mem_wf_new. Qed.

Lemma claimed_inv to : memq_inv (J := Job) (claimed to).
Proof.
  eapply (Dequeue_inv (J := Job) Background (snd (q_Enqueue Background (job "j1" to) (mkDW NewMemoryBackend [])))); [|apply surjective_pairing].
  eapply Enqueue_inv; [apply start_inv|apply surjective_pairing].
Qed.

Lemma cfg_ok : config_ok cfg.
Proof. vm_compute. intuition congruence. Qed.
End DeliverExample.

Import DeliverExample.

Lemma handle_outcome_witness :
  let r := handle cfg Background (job "j1" "bob@b.test") (claimed "bob@b.test") in
  let g := handle cfg Background (job "j1" "gone@b.test") (claimed "gone@b.test") in
  fst r = Ok tt ∧ memq_view (J := Job) (snd r) = ∅ ∧ dw_mail (snd r) = [] ∧
  fst g = Ok tt ∧ memq_view (J := Job) (snd g) = ∅ ∧ (fst <$> dw_mail (snd g)) = [("a.test", "alice/INBOX")].
Proof.
  intros r g. split_and!; [|by vm_compute|by vm_compute| |by vm_compute|by vm_compute].
  - eapply (handle_outcome (memq_inv (J := Job)) (memq_view (J := Job)) queue_quiet cfg Background); [apply cfg_ok|apply claimed_inv|apply surjective_pairing].
  - eapply (handle_outcome (memq_inv (J := Job)) (memq_view (J := Job)) queue_quiet cfg Background); [apply cfg_ok|apply claimed_inv|apply surjective_pairing].
Defined.

Lemma pool_exclusive_and_capped_witness :
  let p := mkPool (claimed "bob@b.test") (mkSems {["b.test" := 1%nat]} 5)
             [mkWorker (job "j1" "bob@b.test") "b.test" Holding] in
  Z.of_nat (holders "b.test" (pl_workers p)) ≤ Z.max 1 5.
Proof.
  intros p. eapply (pool_exclusive_and_capped (memq_inv (J := Job)) (memq_view (J := Job)) queue_quiet cfg world 5 p); [apply cfg_ok| |].
  - eapply Enqueue_inv; [apply start_inv|apply surjective_pairing].
  - eapply rtc_l.
    + apply (run_claim _ cfg Background _ (claimed "bob@b.test") _ _ (job "j1" "bob@b.test")); by vm_compute.
    + apply rtc_once. apply (run_acquire _ cfg _ _ _ [] []). by vm_compute.
Defined.

Lemma attempt_classified_witness :
  let r := attempt cfg Background (job "j1" "gone@b.test") (claimed "gone@b.test") in
  (∃ e, fst r = Err e ∧ isPermanent e = true ∧ is_final e) ∧
  (∃ e, fst (attempt cfg Background (job "j1" "x@c.test") world) = Err e ∧ isPermanent e = true ∧ tagged e).
Proof.
  split.
  - destruct (attempt_classified cfg Background (job "j1" "gone@b.test") (claimed "gone@b.test")) as [Ha _].
    eexists. split; [by vm_compute|]. split; [by vm_compute|].
    destruct (Ha _ _ ltac:(vm_compute; reflexivity)) as [_ Hp].
    destruct (Hp ltac:(vm_compute; reflexivity)) as [Hx|[(r & w1 & Hr & Hx)|Hx]]; [by vm_compute in Hx| |exact Hx].
    vm_compute in Hr. injection Hr as <- _. destruct Hx as [Hx|(e0 & Hx & _)]; by vm_compute in Hx.
  - eexists. split; [by vm_compute|]. split; [by vm_compute|].
    apply (attempt_classified cfg Background (job "j1" "x@c.test") world) with (w' := world). by vm_compute.
Defined.

Lemma bounce_safe_witness :
  let w := claimed "gone@b.test" in
  let cause := ErrNew "x" in
  let bounced from := snd (deliverBounce cfg Background (mkJob "j1" "a.test" from "b@b.test" "ref" 0 5 "" "") cause w) in
  dw_mail (bounced "eve@evil.test") = [] ∧ (fst <$> dw_mail (bounced "alice@a.test")) = [("a.test", "alice/INBOX")] ∧
  ∃ local dom w1 dsn w2, ParseAddress "alice@a.test" = Some (local, dom) ∧ d_VhostActive Background dom w = (true, w1) ∧
    bounced "alice@a.test" = snd (s_Write Background dom (MailboxPath local "INBOX") (Ok dsn) w2).
Proof.
  intros w cause bounced. split; [by vm_compute|]. split; [by vm_compute|].
  destruct (bounce_safe dw_mail cfg Background (mkJob "j1" "a.test" "alice@a.test" "b@b.test" "ref" 0 5 "" "") cause w (bounced "alice@a.test"))
    as [(local & dom & w1 & dsn & w2 & Hp & Ha & _ & _ & Hw) _];
    [by intros c v x|by intros x|by intros x|by vm_compute|by vm_compute|]. by exists local, dom, w1, dsn, w2.
Defined.
