(* ===== verification/Fleet.v ===== *)
(** * Several delivering processes (internal/deliverer, deploy/k8s)

    The outbound role runs as replicas that share the Postgres queue.  A process
    has its own semaphores and goroutines ([Deliverer.pool]); it may start at
    any time, and it may die at any point of the deliveries it is running: the
    model cuts each of its [handle]s between two of the calls it makes, and
    drops the goroutines.  Nothing of a dead process is cleaned up. *)

From stdpp Require Import pretty.
From S2P Require Import Prelude Float64 Table Logging Queue Webhook Directory Storage Deliverer.

(** ** A delivery cut short *)

(** Where the process died: with the attempt made and nothing recorded; with the
    job completed and its bounce not written; with all done but the webhook
    event. *)
Inductive cut := AtAttempt | AtBounce | AtEvent.

Record proc := mkProc { pr_sems : domainSemaphores; pr_workers : list worker }.

(** [fl_lost] lists the jobs whose bounce was due when their process died. *)
Record fleet (W : Type) := mkFleet { fl_world : W; fl_procs : list proc; fl_lost : list Job }.
Arguments mkFleet {W} _ _ _.
Arguments fl_world {W} _.
Arguments fl_procs {W} _.
Arguments fl_lost {W} _.

Definition fleet_workers (ps : list proc) : list worker := mjoin (pr_workers <$> ps).

Section Run.
Context {W : Type} `{Env W, QueueBackend W Job, MessageStore W, Directory W, Enqueuer W, Resolver W, Net W,
  Rand W, JSON, ErrorText, TimeText, QueueCounter W}.
Context (cfg : Config).

(** The text of the bounce of a job that is not retried. *)
Definition final_cause (job : Job) (e : goerr) : option goerr :=
  if isPermanent e then Some e
  else if MaxAttempts cfg <=? Attempts job + 1
  then Some (ErrorfW "exhausted %d delivery attempts, last error: %w" [pretty (MaxAttempts cfg)] e)
  else None.

(** What [handle] does to the queue after its attempt; the cause of the bounce
    that is due next, if one is. *)
Definition record_outcome (ctx : Ctx) (job : Job) (r : res unit) : M W (option goerr) :=
  match r with
  | Ok _ => let* _ := q_Complete (J := Job) ctx (ID job) in ret None
  | Err e =>
      match final_cause job e with
      | Some cause => let* _ := Inc BouncesTotal in let* _ := q_Complete (J := Job) ctx (ID job) in ret (Some cause)
      | None =>
          let* t := now in
          let* delay := nextBackoff cfg (Attempts job) in
          match delay with
          | Ok delay => let* _ := q_Fail (J := Job) ctx (ID job) (Some e) (t + delay) in ret None
          | Err _ => ret None
          end
      end
  end.

(** [handle] up to the cut; the answer is whether a bounce was due. *)
Definition handle_until (k : cut) (ctx : Ctx) (job : Job) : M W bool :=
  let ctx := WithCorrelationID ctx (CorrelationID job) in
  let* r := measured cfg ctx job in
  match k with
  | AtAttempt => ret false
  | AtBounce => let* due := record_outcome ctx job r in ret (bool_decide (is_Some due))
  | AtEvent =>
      let* due := record_outcome ctx job r in
      let* _ := match due with Some cause => deliverBounce cfg ctx job cause | None => ret tt end in
      ret false
  end.

(** The end of a process: each goroutine stops where it is.  Those waiting for
    a slot, and those that have not done anything yet, leave no trace. *)
Inductive dying : W → list worker → list Job → W → Prop :=
| dying_done w : dying w [] [] w
| dying_idle w x ws lost w' : dying w ws lost w' → dying w (x :: ws) lost w'
| dying_cut k ctx w w1 job domain b ws lost w' :
    handle_until k ctx job w = (b, w1) → dying w1 ws lost w' →
    dying w (mkWorker job domain Holding :: ws) (if b then job :: lost else lost) w'.

(** The jobs other roles may enqueue, and what they do besides. *)
Context (admissible : W → Job → Prop) (others : W → W → Prop).

Inductive fstep : fleet W → fleet W → Prop :=
| fleet_run w w' l1 l2 d d' ws ws' lost :
    rstep admissible cfg (mkPool w d ws) (mkPool w' d' ws') →
    fstep (mkFleet w (l1 ++ mkProc d ws :: l2) lost) (mkFleet w' (l1 ++ mkProc d' ws' :: l2) lost)
| fleet_start w ps lost :
    fstep (mkFleet w ps lost) (mkFleet w (mkProc (newDomainSemaphores (PerDomainConcurrency cfg)) [] :: ps) lost)
| fleet_die w w' l1 d ws l2 cut_off lost :
    dying w ws cut_off w' →
    fstep (mkFleet w (l1 ++ mkProc d ws :: l2) lost) (mkFleet w' (l1 ++ l2) (cut_off ++ lost))
| fleet_submit ctx w w' ps lost job r :
    q_Enqueue ctx job w = (r, w') → admissible w job → fstep (mkFleet w ps lost) (mkFleet w' ps lost)
| fleet_other w w' ps lost : others w w' → fstep (mkFleet w ps lost) (mkFleet w' ps lost).
End Run.

Lemma fstep_weaken {W} `{Env W, QueueBackend W Job, MessageStore W, Directory W, Enqueuer W, Resolver W, Net W,
  Rand W, JSON, ErrorText, TimeText, QueueCounter W} cfg (P Q : W → Job → Prop) others f f' :
  (∀ w job, P w job → Q w job) → fstep cfg P others f f' → fstep cfg Q others f f'.
Proof.
  intros HPQ []; [eapply fleet_run, rstep_weaken|apply fleet_start|by apply fleet_die|eapply fleet_submit|by apply fleet_other]; eauto.
Qed.

(** ** Facts *)

Section Facts.
Context {W : Type} {HE : Env W} {HQ : QueueBackend W Job} {HS : MessageStore W} {HD : Directory W}
  {HW : Enqueuer W} {HRes : Resolver W} {HN : Net W} {HR : Rand W} {HJ : JSON} {HT : ErrorText} {HF : TimeText}
  {QC : QueueCounter W}.
Context (q_inv : W → Prop) (q_view : W → QView Job).
Context {QS : QueueSpec W Job q_inv q_view} {CS : CounterSpec W q_inv q_view} {RS : RandSpec W}.
Context (QW : quiet_world q_inv q_view).
Context (cfg : Config) (Hcfg : config_ok cfg).
Context (others : W → W → Prop) (Hothers : ∀ w w', others w w' → (q_inv w → q_inv w') ∧ q_view w' = q_view w).

Notation fstep := (fstep cfg (unused_id q_view) others).

(** Only the webhook event is missing at the last cut. *)
Lemma handle_until_event ctx job (w : W) b w1 : handle_until cfg AtEvent ctx job w = (b, w1) →
  b = false ∧ ∃ event : M W unit, snd (handle cfg ctx job w) = snd (event w1) ∧
    (event = ret tt ∨ ∃ et data, event = fire cfg (WithCorrelationID ctx (CorrelationID job)) job et data).
Proof.
  unfold handle_until, handle. set (ctx' := WithCorrelationID _ _). unfold bind at 1. unfold bind at 3.
  destruct (measured cfg ctx' job w) as [[[]|e] w2]; unfold record_outcome, final_cause, giving_up.
  - unfold bind, ret. destruct (q_Complete _ _ w2) as [c w3]. intros [= <- <-]. split; [done|].
    exists (fireDelivered cfg ctx' job). split; [|right; by do 2 eexists]. by destruct (fireDelivered _ _ _ w3).
  - destruct (isPermanent e); [set (cause := e)|destruct (MaxAttempts cfg <=? Attempts job + 1);
      [set (cause := ErrorfW _ _ e)|]].
    1-2: unfold bind, ret; destruct (Inc BouncesTotal w2) as [u w2']; destruct (q_Complete _ _ w2') as [c w3]; destruct (deliverBounce _ _ _ cause w3) as [[] w4];
      intros [= <- <-]; (split; [done|]); exists (fireBounced cfg ctx' job cause); (split; [|right; by do 2 eexists]);
      by destruct (fireBounced _ _ _ cause w4).
    unfold mtry, bind, ret. destruct (now w2) as [t w3]. destruct (nextBackoff cfg (Attempts job) w3) as [[d|x] w4].
    + destruct (q_Fail _ _ _ _ w4) as [f w5]. intros [= <- <-]. split; [done|].
      exists (fireDeferred cfg ctx' job e (t + d)). split; [|right; by do 2 eexists]. by destruct (fireDeferred _ _ _ _ _ w5).
    + intros [= <- <-]. split; [done|]. exists (ret tt). split; [done|by left].
Qed.

Lemma record_outcome_spec ctx job r (w : W) due w' : q_inv w → record_outcome cfg ctx job r w = (due, w') →
  q_inv w' ∧ (q_view w' = q_view w ∨ job_outcome cfg job r (q_view w) (q_view w')) ∧
  due = match r with Ok _ => None | Err e => final_cause cfg job e end.
Proof.
  destruct Hcfg as (Hb & Hm & _). intros Hi. unfold record_outcome, job_outcome, final_cause, bind, ret.
  assert (Hdone : ∀ w1 c w2, q_inv w1 → q_view w1 = q_view w → q_Complete ctx (ID job) w1 = (c, w2) → q_inv w2 ∧
    (q_view w2 = q_view w ∨ q_view w2 = delete (ID job) (q_view w))).
  { intros w1 c w2 Hi1 <- Ec. split; [by eapply Complete_inv|]. destruct c as [[]|e].
    - right. by apply Complete_ok in Ec as [_ ->].
    - left. by apply Complete_err in Ec. }
  destruct r as [[]|e]; [|destruct (isPermanent e); simpl; [|destruct (MaxAttempts cfg <=? Attempts job + 1)]].
  1: destruct (q_Complete ctx (ID job) w) as [c w2] eqn:Ec; destruct (Hdone w c w2 Hi eq_refl Ec) as [? ?]; by intros [= <- <-].
  1-2: destruct (Inc BouncesTotal w) as [u w1] eqn:Eu; destruct (qw_inc _ _ QW _ _ _ _ Eu) as [Hi1 Hv1];
    destruct (q_Complete ctx (ID job) w1) as [c w2] eqn:Ec; destruct (Hdone w1 c w2 (Hi1 Hi) Hv1 Ec) as [? ?]; by intros [= <- <-].
  destruct (now w) as [t w2] eqn:En. destruct (qw_now _ _ QW _ _ _ En) as [Hi2 Hv2]. unfold nextBackoff.
  destruct (FullJitter_spec (Attempts job) (BackoffBase cfg) (BackoffMax cfg) w2 Hb Hm) as (delay & w3 & Ej & Hdelay).
  destruct (jitter_quiet _ _ QW _ _ _ _ _ _ Ej) as [Hi3 Hv3]. rewrite Ej.
  destruct (q_Fail ctx (ID job) (Some e) (t + delay) w3) as [f w4] eqn:Ef. intros [= <- <-].
  assert (Hi3' : q_inv w3) by auto. assert (Hv : q_view w3 = q_view w) by congruence.
  split_and!; [by eapply Fail_inv| |done]. destruct f as [[]|e'].
  - right. apply Fail_ok in Ef as (j & b & Hl & ->); [|done]. rewrite Hv in Hl |- *. by exists j, b, t, delay.
  - left. apply Fail_err in Ef; [|done]. congruence.
Qed.

Lemma handle_until_spec k ctx job (w : W) b w' : q_inv w → handle_until cfg k ctx job w = (b, w') →
  q_inv w' ∧ (q_view w' = q_view w ∨
    job_outcome cfg job (fst (measured cfg (WithCorrelationID ctx (CorrelationID job)) job w)) (q_view w) (q_view w')).
Proof.
  intros Hi. unfold handle_until. set (ctx' := WithCorrelationID _ _). unfold bind at 1.
  destruct (measured cfg ctx' job w) as [a w1] eqn:Ea.
  destruct (measured_quiet _ _ QW _ _ _ _ _ _ Ea) as [Hi1 Hv1]. specialize (Hi1 Hi). cbn [fst]. rewrite <-Hv1.
  destruct k; unfold bind, ret; [intros [= _ <-]; auto|..];
    destruct (record_outcome cfg ctx' job a w1) as [due w2] eqn:Er; apply record_outcome_spec in Er as (Hi2 & Hv2 & _); [|done| |done].
  - by intros [= _ <-].
  - destruct due as [cause|]; [|by intros [= _ <-]].
    destruct (deliverBounce cfg ctx' job cause w2) as [x w3] eqn:Eb. intros [= _ <-].
    destruct (deliverBounce_quiet _ _ QW _ _ _ _ _ _ _ Eb) as [Hi3 ->]. auto.
Qed.

Lemma handle_until_frame k ctx job (w : W) b w' id : q_inv w → handle_until cfg k ctx job w = (b, w') →
  id ≠ ID job → q_view w' !! id = q_view w !! id.
Proof.
  intros Hi E%handle_until_spec Hid; [|done]. destruct E as (_ & [->|Ho]); [done|]. by eapply outcome_frame.
Qed.

(** *** The invariant *)

Definition cap : nat := limit (newDomainSemaphores (PerDomainConcurrency cfg)).

Lemma cap_max : Z.of_nat cap = Z.max 1 (PerDomainConcurrency cfg).
Proof. unfold cap. simpl. destruct (Z.leb_spec (PerDomainConcurrency cfg) 0); lia. Qed.

Definition proc_ok (p : proc) : Prop := sems_ok (pr_sems p) (pr_workers p) ∧ limit (pr_sems p) = cap.

(** [gone] are workers of processes that died. *)
Definition fleet_ok (gone : list worker) (f : fleet W) : Prop :=
  q_inv (fl_world f) ∧ Forall proc_ok (fl_procs f) ∧
  claims_ok q_view (fl_world f) (fleet_workers (fl_procs f) ++ gone).

Lemma fleet_workers_app l1 l2 : fleet_workers (l1 ++ l2) = fleet_workers l1 ++ fleet_workers l2.
Proof. unfold fleet_workers. by rewrite fmap_app, join_app. Qed.

Lemma fleet_workers_middle l1 d ws l2 gone :
  fleet_workers (l1 ++ mkProc d ws :: l2) ++ gone ≡ₚ ws ++ fleet_workers (l1 ++ l2) ++ gone.
Proof.
  rewrite !fleet_workers_app. change (fleet_workers (mkProc d ws :: l2)) with (ws ++ fleet_workers l2).
  rewrite !app_assoc. do 2 f_equiv. by rewrite (Permutation_app_comm (fleet_workers l1) ws).
Qed.

Lemma dying_ok w ws lost w' rest : dying cfg w ws lost w' → q_inv w → claims_ok q_view w (ws ++ rest) →
  q_inv w' ∧ claims_ok q_view w' rest.
Proof.
  induction 1 as [w|w x ws lost w' _ IH|k ctx w w1 job dom b ws lost w' E _ IH]; intros Hi Hc; [done|..].
  - apply IH; [done|]. by apply (claims_sub q_view w [] (ws ++ rest) x).
  - pose proof (handle_until_spec _ _ _ _ _ _ Hi E) as [Hi1 _]. apply IH; [done|].
    eapply claims_frame; [|by apply (claims_sub q_view w [] (ws ++ rest) _ Hc)].
    intros y Hy. eapply handle_until_frame; [exact Hi|exact E|]. exact (claims_other q_view w [] _ _ _ Hc Hy).
Qed.

Lemma enqueue_claims ctx job (w : W) r w' ws : q_Enqueue ctx job w = (r, w') → unused_id q_view w job → q_inv w →
  claims_ok q_view w ws → q_inv w' ∧ claims_ok q_view w' ws.
Proof.
  intros E Hu Hi Hc.
  destruct (rstep_claims q_inv q_view QW cfg (mkPool w (newDomainSemaphores 0) []) (mkPool w' (newDomainSemaphores 0) []) ws Hcfg)
    as [? ?]; [by eapply run_submit|done..].
Qed.

Lemma fstep_ok gone f f' : fstep f f' → fleet_ok gone f → fleet_ok gone f'.
Proof.
  intros Hstep (Hi & Hp & Hc). destruct Hstep as [w w' l1 l2 d d' ws ws' lost Hr|w ps lost|w w' l1 d ws l2 cut_off lost Hd
    |ctx w w' ps lost job r E Hu|w w' ps lost Ho]; unfold fleet_ok; simpl in *.
  - apply Forall_app in Hp as [Hp1 [[Hs Hl] Hp2]%Forall_cons].
    apply (claims_perm _ _ _ _ (fleet_workers_middle l1 d ws l2 gone)) in Hc.
    destruct (rstep_claims q_inv q_view QW cfg _ _ _ Hcfg Hr Hi Hc) as [Hi' Hc'].
    apply (rstep_sems cfg _ _ _ Hr) in Hs as [Hs Hl']. simpl in *. split_and!; [done| |].
    + apply Forall_app. split; [done|]. constructor; [|done]. split; [done|]. simpl. congruence.
    + eapply claims_perm; [|exact Hc']. by rewrite fleet_workers_middle.
  - split_and!; [done| |done]. constructor; [|done]. split; [|done].
    by destruct (pool_ok_start q_inv q_view w (PerDomainConcurrency cfg) Hi) as (_ & Hs & _).
  - apply Forall_app in Hp as [Hp1 [_ Hp2]%Forall_cons].
    apply (claims_perm _ _ _ _ (fleet_workers_middle l1 d ws l2 gone)) in Hc.
    destruct (dying_ok _ _ _ _ _ Hd Hi Hc) as [Hi' Hc']. split_and!; [done| |done]. by apply Forall_app.
  - destruct (enqueue_claims _ _ _ _ _ _ E Hu Hi Hc). by split_and!.
  - destruct (Hothers _ _ Ho) as [Hi' Hv]. split_and!; [auto|done|]. eapply claims_frame; [|exact Hc]. by rewrite Hv.
Qed.

Lemma fleet_reachable_ok gone f f' : rtc fstep f f' → fleet_ok gone f → fleet_ok gone f'.
Proof. induction 1 as [|f f1 f' Hs _ IH]; [done|]. intros Hf. by eapply IH, fstep_ok. Qed.

Lemma fleet_ok_start (w : W) : q_inv w → fleet_ok [] (mkFleet w [] []).
Proof. intros Hi. split_and!; [done|constructor|]. split; [constructor|]. by intros x Hx%elem_of_nil. Qed.

Lemma fleet_holders domain ps : Forall proc_ok ps → (holders domain (fleet_workers ps) ≤ length ps * cap)%nat.
Proof.
  induction 1 as [|[d ws] ps [Hs Hl] _ IH]; [done|]. change (fleet_workers (mkProc d ws :: ps)) with (ws ++ fleet_workers ps).
  rewrite holders_app. simpl in *. destruct (Hs domain). lia.
Qed.

(** What the fleet gets wrong: a job that is claimed by no worker, as a process
    that died leaves it, stays so, although the deliverer says that such a job is
    picked up again after a restart (NFR-AV-2). *)
Lemma lost_claim_stays (w : W) f : q_inv w → rtc fstep (mkFleet w [] []) f →
  ∀ job f', q_view (fl_world f) !! ID job = Some (job, true) → ID job ∉ (λ x, ID (wk_job x)) <$> fleet_workers (fl_procs f) → rtc fstep f f' →
  q_view (fl_world f') !! ID job = Some (job, true) ∧ ID job ∉ (λ x, ID (wk_job x)) <$> fleet_workers (fl_procs f').
Proof.
  intros Hi Hr job f' Hj Hnot Hr'. pose proof (fleet_reachable_ok [] _ _ Hr (fleet_ok_start w Hi)) as (Hi' & Hp & Hn & Hc).
  rewrite app_nil_r in Hn, Hc. assert (Hg : fleet_ok [mkWorker job "" Waiting] f).
  { split_and!; [done|done|]. split.
    - rewrite fmap_app. apply NoDup_app. split_and!; [done| |by apply NoDup_singleton].
      intros i Hi1 Hi2%list_elem_of_singleton. by subst i.
    - intros x [Hx|Hx%list_elem_of_singleton]%elem_of_app; [by apply Hc|by subst x]. }
  destruct (fleet_reachable_ok _ _ _ Hr' Hg) as (_ & _ & Hn' & Hc'). split.
  - apply (Hc' (mkWorker job "" Waiting)). apply elem_of_app. right. by left.
  - rewrite fmap_app in Hn'. apply NoDup_app in Hn' as (_ & Hn' & _). intros Hx. apply (Hn' _ Hx). by left.
Qed.

(** C26: deliveries never overlap on a job and never exceed the cap of a
    destination, across all the processes that share the queue.  In every state
    that starting processes, their interleaved claims, slots and deliveries,
    cancellations, submissions and processes dying in mid-delivery can lead to:
    the running workers of all processes have pairwise distinct jobs, each still
    claimed in the queue; a process uses at most the configured number of slots
    of a domain, and so the fleet that number times its processes; and a worker
    waiting for a domain below its process's cap can take a slot. *)
Theorem fleet_exclusive_and_capped (w : W) f : q_inv w → rtc fstep (mkFleet w [] []) f →
  let ws := fleet_workers (fl_procs f) in
  NoDup ((λ x, ID (wk_job x)) <$> ws) ∧
  (∀ x, x ∈ ws → q_view (fl_world f) !! ID (wk_job x) = Some (wk_job x, true)) ∧
  (∀ p domain, p ∈ fl_procs f → Z.of_nat (holders domain (pr_workers p)) ≤ Z.max 1 (PerDomainConcurrency cfg)) ∧
  (∀ domain, Z.of_nat (holders domain ws) ≤ Z.of_nat (length (fl_procs f)) * Z.max 1 (PerDomainConcurrency cfg)) ∧
  (∀ l1 d l3 l4 l2 job domain, fl_procs f = l1 ++ mkProc d (l3 ++ mkWorker job domain Waiting :: l4) :: l2 →
     Z.of_nat (holders domain (l3 ++ mkWorker job domain Waiting :: l4)) < Z.max 1 (PerDomainConcurrency cfg) →
     ∃ d', fstep f (mkFleet (fl_world f) (l1 ++ mkProc d' (l3 ++ mkWorker job domain Holding :: l4) :: l2) (fl_lost f))).
Proof.
  intros Hi Hr ws. pose proof (fleet_reachable_ok [] _ _ Hr (fleet_ok_start w Hi)) as Hok.
  destruct Hok as (Hi' & Hp & Hn & Hc). rewrite app_nil_r in Hn, Hc. pose proof cap_max as Hcap. split_and!; [done|done|..].
  - intros p domain Hin. rewrite Forall_forall in Hp. destruct (Hp p Hin) as [Hs Hl]. destruct (Hs domain). lia.
  - intros domain. pose proof (fleet_holders domain _ Hp). unfold ws. nia.
  - intros l1 d l3 l4 l2 job domain Hpr Hlt. rewrite Hpr in Hp. apply Forall_app in Hp as [_ [[Hs Hl] _]%Forall_cons].
    simpl in Hs, Hl. destruct (slot_available (unused_id q_view) cfg (fl_world f) d l3 l4 job domain Hs) as [d' Hd]; [lia|].
    exists d'. destruct f as [wf ps lost]. simpl in *. subst ps. by apply fleet_run.
Qed.
End Facts.

(** ** A run of two processes *)
Module FleetExample.
Import DeliverExample.

Notation step := (fstep (W := DW) cfg (unused_id (memq_view (J := Job))) (λ _ _, False)).

Definition slots (n : nat) : domainSemaphores := mkSems {["b.test" := n]} 5.
Definition holding : worker := mkWorker (job "j1" "bob@b.test") "b.test" Holding.

Definition waiter : worker := mkWorker (job "j1" "bob@b.test") "b.test" Waiting.

(** The first process has claimed the job; then it delivers, and a second process
    starts. *)
Definition queued : fleet DW := mkFleet (claimed "bob@b.test") [mkProc (newDomainSemaphores 5) [waiter]] [].
Definition busy : fleet DW :=
  mkFleet (claimed "bob@b.test") [mkProc (newDomainSemaphores 5) []; mkProc (slots 1) [holding]] [].

(** The first process has died, with the message sent and the job not completed. *)
Definition bereft : fleet DW :=
  mkFleet (snd (handle_until cfg AtAttempt Background (job "j1" "bob@b.test") (claimed "bob@b.test")))
    [mkProc (newDomainSemaphores 5) []] [].

Lemma queued_reached : rtc step (mkFleet world [] []) queued.
Proof.
  eapply rtc_l; [apply fleet_start|]. apply rtc_once.
  apply (fleet_run cfg _ _ world (claimed "bob@b.test") [] [] (newDomainSemaphores 5) (newDomainSemaphores 5) [] [waiter]).
  apply (run_claim _ cfg Background world (claimed "bob@b.test") _ _ (job "j1" "bob@b.test")). by vm_compute.
Qed.

Lemma busy_reached : rtc step (mkFleet world [] []) busy.
Proof.
  etransitivity; [exact queued_reached|]. eapply rtc_l.
  { apply (fleet_run cfg _ _ (claimed "bob@b.test") (claimed "bob@b.test") [] [] (newDomainSemaphores 5) (slots 1) [waiter] [holding]).
    apply (run_acquire _ cfg _ _ (slots 1) [] []). by vm_compute. }
  apply rtc_once. exact (fleet_start cfg _ _ (claimed "bob@b.test") [mkProc (slots 1) [holding]] []).
Qed.

Lemma bereft_reached : rtc step busy bereft.
Proof.
  apply rtc_once. apply (fleet_die cfg _ _ (claimed "bob@b.test") _ [mkProc (newDomainSemaphores 5) []] (slots 1) [holding] [] [] []).
  exact (dying_cut cfg AtAttempt Background _ _ (job "j1" "bob@b.test") "b.test" false [] [] _ (surjective_pairing _)
    (dying_done cfg _)).
Qed.
End FleetExample.

Import DeliverExample FleetExample.

Lemma fleet_exclusive_and_capped_witness :
  Z.of_nat (holders "b.test" (fleet_workers (fl_procs busy))) ≤ 2 * 5 ∧
  (∃ d', step queued (mkFleet (fl_world queued) [mkProc d' [holding]] [])) ∧
  NoDup ((λ x, ID (wk_job x)) <$> fleet_workers (fl_procs bereft)).
Proof.
  assert (Hi : memq_inv (J := Job) world) by (eapply Enqueue_inv; [apply start_inv|apply surjective_pairing]).
  pose proof (λ f : fleet DW, fleet_exclusive_and_capped (memq_inv (J := Job)) (memq_view (J := Job)) queue_quiet cfg cfg_ok
    (λ _ _, False) ltac:(done) world f Hi) as H.
  split_and!.
  - destruct (H busy busy_reached) as (_ & _ & _ & Hcap & _). exact (Hcap "b.test").
  - destruct (H queued queued_reached) as (_ & _ & _ & _ & Hslot).
    apply (Hslot [] (newDomainSemaphores 5) [] [] [] (job "j1" "bob@b.test") "b.test"); [done|by vm_compute].
  - apply (H bereft). etransitivity; [exact busy_reached|exact bereft_reached].
Defined.

(** The dead process's job, for ever. *)
Lemma bereft_for_ever f : rtc step bereft f → memq_view (J := Job) (fl_world f) !! "j1" = Some (job "j1" "bob@b.test", true).
Proof.
  assert (Hi : memq_inv (J := Job) world) by (eapply Enqueue_inv; [apply start_inv|apply surjective_pairing]).
  intros Hf. assert (Hr : rtc step (mkFleet world [] []) bereft) by (etransitivity; [exact busy_reached|exact bereft_reached]).
  destruct (lost_claim_stays (memq_inv (J := Job)) (memq_view (J := Job)) queue_quiet cfg cfg_ok (λ _ _, False) ltac:(done)
    world bereft Hi Hr (job "j1" "bob@b.test") f) as [Hs _]; [by vm_compute|by vm_compute; intros ?%elem_of_nil|done..].
Qed.
