(* ===== verification/Retention.v ===== *)
(** * The retention sweep (internal/retention/retention.go)

    Deletes what is older than a vhost's window, vhost by vhost.  The sweep sees
    the directory as a pager ([vhostLister]) and the storage as [MessageStore].
    Logging has no effect that is modelled. *)

From S2P Require Import Prelude Float64 Table Logging Paging Directory Storage.

Definition DefaultRetentionDays : Z := 90.
Definition DefaultSweepInterval : Duration := 24 * Hour.

(** [vhostLister]. *)
Class vhostLister (W : Type) := l_ListVhosts : Ctx → string → Z → M W (res (list Vhost)).

(** The settings of a [Purger]; its clock is the environment's. *)
Record Purger := mkPurger { pu_DefaultRetentionDays : Z; pu_SweepInterval : Duration }.

Definition defaultDays (p : Purger) : Z :=
  if 0 <? pu_DefaultRetentionDays p then pu_DefaultRetentionDays p else DefaultRetentionDays.

Definition sweepInterval (p : Purger) : Duration :=
  if 0 <? pu_SweepInterval p then pu_SweepInterval p else DefaultSweepInterval.

(** [t.AddDate(0, 0, -days)], in a zone without daylight saving. *)
Definition days_before (t : Time) (days : Z) : Time := t - days * (24 * Hour).

Definition window (p : Purger) (v : Vhost) : Z :=
  if RetentionDays (vh_policy v) <=? 0 then defaultDays p else RetentionDays (vh_policy v).

(** The messages the sweep leaves: no age, or younger than the cutoff. *)
Definition keep (cutoff : Time) (m : MessageMeta) : bool :=
  IsZero (mm_CreatedAt m) || After (mm_CreatedAt m) cutoff.

Section Ops.
Context {W : Type} `{Env W, MessageStore W, vhostLister W}.
Context (p : Purger).

Definition purge_message (ctx : Ctx) (cutoff : Time) (m : MessageMeta) : M W unit :=
  if keep cutoff m then ret tt
  else
    let* r := s_Delete ctx (mm_Ref m) in
    match r with
    | Err _ => ret tt
    | Ok _ => Inc RetentionPurgedTotal
    end.

Definition purgeVhost (ctx : Ctx) (v : Vhost) : M W unit :=
  let* t := now in
  let cutoff := days_before t (window p v) in
  let* r := s_ListVhost ctx (vh_Domain v) in
  match r with
  | Err _ => ret tt
  | Ok messages => mfold messages (λ m _, purge_message ctx cutoff m) tt
  end.

(** The loop of [Sweep]; [None] when [n] pages were not enough. *)
Fixpoint sweep_pages (n : nat) (ctx : Ctx) (cursor : string) : M W (option unit) :=
  match n with
  | O => ret None
  | S n =>
      if ctx_Err ctx then ret (Some tt)
      else
        let* r := l_ListVhosts ctx cursor DefaultVhostPageSize in
        match r with
        | Err _ => ret (Some tt)
        | Ok vhosts =>
            let* _ := mfold vhosts (λ v _, purgeVhost ctx v) tt in
            if Z.of_nat (length vhosts) <? DefaultVhostPageSize then ret (Some tt)
            else sweep_pages n ctx (next_cursor vh_ID cursor vhosts)
        end
  end.

Definition Sweep (n : nat) (ctx : Ctx) : M W (option unit) :=
  let* id := NewCorrelationID in
  sweep_pages n (WithCorrelationID ctx id) "".

(** [Run]: a sweep at once, then one per tick until the context ends; [ticks]
    says for each turn whether the context is done by then. *)
Fixpoint Run (n : nat) (ctx : Ctx) (ticks : list bool) : M W unit :=
  let* _ := Sweep n ctx in
  match ticks with
  | [] => ret tt
  | done :: ticks => if done : bool then ret tt else Run n ctx ticks
  end.
End Ops.

(** ** Purging one vhost *)

Section Purge.
Context {W Addr : Type} {HE : Env W} {HS : MessageStore W} {inv : W → Prop} {addr : MessageRef → Addr}
  {norm : list string → list string} {box : string → string → Prop} {valid : MessageRef → Prop}
  {holds : W → Addr → string → list string → Prop}.
Context {SS : StoreSpec W Addr inv addr norm box valid holds}.

(** Deleting every message the store holds works. *)
Definition deletes_work (ctx : Ctx) : Prop := ∀ ref w b f,
  inv w → valid ref → holds w (addr ref) b f → is_Ok (fst (s_Delete ctx ref w)) = true.

(** What surrounds the counter of purged messages. *)
Record purge_counter (ctx : Ctx) (reading : W → Z) : Prop := {
  pc_counts : counts RetentionPurgedTotal reading;
  pc_inc : quiet inv holds (Inc RetentionPurgedTotal);
  pc_delete : ∀ ref, Preserves reading (s_Delete ctx ref);
  pc_list : ∀ v, Preserves reading (s_ListVhost ctx v);
}.

Lemma purge_messages_spec ctx reading cutoff (l : list MessageMeta) (w : W) u w' :
  purge_counter ctx reading → inv w → (∀ m, m ∈ l → valid (mm_Ref m)) →
  mfold l (λ m _, purge_message ctx cutoff m) tt w = (u, w') →
  inv w' ∧ ∃ deleted : list MessageMeta, sublist deleted (filter (λ m, keep cutoff m = false) l) ∧
    reading w' = reading w + Z.of_nat (length deleted) ∧
    (∀ a b f, holds w' a b f ↔ holds w a b f ∧ a ∉ (λ m, addr (mm_Ref m)) <$> deleted) ∧
    (deletes_work ctx → ∀ m b f, m ∈ l → keep cutoff m = false → ¬ holds w' (addr (mm_Ref m)) b f).
Proof.
  intros PC. revert w. induction l as [|m l IH]; intros w Hi Hv; simpl.
  { unfold ret. intros [= _ <-]. split; [done|]. exists []. split_and!; [done|simpl; lia| |].
    - intros a b f. rewrite elem_of_nil. tauto.
    - by intros _ m b f ?%elem_of_nil. }
  unfold bind at 1, purge_message at 1. destruct (keep cutoff m) eqn:Ek.
  { unfold ret. intros E. apply IH in E as (Hi' & del & Hs & Hn & Hh & Hd); [|done|set_solver].
    split; [done|]. exists del. rewrite filter_cons_False by congruence. split_and!; [done..|].
    intros Hw x b f [->|Hx]%elem_of_cons; [congruence|by apply Hd]. }
  unfold bind, ret. destruct (s_Delete ctx (mm_Ref m) w) as [r w1] eqn:Ed.
  pose proof (pc_delete _ _ PC (mm_Ref m) w) as Hr. rewrite Ed in Hr. simpl in Hr.
  assert (Hvm : valid (mm_Ref m)) by (apply Hv; set_solver). rewrite filter_cons_True by done.
  destruct r as [[]|e].
  - destruct (sp_Delete_ok _ _ _ _ Hi Hvm Ed) as (Hi1 & _ & Hh1).
    pose proof (pc_counts _ _ PC w1) as Hc. destruct (Inc RetentionPurgedTotal w1) as [[] w2] eqn:Ei. simpl in Hc.
    destruct (pc_inc _ _ PC _ _ _ Ei) as [Hi2 Hh2]. intros E.
    apply IH in E as (Hi' & del & Hs & Hn & Hh & Hd); [|auto|set_solver].
    split; [done|]. exists (m :: del). split_and!; [by constructor|simpl; lia| |].
    + intros a b f. rewrite Hh, Hh2, Hh1, fmap_cons, elem_of_cons. tauto.
    + intros Hw y b f [->|Hy]%elem_of_cons Hky; [|by apply Hd]. rewrite Hh, Hh2, Hh1. tauto.
  - intros E. destruct (sp_Delete_err _ _ _ _ _ Hi Hvm Ed) as (Hi1 & Hh1).
    apply IH in E as (Hi' & del & Hs & Hn & Hh & Hd); [|done|set_solver].
    split; [done|]. exists del. split_and!; [by constructor|lia| |].
    + intros a b f. by rewrite Hh, Hh1.
    + intros Hw x b f [->|Hx]%elem_of_cons Hkx; [|by apply Hd]. rewrite Hh, Hh1. intros [Hx _].
      specialize (Hw (mm_Ref m) w b f Hi Hvm Hx). by rewrite Ed in Hw.
Qed.

(** The age limit of a vhost in days, and what is past it. *)
Definition past (p : Purger) (v : Vhost) (t : Time) (m : MessageMeta) : Prop :=
  let days := if 0 <? RetentionDays (vh_policy v) then RetentionDays (vh_policy v)
              else if 0 <? pu_DefaultRetentionDays p then pu_DefaultRetentionDays p else 90 in
  mm_CreatedAt m ≠ 0 ∧ mm_CreatedAt m ≤ t - days * 86400000000000.

Lemma keep_past p v t m : keep (days_before t (window p v)) m = false ↔ past p v t m.
Proof.
  unfold keep, past, window, defaultDays, days_before, IsZero, After. rewrite orb_false_iff, Z.eqb_neq, Z.ltb_ge.
  change (24 * Hour) with 86400000000000. unfold DefaultRetentionDays.
  destruct (Z.leb_spec (RetentionDays (vh_policy v)) 0), (Z.ltb_spec 0 (RetentionDays (vh_policy v))); try lia; done.
Qed.

(** C27: a vhost's purge deletes exactly what is too old.  With the window the
    vhost configures, else the operator's default, else 90 days, purging
    removes from the store only messages its own listing shows with a known
    age past the window, so nothing of another vhost and nothing young or
    undated; every other message keeps its body and flags; the counter of purged
    messages goes up by their number; and when deletions work nothing past the
    window is left of that listing. *)
Theorem purge_exact p ctx v reading m0 (w w1 w' : W) l :
  (∀ w : W, snd (now w) = w) → purge_counter ctx reading →
  inv w → box (vh_Domain v) m0 →
  s_ListVhost ctx (vh_Domain v) w = (Ok l, w1) → (∀ m, m ∈ l → valid (mm_Ref m)) →
  purgeVhost p ctx v w = (tt, w') →
  inv w' ∧ ∃ deleted : list MessageMeta,
    (∀ m, m ∈ deleted → m ∈ l ∧ past p v (fst (now w)) m ∧ rf_Vhost (mm_Ref m) = vh_Domain v) ∧
    reading w' = reading w + Z.of_nat (length deleted) ∧
    (∀ a b f, holds w' a b f ↔ holds w a b f ∧ a ∉ (λ m, addr (mm_Ref m)) <$> deleted) ∧
    (deletes_work ctx → ∀ m b f, m ∈ l → past p v (fst (now w)) m → ¬ holds w' (addr (mm_Ref m)) b f).
Proof.
  intros Hnow PC Hi Hb El Hv. unfold purgeVhost, bind. pose proof (Hnow w) as Hw0.
  destruct (now w) as [t w0]. simpl in Hw0. subst w0. cbn [fst]. rewrite El. intros E.
  destruct (sp_ListVhost_ok _ _ _ _ _ _ Hi Hb El) as (Hi1 & Hh1 & Hin & _).
  pose proof (pc_list _ _ PC (vh_Domain v) w) as Hr. rewrite El in Hr. simpl in Hr.
  apply (purge_messages_spec ctx reading) in E as (Hi' & del & Hs & Hn & Hh & Hd); [|done..].
  setoid_rewrite <-keep_past. split; [done|]. exists del. split_and!; [|by rewrite Hn, Hr| |done].
  - intros m Hm. apply (sublist_subseteq _ _ Hs), list_elem_of_filter in Hm as [Ho Hm].
    split_and!; [done..|]. by apply Hin.
  - intros a b f. by rewrite Hh, Hh1.
Qed.
End Purge.

(** ** The pages of a sweep *)

Section Sweep.
Context {W : Type} {HE : Env W} {HS : MessageStore W} {HL : vhostLister W}.
Context (vhosts : W → list Vhost).

(** What the sweep relies on: a page is the next vhosts after the cursor, and
    neither paging nor purging changes which vhosts there are. *)
Record lister_ok (p : Purger) : Prop := {
  lo_page : ∀ ctx l1 l2 w l w', vhosts w = l1 ++ l2 →
    l_ListVhosts ctx (default "" (vh_ID <$> last l1)) DefaultVhostPageSize w = (Ok l, w') →
    l = take (Z.to_nat DefaultVhostPageSize) l2 ∧ w' = w;
  lo_purge : ∀ ctx v w, vhosts (snd (purgeVhost p ctx v w)) = vhosts w;
}.

(** The reference: purge every vhost, one after the other. *)
Definition purge_all (p : Purger) (ctx : Ctx) (l : list Vhost) : M W unit :=
  mfold l (λ v _, purgeVhost p ctx v) tt.

Lemma purge_all_app p ctx l1 l2 w :
  purge_all p ctx (l1 ++ l2) w = purge_all p ctx l2 (snd (purge_all p ctx l1 w)).
Proof.
  unfold purge_all. revert w. induction l1 as [|v l1 IH]; intros w; simpl; [done|].
  unfold bind. destruct (purgeVhost p ctx v w) as [[] w1]. apply IH.
Qed.

Lemma purge_all_vhosts p ctx l w : lister_ok p → vhosts (snd (purge_all p ctx l w)) = vhosts w.
Proof.
  intros Hl. unfold purge_all. revert w. induction l as [|v l IH]; intros w; simpl; [done|].
  unfold bind. pose proof (lo_purge p Hl ctx v w) as Hv. destruct (purgeVhost p ctx v w) as [[] w1].
  simpl in Hv. by rewrite IH.
Qed.

Lemma sweep_pages_spec p ctx n l1 l2 w r w' :
  lister_ok p → ctx_Err ctx = None →
  (∀ ctx c w, is_Ok (fst (l_ListVhosts ctx c DefaultVhostPageSize w)) = true) →
  vhosts w = l1 ++ l2 → (length l2 < n)%nat →
  sweep_pages p n ctx (default "" (vh_ID <$> last l1)) w = (r, w') →
  r = Some tt ∧ w' = snd (purge_all p ctx l2 w).
Proof.
  intros Hl Hc Hok. revert l1 l2 w. induction n as [|n IH]; intros l1 l2 w Hv Hn; [lia|]. simpl. rewrite Hc.
  unfold bind at 1. specialize (Hok ctx (default "" (vh_ID <$> last l1)) w) as Hok1.
  destruct (l_ListVhosts ctx _ DefaultVhostPageSize w) as [[page|e] w1] eqn:El; [|done].
  destruct (lo_page p Hl _ _ _ _ _ _ Hv El) as [Hpage ->]. unfold bind.
  destruct (mfold page _ tt w) as [[] w2] eqn:Ep.
  assert (Hw2 : w2 = snd (purge_all p ctx page w)) by (unfold purge_all; by rewrite Ep).
  pose proof (purge_all_vhosts p ctx page w Hl) as Hv2. rewrite <-Hw2 in Hv2.
  destruct (take_prefix (Z.to_nat DefaultVhostPageSize) l2) as [l3 Hl3]. rewrite <-Hpage in Hl3.
  destruct (Z.ltb_spec (Z.of_nat (length page)) DefaultVhostPageSize) as [Hlt|Hge].
  - unfold ret. intros [= <- <-]. split; [done|]. rewrite Hw2. f_equal. f_equal.
    rewrite Hpage, length_take in Hlt. rewrite Hpage. by rewrite take_ge by lia.
  - intros E. assert (Hcur : next_cursor vh_ID (default "" (vh_ID <$> last l1)) page = default "" (vh_ID <$> last (l1 ++ page))).
    { unfold next_cursor. destruct page as [|x page]; [simpl in Hge; unfold DefaultVhostPageSize in Hge; lia|].
      rewrite last_app_cons. by destruct (last (x :: page)) as [y|] eqn:Ey; [|apply last_None in Ey]. }
    rewrite Hcur in E. apply (IH (l1 ++ page) l3) in E as [-> ->].
    + split; [done|]. rewrite Hl3, purge_all_app. by rewrite Hw2.
    + rewrite Hv2, Hv. rewrite Hl3 at 1. by rewrite app_assoc.
    + rewrite Hl3, length_app in Hn. unfold DefaultVhostPageSize in Hge. lia.
Qed.

(** A sweep visits every vhost once.  As long as pages can be read, the
    paged sweep ends, after at most one page per vhost and one more, and does
    exactly what purging the whole vhost list in order does, however many pages
    it took. *)
Theorem sweep_visits_all p n ctx w :
  lister_ok p → (∀ w : W, snd (uuid_NewString w) = w) → ctx_Err ctx = None →
  (∀ ctx c w, is_Ok (fst (l_ListVhosts ctx c DefaultVhostPageSize w)) = true) →
  (length (vhosts w) < n)%nat →
  fst (Sweep p n ctx w) = Some tt ∧
  snd (Sweep p n ctx w) = snd (purge_all p (WithCorrelationID ctx (fst (uuid_NewString w))) (vhosts w) w).
Proof.
  intros Hl Hu Hc Hok Hn. unfold Sweep, bind, NewCorrelationID. pose proof (Hu w) as Hw.
  destruct (uuid_NewString w) as [id w0]. simpl in Hw. subst w0. cbn [fst].
  destruct (sweep_pages p n (WithCorrelationID ctx id) "" w) as [r w'] eqn:E.
  apply (sweep_pages_spec p (WithCorrelationID ctx id) n [] (vhosts w) w r w') in E as [-> ->]; try done.
  by rewrite WithCorrelationID_Err.
Qed.
End Sweep.

(** ** The directory is such a pager *)

Section DirectoryPager.
Context {W : Type} {HE : Env W} {HS : MessageStore W} `{TableSpec W vhostRow}.

#[local] Instance directory_lister : vhostLister W := ListVhosts.

(** Its vhosts, in the order of the pages. *)
Definition directory_vhosts (w : W) : list Vhost := (λ r, vhostFromRow r None) <$> in_order (tbl_rows w).

Lemma directory_pages ctx l1 l2 (w : W) l w' :
  ids_unique (tbl_rows w) → Forall (λ r, row_Id r ≠ "") (tbl_rows w) →
  directory_vhosts w = l1 ++ l2 →
  l_ListVhosts ctx (default "" (vh_ID <$> last l1)) DefaultVhostPageSize w = (Ok l, w') →
  l = take (Z.to_nat DefaultVhostPageSize) l2 ∧ tbl_rows w' = tbl_rows w.
Proof.
  intros Hu Hne Hv E. apply endpoint_ok in E as [Hw E]; [|done]. split; [|done]. rewrite (E l eq_refl).
  rewrite filter_all by by apply Forall_true. apply fmap_app_inv in Hv as (k1 & k2 & -> & -> & Hk).
  rewrite fmap_take. f_equal. f_equal. rewrite fmap_last.
  pose proof (in_order_strict _ Hu) as Hst. rewrite Hk in Hst |- *.
  destruct k1 as [|a k1 _] using rev_ind.
  - simpl. unfold after. apply filter_all. by apply Forall_true.
  - rewrite last_snoc. simpl. rewrite <-app_assoc in *. simpl in *. apply after_app; [done|].
    rewrite Forall_forall in Hne. apply Hne. rewrite <-(sort_by_perm (order_by row_Id) (tbl_rows w)).
    unfold in_order in Hk. rewrite Hk. set_solver.
Qed.
End DirectoryPager.

(** ** A run

    Two vhosts in the Postgres store on day 100: one keeps mail ten days, the
    other the default ninety. *)
Module RetentionExample.
Import Storage.Postgres.
Record RW := mkRW { rw_mail : list (Row messageRow); rw_purged : Z }.
#[export] Program Instance has_mail : Has RW (list (Row messageRow)) := { getS := rw_mail; setS l w := mkRW l (rw_purged w) }.
Solve Obligations with done.
Definition day (n : Z) : Time := n * (24 * Hour).
#[export] Instance message_conflicts : ListTable.Conflicts messageRow := λ _ _, false.
Definition counter : Metrics RW := {|
  Inc m := λ w, (tt, mkRW (rw_mail w) (rw_purged w + if decide (m = RetentionPurgedTotal) then 1 else 0));
  Set_ _ _ := ret tt; Observe _ _ := ret tt;
|}.
#[export] Instance env : Env RW := { env_metrics := counter; now := ret (day 100); uuid_NewString := ret "u" }.
#[export] Instance store : MessageStore RW := Backend.
Definition vhost (id dom : string) (days : Z) : Vhost :=
  mkVhost id "" dom true "" None (mkPolicy 0 0 F0 F0 days).
Definition vs : list Vhost := [vhost "v1" "a.test" 10; vhost "v2" "b.test" 0].
#[export] Instance lister : vhostLister RW := λ _ cursor limit,
  ret (Ok (take (Z.to_nat limit) (filter (λ v, String.eqb cursor "" || str_ltb cursor (vh_ID v) = true) vs))).
Definition msg (id v : string) (d : Z) : Row messageRow :=
  mkRow id (Some (day d)) (mkMessageRow v "alice/INBOX" "x" 1 "").
Definition world : RW :=
  mkRW [msg "m1" "a.test" 80; msg "m2" "a.test" 95; msg "m3" "b.test" 80; msg "m4" "b.test" 5] 0.
Definition purger : Purger := mkPurger 0 0.

#[export] Instance store_spec : @StoreSpec RW MessageRef store pinv id (λ fl, decodeFlags (encodeFlags fl))
  (λ _ _, True) (λ _, True) pholds.
Proof. apply postgres_store_spec. Qed.

Lemma world_ids : pinv world.
Proof. vm_compute. repeat constructor; set_solver. Qed.

Lemma lift_purged {B} (m : M (list (Row messageRow)) B) : quiet (λ _ : RW, True) rw_purged (lift m).
Proof. intros w b w'. unfold lift. destruct (m (getS w)). by intros [= _ <-]. Qed.

Lemma counted ctx : purge_counter (inv := pinv) (holds := pholds) ctx rw_purged.
Proof.
  split.
  - intros w. done.
  - intros w x w' [= _ <-]. done.
  - intros ref w. assert (H : quiet (λ _ : RW, True) rw_purged (s_Delete ctx ref)).
    { simpl. unfold Delete. quiet_calls; apply lift_purged. }
    destruct (s_Delete ctx ref w) as [r w'] eqn:E. by apply (H _ _ _ E).
  - intros v w. assert (H : quiet (λ _ : RW, True) rw_purged (s_ListVhost ctx v)).
    { simpl. unfold ListVhost. quiet_calls; apply lift_purged. }
    destruct (s_ListVhost ctx v w) as [r w'] eqn:E. by apply (H _ _ _ E).
Qed.

Lemma lister_fine : lister_ok (λ _ : RW, vs) purger.
Proof.
  split; [|done]. intros ctx l1 l2 w l w' Hv [= <- <-]. split; [|done].
  unfold vs in Hv. destruct l1 as [|a [|b [|c l1]]]; simpl in Hv.
  - subst l2. by vm_compute.
  - injection Hv as <- <-. by vm_compute.
  - injection Hv as <- <- <-. by vm_compute.
  - discriminate Hv.
Qed.
End RetentionExample.

Import RetentionExample.

Lemma purge_exact_witness :
  let w' := snd (purgeVhost purger Background (vhost "v1" "a.test" 10) world) in
  Storage.Postgres.pinv w' ∧ row_Id <$> rw_mail w' = ["m2"; "m3"; "m4"] ∧ rw_purged w' = 1.
Proof.
  intros w'. split; [|by split; vm_compute].
  eapply (purge_exact (SS := store_spec) purger Background (vhost "v1" "a.test" 10) rw_purged "" world world w').
  - done.
  - apply counted.
  - apply world_ids.
  - done.
  - by vm_compute.
  - done.
  - unfold w'. by destruct (purgeVhost purger Background (vhost "v1" "a.test" 10) world) as [[] x].
Defined.

Lemma sweep_visits_all_witness :
  fst (Sweep purger 3 Background world) = Some tt ∧ row_Id <$> rw_mail (snd (Sweep purger 3 Background world)) = ["m2"; "m3"].
Proof.
  split; [|by vm_compute].
  apply (sweep_visits_all (λ _, vs) purger 3 Background world); [apply lister_fine|done|done|done|simpl; lia].
Defined.
