(* ===== verification/Lifecycle.v ===== *)
(** * Background loops and their shutdown (internal/platform, cmd/envelope/main.go)

    The adapters between the process and what it runs: [App] serves a listener,
    [HeadlessApp] runs a loop until told to stop.  Run and Shutdown are called
    by different goroutines, so a [HeadlessApp] is a transition system at the
    granularity of the statements that touch its fields, over any loop that is
    an instance of [Loop]; what the shutdown needs of the loop is [LoopSpec].
    The loops of the deliverer, the webhook dispatcher, the purger and the HTTP
    instances are the instances.  Fields written by one goroutine are seen by
    the other at once; the data race on them is not modelled. *)

From S2P Require Import Prelude Float64 Table Logging Queue Directory Storage Webhook Dispatcher Deliverer Retention.

(** ** App: a server with its listener (app.go) *)

(** [Server] and, where the library has it, [GracefulServer]. *)
Class Server (W S Listener : Type) := {
  srv_Serve : S → Listener → M W (res unit);
  srv_Close : S → M W (res unit);
  srv_Shutdown : option (Ctx → S → M W (res unit));
}.

Section App.
Context {W S Listener : Type} `{Server W S Listener}.

Record App := mkServerApp { ap_Listener : Listener; ap_Server : S }.

Definition App_Run (a : App) : M W (res unit) := srv_Serve (ap_Server a) (ap_Listener a).

(** The context's deadline is [ShutdownTimeout]; deadlines are not modelled. *)
Definition App_Shutdown (a : App) : M W (res unit) :=
  match srv_Shutdown with
  | Some shutdown => shutdown Background (ap_Server a)
  | None => srv_Close (ap_Server a)
  end.
End App.

(** ** Loops

    [Work] is a step the loop's own goroutines take; [Outside] is caused from
    outside: a timer firing when the select could as well see the context done,
    a job submitted by another role, a listener failing. *)
Inductive kind := Work | Outside.

(** A loop under a context; [lp_return] is what it returned, once it has. *)
Class Loop (L : Type) := {
  lp_step : Ctx → kind → L → L → Prop;
  lp_return : L → option (res unit);
}.

(** What a shutdown relies on: once its context is done, a loop always has a
    step of its own until it returns, and every such step uses up weight. *)
Class LoopSpec (L : Type) `{Loop L} (inv : L → Prop) (weight : L → nat) : Prop := {
  lp_inv : ∀ ctx k l l', inv l → lp_step ctx k l l' → inv l';
  lp_returned : ∀ ctx k l l' r, lp_return l = Some r → lp_step ctx k l l' → lp_return l' = Some r;
  lp_progress : ∀ ctx l, inv l → is_Some (ctx_Err ctx) → lp_return l = None → ∃ l', lp_step ctx Work l l';
  lp_work : ∀ ctx l l', inv l → is_Some (ctx_Err ctx) → lp_step ctx Work l l' → (weight l' < weight l)%nat;
  lp_outside : ∀ ctx l l', inv l → lp_step ctx Outside l l' → (weight l' ≤ S (weight l))%nat;
}.

(** [context.Canceled], and a context after its cancel function was called. *)
Definition Canceled : goerr := Sentinel "context.Canceled".

Definition cancelled (ctx : Ctx) : Ctx :=
  mkCtx (Some (default Canceled (ctx_Err ctx))) (ctx_CorrelationID ctx).

Lemma cancelled_done ctx : is_Some (ctx_Err (cancelled ctx)).
Proof. by eexists. Qed.

(** ** HeadlessApp (headless.go) *)

(** Where the goroutine in Run is: not started, [a.cancel] assigned, [a.done]
    assigned and the loop running, returned and [a.done] closed. *)
Inductive run_pc := RunIdle | RunEntered | RunLooping | RunReturned (r : res unit).

(** Where the goroutine in Shutdown is: not called, before the test of
    [a.cancel], before the test of [a.done], receiving from it, returned. *)
Inductive shut_pc := ShutIdle | ShutCancel | ShutDone | ShutWait | ShutReturned.

#[export] Instance shut_pc_eq_dec : EqDecision shut_pc.
Proof. solve_decision. Defined.

(** [ha_cancel]: [a.cancel != nil]; [ha_done]: [a.done], nil or a channel that is
    open or closed; [ha_ctx]: the context Run made. *)
Record HeadlessApp (L : Type) := mkApp {
  ha_cancel : bool;
  ha_done : option bool;
  ha_ctx : Ctx;
  ha_run : run_pc;
  ha_shutdown : shut_pc;
  ha_loop : L;
}.
Arguments mkApp {L} _ _ _ _ _ _.
Arguments ha_cancel {L} _.
Arguments ha_done {L} _.
Arguments ha_ctx {L} _.
Arguments ha_run {L} _.
Arguments ha_shutdown {L} _.
Arguments ha_loop {L} _.

(** [Boot] of a [HeadlessPlatform]. *)
Definition Boot {L} (loop : L) : HeadlessApp L := mkApp false None Background RunIdle ShutIdle loop.

Inductive astep {L} `{Loop L} : kind → HeadlessApp L → HeadlessApp L → Prop :=
| run_with_cancel c d ctx sh l :
    astep Work (mkApp c d ctx RunIdle sh l) (mkApp true d Background RunEntered sh l)
| run_make_done c d ctx sh l :
    astep Work (mkApp c d ctx RunEntered sh l) (mkApp c (Some false) ctx RunLooping sh l)
| run_loop k c d ctx sh l l' : lp_step ctx k l l' →
    astep k (mkApp c d ctx RunLooping sh l) (mkApp c d ctx RunLooping sh l')
| run_return c d ctx sh l r : lp_return l = Some r →
    astep Work (mkApp c d ctx RunLooping sh l) (mkApp c (Some true) ctx (RunReturned r) sh l)
| shut_call c d ctx rn l :
    astep Outside (mkApp c d ctx rn ShutIdle l) (mkApp c d ctx rn ShutCancel l)
| shut_cancel c d ctx rn l :
    astep Work (mkApp c d ctx rn ShutCancel l) (mkApp c d (if c then cancelled ctx else ctx) rn ShutDone l)
| shut_done c d ctx rn l :
    astep Work (mkApp c d ctx rn ShutDone l)
      (mkApp c d ctx rn (match d with Some _ => ShutWait | None => ShutReturned end) l)
| shut_receive c ctx rn l :
    astep Work (mkApp c (Some true) ctx rn ShutWait l) (mkApp c (Some true) ctx rn ShutReturned l).

(** Executions with the number of steps of each kind. *)
Inductive steps {L} `{Loop L} : nat → nat → HeadlessApp L → HeadlessApp L → Prop :=
| steps_none a : steps 0 0 a a
| steps_work n m a b c : astep Work a b → steps n m b c → steps (S n) m a c
| steps_outside n m a b c : astep Outside a b → steps n m b c → steps n (S m) a c.

Definition app_step {L} `{Loop L} (a b : HeadlessApp L) : Prop := ∃ k, astep k a b.

(** What is left to do of a cancelled app. *)
Definition app_weight {L} (weight : L → nat) (a : HeadlessApp L) : nat :=
  weight (ha_loop a) +
  (match ha_run a with RunReturned _ => 0 | _ => 1 end) +
  (match ha_shutdown a with ShutReturned => 0 | ShutWait => 1 | ShutDone => 2 | ShutCancel => 3 | ShutIdle => 3 end).

Section HeadlessApp.
Context {L : Type} {HL : Loop L} {inv : L → Prop} {weight : L → nat} {LS : LoopSpec L inv weight}.

(** Run's progress and the fields agree. *)
Definition app_ok (a : HeadlessApp L) : Prop :=
  inv (ha_loop a) ∧
  match ha_run a with
  | RunIdle => ha_cancel a = false ∧ ha_done a = None
  | RunEntered => ha_cancel a = true ∧ ha_done a = None
  | RunLooping => ha_cancel a = true ∧ ha_done a = Some false
  | RunReturned r => ha_cancel a = true ∧ ha_done a = Some true ∧ lp_return (ha_loop a) = Some r
  end.

(** The loop was running when Shutdown tested the fields, if it did. *)
Definition heard (a : HeadlessApp L) : Prop :=
  match ha_run a with RunLooping | RunReturned _ => True | _ => False end ∧
  match ha_shutdown a with
  | ShutIdle | ShutCancel => True
  | ShutDone | ShutWait => is_Some (ctx_Err (ha_ctx a))
  | ShutReturned => is_Some (ctx_Err (ha_ctx a)) ∧ ∃ r, ha_run a = RunReturned r
  end.

Lemma app_ok_step k a b : astep k a b → app_ok a → app_ok b.
Proof.
  destruct 1; unfold app_ok; simpl; try tauto.
  intros (? & -> & ->). split; [|done]. by eapply lp_inv.
Qed.

Lemma heard_step k a b : astep k a b → app_ok a → heard a → heard b.
Proof.
  destruct 1; unfold app_ok, heard; simpl; intros [_ Hr] [? Hs]; try tauto.
  - destruct sh; naive_solver.
  - destruct rn; destruct_and?; try done; subst; split; try done; apply cancelled_done.
  - destruct rn; destruct_and?; try done; by subst.
  - destruct rn; destruct_and?; try done. eauto.
Qed.

Lemma app_ok_Boot l : inv l → app_ok (Boot l).
Proof. done. Qed.

Lemma app_ok_rtc a b : rtc app_step a b → app_ok a → app_ok b.
Proof. induction 1 as [|? ? ? [? ?] ? IH]; eauto using app_ok_step. Qed.

Lemma heard_rtc a b : rtc app_step a b → app_ok a → heard a → heard b.
Proof. induction 1 as [|? ? ? [? ?] ? IH]; eauto using app_ok_step, heard_step. Qed.

(** The context stays done. *)
Lemma done_step k a b : astep k a b → heard a → is_Some (ctx_Err (ha_ctx a)) → is_Some (ctx_Err (ha_ctx b)).
Proof. destruct 1; unfold heard; simpl; try tauto. intros. destruct c; [apply cancelled_done|done]. Qed.

Lemma app_progress a : app_ok a → heard a → ha_shutdown a ≠ ShutIdle → ha_shutdown a ≠ ShutReturned →
  ∃ b, astep Work a b.
Proof.
  destruct a as [c d ctx rn sh l]. unfold app_ok, heard. simpl. intros [Hi Hr] [Hrn Hs] ? ?.
  destruct sh; try done; [by eexists; constructor..|].
  destruct rn as [| | |r]; try done; [|destruct Hr as (_ & -> & _); by eexists; constructor].
  destruct (lp_return l) as [r|] eqn:E; [by eexists; eapply run_return|].
  destruct (lp_progress ctx l Hi Hs E) as [l' ?]. eexists. by eapply run_loop.
Qed.

Lemma app_decreases a b : app_ok a → heard a → is_Some (ctx_Err (ha_ctx a)) → astep Work a b →
  (app_weight weight b < app_weight weight a)%nat.
Proof.
  intros [Hi Hr] [Hrn Hs] Hd Hab. remember Work as k eqn:Hk. revert Hk. unfold app_weight.
  destruct Hab; intros; simplify_eq/=; try done; try lia.
  - pose proof (lp_work _ _ _ Hi Hd H). lia.
  - destruct rn; destruct_and?; simplify_eq; simpl; lia.
Qed.

Lemma app_outside a b : app_ok a → astep Outside a b → (app_weight weight b ≤ S (app_weight weight a))%nat.
Proof.
  intros [Hi _] Hab. remember Outside as k eqn:Hk. revert Hk. unfold app_weight.
  destruct Hab; intros; simplify_eq/=; try lia.
  pose proof (lp_outside _ _ _ Hi H). lia.
Qed.

Lemma steps_bounded n m a b : app_ok a → heard a → is_Some (ctx_Err (ha_ctx a)) → steps n m a b →
  (n ≤ app_weight weight a + m)%nat.
Proof.
  intros Ho Hh Hd Hs. revert Ho Hh Hd. induction Hs as [|? ? ? ? ? Hab _ IH|? ? ? ? ? Hab _ IH]; intros; [lia|..].
  - pose proof (app_decreases _ _ Ho Hh Hd Hab).
    specialize (IH (app_ok_step _ _ _ Hab Ho) (heard_step _ _ _ Hab Ho Hh) (done_step _ _ _ Hab Hh Hd)). lia.
  - pose proof (app_outside _ _ Ho Hab).
    specialize (IH (app_ok_step _ _ _ Hab Ho) (heard_step _ _ _ Hab Ho Hh) (done_step _ _ _ Hab Hh Hd)). lia.
Qed.

(** A Shutdown that has been called can always be finished by the process's own
    steps. *)
Lemma shutdown_finishes a : app_ok a → heard a → is_Some (ctx_Err (ha_ctx a)) → ha_shutdown a ≠ ShutIdle →
  ∃ n b, steps n 0 a b ∧ ha_shutdown b = ShutReturned.
Proof.
  remember (app_weight weight a) as w eqn:Ew. revert a Ew.
  induction (lt_wf w) as [w _ IH]. intros a -> Ho Hh Hd Hi.
  destruct (ha_shutdown a) eqn:Es; try done.
  all: try (destruct (app_progress a Ho Hh) as [b Hab]; [by rewrite Es..|];
    destruct (IH _ (app_decreases _ _ Ho Hh Hd Hab) b eq_refl (app_ok_step _ _ _ Hab Ho)
      (heard_step _ _ _ Hab Ho Hh) (done_step _ _ _ Hab Hh Hd)) as (n & c & ? & ?);
      [by inversion Hab; simplify_eq/=; repeat case_match|];
    exists (S n), c; split; [by econstructor|done]).
  exists 0%nat, a. split; [constructor|done].
Qed.

Lemma shutdown_returned a : app_ok a → heard a → ha_shutdown a = ShutReturned →
  ∃ r, ha_run a = RunReturned r ∧ lp_return (ha_loop a) = Some r.
Proof. intros [_ Ho] [_ Hh] Hs. rewrite Hs in Hh. destruct Hh as (_ & r & Hr). rewrite Hr in Ho. exists r. tauto. Qed.

Lemma heard_done a : heard a → ha_shutdown a ≠ ShutIdle → ha_shutdown a ≠ ShutCancel → is_Some (ctx_Err (ha_ctx a)).
Proof. intros [_ Hh] ? ?. destruct (ha_shutdown a); tauto. Qed.

(** The same from before the test of [a.cancel]. *)
Lemma shutdown_completes a : app_ok a → heard a → ha_shutdown a ≠ ShutIdle →
  ∃ n b, steps n 0 a b ∧ ha_shutdown b = ShutReturned.
Proof.
  intros Ho Hh Hi. destruct (decide (ha_shutdown a = ShutCancel)) as [Hs|Hs].
  2:{ by apply shutdown_finishes; [..|apply heard_done|]. }
  destruct a as [c d ctx rn sh l]. simpl in Hs. subst sh.
  pose proof (shut_cancel c d ctx rn l) as Hab. pose proof (heard_step _ _ _ Hab Ho Hh) as Hh'.
  destruct (shutdown_finishes _ (app_ok_step _ _ _ Hab Ho) Hh') as (n & b & ? & ?);
    [by apply heard_done|done|]. exists (S n), b. split; [by econstructor|done].
Qed.
End HeadlessApp.

(** ** A loop of one goroutine that works on a timer: [Purger.Run]

    The receive from the ticker and the receive from [ctx.Done()] are ready
    together when a tick is due, so a tick may win after a cancellation. *)
Module PurgerLoop.
Inductive purger_pc := Sweeping | Selecting | Returned.

Record purger_state (W : Type) := mkState { pl_pc : purger_pc; pl_world : W }.
Arguments mkState {W} _ _.
Arguments pl_pc {W} _.
Arguments pl_world {W} _.

Section Run.
Context {W : Type} `{Env W, MessageStore W, vhostLister W}.
Context (p : Purger).

(** Before the first sweep. *)
Definition purger_start (w : W) : purger_state W := mkState Sweeping w.

Inductive purger_step (ctx : Ctx) : kind → purger_state W → purger_state W → Prop :=
| sweep n w w' : Sweep p n ctx w = (Some tt, w') → purger_step ctx Work (mkState Sweeping w) (mkState Selecting w')
| done w : is_Some (ctx_Err ctx) → purger_step ctx Work (mkState Selecting w) (mkState Returned w)
| tick w : purger_step ctx Outside (mkState Selecting w) (mkState Sweeping w).

#[export] Instance loop : Loop (purger_state W) := {|
  lp_step := purger_step;
  lp_return s := match pl_pc s with Returned => Some (Ok tt) | _ => None end;
|}.

Definition weight (s : purger_state W) : nat :=
  match pl_pc s with Sweeping => 2 | Selecting => 1 | Returned => 0 end.

(** A cancelled sweep ends at its first page. *)
Lemma sweep_cancelled ctx (w : W) : is_Some (ctx_Err ctx) → ∃ w', Sweep p 1 ctx w = (Some tt, w').
Proof.
  intros [e He]. destruct (NewCorrelationID w) as [id w1] eqn:E. exists w1.
  unfold Sweep, bind. rewrite E. simpl. by rewrite WithCorrelationID_Err, He.
Qed.

#[export] Instance loop_spec : LoopSpec (purger_state W) (λ _, True) weight.
Proof.
  split; [done|..].
  - intros ctx k s s' r Hr Hs. by destruct Hs.
  - intros ctx [[] w] _ Hd Hr; try done.
    + destruct (sweep_cancelled ctx w Hd) as [w' ?]. eexists. by eapply sweep.
    + eexists. by apply done.
  - intros ctx s s' _ _ Hs. remember Work as k eqn:Hk. destruct Hs; try done; unfold weight; simpl; lia.
  - intros ctx s s' _ Hs. remember Outside as k eqn:Hk. destruct Hs; try done; unfold weight; simpl; lia.
Qed.
End Run.
End PurgerLoop.

(** ** The loop of an HTTP instance: [httpHeadlessPlatform]

    ListenAndServe runs in a goroutine of its own and reports a failure on a
    channel of capacity one; the loop waits for that or for the context.  What
    [srv.Shutdown] and [srv.ListenAndServe] return is up to net/http. *)
Module HTTPLoop.
Inductive http_pc := Selecting | ShuttingDown | Returned (r : res unit).

Record http_state := mkState { hl_pc : http_pc; hl_errCh : option goerr; hl_serving : bool }.

Definition http_start : http_state := mkState Selecting None true.

Section Run.
Context (ErrServerClosed : goerr).

Inductive http_step (ctx : Ctx) : kind → http_state → http_state → Prop :=
| serve_failed m err : err ≠ ErrServerClosed →
    http_step ctx Outside (mkState m None true) (mkState m (Some err) false)
| serve_closed m : http_step ctx Outside (mkState m None true) (mkState m None false)
| select_done ch sv : is_Some (ctx_Err ctx) → http_step ctx Work (mkState Selecting ch sv) (mkState ShuttingDown ch sv)
| select_err err sv : http_step ctx Work (mkState Selecting (Some err) sv) (mkState (Returned (Err err)) None sv)
| shutdown r ch sv : http_step ctx Work (mkState ShuttingDown ch sv) (mkState (Returned r) ch sv).

#[export] Instance loop : Loop http_state := {|
  lp_step := http_step;
  lp_return s := match hl_pc s with Returned r => Some r | _ => None end;
|}.

Definition weight (s : http_state) : nat :=
  match hl_pc s with Selecting => 2 | ShuttingDown => 1 | Returned _ => 0 end.

#[export] Instance loop_spec : LoopSpec http_state (λ _, True) weight.
Proof.
  split; [done|..].
  - intros ctx k s s' r Hr Hs. by destruct Hs.
  - intros ctx [[] ch sv] _ Hd Hr; try done.
    + eexists. by apply select_done.
    + eexists. by apply (shutdown _ (Ok tt)).
  - intros ctx s s' _ _ Hs. remember Work as k eqn:Hk. destruct Hs; try done; unfold weight; simpl; lia.
  - intros ctx s s' _ Hs. remember Outside as k eqn:Hk. destruct Hs; try done; unfold weight; simpl; lia.
Qed.

(** The loop returns an error of the listener, unless it was told to stop. *)
Lemma failure_reported ctx err sv : ctx_Err ctx = None →
  ∀ s', http_step ctx Work (mkState Selecting (Some err) sv) s' → lp_return s' = Some (Err err).
Proof. intros Hn s' Hs. inversion Hs as [| |? ? [? Hd]| |]; subst; [congruence|done]. Qed.
End Run.
End HTTPLoop.

(** ** Polling loops with worker goroutines

    [Deliverer.Run] and [Dispatcher.Run] are the same loop: claim a job, start a
    goroutine for it, and wait for all of them on return.  The goroutines and
    what they share are a type [P]; [pg_step ctx k fin p p'] is a step of one of
    them, [fin] when it ends with it (wg.Done). *)
Inductive outcome := Claimed | Nothing | Failed.

Class Group (P : Type) := {
  pg_dequeue : Ctx → outcome → P → P → Prop;
  pg_step : Ctx → kind → bool → P → P → Prop;
  pg_alive : P → nat;
}.

Class GroupSpec (P : Type) `{Group P} (weight : P → nat) : Prop := {
  pg_dequeues : ∀ ctx p, ∃ o p', pg_dequeue ctx o p p';
  pg_dequeue_alive : ∀ ctx o p p', pg_dequeue ctx o p p' →
    pg_alive p' = (match o with Claimed => 1 | _ => 0 end + pg_alive p)%nat;
  pg_dequeue_weight : ∀ ctx o p p', pg_dequeue ctx o p p' →
    (weight p' ≤ (match o with Claimed => 2 | _ => 0 end) + weight p)%nat;
  pg_step_alive : ∀ ctx k fin p p', pg_step ctx k fin p p' →
    pg_alive p = ((if fin then 1 else 0) + pg_alive p')%nat;
  pg_progress : ∀ ctx p, is_Some (ctx_Err ctx) → (0 < pg_alive p)%nat → ∃ fin p', pg_step ctx Work fin p p';
  pg_work : ∀ ctx fin p p', pg_step ctx Work fin p p' → (weight p' < weight p)%nat;
  pg_outside : ∀ ctx fin p p', pg_step ctx Outside fin p p' → (weight p' ≤ S (weight p))%nat;
}.

Module PollLoop.
(** Where the loop is: at its head, in Dequeue, after its error, in
    time.Sleep, in the select on the poll interval, in [wg.Wait], returned. *)
Inductive poll_pc := Top | Dequeuing | Failing | Sleeping | Idle | Waiting | Returned.

Record poll_state (P : Type) := mkState { lp_pc : poll_pc; lp_wg : nat; lp_group : P }.
Arguments mkState {P} _ _ _.
Arguments lp_pc {P} _.
Arguments lp_wg {P} _.
Arguments lp_group {P} _.

Section Run.
Context {P : Type} {HG : Group P}.

(** [wg.Done()], for a goroutine that ended. *)
Definition wg_done (fin : bool) (wg : nat) : nat := if fin then pred wg else wg.

Inductive poll_step (ctx : Ctx) : kind → poll_state P → poll_state P → Prop :=
| top_done wg p : is_Some (ctx_Err ctx) → poll_step ctx Work (mkState Top wg p) (mkState Waiting wg p)
| top_default wg p : ctx_Err ctx = None → poll_step ctx Work (mkState Top wg p) (mkState Dequeuing wg p)
| dequeue_err wg p p' : pg_dequeue ctx Failed p p' → poll_step ctx Work (mkState Dequeuing wg p) (mkState Failing wg p')
| dequeue_none wg p p' : pg_dequeue ctx Nothing p p' → poll_step ctx Work (mkState Dequeuing wg p) (mkState Idle wg p')
| dequeue_job wg p p' : pg_dequeue ctx Claimed p p' → poll_step ctx Work (mkState Dequeuing wg p) (mkState Top (S wg) p')
| err_done wg p : is_Some (ctx_Err ctx) → poll_step ctx Work (mkState Failing wg p) (mkState Waiting wg p)
| err_sleep wg p : ctx_Err ctx = None → poll_step ctx Work (mkState Failing wg p) (mkState Sleeping wg p)
| slept wg p : poll_step ctx Work (mkState Sleeping wg p) (mkState Top wg p)
| idle_done wg p : is_Some (ctx_Err ctx) → poll_step ctx Work (mkState Idle wg p) (mkState Waiting wg p)
| idle_timer wg p : poll_step ctx Work (mkState Idle wg p) (mkState Top wg p)
| wait p : poll_step ctx Work (mkState Waiting 0 p) (mkState Returned 0 p)
| goroutine m k fin wg p p' : pg_step ctx k fin p p' →
    poll_step ctx k (mkState m wg p) (mkState m (wg_done fin wg) p').

#[global] Instance loop : Loop (poll_state P) := {|
  lp_step := poll_step;
  lp_return s := match lp_pc s with Returned => Some (Ok tt) | _ => None end;
|}.

(** The wait group counts the goroutines, and none is left at the return. *)
Definition inv (s : poll_state P) : Prop :=
  lp_wg s = pg_alive (lp_group s) ∧ (lp_pc s = Returned → lp_wg s = 0%nat).

Definition pc_weight (m : poll_pc) : nat :=
  match m with
  | Dequeuing => 5 | Failing => 4 | Sleeping => 3 | Idle => 3 | Top => 2 | Waiting => 1 | Returned => 0
  end.

Definition weight (gw : P → nat) (s : poll_state P) : nat := pc_weight (lp_pc s) + gw (lp_group s).

Section Spec.
Context (gw : P → nat) {GS : GroupSpec P gw}.

Lemma inv_step ctx k s s' : inv s → poll_step ctx k s s' → inv s'.
Proof.
  intros [Ha Hr] Hs. destruct Hs; unfold inv in *; simpl in *; try (split; [|done]); try done.
  1-3: by rewrite (pg_dequeue_alive _ _ _ _ H), Ha.
  rewrite (pg_step_alive _ _ _ _ _ H) in Ha. destruct fin; simpl in *; split; try done; intros; naive_solver lia.
Qed.

Lemma progress ctx s : inv s → is_Some (ctx_Err ctx) → lp_return s = None → ∃ s', poll_step ctx Work s s'.
Proof.
  destruct s as [m wg p]. intros [Ha _] Hd Hr. simpl in *. destruct m; try done.
  - eexists. by apply top_done.
  - destruct (pg_dequeues ctx p) as (o & p' & Hp). destruct o; eexists.
    + by eapply dequeue_job.
    + by eapply dequeue_none.
    + by eapply dequeue_err.
  - eexists. by apply err_done.
  - eexists. apply slept.
  - eexists. by apply idle_done.
  - destruct wg as [|wg]; [eexists; apply wait|].
    destruct (pg_progress ctx p Hd) as (fin & p' & ?); [lia|]. eexists. by eapply goroutine.
Qed.

#[global] Instance loop_spec : LoopSpec (poll_state P) inv (weight gw).
Proof.
  split.
  - apply inv_step.
  - intros ctx k s s' r Hr Hs. by destruct Hs.
  - apply progress.
  - intros ctx s s' _ Hd Hs. remember Work as k eqn:Hk. destruct Hs; unfold weight; simpl; try lia; subst;
      try (pose proof (pg_dequeue_weight _ _ _ _ H); simpl in *; lia).
    + rewrite H in Hd. by destruct Hd.
    + pose proof (pg_work _ _ _ _ H). lia.
  - intros ctx s s' _ Hs. remember Outside as k eqn:Hk. destruct Hs; unfold weight; simpl; try done; subst.
    pose proof (pg_outside _ _ _ _ H). lia.
Qed.

(** When the loop has returned, no goroutine of it is left. *)
Lemma returned_drained s r : inv s → lp_return s = Some r → pg_alive (lp_group s) = 0%nat.
Proof. destruct s as [[] wg p]; intros [<- Hr]; try done. intros _. by apply Hr. Qed.
End Spec.
End Run.
End PollLoop.

(** *** The deliverer's group: the worker pool and the queue-depth sampler

    The sampler reads the queue's count into a gauge at once and on every tick;
    a tick may win against the done context. *)
Module DelivererLoop.
Inductive sampler := Refreshing | Ticking | Gone.

Record deliverer_group (W : Type) := mkGroup { gr_pool : Deliverer.pool W; gr_sampler : sampler }.
Arguments mkGroup {W} _ _.
Arguments gr_pool {W} _.
Arguments gr_sampler {W} _.

Section Run.
Context {W : Type} `{Env W, QueueBackend W Job, MessageStore W, Directory W, Enqueuer W, Deliverer.Resolver W,
  Deliverer.Net W, Rand W, JSON, ErrorText, TimeText, QueueCounter W}.
Context (unused : W → Job → Prop) (cfg : Deliverer.Config).
Import Deliverer.

Inductive deliverer_dequeue (ctx : Ctx) : outcome → deliverer_group W → deliverer_group W → Prop :=
| claim w w' d ws s job : q_Dequeue ctx w = (Ok (Some job), w') →
    deliverer_dequeue ctx Claimed (mkGroup (mkPool w d ws) s)
      (mkGroup (mkPool w' d (mkWorker job (destinationDomain (To job)) Deliverer.Waiting :: ws)) s)
| nothing w w' d ws s : q_Dequeue (J := Job) ctx w = (Ok None, w') →
    deliverer_dequeue ctx Nothing (mkGroup (mkPool w d ws) s) (mkGroup (mkPool w' d ws) s)
| failure w w' d ws s e : q_Dequeue (J := Job) ctx w = (Err e, w') →
    deliverer_dequeue ctx Failed (mkGroup (mkPool w d ws) s) (mkGroup (mkPool w' d ws) s).

Inductive deliverer_step (ctx : Ctx) : kind → bool → deliverer_group W → deliverer_group W → Prop :=
| refresh w d ws :
    deliverer_step ctx Work false (mkGroup (mkPool w d ws) Refreshing) (mkGroup (mkPool (snd (refresh_depth ctx w)) d ws) Ticking)
| sampler_done p : is_Some (ctx_Err ctx) → deliverer_step ctx Work true (mkGroup p Ticking) (mkGroup p Gone)
| tick p : deliverer_step ctx Outside false (mkGroup p Ticking) (mkGroup p Refreshing)
| acquire w d d' l1 l2 s job domain : try_acquire (open_sem d domain) domain = Some d' →
    deliverer_step ctx Work false (mkGroup (mkPool w d (l1 ++ mkWorker job domain Deliverer.Waiting :: l2)) s)
      (mkGroup (mkPool w d' (l1 ++ mkWorker job domain Holding :: l2)) s)
| sem_cancelled w d l1 l2 s job domain : is_Some (ctx_Err ctx) →
    deliverer_step ctx Work true (mkGroup (mkPool w d (l1 ++ mkWorker job domain Deliverer.Waiting :: l2)) s)
      (mkGroup (mkPool w (open_sem d domain) (l1 ++ l2)) s)
| deliver w d l1 l2 s job domain :
    deliverer_step ctx Work true (mkGroup (mkPool w d (l1 ++ mkWorker job domain Holding :: l2)) s)
      (mkGroup (mkPool (snd (handle cfg ctx job w)) (release d domain) (l1 ++ l2)) s)
| submit c w w' d ws s job r : q_Enqueue c job w = (r, w') → unused w job →
    deliverer_step ctx Outside false (mkGroup (mkPool w d ws) s) (mkGroup (mkPool w' d ws) s).

#[export] Instance deliverer_Group : Group (deliverer_group W) := {|
  pg_dequeue := deliverer_dequeue;
  pg_step := deliverer_step;
  pg_alive g := (match gr_sampler g with Gone => 0 | _ => 1 end + length (pl_workers (gr_pool g)))%nat;
|}.

(** Run before its first statement of the loop: the sampler has been started. *)
Definition deliverer_start (w : W) : PollLoop.poll_state (deliverer_group W) :=
  PollLoop.mkState PollLoop.Top 1 (mkGroup (mkPool w (newDomainSemaphores (PerDomainConcurrency cfg)) []) Refreshing).

Definition worker_weight (x : worker) : nat := match wk_phase x with Deliverer.Waiting => 2 | Holding => 1 end.

Definition weight (g : deliverer_group W) : nat :=
  match gr_sampler g with Refreshing => 2 | Ticking => 1 | Gone => 0 end +
  sum_list_with worker_weight (pl_workers (gr_pool g)).

#[export] Instance deliverer_spec : GroupSpec (deliverer_group W) weight.
Proof.
  split.
  - intros ctx [[w d ws] s]. destruct (q_Dequeue (J := Job) ctx w) as [[[job|]|e] w'] eqn:E; do 2 eexists.
    + by eapply claim.
    + by eapply nothing.
    + by eapply failure.
  - intros ctx o g g' Hd. destruct Hd, s; simpl; lia.
  - intros ctx o g g' Hd. destruct Hd; unfold weight, worker_weight; simpl; lia.
  - intros ctx k fin g g' Hs. destruct Hs; simpl; rewrite ?length_app; simpl; lia.
  - intros ctx [[w d ws] s] Hd Ha. destruct s; [do 2 eexists; apply refresh|by do 2 eexists; apply sampler_done|].
    destruct ws as [|[job dom []] ws]; simpl in Ha; [lia|..]; do 2 eexists.
    + by apply (sem_cancelled ctx w d []).
    + by apply (deliver ctx w d []).
  - intros ctx fin g g' Hs. remember Work as k eqn:Hk.
    destruct Hs; unfold weight, worker_weight; simpl; rewrite ?sum_list_with_app; simpl; try done; lia.
  - intros ctx fin g g' Hs. remember Outside as k eqn:Hk. destruct Hs; unfold weight; simpl; try done; lia.
Qed.

(** The pool only moves as the pool of [Deliverer] does, so what is proved of
    its reachable states holds while the process runs and shuts down. *)
Lemma dequeue_pool ctx o g g' : deliverer_dequeue ctx o g g' → rstep unused cfg (gr_pool g) (gr_pool g').
Proof. destruct 1; simpl; [by eapply run_claim|by eapply run_idle..]. Qed.

Lemma step_pool ctx k fin g g' : deliverer_step ctx k fin g g' → rtc (rstep unused cfg) (gr_pool g) (gr_pool g').
Proof.
  destruct 1 as [w d ws| | | | |w d l1 l2 s job domain| ]; simpl; try reflexivity; apply rtc_once.
  - apply run_sample.
  - by apply run_acquire.
  - apply (run_cancelled unused cfg ctx). by intros E; rewrite E in *; destruct H.
  - apply run_handle.
  - by eapply run_submit.
Qed.

Lemma loop_pool ctx k s s' : PollLoop.poll_step ctx k s s' →
  rtc (rstep unused cfg) (gr_pool (PollLoop.lp_group s)) (gr_pool (PollLoop.lp_group s')).
Proof.
  destruct 1; simpl; try reflexivity; [by eapply rtc_once, dequeue_pool..|by eapply step_pool].
Qed.
End Run.
End DelivererLoop.

(** The app's steps on its loop. *)
Lemma app_loop_step {L} `{Loop L} k (a b : HeadlessApp L) : astep k a b →
  ha_loop b = ha_loop a ∨ ∃ ctx, lp_step ctx k (ha_loop a) (ha_loop b).
Proof. destruct 1; simpl; eauto. Qed.

(** An invariant of the loop under any context is one of the app's loop. *)
Lemma app_loop_invariant {L} `{Loop L} (I : L → Prop) :
  (∀ ctx k l l', I l → lp_step ctx k l l' → I l') →
  ∀ a b : HeadlessApp L, rtc app_step a b → I (ha_loop a) → I (ha_loop b).
Proof.
  intros Hstep. induction 1 as [|a b c [k Hab] _ IH]; [done|]. intros Hi. apply IH.
  destruct (app_loop_step _ _ _ Hab) as [->|[ctx ?]]; eauto.
Qed.

(** No goroutine is left when the app's polling loop has returned. *)
Lemma poll_app_drained {P} `{Group P} {gw : P → nat} {GS : GroupSpec P gw} wg p a r : wg = pg_alive p →
  rtc app_step (Boot (PollLoop.mkState PollLoop.Top wg p)) a →
  lp_return (ha_loop a) = Some r → pg_alive (PollLoop.lp_group (ha_loop a)) = 0%nat.
Proof.
  intros Hw Ha. eapply PollLoop.returned_drained.
  refine (app_loop_invariant PollLoop.inv _ _ _ Ha _); [|done].
  intros ctx k l l' Hl Hs. by eapply (PollLoop.inv_step gw).
Qed.

Section DelivererApp.
Context {W : Type} {HE : Env W} {HQ : QueueBackend W Job} {HM : MessageStore W} {HD : Directory W} {HW : Enqueuer W}
  {HR : Deliverer.Resolver W} {HN : Deliverer.Net W} {HRa : Rand W} {HJ : JSON} {HT : ErrorText} {HTT : TimeText}
  {QC : QueueCounter W}.
Context (q_inv : W → Prop) (q_view : W → QView Job).
Context {QS : QueueSpec W Job q_inv q_view} {CS : CounterSpec W q_inv q_view} {RS : RandSpec W} (QW : Deliverer.quiet_world q_inv q_view).
Import Deliverer.
Context (cfg : Config).
#[local] Instance deliverer_goroutines : Group (DelivererLoop.deliverer_group W) := DelivererLoop.deliverer_Group (unused_id q_view) cfg.
#[local] Instance deliverer_goroutines_spec : GroupSpec (DelivererLoop.deliverer_group W) DelivererLoop.weight :=
  DelivererLoop.deliverer_spec (unused_id q_view) cfg.

(** While the deliverer's process runs, and while it shuts down, the workers
    have distinct jobs, all claimed, and hold the slots the semaphores count;
    once the loop has returned there are none. *)
Lemma deliverer_app (w : W) a : config_ok cfg → q_inv w →
  rtc app_step (Boot (DelivererLoop.deliverer_start cfg w)) a →
  let g := PollLoop.lp_group (ha_loop a) in
  pool_ok q_inv q_view (DelivererLoop.gr_pool g) ∧
  (∀ r, lp_return (ha_loop a) = Some r → pl_workers (DelivererLoop.gr_pool g) = [] ∧ DelivererLoop.gr_sampler g = DelivererLoop.Gone).
Proof.
  intros Hc Hi Ha g. split.
  - assert (Hp : rtc (rstep (unused_id q_view) cfg) (mkPool w (newDomainSemaphores (PerDomainConcurrency cfg)) []) (DelivererLoop.gr_pool g)).
    { refine (app_loop_invariant (λ l, rtc (rstep (unused_id q_view) cfg) (mkPool w (newDomainSemaphores (PerDomainConcurrency cfg)) [])
         (DelivererLoop.gr_pool (PollLoop.lp_group l))) _ _ _ Ha _); [|done].
      intros ctx k l l' Hl Hs. etransitivity; [exact Hl|]. by eapply DelivererLoop.loop_pool. }
    by eapply (pool_reachable_ok q_inv q_view QW) in Hp as [? _].
  - intros r Hr. assert (Hz : pg_alive g = 0%nat).
    { by eapply (poll_app_drained (gw := DelivererLoop.weight)); [|exact Ha|exact Hr]. }
    simpl in Hz.
    destruct (pl_workers _), (DelivererLoop.gr_sampler g); simpl in Hz; try done; lia.
Qed.
End DelivererApp.

(** *** The dispatcher's group: a goroutine per claimed job *)
Module DispatcherLoop.
Record dispatcher_group (W : Type) := mkGroup { gr_world : W; gr_jobs : list DeliveryJob }.
Arguments mkGroup {W} _ _.
Arguments gr_world {W} _.
Arguments gr_jobs {W} _.

Section Run.
Context {W : Type} {HE : Env W} {HSt : Store W} {HQ : QueueBackend W DeliveryJob} {HH : HTTP W}
  {HR : Rand W} {HM : HMAC} {HT : ErrorText}.
Context (d : Dispatcher).

Inductive dispatcher_dequeue (ctx : Ctx) : outcome → dispatcher_group W → dispatcher_group W → Prop :=
| claim w w' js job : q_Dequeue ctx w = (Ok (Some job), w') →
    dispatcher_dequeue ctx Claimed (mkGroup w js) (mkGroup w' (job :: js))
| nothing w w' js : q_Dequeue (J := DeliveryJob) ctx w = (Ok None, w') →
    dispatcher_dequeue ctx Nothing (mkGroup w js) (mkGroup w' js)
| failure w w' js e : q_Dequeue (J := DeliveryJob) ctx w = (Err e, w') →
    dispatcher_dequeue ctx Failed (mkGroup w js) (mkGroup w' js).

(** [publish] and [redrive] are calls of the other roles. *)
Inductive dispatcher_step (ctx : Ctx) : kind → bool → dispatcher_group W → dispatcher_group W → Prop :=
| deliver w l1 l2 job :
    dispatcher_step ctx Work true (mkGroup w (l1 ++ job :: l2)) (mkGroup (snd (deliverOne d ctx job w)) (l1 ++ l2))
| publish c vhost et payload w js :
    dispatcher_step ctx Outside false (mkGroup w js) (mkGroup (snd (Dispatcher.Enqueue c vhost et payload w)) js)
| redrive c vhost sid eid w js :
    dispatcher_step ctx Outside false (mkGroup w js) (mkGroup (snd (Redrive c vhost sid eid w)) js).

#[export] Instance dispatcher_Group : Group (dispatcher_group W) := {|
  pg_dequeue := dispatcher_dequeue;
  pg_step := dispatcher_step;
  pg_alive g := length (gr_jobs g);
|}.

Definition dispatcher_start (w : W) : PollLoop.poll_state (dispatcher_group W) := PollLoop.mkState PollLoop.Top 0 (mkGroup w []).

Definition weight (g : dispatcher_group W) : nat := length (gr_jobs g).

#[export] Instance dispatcher_spec : GroupSpec (dispatcher_group W) weight.
Proof.
  split.
  - intros ctx [w js]. destruct (q_Dequeue (J := DeliveryJob) ctx w) as [[[job|]|e] w'] eqn:E; do 2 eexists.
    + by eapply claim.
    + by eapply nothing.
    + by eapply failure.
  - intros ctx o g g' Hd. destruct Hd; simpl; lia.
  - intros ctx o g g' Hd. destruct Hd; unfold weight; simpl; lia.
  - intros ctx k fin g g' Hs. destruct Hs; simpl; rewrite ?length_app; simpl; lia.
  - intros ctx [w [|job js]] _ Ha; simpl in Ha; [lia|]. do 2 eexists. by apply (deliver ctx w []).
  - intros ctx fin g g' Hs. remember Work as k eqn:Hk.
    destruct Hs; unfold weight; simpl; rewrite ?length_app; simpl; try done; lia.
  - intros ctx fin g g' Hs. remember Outside as k eqn:Hk. destruct Hs; unfold weight; simpl; try done; lia.
Qed.
End Run.

Section Facts.
Context {W : Type} {HE : Env W} {HSt : Store W} {HQ : QueueBackend W DeliveryJob} {HH : HTTP W}
  {HR : Rand W} {HM : HMAC} {HT : ErrorText}.
Context (q_inv : W → Prop) (q_view : W → QView DeliveryJob).
Context {QS : QueueSpec W DeliveryJob q_inv q_view} {RS : RandSpec W} (QW : Dispatcher.quiet_world q_inv q_view).
Context (d : Dispatcher) (Hcfg : Dispatcher.config_ok d).

(** The goroutines have distinct jobs, all claimed. *)
Definition claims (w : W) (js : list DeliveryJob) : Prop :=
  q_inv w ∧ NoDup (dj_ID <$> js) ∧ ∀ j, j ∈ js → q_view w !! dj_ID j = Some (j, true).

Lemma claims_keep w w' js : q_inv w' →
  (∀ id j c, q_view w !! id = Some (j, c) → c = true → q_view w' !! id = Some (j, c)) →
  claims w js → claims w' js.
Proof. intros Hi Hk (_ & Hn & Hc). split_and!; [done..|]. intros j Hj. by apply Hk; [apply Hc|]. Qed.

Lemma claims_dequeue ctx o g g' : dispatcher_dequeue ctx o g g' → claims (gr_world g) (gr_jobs g) → claims (gr_world g') (gr_jobs g').
Proof.
  destruct 1 as [w w' js job E|w w' js E|w w' js e E]; simpl; intros Hc; pose proof Hc as (Hi & Hn & Hj).
  all: pose proof (Dequeue_inv _ _ _ _ Hi E) as Hi'.
  - apply Dequeue_some in E as (Hu & Hv & _); [|done]. change (j_ID job) with (dj_ID job) in *.
    assert (Hnew : ∀ x, x ∈ js → dj_ID x ≠ dj_ID job).
    { intros x Hx He. specialize (Hj x Hx). rewrite He, Hu in Hj. done. }
    split_and!; [done|..].
    + rewrite fmap_cons. apply NoDup_cons. split; [|done]. intros (x & He & Hx)%list_elem_of_fmap. by apply (Hnew x Hx).
    + intros x [->|Hx]%elem_of_cons; rewrite Hv; [apply lookup_insert_eq|].
      rewrite lookup_insert_ne; [by apply Hj|]. intros He. by apply (Hnew x Hx).
  - apply Dequeue_none in E as [Hv _]; [|done]. eapply claims_keep; [done| |exact Hc]. by rewrite Hv.
  - apply Dequeue_err in E as Hv; [|done]. eapply claims_keep; [done| |exact Hc]. by rewrite Hv.
Qed.

Lemma deliverOne_frame ctx job w id : q_inv w → id ≠ dj_ID job →
  q_view (snd (deliverOne d ctx job w)) !! id = q_view w !! id.
Proof.
  intros Hi Hid. destruct (deliverOne d ctx job w) as [r w'] eqn:E. simpl.
  apply (deliverOne_spec q_inv q_view QW) in E as (_ & _ & [->|Ho]); [done| |done..]. unfold Dispatcher.job_outcome in Ho.
  destruct (snd _) as [e|]; [|rewrite Ho; by apply lookup_delete_ne].
  destruct (Z.leb _ _); [rewrite Ho; by apply lookup_delete_ne|].
  destruct Ho as (j & b & t & delay & _ & _ & ->). by apply lookup_insert_ne.
Qed.

Lemma claims_step ctx k fin g g' : dispatcher_step d ctx k fin g g' → claims (gr_world g) (gr_jobs g) → claims (gr_world g') (gr_jobs g').
Proof.
  destruct 1 as [w l1 l2 job|c v et p w js|c v s e w js]; simpl; intros Hc.
  - destruct Hc as (Hi & Hn & Hc). rewrite fmap_app, fmap_cons in Hn.
    apply NoDup_app in Hn as (Hn1 & Hn2 & [Hn3 Hn4]%NoDup_cons).
    split_and!.
    + destruct (deliverOne d ctx job w) as [r w'] eqn:E. by apply (deliverOne_spec q_inv q_view QW) in E as (_ & ? & _).
    + rewrite fmap_app. apply NoDup_app. split_and!; [done|set_solver|done].
    + intros x Hx. assert (x ∈ l1 ++ job :: l2) by (clear -Hx; set_solver). rewrite deliverOne_frame; [by apply Hc|done|]. intros He.
      apply elem_of_app in Hx as [Hx|Hx]; apply (list_elem_of_fmap_2 dj_ID) in Hx; rewrite He in Hx; clear -Hx Hn2 Hn3; set_solver.
  - destruct (Dispatcher.Enqueue c v et p w) as [r w'] eqn:E. simpl.
    apply (Dispatcher.Enqueue_spec q_inv q_view QW) in E as [Hi Hv]; [|apply Hc]. eapply claims_keep; [done| |exact Hc].
    destruct Hv as [(? & _ & ->)|(? & ? & ? & ? & ? & jobs & _ & _ & _ & _ & Hn & ->)]; [done|].
    intros id j b Hl ->. rewrite add_jobs_lookup by done. destruct (List.find _ jobs) as [y|] eqn:Ex; [|done].
    apply find_some in Ex as [Hy%list_elem_of_In <-%String.eqb_eq]. destruct Hn as [_ Hf]. rewrite Forall_forall in Hf.
    specialize (Hf y Hy). congruence.
  - destruct (Redrive c v s e w) as [r w'] eqn:E. simpl.
    apply (Redrive_spec q_inv q_view QW) in E as [Hi Hv]; [|apply Hc]. eapply claims_keep; [done| |exact Hc].
    destruct Hv as [(? & _ & ->)|(_ & ? & ? & ? & ? & id & ? & ? & _ & _ & _ & _ & _ & _ & Hn & ->)]; [done|].
    intros id' j b Hl ->. rewrite lookup_insert_ne; [done|]. intros <-. congruence.
Qed.

(** Every step is one of the transition system that counts deliveries. *)
Lemma loop_dstep ctx k s s' m : PollLoop.poll_step (HG := dispatcher_Group d) ctx k s s' →
  let g := PollLoop.lp_group s in let g' := PollLoop.lp_group s' in
  unused_ids q_view m (gr_world g) (gr_world g') →
  ∃ m', rtc (dstep q_inv q_view d) (mkDispatching (gr_world g) (gr_jobs g) m) (mkDispatching (gr_world g') (gr_jobs g') m').
Proof.
  intros Hs g g'. subst g g'.
  destruct Hs as [| |? ? ? Hd|? ? ? Hd|? ? ? Hd| | | | | | |? ? ? ? ? ? Hg]; simpl in *; intros Hu; try (by exists m).
  1-3: exists m; apply rtc_once; destruct Hd as [? ? ? ? E|w ? ? E|w ? ? ? E]; simpl; [by eapply step_claim| |];
    pose proof (step_idle q_inv q_view d ctx w) as Hx; rewrite E in Hx; by apply Hx.
  destruct Hg as [w l1 l2 job|c v et p w js|c v sid e w js]; simpl in *; eexists; apply rtc_once;
    [apply step_deliver|by apply step_Enqueue|by apply step_Redrive].
Qed.
End Facts.
End DispatcherLoop.

Section DispatcherApp.
Context {W : Type} {HE : Env W} {HSt : Store W} {HQ : QueueBackend W DeliveryJob} {HH : HTTP W}
  {HR : Rand W} {HM : HMAC} {HT : ErrorText}.
Context (q_inv : W → Prop) (q_view : W → QView DeliveryJob).
Context {QS : QueueSpec W DeliveryJob q_inv q_view} {RS : RandSpec W} (QW : Dispatcher.quiet_world q_inv q_view).
Context (d : Dispatcher).
#[local] Instance dispatcher_goroutines : Group (DispatcherLoop.dispatcher_group W) := DispatcherLoop.dispatcher_Group d.
#[local] Instance dispatcher_goroutines_spec : GroupSpec (DispatcherLoop.dispatcher_group W) DispatcherLoop.weight :=
  DispatcherLoop.dispatcher_spec d.

(** While the dispatcher's process runs and shuts down, its goroutines have
    distinct jobs, all claimed; once the loop has returned there are none. *)
Lemma dispatcher_app (w : W) a : Dispatcher.config_ok d → q_inv w →
  rtc app_step (Boot (DispatcherLoop.dispatcher_start w)) a →
  let g := PollLoop.lp_group (ha_loop a) in
  DispatcherLoop.claims q_inv q_view (DispatcherLoop.gr_world g) (DispatcherLoop.gr_jobs g) ∧
  (∀ r, lp_return (ha_loop a) = Some r → DispatcherLoop.gr_jobs g = []).
Proof.
  intros Hc Hi Ha g. split.
  - refine (app_loop_invariant (λ l, DispatcherLoop.claims q_inv q_view
      (DispatcherLoop.gr_world (PollLoop.lp_group l)) (DispatcherLoop.gr_jobs (PollLoop.lp_group l))) _ _ _ Ha _).
    + intros ctx k l l' Hl Hs. destruct Hs; simpl in *; try done;
        solve [by eapply (DispatcherLoop.claims_dequeue q_inv q_view)|by eapply (DispatcherLoop.claims_step q_inv q_view QW d Hc)].
    + split_and!; [done|constructor|]. intros j Hj. by apply elem_of_nil in Hj.
  - intros r Hr. apply nil_length_inv. change (pg_alive g = 0%nat).
    by eapply (poll_app_drained (gw := DispatcherLoop.weight)); [|exact Ha|exact Hr].
Qed.
End DispatcherApp.

(** ** Shutting down *)

Section Shutdown.
Context {L : Type} {HL : Loop L} {inv : L → Prop} {weight : L → nat} {LS : LoopSpec L inv weight}.

(** C15: a graceful shutdown.  Once Run has started the loop, a Shutdown called
    from then on, whatever the loop is doing and however the goroutines
    interleave: it returns only after the loop has returned; until then the
    process always has a step of its own to take; after the context is
    cancelled, the number of those steps is bounded by the work in flight plus
    one per timer that fires or job that arrives meanwhile; and Shutdown can be
    completed without any such event. *)
Theorem shutdown_drains (l : L) a0 a :
  inv l → rtc app_step (Boot l) a0 → ha_run a0 = RunLooping → ha_shutdown a0 = ShutIdle → rtc app_step a0 a →
  (ha_shutdown a = ShutReturned → ∃ r, ha_run a = RunReturned r ∧ lp_return (ha_loop a) = Some r) ∧
  (ha_shutdown a ≠ ShutIdle → ha_shutdown a ≠ ShutReturned → ∃ b, astep Work a b) ∧
  (ha_shutdown a ≠ ShutIdle → ha_shutdown a ≠ ShutCancel →
     ∀ n m b, steps n m a b → (n ≤ app_weight weight a + m)%nat) ∧
  (ha_shutdown a ≠ ShutIdle → ∃ n b, steps n 0 a b ∧ ha_shutdown b = ShutReturned).
Proof.
  intros Hi H0 Hr Hs Ha.
  pose proof (app_ok_rtc _ _ H0 (app_ok_Boot _ Hi)) as Ho0.
  assert (Hh0 : heard a0) by (unfold heard; by rewrite Hr, Hs).
  pose proof (app_ok_rtc _ _ Ha Ho0) as Ho. pose proof (heard_rtc _ _ Ha Ho0 Hh0) as Hh.
  split_and!; [by eapply (shutdown_returned (inv := inv))|by eapply (app_progress (inv := inv))|..].
  - intros ? ? n m b. eapply (steps_bounded (inv := inv)); [done..|]. by apply heard_done.
  - by eapply (shutdown_completes (inv := inv)).
Qed.
End Shutdown.

(** A Shutdown that comes before Run has assigned its fields is lost: it
    returns, and the loop then runs with a context that nobody will cancel. *)
Lemma early_shutdown_lost {L} `{Loop L} (l : L) :
  rtc app_step (Boot l) (mkApp true (Some false) Background RunLooping ShutReturned l).
Proof.
  eapply rtc_l; [exists Outside; apply shut_call|]. eapply rtc_l; [exists Work; apply shut_cancel|].
  eapply rtc_l; [exists Work; apply shut_done|]. eapply rtc_l; [exists Work; apply run_with_cancel|].
  apply rtc_once. exists Work. apply run_make_done.
Qed.

(** ** A run of the dispatcher's app *)
Module LifecycleExample.
Import DispatchExample.
#[export] Instance goroutines : Group (DispatcherLoop.dispatcher_group DW) := DispatcherLoop.dispatcher_Group NewDispatcher.
#[export] Instance goroutines_spec : GroupSpec (DispatcherLoop.dispatcher_group DW) DispatcherLoop.weight :=
  DispatcherLoop.dispatcher_spec NewDispatcher.

Definition loop_at (m : PollLoop.poll_pc) (w : DW) (js : list DeliveryJob) : PollLoop.poll_state (DispatcherLoop.dispatcher_group DW) :=
  PollLoop.mkState m (length js) (DispatcherLoop.mkGroup w js).
Definition taken : DW := snd (q_Dequeue (J := DeliveryJob) Background sent).
Definition running (sh : shut_pc) (ctx : Ctx) (l : PollLoop.poll_state (DispatcherLoop.dispatcher_group DW)) :=
  mkApp true (Some false) ctx RunLooping sh l.
Definition stopped : Ctx := cancelled Background.
(** The endpoint answered while the process was shutting down. *)
Definition after : DW := snd (deliverOne NewDispatcher stopped the_job taken).
Definition final := mkApp true (Some true) stopped (RunReturned (Ok tt)) ShutReturned (loop_at PollLoop.Returned after []).

Lemma run_started : rtc app_step (Boot (DispatcherLoop.dispatcher_start sent)) (running ShutIdle Background (DispatcherLoop.dispatcher_start sent)).
Proof.
  eapply rtc_l; [exists Work; apply run_with_cancel|]. apply rtc_once. exists Work. apply run_make_done.
Qed.

Lemma run_to_final : rtc app_step (running ShutIdle Background (DispatcherLoop.dispatcher_start sent)) final.
Proof.
  eapply rtc_l; [exists Work; apply run_loop, PollLoop.top_default; done|].
  eapply rtc_l; [exists Work; eapply run_loop, PollLoop.dequeue_job, (DispatcherLoop.claim _ _ taken _ the_job); by vm_compute|].
  eapply rtc_l; [exists Outside; apply shut_call|]. eapply rtc_l; [exists Work; apply shut_cancel|].
  eapply rtc_l; [exists Work; apply run_loop, PollLoop.top_done, cancelled_done|].
  eapply rtc_l; [exists Work; eapply run_loop, PollLoop.goroutine, (DispatcherLoop.deliver _ _ taken [] [])|].
  eapply rtc_l; [exists Work; apply run_loop, PollLoop.wait|].
  eapply rtc_l; [exists Work; by eapply run_return|]. eapply rtc_l; [exists Work; apply shut_done|].
  apply rtc_once. exists Work. apply shut_receive.
Qed.
End LifecycleExample.

Import DispatchExample LifecycleExample.

Lemma shutdown_drains_witness :
  ha_shutdown final = ShutReturned ∧ DispatcherLoop.gr_jobs (PollLoop.lp_group (ha_loop final)) = [] ∧
  ∃ r, ha_run final = RunReturned r ∧ lp_return (ha_loop final) = Some r.
Proof.
  split_and!; [done|done|].
  refine (proj1 (shutdown_drains (weight := PollLoop.weight DispatcherLoop.weight) (DispatcherLoop.dispatcher_start DispatchExample.sent) _ final
    _ run_started eq_refl eq_refl run_to_final) eq_refl). by split.
Defined.

(** What a shutdown does to an attempt in flight: the goroutine runs to its end,
    but its context is the cancelled one, the queue refuses to record the
    outcome, and the job stays claimed. *)
Lemma shutdown_loses_outcome :
  fst (deliverOne NewDispatcher stopped the_job taken) = Ok tt ∧
  memq_view (J := DeliveryJob) after !! "0" = Some (the_job, true).
Proof. split; by vm_compute. Qed.
