(* ===== verification/Smtp.v ===== *)
(** * The SMTP roles (internal/platform/smtp)

    The inbound session (inbound.go) and the submission session (submission.go)
    as state-passing handlers over a [Config], and [Boot]'s server settings.
    go-smtp, which calls the handlers, go-sasl and DKIM signing are outside:
    the theorems about sessions hold for every order of calls. *)

From stdpp Require Import gmap pretty.
From S2P Require Import Prelude Float64 Table Logging Queue RateLimit Kms Filter Directory Webhook Storage.

(** ** Configuration (config.go, platform.go) *)

(** [RateLimiter]. *)
Definition RateLimiter (W : Type) : Type := Ctx → string → float64 → float64 → M W (res bool).

Inductive Mode := ModeInbound | ModeSubmission.

Definition Mode_String (m : Mode) : string :=
  match m with ModeSubmission => "smtp-submission" | ModeInbound => "smtp-inbound" end.

(** The nil-able dependencies are options, TLSConfig only whether it is set;
    Directory, Store and Queue are type classes. *)
Record Config (W : Type) `{MsgAuth W} := mkConfig {
  cfg_Mode : Mode;
  cfg_Name : string;
  cfg_Addr : string;
  cfg_Domain : string;
  cfg_TLSConfig : bool;
  cfg_AllowInsecureAuth : bool;
  cfg_MaxMessageBytes : Z;
  cfg_Filter : Pipeline;
  cfg_RateLimiter : option (RateLimiter W);
  RateLimitIPCapacity : float64;
  RateLimitIPRefillPerSecond : float64;
  RateLimitSenderCapacity : float64;
  RateLimitSenderRefillPerSecond : float64;
  cfg_Quota : option (RateLimiter W);
  cfg_Webhooks : option (Enqueuer W);
}.
Arguments cfg_Mode {W _} c. Arguments cfg_Name {W _} c. Arguments cfg_Addr {W _} c.
Arguments cfg_Domain {W _} c. Arguments cfg_TLSConfig {W _} c. Arguments cfg_AllowInsecureAuth {W _} c.
Arguments cfg_MaxMessageBytes {W _} c. Arguments cfg_Filter {W _} c. Arguments cfg_RateLimiter {W _} c.
Arguments RateLimitIPCapacity {W _} c. Arguments RateLimitIPRefillPerSecond {W _} c.
Arguments RateLimitSenderCapacity {W _} c. Arguments RateLimitSenderRefillPerSecond {W _} c.
Arguments cfg_Quota {W _} c. Arguments cfg_Webhooks {W _} c.

Definition defaultMaxMessageBytes : Z := Z.shiftl 25 20.
Definition defaultTimeout : Duration := 30 * Second.

(** What [Boot] sets on the go-smtp server, and which backend it gives it. *)
Record serverSettings := mkServer {
  sv_Backend : Mode;
  sv_Addr : string;
  sv_Domain : string;
  sv_TLS : bool;
  sv_AllowInsecureAuth : bool;
  sv_ReadTimeout : Duration;
  sv_WriteTimeout : Duration;
  sv_MaxMessageBytes : Z;
}.

Definition server_of {W} `{MsgAuth W} (c : Config W) : serverSettings :=
  mkServer (match cfg_Mode c with ModeSubmission => ModeSubmission | _ => ModeInbound end)
    (cfg_Addr c) (cfg_Domain c) (cfg_TLSConfig c) (cfg_AllowInsecureAuth c) defaultTimeout defaultTimeout
    (if cfg_MaxMessageBytes c <=? 0 then defaultMaxMessageBytes else cfg_MaxMessageBytes c).

(** Binding the listener is the system's: its error or a listener. *)
Definition Boot {W L} `{MsgAuth W} (Listen : string → M W (res L)) (c : Config W)
  : M W (res (L * serverSettings)) :=
  let? ln := wrap (ErrorfW "smtp: listen on %s: %w" [cfg_Addr c]) (Listen (cfg_Addr c)) in
  ret (Ok (ln, server_of c)).

(** ** The inbound session (inbound.go) *)

(** A network address: a TCP address, or another one by its text. *)
Inductive Addr := TCPAddr (ip : IP) | OtherAddr (text : string).

Class NetText := {
  SplitHostPort : string → option string;
  ParseIP : string → IP;
}.

Definition remoteIP `{NetText} (addr : Addr) : IP :=
  match addr with
  | TCPAddr ip => ip
  | OtherAddr text => match SplitHostPort text with
                      | None => None
                      | Some host => ParseIP host
                      end
  end.

Record inboundSession := mkInbound {
  clientIP : IP;
  heloDomain : string;
  from : string;
  rcpts : list string;
  vhosts : list Vhost;
  correlationID : string;
}.

Definition tempRateLimitError (dimension : string) : goerr :=
  SMTPError 450 (4, 7, 1) ("rate limit exceeded for " +:+ dimension +:+ ", try again later").

Definition err_malformed : goerr := SMTPError 501 (5, 1, 3) "malformed recipient address".
Definition err_no_domain : goerr := SMTPError 550 (5, 1, 1) "no such domain here".
Definition err_too_big : goerr := SMTPError 552 (5, 3, 4) "message exceeds maximum size".
Definition err_storage : goerr := SMTPError 451 (4, 3, 0) "temporary storage failure".
Definition err_rejected (reason : string) : goerr := SMTPError 550 (5, 7, 1) ("message rejected: " +:+ reason).

(** An index out of range. *)
Definition panic_index : goerr := ErrNew "runtime error: index out of range".

Definition minPositive (current candidate : float64) : float64 :=
  if fle candidate F0 then current
  else if fle current F0 || flt candidate current then candidate
  else current.

(** [io.ReadAll] gave [r]. *)
Definition readBounded (r : res string) (limit : Z) : res string :=
  match r with
  | Err e => Err e
  | Ok body => if limit <? Z.of_nat (String.length body) then Err err_too_big else Ok body
  end.

Definition effectiveThresholds (s : inboundSession) : float64 * float64 :=
  foldl (λ acc v, (minPositive acc.1 (SpamRejectThreshold (vh_policy v)),
                   minPositive acc.2 (SpamQuarantineThreshold (vh_policy v)))) (F0, F0) (vhosts s).

(** The maps of [fireReceived]: the recipients per vhost and the vhosts in the
    order they are first met; [None] if [rcpts] is shorter than [vhosts]. *)
Definition group_one (acc : option (gmap string (list string) * list string)) (iv : nat * Vhost)
  (rcpts : list string) : option (gmap string (list string) * list string) :=
  match acc, rcpts !! iv.1 with
  | Some (m, order), Some rcpt =>
      let domain := vh_Domain iv.2 in
      let order := match m !! domain with Some _ => order | None => order ++ [domain] end in
      Some (<[domain := default [] (m !! domain) ++ [rcpt]]> m, order)
  | _, _ => None
  end.

Definition group (rcpts : list string) (vhosts : list Vhost) : option (gmap string (list string) * list string) :=
  foldl (λ acc iv, group_one acc iv rcpts) (Some (∅, [])) (imap pair vhosts).

Section Inbound.
Context {W : Type} `{HE : Env W, HM : MsgAuth W, HR : RspamdChecker W, HD : Directory W, HS : MessageStore W, HJ : JSON}.
Context (cfg : Config W).

Definition NewInboundSession `{NetText} (addr : Addr) (hostname : string) : inboundSession :=
  mkInbound (remoteIP addr) hostname "" [] [] "".

Definition Inbound_Reset (s : inboundSession) : inboundSession :=
  mkInbound (clientIP s) (heloDomain s) "" [] [] "".

(** The limiter's answer is a definite no. *)
Definition denied (r : res bool) : bool := match r with Ok allowed => negb allowed | Err _ => false end.

Definition checkRateLimit (ctx : Ctx) (s : inboundSession) (from : string) : M W (res unit) :=
  match cfg_RateLimiter cfg with
  | None => ret (Ok tt)
  | Some Allow =>
      let* ip_denied :=
        match clientIP s with
        | Some ip =>
            if fgt (RateLimitIPCapacity cfg) F0 then
              let* r := Allow ctx ("ip:" +:+ ip) (RateLimitIPCapacity cfg) (RateLimitIPRefillPerSecond cfg) in
              ret (denied r)
            else ret false
        | None => ret false
        end in
      if ip_denied : bool then ret (Err (tempRateLimitError "source IP"))
      else
        let* sender_denied :=
          (if negb (String.eqb from "") && fgt (RateLimitSenderCapacity cfg) F0 then
             let* r := Allow ctx ("sender:" +:+ from) (RateLimitSenderCapacity cfg) (RateLimitSenderRefillPerSecond cfg) in
             ret (denied r)
           else ret false) in
        ret (if sender_denied : bool then Err (tempRateLimitError "envelope sender") else Ok tt)
  end.

Definition Inbound_Mail (s : inboundSession) (sender : string) : M W (inboundSession * res unit) :=
  let* id := NewCorrelationID in
  let s := mkInbound (clientIP s) (heloDomain s) (from s) (rcpts s) (vhosts s) id in
  let* r := checkRateLimit Background s sender in
  ret (match r with
       | Err e => (s, Err e)
       | Ok _ => (mkInbound (clientIP s) (heloDomain s) sender (rcpts s) (vhosts s) id, Ok tt)
       end).

Definition Inbound_Rcpt (s : inboundSession) (to : string) : M W (inboundSession * res unit) :=
  match ParseAddress to with
  | None => ret (s, Err err_malformed)
  | Some (_, domain) =>
      let* vhost := d_Vhost Background domain in
      ret (match vhost with
           | None => (s, Err err_no_domain)
           | Some vhost =>
               if negb (vh_Active vhost) then (s, Err err_no_domain)
               else (mkInbound (clientIP s) (heloDomain s) (from s) (rcpts s ++ [to]) (vhosts s ++ [vhost])
                       (correlationID s), Ok tt)
           end)
  end.

Definition effectiveMaxBytes (s : inboundSession) : Z :=
  let limit := if cfg_MaxMessageBytes cfg <=? 0 then defaultMaxMessageBytes else cfg_MaxMessageBytes cfg in
  foldl (λ limit v, let m := MaxMessageBytes (vh_policy v) in
                    if (0 <? m) && (m <? limit) then m else limit) limit (vhosts s).

Definition store_one (ctx : Ctx) (s : inboundSession) (body folder : string) (i : nat) (rcpt : string) : M W (res unit) :=
  match ParseAddress rcpt with
  | None => ret (Ok tt)
  | Some (local, _) =>
      match vhosts s !! i with
      | None => ret (Err panic_index)
      | Some v =>
          let* r := s_Write ctx (vh_Domain v) (MailboxPath local folder) (Ok body) in
          ret (match r with Err _ => Err err_storage | Ok _ => Ok tt end)
      end
  end.

(** The loop of [store] from index [i]. *)
Fixpoint store_from (ctx : Ctx) (s : inboundSession) (body folder : string) (i : nat) (l : list string) : M W (res unit) :=
  match l with
  | [] => ret (Ok tt)
  | rcpt :: l => let? _ := store_one ctx s body folder i rcpt in store_from ctx s body folder (S i) l
  end.

Definition store (ctx : Ctx) (s : inboundSession) (body folder : string) : M W (res unit) :=
  store_from ctx s body folder 0 (rcpts s).

Definition fire_one (ctx : Ctx) (enqueue : Enqueuer W) (s : inboundSession) (quarantined : bool)
  (domain : string) (to : list string) : M W unit :=
  let* id := uuid_NewString in
  let* payload := NewEventPayload id EventMessageReceived domain
    [("from", JString (from s)); ("to", JStrings to); ("quarantine", JBool quarantined)] in
  match payload with
  | Err _ => ret tt
  | Ok p => let* _ := enqueue ctx domain EventMessageReceived p in ret tt
  end.

Definition fireReceived (ctx : Ctx) (s : inboundSession) (quarantined : bool) : M W (res unit) :=
  match cfg_Webhooks cfg with
  | None => ret (Ok tt)
  | Some enqueue =>
      match group (rcpts s) (vhosts s) with
      | None => ret (Err panic_index)
      | Some (recipientsByVhost, vhostOrder) =>
          let* _ := mfold vhostOrder (λ domain _,
            fire_one ctx enqueue s quarantined domain (default [] (recipientsByVhost !! domain))) tt in
          ret (Ok tt)
      end
  end.

(** The pipeline's input for a body. *)
Definition filter_input (s : inboundSession) (body : string) : Filter.Input :=
  mkInput body (from s) (rcpts s) (clientIP s) (heloDomain s) (effectiveThresholds s).1 (effectiveThresholds s).2.

(** The switch on the verdict. *)
Definition dispose (ctx : Ctx) (s : inboundSession) (body : string) (result : Filter.Result) : M W (res unit) :=
  match r_Verdict result with
  | Reject => ret (Err (err_rejected (Reason result)))
  | Quarantine =>
      let? _ := store ctx s body "Quarantine" in
      Inc (MessagesReceivedTotal "quarantine");;
      fireReceived ctx s true
  | Accept =>
      let? _ := store ctx s body "INBOX" in
      Inc (MessagesReceivedTotal "accept");;
      fireReceived ctx s false
  end.

Definition Inbound_Data (s : inboundSession) (r : res string) : M W (inboundSession * res unit) :=
  match readBounded r (effectiveMaxBytes s) with
  | Err e => ret (s, Err e)
  | Ok body =>
      let ctx := WithCorrelationID Background (correlationID s) in
      let* result := Evaluate (cfg_Filter cfg) ctx (filter_input s body) in
      let* r := dispose ctx s body result in ret (s, r)
  end.

(** The calls go-smtp makes on a session. *)
Inductive inbound_call := IMail (from : string) | IRcpt (to : string) | IData (r : res string) | IReset | ILogout.

Definition inbound_step (s : inboundSession) (c : inbound_call) : M W (inboundSession * res unit) :=
  match c with
  | IMail f => Inbound_Mail s f
  | IRcpt to => Inbound_Rcpt s to
  | IData r => Inbound_Data s r
  | IReset => ret (Inbound_Reset s, Ok tt)
  | ILogout => ret (s, Ok tt)
  end.

Fixpoint inbound_run (s : inboundSession) (l : list inbound_call) : M W inboundSession :=
  match l with
  | [] => ret s
  | c :: l => let* r := inbound_step s c in inbound_run r.1 l
  end.
End Inbound.

(** ** The submission session (submission.go) *)

Record submissionSession := mkSubmission {
  authLocal : string;
  authVhost : string;
  sub_from : string;
  sub_rcpts : list string;
  sub_correlationID : string;
}.

Definition Plain : string := "PLAIN".
Definition ErrAuthFailed : goerr := Sentinel "smtp.ErrAuthFailed".
Definition err_auth_required : goerr := SMTPError 530 (5, 7, 0) "authentication required".
Definition err_no_key : goerr := SMTPError 451 (0, 0, 0) "no DKIM key configured for sending vhost".
Definition err_sign : goerr := SMTPError 451 (0, 0, 0) "DKIM signing failed".
Definition err_staging : goerr := SMTPError 451 (0, 0, 0) "temporary storage failure".
Definition err_queue : goerr := SMTPError 451 (0, 0, 0) "queue unavailable".
Definition err_quota : goerr :=
  SMTPError 452 (4, 7, 1) "daily sending quota exceeded for this vhost, try again later".

Definition secondsPerDay : Z := 24 * 60 * 60.

Definition AuthMechanisms : list string := [Plain].

Definition NewSubmissionSession : submissionSession := mkSubmission "" "" "" [] "".

Definition Submission_Reset (s : submissionSession) : submissionSession :=
  mkSubmission (authLocal s) (authVhost s) "" [] "".

(** [dkim.Sign] with a domain, selector and key. *)
Class DKIMSigner (W : Type) := dkim_Sign : string → string → PrivateKey → string → M W (res string).

Section Submission.
Context {W : Type} `{HE : Env W, HM : MsgAuth W, HD : Directory W, HS : MessageStore W, HQ : QueueBackend W Job,
  HK : DKIMSigner W, HJ : JSON}.
Context (cfg : Config W).

(** The authenticator [Auth] gives the SASL PLAIN server, or its error. *)
Definition authenticate (s : submissionSession) (username password : string) : M W (submissionSession * res unit) :=
  match ParseAddress username with
  | None => ret (s, Err (ErrNew "smtp: username must be an email address"))
  | Some (local, vhost) =>
      let* ok := d_Authenticate Background vhost local password in
      ret (if negb ok then (s, Err ErrAuthFailed)
           else (mkSubmission local vhost (sub_from s) (sub_rcpts s) (sub_correlationID s), Ok tt))
  end.

Definition Auth (s : submissionSession) (mech : string) : res (string → string → M W (submissionSession * res unit)) :=
  if negb (String.eqb mech Plain) then Err (ErrNew "smtp: unsupported auth mechanism")
  else Ok (authenticate s).

Definition Submission_Mail (s : submissionSession) (sender : string) : M W (submissionSession * res unit) :=
  if String.eqb (authLocal s) "" then ret (s, Err err_auth_required)
  else
    let* id := NewCorrelationID in
    ret (mkSubmission (authLocal s) (authVhost s) sender (sub_rcpts s) id, Ok tt).

Definition Submission_Rcpt (s : submissionSession) (to : string) : M W (submissionSession * res unit) :=
  ret (mkSubmission (authLocal s) (authVhost s) (sub_from s) (sub_rcpts s ++ [to]) (sub_correlationID s), Ok tt).

Definition checkQuota (ctx : Ctx) (vhost : Vhost) : M W (res unit) :=
  match cfg_Quota cfg with
  | None => ret (Ok tt)
  | Some Allow =>
      let quota := DailyQuota (vh_policy vhost) in
      if quota <=? 0 then ret (Ok tt)
      else
        let* r := Allow ctx ("quota:" +:+ vh_ID vhost) (of_int quota) (fdiv_int (of_int quota) secondsPerDay) in
        ret (match r with
             | Err _ => Ok tt
             | Ok allowed => if allowed then Ok tt else Err err_quota
             end)
  end.

(** The job of one recipient. *)
Definition submission_job (s : submissionSession) (id rcpt : string) (ref : MessageRef) (t : Time) : Job :=
  mkJob id (authVhost s) (sub_from s) rcpt (rf_Key ref) 0 t "" (sub_correlationID s).

Definition submit_one (ctx : Ctx) (s : submissionSession) (signed rcpt : string) : M W (res unit) :=
  let? ref := wrap (λ _, err_staging) (s_Write ctx (authVhost s) OutboxMailbox (Ok signed)) in
  let* id := uuid_NewString in
  let* t := now in
  wrap (λ _, err_queue) (q_Enqueue ctx (submission_job s id rcpt ref t)).

Fixpoint submit_all (ctx : Ctx) (s : submissionSession) (signed : string) (l : list string) : M W (res unit) :=
  match l with
  | [] => ret (Ok tt)
  | rcpt :: l => let? _ := submit_one ctx s signed rcpt in submit_all ctx s signed l
  end.

Definition fireQueued (ctx : Ctx) (s : submissionSession) : M W unit :=
  match cfg_Webhooks cfg with
  | None => ret tt
  | Some enqueue =>
      let* id := uuid_NewString in
      let* payload := NewEventPayload id EventMessageQueued (authVhost s)
        [("from", JString (sub_from s)); ("to", JStrings (sub_rcpts s))] in
      match payload with
      | Err _ => ret tt
      | Ok p => let* _ := enqueue ctx (authVhost s) EventMessageQueued p in ret tt
      end
  end.

(** The reply of [Data]. *)
Definition submit (s : submissionSession) (r : res string) : M W (res unit) :=
  match r with
  | Err e => ret (Err e)
  | Ok body =>
      let ctx := WithCorrelationID Background (sub_correlationID s) in
      let* vhost := d_Vhost ctx (authVhost s) in
      match vhost with
      | None => ret (Err err_no_key)
      | Some vhost =>
          match vh_DKIMKey vhost with
          | None => ret (Err err_no_key)
          | Some key =>
              let? _ := checkQuota ctx vhost in
              let? signed := wrap (λ _, err_sign)
                (dkim_Sign (vh_Domain vhost) (vh_DKIMSelector vhost) key body) in
              let? _ := submit_all ctx s signed (sub_rcpts s) in
              let* _ := fireQueued ctx s in ret (Ok tt)
          end
      end
  end.

Definition Submission_Data (s : submissionSession) (r : res string) : M W (submissionSession * res unit) :=
  let* e := submit s r in ret (s, e).

Inductive submission_call :=
| SAuth (mech username password : string) | SMail (from : string) | SRcpt (to : string) | SData (r : res string)
| SReset | SLogout.

Definition submission_step (s : submissionSession) (c : submission_call) : M W (submissionSession * res unit) :=
  match c with
  | SAuth mech username password =>
      match Auth s mech with
      | Err e => ret (s, Err e)
      | Ok check => check username password
      end
  | SMail f => Submission_Mail s f
  | SRcpt to => Submission_Rcpt s to
  | SData r => Submission_Data s r
  | SReset => ret (Submission_Reset s, Ok tt)
  | SLogout => ret (s, Ok tt)
  end.

Fixpoint submission_run (s : submissionSession) (l : list submission_call) : M W submissionSession :=
  match l with
  | [] => ret s
  | c :: l => let* r := submission_step s c in submission_run r.1 l
  end.
End Submission.

(** ** Facts about the inbound session *)

(** The first occurrence of each element, in order. *)
Definition first_occurrences (l : list string) : list string := reverse (remove_dups (reverse l)).

Lemma first_occurrences_snoc l x :
  first_occurrences (l ++ [x]) = if bool_decide (x ∈ l) then first_occurrences l else first_occurrences l ++ [x].
Proof.
  unfold first_occurrences. rewrite reverse_snoc. simpl. destruct (decide_rel _ x (reverse l)) as [Hx|Hx].
  - rewrite bool_decide_true; [done|]. by apply elem_of_reverse.
  - rewrite reverse_cons, bool_decide_false; [done|]. by rewrite <-elem_of_reverse.
Qed.

Lemma elem_of_first_occurrences l x : x ∈ first_occurrences l ↔ x ∈ l.
Proof. unfold first_occurrences. by rewrite elem_of_reverse, elem_of_remove_dups, elem_of_reverse. Qed.

Lemma NoDup_first_occurrences l : NoDup (first_occurrences l).
Proof. unfold first_occurrences. rewrite reverse_Permutation. apply NoDup_remove_dups. Qed.

(** The recipients whose vhost has the domain. *)
Definition recipients_of (rcpts : list string) (vhosts : list Vhost) (domain : string) : list string :=
  (filter (λ p, vh_Domain p.2 = domain) (zip rcpts vhosts)).*1.

Lemma recipients_of_snoc rs vs r v d : length rs = length vs →
  recipients_of (rs ++ [r]) (vs ++ [v]) d =
  recipients_of rs vs d ++ (if String.eqb (vh_Domain v) d then [r] else []).
Proof.
  intros Hl. unfold recipients_of. rewrite zip_with_app by done. rewrite filter_app, fmap_app. simpl.
  destruct (String.eqb_spec (vh_Domain v) d) as [E|E].
  - by rewrite filter_cons_True by done.
  - by rewrite filter_cons_False by done.
Qed.

Lemma recipients_of_nil rs vs d : d ∉ vh_Domain <$> vs → recipients_of rs vs d = [].
Proof.
  intros Hd. unfold recipients_of. destruct (filter _ (zip rs vs)) as [|[r v] l] eqn:Ef; [done|].
  assert (Hin : (r, v) ∈ filter (λ p, vh_Domain p.2 = d) (zip rs vs)) by (rewrite Ef; set_solver).
  apply list_elem_of_filter in Hin as [E Hin]. destruct Hd. apply elem_of_zip_r in Hin. rewrite <-E.
  by apply list_elem_of_fmap_2.
Qed.

Lemma foldl_group_take (rs rs' : list string) (l : list (nat * Vhost)) acc :
  Forall (λ iv, (iv.1 < length rs)%nat) l →
  foldl (λ acc iv, group_one acc iv (rs ++ rs')) acc l = foldl (λ acc iv, group_one acc iv rs) acc l.
Proof.
  revert acc. induction l as [|iv l IH]; intros acc Hl; [done|]. apply Forall_cons in Hl as [H1 Hl]. simpl.
  rewrite IH by done. f_equal. unfold group_one. by rewrite lookup_app_l by done.
Qed.

Lemma group_spec rs vs : length rs = length vs →
  ∃ m, group rs vs = Some (m, first_occurrences (vh_Domain <$> vs)) ∧
  ∀ d, m !! d = if bool_decide (d ∈ vh_Domain <$> vs) then Some (recipients_of rs vs d) else None.
Proof.
  revert rs. induction vs as [|v vs IH] using rev_ind; intros rs Hl.
  { exists ∅. destruct rs; [|done]. split; [done|]. intros d. by rewrite lookup_empty. }
  destruct rs as [|r rs _] using rev_ind; [rewrite length_app in Hl; simpl in Hl; lia|].
  rewrite !length_app in Hl. simpl in Hl. assert (Hl' : length rs = length vs) by lia.
  destruct (IH rs Hl') as (m & Hg & Hm). unfold group in *. rewrite imap_app, foldl_app.
  rewrite (foldl_group_take rs [r] (imap pair vs)).
  2:{ rewrite Hl'. apply Forall_forall. intros [i x] Hin. apply list_elem_of_lookup_1 in Hin as [k Hk].
      rewrite list_lookup_imap in Hk. destruct (vs !! k) eqn:E; [|done]. injection Hk as <- <-.
      simpl. by apply lookup_lt_Some in E. }
  rewrite Hg. simpl. unfold group_one. simpl. rewrite Nat.add_0_r, <-Hl', list_lookup_middle by done.
  rewrite fmap_app. simpl. rewrite first_occurrences_snoc, Hm. eexists. split.
  { f_equal. f_equal. by destruct (bool_decide (vh_Domain v ∈ vh_Domain <$> vs)). }
  intros d. rewrite recipients_of_snoc by done. destruct (String.eqb_spec (vh_Domain v) d) as [<-|Hne].
  - rewrite lookup_insert_eq, (bool_decide_true (vh_Domain v ∈ (vh_Domain <$> vs) ++ [vh_Domain v])) by set_solver.
    f_equal. f_equal.
    case_bool_decide as Hin; [done|]. simpl. by rewrite recipients_of_nil.
  - rewrite lookup_insert_ne, Hm, app_nil_r by done.
    rewrite (bool_decide_ext (d ∈ (vh_Domain <$> vs) ++ [vh_Domain v]) (d ∈ vh_Domain <$> vs)); [done|].
    rewrite elem_of_app, list_elem_of_singleton. naive_solver.
Qed.

Section InboundFacts.
Context {W : Type} {HE : Env W} {HM : MsgAuth W} {HR : RspamdChecker W} {HD : Directory W} {HS : MessageStore W}
  {HJ : JSON}.
Context (cfg : Config W).

(** A recipient the session took, with its vhost. *)
Definition accepted (rcpt : string) (v : Vhost) : Prop :=
  ∃ local dom, ParseAddress rcpt = Some (local, dom) ∧ vh_Active v = true ∧
    ∃ w : W, fst (d_Vhost Background dom w) = Some v.

Definition session_ok (s : inboundSession) : Prop := Forall2 accepted (rcpts s) (vhosts s).

Lemma session_ok_length s : session_ok s → length (rcpts s) = length (vhosts s).
Proof. apply Forall2_length. Qed.

Lemma Inbound_Mail_rcpts s f w s' r w' : Inbound_Mail cfg s f w = ((s', r), w') →
  rcpts s' = rcpts s ∧ vhosts s' = vhosts s ∧ clientIP s' = clientIP s ∧ heloDomain s' = heloDomain s.
Proof.
  unfold Inbound_Mail, bind, ret. destruct (NewCorrelationID w) as [id w1].
  destruct (checkRateLimit _ _ _ _ w1) as [[|e] w2]; by intros [= <- _ _].
Qed.

Lemma Inbound_Rcpt_spec s to w s' r w' : Inbound_Rcpt s to w = ((s', r), w') →
  (r = Err err_malformed ∧ ParseAddress to = None ∧ s' = s ∧ w' = w) ∨
  ∃ local dom, ParseAddress to = Some (local, dom) ∧
   ((r = Err err_no_domain ∧ s' = s ∧ ∀ v, fst (d_Vhost Background dom w) = Some v → vh_Active v = false) ∨
    ∃ v, r = Ok tt ∧ accepted to v ∧ fst (d_Vhost Background dom w) = Some v ∧ rcpts s' = rcpts s ++ [to] ∧
      vhosts s' = vhosts s ++ [v] ∧ from s' = from s).
Proof.
  unfold Inbound_Rcpt. destruct (ParseAddress to) as [[local dom]|] eqn:Ep; [|intros [= <- <- <-]; auto].
  intros E. right. exists local, dom. split; [done|]. revert E.
  unfold bind, ret. destruct (d_Vhost Background dom w) as [[v|] w1] eqn:Ev; simpl.
  - destruct (vh_Active v) eqn:Ea; simpl; intros [= <- <- _].
    + right. exists v. split_and!; [done| |done..]. exists local, dom. split_and!; [done..|]. exists w. by rewrite Ev.
    + left. split_and!; [done..|]. by intros v' [= <-].
  - intros [= <- <- _]. by left.
Qed.

Lemma Inbound_Data_session s r w s' e w' : Inbound_Data cfg s r w = ((s', e), w') → s' = s.
Proof.
  unfold Inbound_Data, bind, ret. destruct (readBounded _ _); [|by intros [= <- _ _]].
  destruct (Evaluate _ _ _ w) as [result w1]. destruct (dispose _ _ _ _ _ w1). by intros [= <- _ _].
Qed.

Lemma inbound_step_ok s c w s' r w' : session_ok s → inbound_step cfg s c w = ((s', r), w') → session_ok s'.
Proof.
  unfold session_ok. intros Hok. destruct c as [f|to|b| |]; simpl.
  - intros (-> & -> & _)%Inbound_Mail_rcpts. done.
  - intros [(_ & _ & -> & _)|(local & dom & _ & [(_ & -> & _)|(v & _ & Ha & _ & -> & -> & _)])]%Inbound_Rcpt_spec; try done.
    apply Forall2_app; [done|]. by constructor.
  - intros ->%Inbound_Data_session. done.
  - intros [= <- _ _]. constructor.
  - by intros [= <- _ _].
Qed.

Lemma inbound_run_ok s l w : session_ok s → session_ok (fst (inbound_run cfg s l w)).
Proof.
  revert s w. induction l as [|c l IH]; intros s w Hok; simpl; [done|].
  unfold bind. destruct (inbound_step cfg s c w) as [[s1 r] w1] eqn:E. apply IH. by eapply inbound_step_ok.
Qed.
End InboundFacts.

(** ** What sessions do to the store *)

Section Added.
Context {W A : Type} {HS : MessageStore W} {inv : W → Prop} {addr : MessageRef → A}
  {norm : list string → list string} {box : string → string → Prop} {valid : MessageRef → Prop}
  {holds : W → A → string → list string → Prop}.
Context {SS : StoreSpec W A inv addr norm box valid holds}.

(** The store gained [body], unflagged, at the new places [refs], and nothing else. *)
Definition added (w w' : W) (refs : list MessageRef) (body : string) : Prop :=
  NoDup (addr <$> refs) ∧ Forall valid refs ∧ (∀ a b f, a ∈ addr <$> refs → ¬ holds w a b f) ∧
  ∀ a b f, holds w' a b f ↔ (a ∈ addr <$> refs ∧ b = body ∧ f = []) ∨ holds w a b f.

Lemma added_nil (w w' : W) body : holds w' = holds w → added w w' [] body.
Proof.
  intros E. split_and!; [constructor|done|set_solver|]. intros a b f. rewrite E. simpl. set_solver.
Qed.

Lemma added_quiet_l (w0 w w' : W) refs body : holds w = holds w0 → added w w' refs body → added w0 w' refs body.
Proof. unfold added. by intros ->. Qed.

Lemma added_quiet_r (w w' w'' : W) refs body : holds w'' = holds w' → added w w' refs body → added w w'' refs body.
Proof. unfold added. by intros ->. Qed.

Lemma added_write ctx v m body (w w1 w' : W) ref refs :
  inv w → box v m → s_Write ctx v m (Ok body) w = (Ok ref, w1) → added w1 w' refs body →
  added w w' (ref :: refs) body.
Proof.
  intros Hi Hb E (Hn & Hv & Hf & Hh).
  destruct (sp_Write_ok _ _ _ _ _ _ _ Hi Hb E) as (_ & Hvr & _ & _ & b0 & [= <-] & Hnew & Hw).
  assert (Hfr : addr ref ∉ addr <$> refs).
  { intros Hin. apply (Hf _ body [] Hin). apply Hw. by left. }
  split_and!.
  - rewrite fmap_cons. by apply NoDup_cons.
  - by constructor.
  - intros a b f [->|Ha]%elem_of_cons; [apply Hnew|]. intros Hx. apply (Hf a b f Ha). apply Hw. by right.
  - intros a b f. rewrite Hh, Hw, fmap_cons, elem_of_cons. tauto.
Qed.
End Added.
Arguments added {W A} addr valid holds w w' refs body.

Section Store.
Context {W A : Type} {HE : Env W} {HM : MsgAuth W} {HR : RspamdChecker W} {HD : Directory W} {HS : MessageStore W}
  {HJ : JSON} {inv : W → Prop} {addr : MessageRef → A} {norm : list string → list string}
  {box : string → string → Prop} {valid : MessageRef → Prop} {holds : W → A → string → list string → Prop}.
Context {SS : StoreSpec W A inv addr norm box valid holds}.
(** The place of a recipient's copy. *)
Definition is_copy (folder : string) (p : string * Vhost) (ref : MessageRef) : Prop :=
  rf_Vhost ref = vh_Domain p.2 ∧ ∃ local dom, ParseAddress p.1 = Some (local, dom) ∧
  rf_Mailbox ref = MailboxPath local folder.

(** Mailboxes the store can tell apart. *)
Definition boxes_ok (folder : string) (l : list (string * Vhost)) : Prop :=
  Forall (λ p, ∀ local dom, ParseAddress p.1 = Some (local, dom) → box (vh_Domain p.2) (MailboxPath local folder)) l.

Lemma store_from_spec ctx s body folder l vs i (w : W) r w' :
  inv w → drop i (vhosts s) = vs → Forall2 (accepted (W := W)) l vs → boxes_ok folder (zip l vs) →
  store_from ctx s body folder i l w = (r, w') →
  inv w' ∧ ∃ refs, Forall2 (is_copy folder) (take (length refs) (zip l vs)) refs ∧ added addr valid holds w w' refs body ∧
    (r = Ok tt ∧ length refs = length l ∨ r = Err err_storage ∧ (length refs < length l)%nat).
Proof.
  revert vs i w. induction l as [|rcpt l IH]; intros vs i w Hi Hd Hacc Hbox; simpl.
  { unfold ret. intros [= <- <-]. split; [done|]. exists []. split_and!; [done|by apply added_nil|by left]. }
  apply Forall2_cons_inv_l in Hacc as (v & vs' & (local & dom & Hp & _) & Hacc & ->).
  simpl in Hbox. apply Forall_cons in Hbox as [Hb Hbox]. specialize (Hb local dom Hp).
  assert (Hv : vhosts s !! i = Some v).
  { rewrite <-(Nat.add_0_r i), <-lookup_drop. by rewrite Hd. }
  unfold mtry, store_one. rewrite Hp, Hv. unfold bind, ret.
  destruct (s_Write ctx (vh_Domain v) (MailboxPath local folder) (Ok body) w) as [[ref|e] w1] eqn:Ew.
  - pose proof (sp_Write_ok _ _ _ _ _ _ _ Hi Hb Ew) as (Hi1 & _ & Hrv & Hrm & _). intros E.
    apply (IH vs' (S i)) in E as (Hi' & refs & Hc & Ha & Hr); [|done| |done..].
    + split; [done|]. exists (ref :: refs). split_and!.
      * simpl. constructor; [|done]. split; [done|]. eauto.
      * by eapply added_write.
      * simpl. destruct Hr as [[-> Hr]|[-> Hr]]; [left|right]; split; [done|lia|done|lia].
    + rewrite (drop_S _ v _ Hv) in Hd. by injection Hd.
  - destruct (sp_Write_err _ _ _ _ _ _ _ Hi Hb Ew) as (Hi1 & Hh). intros [= <- <-]. split; [done|].
    exists []. split_and!; [done| |right; simpl; split; [done|lia]].
    split_and!; [constructor|done|set_solver|]. intros a b f. rewrite Hh. simpl. set_solver.
Qed.
Context (cfg : Config W).

(** What surrounds the store leaves it alone. *)
Record store_quiet : Prop := {
  sq_now : quiet inv holds now;
  sq_inc : ∀ c, quiet inv holds (Inc c);
  sq_uuid : quiet inv holds uuid_NewString;
  sq_vhost : ∀ ctx d, quiet inv holds (d_Vhost ctx d);
  sq_spf : ∀ ctx r ip h f, quiet inv holds (spf_CheckHostWithSender ctx r ip h f);
  sq_dkim : ∀ ctx r b, quiet inv holds (dkim_Verify ctx r b);
  sq_dmarc : ∀ ctx r d, quiet inv holds (dmarc_Lookup ctx r d);
  sq_rspamd : ∀ ctx f r b, quiet inv holds (rs_Check ctx f r b);
  sq_hooks : ∀ enqueue ctx v t p, cfg_Webhooks cfg = Some enqueue → quiet inv holds (enqueue ctx v t p);
}.
Context (SQ : store_quiet).

Lemma Evaluate_quiet p ctx i : quiet inv holds (Evaluate p ctx i).
Proof.
  unfold Evaluate, CheckSPF, VerifyDKIM, find_record, LookupDMARC. quiet_calls; destruct SQ; auto.
Qed.

Lemma fire_one_quiet ctx enqueue s q d to : cfg_Webhooks cfg = Some enqueue →
  quiet inv holds (fire_one ctx enqueue s q d to).
Proof. intros E. unfold fire_one, NewEventPayload. quiet_calls; destruct SQ; auto. Qed.

Lemma mfold_quiet {X B} (l : list X) (body : X → B → M W B) acc :
  (∀ x b, quiet inv holds (body x b)) → quiet inv holds (mfold l body acc).
Proof. intros Hb. revert acc. induction l as [|x l IH]; intros acc; simpl; quiet_calls; auto. Qed.

Lemma fireReceived_quiet ctx s q : quiet inv holds (fireReceived cfg ctx s q).
Proof.
  unfold fireReceived. destruct (cfg_Webhooks cfg) as [enqueue|] eqn:E; [|apply quiet_ret].
  quiet_calls. apply mfold_quiet. intros. by apply fire_one_quiet.
Qed.

End Store.

(** ** The inbound claims *)

Section InboundClaims.
Context {W : Type} {HE : Env W} {HM : MsgAuth W} {HR : RspamdChecker W} {HD : Directory W} {HS : MessageStore W}
  {HJ : JSON}.
Context (cfg : Config W).

(** C29: inbound mail is taken only for hosted, active domains.  However the
    calls on a session are ordered, every recipient it holds parses as an
    address, paired with the active vhost the directory gave for its domain;
    and a RCPT is answered 501 for a malformed address and 550 for an unknown
    or deactivated domain, leaving the session as it was, and otherwise adds
    exactly that recipient. *)
Theorem inbound_recipients_hosted `{NetText} addr host calls (w w1 : W) to s' r w' :
  let s := fst (inbound_run cfg (NewInboundSession addr host) calls w) in
  session_ok (W := W) s ∧
  (Inbound_Rcpt s to w1 = ((s', r), w') →
   match ParseAddress to with
   | None => r = Err err_malformed ∧ s' = s
   | Some (_, dom) =>
       match fst (d_Vhost Background dom w1) with
       | Some v => if vh_Active v
                   then r = Ok tt ∧ rcpts s' = rcpts s ++ [to] ∧ vhosts s' = vhosts s ++ [v] ∧ from s' = from s
                   else r = Err err_no_domain ∧ s' = s
       | None => r = Err err_no_domain ∧ s' = s
       end
   end).
Proof.
  intros s. split; [apply inbound_run_ok; constructor|].
  intros [(-> & -> & -> & _)|(local & dom & -> & [(-> & -> & Hv)|(v & -> & Ha & Hv & Hr)])]%Inbound_Rcpt_spec; [done| |].
  - destruct (fst (d_Vhost Background dom w1)) as [v|]; [|done]. by rewrite (Hv v).
  - rewrite Hv. destruct Ha as (_ & _ & _ & -> & _). naive_solver.
Qed.

(** C30: one event per vhost, about its own recipients only.  In any session the
    calls lead to, firing message.received enqueues exactly one event for each
    distinct vhost of the recipients, in the order they were first named, and
    the event lists that vhost's recipients and no other's. *)
Theorem events_per_vhost `{NetText} addr host calls (w w1 : W) ctx q :
  let s := fst (inbound_run cfg (NewInboundSession addr host) calls w) in
  fireReceived cfg ctx s q w1 =
  match cfg_Webhooks cfg with
  | None => (Ok tt, w1)
  | Some enqueue =>
      (Ok tt, snd (mfold (first_occurrences (vh_Domain <$> vhosts s))
                 (λ d _, fire_one ctx enqueue s q d (recipients_of (rcpts s) (vhosts s) d)) tt w1))
  end.
Proof.
  intros s. unfold fireReceived. destruct (cfg_Webhooks cfg) as [enqueue|]; [|done].
  assert (Hok : session_ok (W := W) s) by (apply inbound_run_ok; constructor).
  destruct (group_spec (rcpts s) (vhosts s) (session_ok_length s Hok)) as (m & -> & Hm).
  assert (Hf : ∀ l w1, (∀ d, d ∈ l → d ∈ vh_Domain <$> vhosts s) →
    mfold l (λ d _, fire_one ctx enqueue s q d (default [] (m !! d))) tt w1 =
    mfold l (λ d _, fire_one ctx enqueue s q d (recipients_of (rcpts s) (vhosts s) d)) tt w1).
  { induction l as [|d l IH]; intros w2 Hl; simpl; [done|].
    rewrite Hm, bool_decide_true by (apply Hl; set_solver). simpl. unfold bind.
    destruct (fire_one _ _ _ _ _ _ w2) as [[] w3]. apply IH. set_solver. }
  unfold bind. rewrite Hf by (intros d; by rewrite elem_of_first_occurrences).
  by destruct (mfold _ _ _ w1) as [[] w2].
Qed.
End InboundClaims.

Section InboundStore.
Context {W A : Type} {HE : Env W} {HM : MsgAuth W} {HR : RspamdChecker W} {HD : Directory W} {HS : MessageStore W}
  {HJ : JSON} {inv : W → Prop} {addr : MessageRef → A} {norm : list string → list string}
  {box : string → string → Prop} {valid : MessageRef → Prop} {holds : W → A → string → list string → Prop}.
Context {SS : StoreSpec W A inv addr norm box valid holds}.

Definition folder_of (v : Verdict) : string := match v with Quarantine => "Quarantine" | _ => "INBOX" end.

Lemma Inbound_Data_spec (cfg : Config W) (s : inboundSession) r (w : W) s' reply w' :
  store_quiet (inv := inv) (holds := holds) cfg → session_ok (W := W) s → inv w →
  (∀ folder, boxes_ok (box := box) folder (zip (rcpts s) (vhosts s))) →
  Inbound_Data cfg s r w = ((s', reply), w') →
  match readBounded r (effectiveMaxBytes cfg s) with
  | Err e => reply = Err e ∧ w' = w
  | Ok body =>
      let result := fst (Evaluate (cfg_Filter cfg) (WithCorrelationID Background (correlationID s))
                           (filter_input s body) w) in
      inv w' ∧ ∃ refs, added addr valid holds w w' refs body ∧
      Forall2 (is_copy (folder_of (r_Verdict result))) (take (length refs) (zip (rcpts s) (vhosts s))) refs ∧
      ((r_Verdict result = Reject ∧ refs = [] ∧ reply = Err (err_rejected (Reason result))) ∨
       (r_Verdict result ≠ Reject ∧ reply = Ok tt ∧ length refs = length (rcpts s)) ∨
       (r_Verdict result ≠ Reject ∧ reply = Err err_storage ∧ (length refs < length (rcpts s))%nat))
  end.
Proof.
  intros SQ Hok Hi Hbox. unfold Inbound_Data. destruct (readBounded r (effectiveMaxBytes cfg s)) as [body|e];
    [|by intros [= _ <- <-]].
  set (ctx := WithCorrelationID _ _). unfold bind, ret.
  destruct (Evaluate (cfg_Filter cfg) ctx (filter_input s body) w) as [result w1] eqn:Ee. simpl.
  destruct (Evaluate_quiet cfg SQ _ _ _ _ _ _ Ee) as [Hi1 Hh1]. specialize (Hi1 Hi).
  destruct (dispose cfg ctx s body result w1) as [e w2] eqn:Ed. intros [= _ <- <-]. unfold dispose in Ed.
  assert (Hst : ∀ folder verdict q e w2,
    mtry (store ctx s body folder) (λ _, Inc (MessagesReceivedTotal verdict);; fireReceived cfg ctx s q) w1 = (e, w2) →
    inv w2 ∧ ∃ refs, added addr valid holds w w2 refs body ∧
    Forall2 (is_copy folder) (take (length refs) (zip (rcpts s) (vhosts s))) refs ∧
    ((e = Ok tt ∧ length refs = length (rcpts s)) ∨ (e = Err err_storage ∧ (length refs < length (rcpts s))%nat))).
  { clear Ed e w2. intros folder verdict q e w2. unfold mtry. destruct (store ctx s body folder w1) as [r1 w3] eqn:Es.
    apply (store_from_spec ctx s body folder (rcpts s) (vhosts s) 0) in Es as (Hi3 & refs & Hc & Ha & Hr); [|done..].
    apply (added_quiet_l _ _ _ _ _ Hh1) in Ha. destruct Hr as [[-> Hl]|[-> Hl]].
    - unfold bind at 1. destruct (Inc _ w3) as [[] w4] eqn:Ei. destruct (sq_inc _ SQ _ _ _ _ Ei) as [Hi4 Hh4].
      apply (added_quiet_r _ w3 w4) in Ha; [|done].
      intros E. pose proof (fireReceived_quiet cfg SQ _ _ _ _ _ _ E) as [Hi2 Hh2].
      assert (He : e = Ok tt).
      { revert E. unfold fireReceived. destruct (cfg_Webhooks cfg); [|by intros [= <- _]].
        destruct (group_spec (rcpts s) (vhosts s) (session_ok_length s Hok)) as (m & -> & _).
        unfold bind. destruct (mfold _ _ _ w4). by intros [= <- _]. }
      split; [auto|]. exists refs. split_and!; [by apply (added_quiet_r _ w4)|done|by left].
    - intros [= <- <-]. split; [done|]. exists refs. split_and!; [done..|by right]. }
  destruct (r_Verdict result) eqn:Ev; simpl.
  1,2: apply Hst in Ed as (Hi2 & refs & Ha & Hc & Hr); split; [done|]; exists refs; split_and!; [done..|];
    right; destruct Hr; [left|right]; by split.
  injection Ed as <- <-. split; [done|]. exists []. split_and!; [by apply added_nil|done|by left].
Qed.

(** C31: DATA files the message where the verdict says.  A body over the
    effective size limit or not fully read is refused with nothing done; a
    rejected message is answered 550 and stored nowhere; any other is written,
    unflagged, once per recipient in its own mailbox, INBOX or Quarantine after
    the verdict, and acknowledged only when every copy is stored; a write
    failure is answered 451 with the copies of the recipients before it kept.
    Nothing else in the store changes. *)
Theorem data_files_message (cfg : Config W) (s : inboundSession) r (w : W) s' reply w' :
  store_quiet (inv := inv) (holds := holds) cfg → session_ok (W := W) s → inv w →
  (∀ folder, boxes_ok (box := box) folder (zip (rcpts s) (vhosts s))) →
  Inbound_Data cfg s r w = ((s', reply), w') →
  match readBounded r (effectiveMaxBytes cfg s) with
  | Err e => reply = Err e ∧ w' = w
  | Ok body =>
      let result := fst (Evaluate (cfg_Filter cfg) (WithCorrelationID Background (correlationID s))
                           (filter_input s body) w) in
      inv w' ∧ ∃ refs, added addr valid holds w w' refs body ∧
      Forall2 (is_copy (folder_of (r_Verdict result))) (take (length refs) (zip (rcpts s) (vhosts s))) refs ∧
      ((r_Verdict result = Reject ∧ refs = [] ∧ reply = Err (err_rejected (Reason result))) ∨
       (r_Verdict result ≠ Reject ∧ reply = Ok tt ∧ length refs = length (rcpts s)) ∨
       (r_Verdict result ≠ Reject ∧ reply = Err err_storage ∧ (length refs < length (rcpts s))%nat))
  end.
Proof. apply Inbound_Data_spec. Qed.
End InboundStore.

(** ** Thresholds and limits of several vhosts *)

Section Strictest.
Context {W : Type} `{HM : MsgAuth W}.

Lemma fle_neg_flt x y : x ≠ FNaN → y ≠ FNaN → fle x y = negb (flt y x).
Proof. destruct x as [|[]|a], y as [|[]|b]; simpl; try done. intros _ _. lia. Qed.

Lemma fle_refl x : x ≠ FNaN → fle x x = true.
Proof. destruct x as [|[]|a]; simpl; try done. intros _. lia. Qed.

Lemma flt_fle x y : flt x y = true → fle x y = true.
Proof. destruct x as [|[]|a], y as [|[]|b]; simpl; try done. lia. Qed.

Lemma minPositive_spec c x : c ≠ FNaN → x ≠ FNaN →
  let m := minPositive c x in (m = c ∨ m = x) ∧ stricter m c ∧ stricter m x.
Proof.
  intros Hc Hx. unfold minPositive, stricter, fgt. rewrite (fle_neg_flt x F0), (fle_neg_flt c F0) by done.
  destruct (flt F0 x) eqn:E1; cbn [negb orb].
  2:{ split_and!; [by left| |done]. intros E. by rewrite fle_refl. }
  destruct (flt F0 c) eqn:E2; cbn [negb orb].
  - destruct (flt x c) eqn:E3; (split_and!; [auto| |]; intros _; rewrite ?E1, ?E2, ?fle_refl by done; split; try done).
    + by apply flt_fle.
    + by rewrite fle_neg_flt, E3.
  - split_and!; [by right|done|]. intros _. by rewrite E1, fle_refl.
Qed.

Lemma fold_minPositive {T} (g : T → float64) (vs : list T) c : c ≠ FNaN → Forall (λ v, g v ≠ FNaN) vs →
  let m := foldl (λ acc v, minPositive acc (g v)) c vs in
  (m = c ∨ m ∈ g <$> vs) ∧ stricter m c ∧ Forall (λ v, stricter m (g v)) vs.
Proof.
  revert c. induction vs as [|v vs IH]; intros c Hc Hvs; simpl.
  { split_and!; [by left| |constructor]. intros ?. split; [done|by apply fle_refl]. }
  apply Forall_cons in Hvs as [Hv Hvs]. destruct (minPositive_spec c (g v) Hc Hv) as (Hm & Hs1 & Hs2).
  assert (Hn : minPositive c (g v) ≠ FNaN) by (by destruct Hm as [->| ->]).
  destruct (IH _ Hn Hvs) as (Hin & Hs & Hall).
  assert (Htr : ∀ t, stricter (minPositive c (g v)) t →
    stricter (foldl (λ acc v, minPositive acc (g v)) (minPositive c (g v)) vs) t).
  { intros t Ht Hp. destruct (Ht Hp) as [Hp1 Hle]. destruct (Hs Hp1) as [Hp2 Hle2]. split; [done|].
    by eapply fle_trans. }
  split_and!; [|by apply Htr|constructor; [by apply Htr|done]].
  destruct Hin as [->|Hin]; [|right; set_solver]. destruct Hm as [->| ->]; [by left|right; set_solver].
Qed.

Lemma effectiveThresholds_fold s :
  effectiveThresholds s =
  (foldl (λ acc v, minPositive acc (SpamRejectThreshold (vh_policy v))) F0 (vhosts s),
   foldl (λ acc v, minPositive acc (SpamQuarantineThreshold (vh_policy v))) F0 (vhosts s)).
Proof.
  unfold effectiveThresholds. generalize F0 at 1 3. generalize F0. induction (vhosts s) as [|v vs IH]; intros q r; simpl; [done|].
  apply IH.
Qed.

Lemma fold_limit (vs : list Vhost) l : 0 < l →
  let m := foldl (λ limit v, let m := MaxMessageBytes (vh_policy v) in if (0 <? m) && (m <? limit) then m else limit) l vs in
  0 < m ≤ l ∧ (m = l ∨ m ∈ (λ v, MaxMessageBytes (vh_policy v)) <$> vs) ∧
  Forall (λ v, 0 < MaxMessageBytes (vh_policy v) → m ≤ MaxMessageBytes (vh_policy v)) vs.
Proof.
  revert l. induction vs as [|v vs IH]; intros l Hl; simpl; [split_and!; [lia|lia|by left|constructor]|].
  cbv zeta in IH |- *. set (b := MaxMessageBytes (vh_policy v)). set (l' := if (0 <? b) && (b <? l) then b else l).
  assert (Hl' : 0 < l' ≤ l ∧ (l' = l ∨ l' = b) ∧ (0 < b → l' ≤ b)).
  { unfold l'. destruct (Z.ltb_spec 0 b), (Z.ltb_spec b l); simpl; lia. }
  destruct Hl' as (H1 & H2 & H3). destruct (IH l') as (H4 & H5 & H6); [lia|]. split_and!; [lia|lia| |].
  - destruct H5 as [->|H5]; [|right; set_solver]. destruct H2 as [->|H2]; [by left|right]. rewrite H2. unfold b. set_solver.
  - constructor; [|done]. fold b. lia.
Qed.

(** C32: the strictest vhost governs the transaction.  With recipients at
    several vhosts, whatever the signals of a message, the verdict under the
    effective thresholds is at least as severe as the one under each
    recipient vhost's own thresholds, each effective threshold being one some
    vhost configures, or none when none does; and the effective size limit is
    positive, at most the server's, at most every limit a vhost configures,
    and one of these. *)
Theorem strictest_vhost_governs (cfg : Config W) s :
  Forall (λ v, SpamRejectThreshold (vh_policy v) ≠ FNaN ∧ SpamQuarantineThreshold (vh_policy v) ≠ FNaN) (vhosts s) →
  let '(rt, qt) := effectiveThresholds s in
  let limit := effectiveMaxBytes cfg s in
  (∀ v record aligned score failedOpen, v ∈ vhosts s →
     severity (Filter.decide record aligned score failedOpen (SpamRejectThreshold (vh_policy v))
                 (SpamQuarantineThreshold (vh_policy v))).1
     ≤ severity (Filter.decide record aligned score failedOpen rt qt).1) ∧
  (rt = F0 ∨ rt ∈ (λ v, SpamRejectThreshold (vh_policy v)) <$> vhosts s) ∧
  (qt = F0 ∨ qt ∈ (λ v, SpamQuarantineThreshold (vh_policy v)) <$> vhosts s) ∧
  0 < limit ≤ sv_MaxMessageBytes (server_of cfg) ∧
  (limit = sv_MaxMessageBytes (server_of cfg) ∨ limit ∈ (λ v, MaxMessageBytes (vh_policy v)) <$> vhosts s) ∧
  ∀ v, v ∈ vhosts s → 0 < MaxMessageBytes (vh_policy v) → limit ≤ MaxMessageBytes (vh_policy v).
Proof.
  intros Hn. rewrite effectiveThresholds_fold. apply Forall_and in Hn as [Hr Hq].
  destruct (fold_minPositive _ _ F0 ltac:(done) Hr) as (Hr1 & _ & Hr2).
  destruct (fold_minPositive _ _ F0 ltac:(done) Hq) as (Hq1 & _ & Hq2). rewrite Forall_forall in Hr2, Hq2.
  destruct (fold_limit (vhosts s) (sv_MaxMessageBytes (server_of cfg))) as (Hl1 & Hl2 & Hl3).
  { simpl. destruct (Z.leb_spec (cfg_MaxMessageBytes cfg) 0); [by vm_compute|lia]. }
  rewrite Forall_forall in Hl3. split_and!; [|done|done|apply Hl1|apply Hl1|done|done].
  intros v record aligned score failed Hv. rewrite !decide_policy. apply policy_mono; auto.
Qed.
End Strictest.

(** ** Facts about the submission session *)

Section SubmissionFacts.
Context {W A : Type} {HE : Env W} {HM : MsgAuth W} {HD : Directory W} {HS : MessageStore W} {HQ : QueueBackend W Job}
  {HK : DKIMSigner W} {HJ : JSON} {HT : ErrorText} {inv : W → Prop} {addr : MessageRef → A}
  {norm : list string → list string} {box : string → string → Prop} {valid : MessageRef → Prop}
  {holds : W → A → string → list string → Prop} {q_inv : W → Prop} {q_view : W → QView Job}.
Context {SS : StoreSpec W A inv addr norm box valid holds} {QS : QueueSpec W Job q_inv q_view}.

(** A program that touches neither the store nor the queue. *)
Definition bystander {B} (m : M W B) : Prop := quiet inv holds m ∧ quiet q_inv q_view m.

(** Staging a message touches the store and the queue each through its own
    calls, and new IDs are not in the queue. *)
Record staging_world : Prop := {
  sg_now : bystander now;
  sg_uuid : bystander uuid_NewString;
  sg_write : ∀ ctx v m b, quiet q_inv q_view (s_Write ctx v m b);
  sg_enqueue : ∀ ctx j, quiet inv holds (q_Enqueue (J := Job) ctx j);
  sg_fresh : ∀ w id w', q_inv w → uuid_NewString w = (id, w') → q_view w !! id = None;
}.

Record submission_world (cfg : Config W) : Prop := {
  sw_staging : staging_world;
  sw_vhost : ∀ ctx d, bystander (d_Vhost ctx d);
  sw_sign : ∀ d sel k b, bystander (dkim_Sign d sel k b);
  sw_quota : ∀ Allow, cfg_Quota cfg = Some Allow → ∀ ctx k c r, bystander (Allow ctx k c r);
  sw_hooks : ∀ enqueue, cfg_Webhooks cfg = Some enqueue → ∀ ctx v t p, bystander (enqueue ctx v t p);
}.

Lemma bystander_spec {B} (m : M W B) w b w' : bystander m → m w = (b, w') →
  (inv w → inv w') ∧ (q_inv w → q_inv w') ∧ holds w' = holds w ∧ q_view w' = q_view w.
Proof. intros [H1 H2] E. destruct (H1 _ _ _ E), (H2 _ _ _ E). auto. Qed.

(** A job queued for a recipient whose signed copy is at [ref]. *)
Definition queued (s : submissionSession) (p : string * MessageRef) (j : Job) : Prop :=
  j = submission_job s (ID j) p.1 p.2 (NextAttemptAt j).

Definition in_outbox (s : submissionSession) (ref : MessageRef) : Prop :=
  rf_Vhost ref = authVhost s ∧ rf_Mailbox ref = OutboxMailbox.

Lemma jobs_staged s l refs jobs signed (w w' : W) j :
  Forall2 (queued s) (take (length jobs) (zip l refs)) jobs → Forall (in_outbox s) refs →
  added addr valid holds w w' refs signed → j ∈ jobs →
  holds w' (addr (mkRef (Queue.Vhost j) OutboxMailbox (BodyRef j))) signed [].
Proof.
  intros Hqd Hout Had Hj. apply Had. left. split_and!; [|done..].
  apply list_elem_of_lookup_1 in Hj as [i Hj].
  destruct (Forall2_lookup_r _ _ _ _ _ Hqd Hj) as ([rc ref] & Hin & ->). apply list_elem_of_lookup_2 in Hin.
  apply (subseteq_take (length jobs)), elem_of_zip_r in Hin. rewrite Forall_forall in Hout.
  destruct (Hout _ Hin) as [Ho1 Ho2]. apply list_elem_of_fmap. exists ref. split; [|done].
  simpl. rewrite <-Ho1, <-Ho2. by destruct ref.
Qed.

Section Staging.
Context (SG : staging_world).

Lemma submit_one_spec ctx s signed rcpt (w : W) r w' :
  inv w → q_inv w → box (authVhost s) OutboxMailbox → submit_one ctx s signed rcpt w = (r, w') →
  inv w' ∧ q_inv w' ∧
  ((r = Err err_staging ∧ (∀ a b f, holds w' a b f ↔ holds w a b f) ∧ q_view w' = q_view w) ∨
   ∃ ref, (∃ w1, s_Write ctx (authVhost s) OutboxMailbox (Ok signed) w = (Ok ref, w1) ∧ holds w' = holds w1) ∧
    ((r = Err err_queue ∧ q_view w' = q_view w) ∨
     ∃ j, r = Ok tt ∧ queued s (rcpt, ref) j ∧ q_view w !! ID j = None ∧ q_view w' = <[ID j := (j, false)]> (q_view w))).
Proof.
  intros Hi Hq Hb. unfold submit_one, mtry, wrap, bind.
  destruct (s_Write ctx (authVhost s) OutboxMailbox (Ok signed) w) as [[ref|e] w1] eqn:Ew; simpl.
  2:{ destruct (sp_Write_err _ _ _ _ _ _ _ Hi Hb Ew) as [Hi1 Hh]. destruct (sg_write SG _ _ _ _ _ _ _ Ew) as [Hq1 Hv1].
      intros [= <- <-]. split_and!; [done|auto|]. left. by split_and!. }
  destruct (sp_Write_ok _ _ _ _ _ _ _ Hi Hb Ew) as (Hi1 & _).
  destruct (sg_write SG _ _ _ _ _ _ _ Ew) as [Hq1 Hv1]. specialize (Hq1 Hq).
  destruct (uuid_NewString w1) as [id w2] eqn:Eu. pose proof (sg_fresh SG _ _ _ Hq1 Eu) as Hfr.
  destruct (bystander_spec _ _ _ _ (sg_uuid SG) Eu) as (Hi2 & Hq2 & Hh2 & Hv2).
  destruct (now w2) as [t w3] eqn:En. destruct (bystander_spec _ _ _ _ (sg_now SG) En) as (Hi3 & Hq3 & Hh3 & Hv3).
  set (j := submission_job s id rcpt ref t). destruct (q_Enqueue ctx j w3) as [rq w4] eqn:Eq.
  destruct (sg_enqueue SG _ _ _ _ _ Eq) as [Hi4 Hh4]. pose proof (Enqueue_inv _ _ _ _ _ (Hq3 (Hq2 Hq1)) Eq) as Hq4.
  intros [= <- <-]. split_and!; [auto|done|]. right. exists ref. split; [exists w1; split; [done|congruence]|].
  assert (Hn : q_view w3 !! ID j = None) by (rewrite Hv3, Hv2; exact Hfr).
  assert (Hv : q_view w3 = q_view w) by congruence.
  destruct rq as [[]|e].
  - right. exists j. apply Enqueue_ok in Eq as [_ Hv4]; [|by auto|done]. rewrite Hv in Hv4, Hn. by split_and!.
  - left. split; [done|]. rewrite (Enqueue_err _ _ _ _ _ (Hq3 (Hq2 Hq1)) Eq). done.
Qed.

Lemma submit_all_spec ctx s signed l (w : W) r w' :
  inv w → q_inv w → box (authVhost s) OutboxMailbox → submit_all ctx s signed l w = (r, w') →
  inv w' ∧ q_inv w' ∧ ∃ refs jobs, added addr valid holds w w' refs signed ∧ Forall (in_outbox s) refs ∧
    new_ids (q_view w) jobs ∧ q_view w' = add_jobs (q_view w) jobs ∧
    Forall2 (queued s) (take (length jobs) (zip l refs)) jobs ∧
    ((r = Ok tt ∧ length jobs = length l ∧ length refs = length l) ∨
     ((r = Err err_staging ∨ r = Err err_queue) ∧ (length jobs < length l)%nat)).
Proof.
  intros Hi Hq Hb. revert w Hi Hq. induction l as [|rcpt l IH]; intros w Hi Hq; simpl.
  { unfold ret. intros [= <- <-]. split_and!; [done..|]. exists [], [].
    split_and!; try done; [by apply added_nil|apply new_ids_nil|by left]. }
  unfold mtry. destruct (submit_one ctx s signed rcpt w) as [r1 w1] eqn:E1.
  apply submit_one_spec in E1 as (Hi1 & Hq1 & H1); [|done..].
  destruct H1 as [(-> & Hh & Hv)|(ref & (wm & Ew & Hhm) & H1)].
  { intros [= <- <-]. split_and!; [done..|]. exists [], []. split_and!; try done; [|apply new_ids_nil|right; simpl; split; [auto|lia]].
    split_and!; [constructor|done|set_solver|]. intros a b f. rewrite Hh. simpl. set_solver. }
  destruct (sp_Write_ok _ _ _ _ _ _ _ Hi Hb Ew) as (_ & _ & Hrv & Hrm & _).
  destruct H1 as [(-> & Hv)|(j & -> & Hj & Hn & Hv)].
  { intros [= <- <-]. split_and!; [done..|]. exists [ref], [].
    split_and!; try done; [|by constructor|apply new_ids_nil|right; simpl; split; [auto|lia]].
    eapply added_write; [done..|]. by apply added_nil. }
  intros E2. destruct (IH _ Hi1 Hq1 E2) as (Hi2 & Hq2 & refs & jobs & Ha & Hout & Hnew & Hv2 & Hqd & Hr).
  split_and!; [done..|]. exists (ref :: refs), (j :: jobs). rewrite Hv in Hnew, Hv2. split_and!.
  - eapply added_write; [done..|]. by apply (added_quiet_l _ w1).
  - by constructor.
  - by apply new_ids_cons.
  - done.
  - simpl. by constructor.
  - simpl. destruct Hr as [(-> & ? & ?)|[Hr ?]]; [left|right]; split_and!; try done; lia.
Qed.

End Staging.

Section One.
Context (cfg : Config W) (SW : submission_world cfg).

Lemma checkQuota_spec ctx v (w : W) r w' : checkQuota cfg ctx v w = (r, w') →
  (inv w → inv w') ∧ (q_inv w → q_inv w') ∧ holds w' = holds w ∧ q_view w' = q_view w ∧
  (r = Ok tt ∨ r = Err err_quota).
Proof.
  unfold checkQuota, bind, ret. destruct (cfg_Quota cfg) as [Allow|] eqn:Eq; [|intros [= <- <-]; auto 10].
  destruct (_ <=? 0); [intros [= <- <-]; auto 10|].
  destruct (Allow _ _ _ _ w) as [ra w1] eqn:Ea. destruct (bystander_spec _ _ _ _ (sw_quota _ SW _ Eq _ _ _ _) Ea) as (?&?&?&?).
  intros [= <- <-]. split_and!; [done..|]. destruct ra as [[]|]; auto.
Qed.

Lemma fireQueued_spec ctx s : bystander (fireQueued cfg ctx s).
Proof.
  unfold fireQueued, NewEventPayload. destruct (cfg_Webhooks cfg) as [enqueue|] eqn:E; [|split; apply quiet_ret].
  split; quiet_calls; first [apply (sg_uuid (sw_staging _ SW))|apply (sg_now (sw_staging _ SW))|apply (sw_hooks _ SW _ E)].
Qed.
End One.
End SubmissionFacts.

(** ** The submission claims *)

Section SubmissionClaims.
Context {W A : Type} {HE : Env W} {HM : MsgAuth W} {HD : Directory W} {HS : MessageStore W} {HQ : QueueBackend W Job}
  {HK : DKIMSigner W} {HJ : JSON} {HT : ErrorText} {inv : W → Prop} {addr : MessageRef → A}
  {norm : list string → list string} {box : string → string → Prop} {valid : MessageRef → Prop}
  {holds : W → A → string → list string → Prop} {q_inv : W → Prop} {q_view : W → QView Job}.
Context {SS : StoreSpec W A inv addr norm box valid holds} {QS : QueueSpec W Job q_inv q_view}.
Context (cfg : Config W).

(** The identity of a session: none, or one the directory authenticated. *)
Definition identified (s : submissionSession) : Prop :=
  (authLocal s = "" ∧ authVhost s = "") ∨
  ∃ username password (w : W), ParseAddress username = Some (authLocal s, authVhost s) ∧
    fst (d_Authenticate Background (authVhost s) (authLocal s) password w) = true.

Lemma Submission_Data_session s r w s' e w' : Submission_Data cfg s r w = ((s', e), w') → s' = s.
Proof.
  unfold Submission_Data, bind. destruct (submit cfg s r w). by intros [= <- _ _].
Qed.

Lemma submission_step_identified s c w s' r w' :
  identified s → submission_step cfg s c w = ((s', r), w') → identified s'.
Proof.
  intros Hid. destruct c as [mech u p|f|to|b| |]; simpl.
  - unfold Auth. destruct (negb (String.eqb mech Plain)); [by intros [= <- _ _]|].
    unfold authenticate. destruct (ParseAddress u) as [[local vhost]|] eqn:Ep; [|by intros [= <- _ _]].
    unfold bind, ret. destruct (d_Authenticate _ _ _ _ w) as [[] w1] eqn:Ea; intros [= <- _ _]; [|done].
    right. exists u, p, w. simpl. split; [done|]. by rewrite Ea.
  - unfold Submission_Mail. destruct (String.eqb (authLocal s) ""); [by intros [= <- _ _]|].
    unfold bind. destruct (NewCorrelationID w). intros [= <- _ _]. apply Hid.
  - intros [= <- _ _]. apply Hid.
  - intros ->%Submission_Data_session. done.
  - intros [= <- _ _]. apply Hid.
  - by intros [= <- _ _].
Qed.

Lemma submission_run_identified s l w : identified s → identified (fst (submission_run cfg s l w)).
Proof.
  revert s w. induction l as [|c l IH]; intros s w Hid; simpl; [done|].
  unfold bind. destruct (submission_step cfg s c w) as [[s1 r] w1] eqn:E. apply IH. by eapply submission_step_identified.
Qed.

(** C33: no relaying without authentication.  However the calls on a submission
    session are ordered, it acts for no one or for an address whose password
    the directory accepted for exactly that vhost and local part; and while it
    acts for no one, MAIL is refused with 530 and DATA with an error, without
    a look at the store or the queue, whatever recipients were named. *)
Theorem no_relay_without_auth calls r (w w1 : W) :
  (∀ ctx w, fst (d_Vhost ctx "" w) = None) →
  let s := fst (submission_run cfg NewSubmissionSession calls w) in
  identified s ∧
  (authLocal s = "" →
   (∀ f, Submission_Mail s f w1 = ((s, Err err_auth_required), w1)) ∧
   ∃ e, fst (Submission_Data cfg s r w1) = (s, Err e) ∧
     (snd (Submission_Data cfg s r w1) = w1 ∨
      snd (Submission_Data cfg s r w1) = snd (d_Vhost (WithCorrelationID Background (sub_correlationID s)) "" w1))).
Proof.
  intros Hnone s. assert (Hid : identified s) by (apply submission_run_identified; by left).
  split; [done|]. intros Hl.
  assert (Hv : authVhost s = "").
  { destruct Hid as [[_ ?]|(u & p & w0 & Hp & _)]; [done|]. exfalso. revert Hp. unfold ParseAddress.
    destruct (Cut u "@") as [[local dom] found]. rewrite Hl.
    destruct (negb found || String.eqb local "" || String.eqb dom "") eqn:E; [done|]. intros [= -> _]. by rewrite orb_true_r in E. }
  split; [intros f; unfold Submission_Mail; by rewrite Hl|].
  unfold Submission_Data, submit, bind, ret. destruct r as [body|e]; [|exists e; auto].
  rewrite Hv. specialize (Hnone (WithCorrelationID Background (sub_correlationID s)) w1).
  destruct (d_Vhost _ "" w1) as [[v|] w2]; [done|]. exists err_no_key. auto.
Qed.

(** The message body signed with the sending vhost's own key. *)
Definition signed_for (s : submissionSession) (r : res string) (signed : string) : Prop :=
  ∃ body v key (ctx : Ctx) (w1 w2 : W), r = Ok body ∧ fst (d_Vhost ctx (authVhost s) w1) = Some v ∧
    vh_DKIMKey v = Some key ∧ fst (dkim_Sign (vh_Domain v) (vh_DKIMSelector v) key body w2) = Ok signed.

(** Why DATA may be refused with nothing stored or queued. *)
Inductive refused (s : submissionSession) (r : res string) : goerr → Prop :=
| refused_read e : r = Err e → refused s r e
| refused_vhost ctx (w : W) : fst (d_Vhost ctx (authVhost s) w) = None → refused s r err_no_key
| refused_key ctx (w : W) v : fst (d_Vhost ctx (authVhost s) w) = Some v → vh_DKIMKey v = None → refused s r err_no_key
| refused_quota ctx (w w1 : W) v Allow : fst (d_Vhost ctx (authVhost s) w) = Some v → cfg_Quota cfg = Some Allow →
    0 < DailyQuota (vh_policy v) →
    fst (Allow ctx ("quota:" +:+ vh_ID v) (of_int (DailyQuota (vh_policy v)))
      (fdiv_int (of_int (DailyQuota (vh_policy v))) secondsPerDay) w1) = Ok false → refused s r err_quota
| refused_signer ctx (w w1 : W) v key body e : fst (d_Vhost ctx (authVhost s) w) = Some v → vh_DKIMKey v = Some key →
    r = Ok body → fst (dkim_Sign (vh_Domain v) (vh_DKIMSelector v) key body w1) = Err e → refused s r err_sign.

Lemma checkQuota_refuses ctx v (w : W) e w' : checkQuota cfg ctx v w = (Err e, w') →
  e = err_quota ∧ ∃ Allow, cfg_Quota cfg = Some Allow ∧ 0 < DailyQuota (vh_policy v) ∧
    fst (Allow ctx ("quota:" +:+ vh_ID v) (of_int (DailyQuota (vh_policy v)))
      (fdiv_int (of_int (DailyQuota (vh_policy v))) secondsPerDay) w) = Ok false.
Proof.
  unfold checkQuota. destruct (cfg_Quota cfg) as [Allow|]; [|done]. cbv zeta.
  destruct (Z.leb_spec (DailyQuota (vh_policy v)) 0); [done|]. unfold bind, ret.
  destruct (Allow _ _ _ _ w) as [[[]|?] w1] eqn:E; [done| |done]. intros [= <- _]. split; [done|].
  exists Allow. by rewrite E.
Qed.

Lemma Submission_Data_spec s r (w : W) s' reply w' :
  submission_world (inv := inv) (holds := holds) (q_inv := q_inv) (q_view := q_view) cfg →
  inv w → q_inv w → box (authVhost s) OutboxMailbox →
  Submission_Data cfg s r w = ((s', reply), w') →
  s' = s ∧ inv w' ∧ q_inv w' ∧ ∃ signed refs jobs,
    added addr valid holds w w' refs signed ∧ Forall (in_outbox s) refs ∧
    new_ids (q_view w) jobs ∧ q_view w' = add_jobs (q_view w) jobs ∧
    Forall2 (queued s) (take (length jobs) (zip (sub_rcpts s) refs)) jobs ∧
    (∀ j, j ∈ jobs → holds w' (addr (mkRef (Queue.Vhost j) OutboxMailbox (BodyRef j))) signed []) ∧
    ((signed_for s r signed ∧ length jobs = length (sub_rcpts s) ∧ length refs = length (sub_rcpts s) ∧ reply = Ok tt) ∨
     (signed_for s r signed ∧ (length jobs < length (sub_rcpts s))%nat ∧ (reply = Err err_staging ∨ reply = Err err_queue)) ∨
     (refs = [] ∧ jobs = [] ∧ ∃ e, reply = Err e ∧ refused s r e)).
Proof.
  intros SW Hi Hq Hb E. split; [by eapply Submission_Data_session|]. revert E.
  match goal with |- _ → ?G =>
    assert (Hnone : ∀ e w1, (inv w → inv w1) → (q_inv w → q_inv w1) → holds w1 = holds w → q_view w1 = q_view w →
      refused s r e → reply = Err e → w' = w1 → G)
  end.
  { intros e w1 H1 H2 H3 H4 He -> ->. split_and!; [auto..|]. exists "", [], [].
    split_and!; [by apply added_nil|done|apply new_ids_nil|done|constructor| |do 2 right; eauto].
    by intros j Hj%elem_of_nil. }
  intros E. assert (Es : submit cfg s r w = (reply, w')).
  { revert E. unfold Submission_Data, bind. destruct (submit cfg s r w). by intros [= _ <- <-]. }
  revert Es. clear E. unfold submit. destruct r as [body|e]; [|unfold ret; intros [= <- <-]; apply (Hnone e w); [auto|auto|congruence|congruence|by constructor|done|done]].
  set (ctx := WithCorrelationID _ _). unfold bind at 1.
  destruct (d_Vhost ctx (authVhost s) w) as [v w1] eqn:Ev.
  destruct (bystander_spec _ _ _ _ (sw_vhost _ SW _ _) Ev) as (Hi1 & Hq1 & Hh1 & Hv1).
  destruct v as [v|]; [|unfold ret; intros [= <- <-]; apply (Hnone err_no_key w1); [auto|auto|congruence|congruence|by apply (refused_vhost _ _ ctx w); rewrite Ev|done|done]].
  destruct (vh_DKIMKey v) as [key|] eqn:Ek; [|unfold ret; intros [= <- <-]; apply (Hnone err_no_key w1); [auto|auto|congruence|congruence|by apply (refused_key _ _ ctx w v); [rewrite Ev|]|done|done]].
  unfold mtry at 1. destruct (checkQuota cfg ctx v w1) as [rq w2] eqn:Eq.
  destruct (checkQuota_spec cfg SW _ _ _ _ _ Eq) as (Hi2 & Hq2 & Hh2 & Hv2 & Hrq).
  destruct Hrq as [->| ->].
  2:{ apply checkQuota_refuses in Eq as (_ & Allow & HA & H0 & Hf). unfold ret. intros [= <- <-].
      apply (Hnone err_quota w2); [auto|auto|congruence|congruence| |done|done].
      apply (refused_quota _ _ ctx w w1 v Allow); [by rewrite Ev|done..]. }
  unfold mtry at 1, wrap at 1. destruct (dkim_Sign _ _ key body w2) as [sg w3] eqn:Es.
  destruct (bystander_spec _ _ _ _ (sw_sign _ SW _ _ _ _) Es) as (Hi3 & Hq3 & Hh3 & Hv3).
  destruct sg as [signed|e]; simpl; [|unfold ret; intros [= <- <-]; apply (Hnone err_sign w3); [auto|auto|congruence|congruence|by apply (refused_signer _ _ ctx w w2 v key body e); rewrite ?Ev, ?Es|done|done]].
  assert (Hsf : signed_for s (Ok body) signed).
  { exists body, v, key, ctx, w, w2. rewrite Ev, Es. by split_and!. }
  unfold mtry at 1. destruct (submit_all ctx s signed (sub_rcpts s) w3) as [rs w4] eqn:Ea.
  apply (submit_all_spec (sw_staging _ SW)) in Ea as (Hi4 & Hq4 & refs & jobs & Had & Hout & Hnew & Hv4 & Hqd & Hr); [|auto..].
  assert (Hend : ∀ w5, (inv w4 → inv w5) → (q_inv w4 → q_inv w5) → holds w5 = holds w4 → q_view w5 = q_view w4 → w' = w5 →
    inv w' ∧ q_inv w' ∧ added addr valid holds w w' refs signed ∧ new_ids (q_view w) jobs ∧
    q_view w' = add_jobs (q_view w) jobs ∧
    ∀ j, j ∈ jobs → holds w' (addr (mkRef (Queue.Vhost j) OutboxMailbox (BodyRef j))) signed []).
  { intros w5 H1 H2 H3 H4 ->. assert (Hw : holds w3 = holds w) by congruence. assert (Hv : q_view w3 = q_view w) by congruence.
    rewrite Hv in Hnew, Hv4. apply (added_quiet_l _ _ _ _ _ Hw) in Had. apply (added_quiet_r _ _ _ _ _ H3) in Had.
    split_and!; [auto..|congruence|]. intros j Hj. by eapply jobs_staged. }
  destruct Hr as [(-> & Hl1 & Hl2)|[Hr Hl]].
  - unfold bind. destruct (fireQueued cfg ctx s w4) as [[] w5] eqn:Ef.
    destruct (bystander_spec _ _ _ _ (fireQueued_spec cfg SW ctx s) Ef) as (Hi5 & Hq5 & Hh5 & Hv5).
    unfold ret. intros [= <- <-]. destruct (Hend w5) as (? & ? & ? & ? & ? & ?); [done..|].
    split_and!; [done..|]. exists signed, refs, jobs. split_and!; [done..|]. left. by split_and!.
  - intros E2. assert (Hw' : w' = w4 ∧ reply = rs) by (destruct Hr as [->| ->]; by injection E2).
    destruct Hw' as [-> ->]. destruct (Hend w4) as (? & ? & ? & ? & ? & ?); [done..|].
    split_and!; [done..|]. exists signed, refs, jobs. split_and!; [done..|]. right. left. by split_and!.
Qed.

(** C34: an accepted submission is queued whole, signed and staged.  When DATA
    succeeds, the queue has gained exactly one unclaimed job under a fresh ID
    per recipient, in order, from the session's sender and vhost, and the body
    each job refers to is in the vhost's Outbox: the message signed with the
    vhost's DKIM key.  When the vhost has no key, its daily quota is used up,
    the signer fails or the message cannot be read, that is the answer and
    nothing is stored or queued; when the store or the queue fails part way, the
    jobs of the recipients before that stay.  Nothing else in
    the store or the queue changes. *)
Theorem submission_queues_all s r (w : W) s' reply w' :
  submission_world (inv := inv) (holds := holds) (q_inv := q_inv) (q_view := q_view) cfg →
  inv w → q_inv w → box (authVhost s) OutboxMailbox →
  Submission_Data cfg s r w = ((s', reply), w') →
  s' = s ∧ inv w' ∧ q_inv w' ∧ ∃ signed refs jobs,
    added addr valid holds w w' refs signed ∧ Forall (in_outbox s) refs ∧
    new_ids (q_view w) jobs ∧ q_view w' = add_jobs (q_view w) jobs ∧
    Forall2 (queued s) (take (length jobs) (zip (sub_rcpts s) refs)) jobs ∧
    (∀ j, j ∈ jobs → holds w' (addr (mkRef (Queue.Vhost j) OutboxMailbox (BodyRef j))) signed []) ∧
    ((signed_for s r signed ∧ length jobs = length (sub_rcpts s) ∧ length refs = length (sub_rcpts s) ∧ reply = Ok tt) ∨
     (signed_for s r signed ∧ (length jobs < length (sub_rcpts s))%nat ∧ (reply = Err err_staging ∨ reply = Err err_queue)) ∨
     (refs = [] ∧ jobs = [] ∧ ∃ e, reply = Err e ∧ refused s r e)).
Proof. apply Submission_Data_spec. Qed.
End SubmissionClaims.

(** ** A run

    Two hosted vhosts and a deactivated one, Postgres rows for the mail, the
    in-memory queue for the jobs; rspamd scores everything 7. *)
Module SmtpExample.
Import Storage.Postgres.
Record SW := mkSW { sw_mail : list (Row messageRow); sw_jobs : MemoryBackend Job }.
#[export] Program Instance has_mail : Has SW (list (Row messageRow)) := { getS := sw_mail; setS l w := mkSW l (sw_jobs w) }.
Solve Obligations with done.
#[export] Program Instance has_jobs : Has SW (MemoryBackend Job) := { getS := sw_jobs; setS q w := mkSW (sw_mail w) q }.
Solve Obligations with done.
#[export] Instance message_conflicts : ListTable.Conflicts messageRow := λ _ _, false.
#[export] Instance env : Env SW := { env_metrics := unread;
  now := ret 100;
  uuid_NewString w := (fresh ({[""]} ∪ dom (jobs (sw_jobs w))), w);
}.
#[export] Instance text : ErrorText := λ _, "error".
#[export] Instance json : JSON := { json_data _ := Ok "{}"; json_envelope _ := Ok "{}" }.
#[export] Instance auth : MsgAuth SW := {
  Resolver := unit;
  spf_CheckHostWithSender _ _ _ _ _ := ret (SPFNone, None);
  dkim_Verify _ _ _ := ret (Ok []);
  dmarc_Lookup _ _ _ := ret (Err (Sentinel ErrNoPolicy));
  EffectiveTLDPlusOne d := Ok d;
  mail_From _ := None;
}.
#[export] Instance scanner : RspamdChecker SW := λ _ _ _ _,
  ret (Ok (rspamd.mkVerdict "no action" (of_int 7) (of_int 15) ∅)).
Definition vhost (id dom : string) (active : bool) (key : option PrivateKey) (quarantine : Z) : Vhost :=
  mkVhost id "acc" dom active "envelope" key (mkPolicy 0 10 (of_int 15) (of_int quarantine) 0).
Definition va : Vhost := vhost "v1" "a.test" true (Some "key") 10.
Definition vb : Vhost := vhost "v2" "b.test" true None 6.
#[export] Instance directory : Directory SW := {
  d_Vhost _ d := ret (if String.eqb d "a.test" then Some va else if String.eqb d "b.test" then Some vb
                      else if String.eqb d "off.test" then Some (vhost "v3" "off.test" false None 0) else None);
  d_VhostActive _ d := ret (String.eqb d "a.test" || String.eqb d "b.test");
  d_Authenticate _ v l p := ret (String.eqb v "a.test" && String.eqb l "alice" && String.eqb p "pw");
}.
#[export] Instance store : MessageStore SW := Backend.
#[export] Instance store_spec : @StoreSpec SW MessageRef store pinv id (λ fl, decodeFlags (encodeFlags fl))
  (λ _ _, True) (λ _, True) pholds.
Proof. apply postgres_store_spec. Qed.
Definition order (m : gmap string Job) : list (string * Job) := map_to_list m.
#[export] Instance queue : QueueBackend SW Job := MemoryQueue order.
#[export] Instance queue_spec : QueueSpec SW Job (memq_inv (J := Job)) (memq_view (J := Job)).
Proof. apply memq_spec; [done|by intros w]. Qed.
#[export] Instance signer : DKIMSigner SW := λ d _ _ b, ret (Ok ("DKIM-Signature: d=" +:+ d +:+ ";" +:+ b)).
Definition hooks : Enqueuer SW := λ _ _ _ _, ret (Ok tt).
Definition limiter : RateLimiter SW := λ _ _ _ _, ret (Ok true).
Definition cfg : Config SW := mkConfig SW _ ModeInbound "" ":25" "mx.a.test" false false 0 (mkPipeline None)
  (Some limiter) F1 F1 F1 F1 (Some limiter) (Some hooks).
Definition empty : SW := mkSW [] NewMemoryBackend.

Lemma same_quiet {B X} (inv : SW → Prop) (view : SW → X) (m : M SW B) : (∀ w, snd (m w) = w) → quiet inv view m.
Proof. intros H w b w' E. specialize (H w). rewrite E in H. simpl in H. by subst. Qed.

Lemma cfg_quiet : store_quiet (inv := pinv) (holds := pholds) cfg.
Proof.
  split; intros; try match goal with H : _ cfg = Some _ |- _ => injection H as <- end; by apply same_quiet.
Qed.

Lemma smtp_staging : staging_world (inv := pinv) (holds := pholds) (q_inv := memq_inv (J := Job)) (q_view := memq_view (J := Job)).
Proof.
  split; intros; try (by split; apply same_quiet).
  - intros w a w'. simpl. unfold Write. destruct b; [|by intros [= _ <-]]. unfold mtry, wrap. simpl. unfold lift.
    destruct (ListTable.Create _ _ _) as [[]]; by intros [= _ <-].
  - intros w a w'. simpl. unfold lift. destruct (mem_Enqueue _ _ _). by intros [= _ <-].
  - match goal with H : uuid_NewString _ = _ |- _ => injection H as <- <- end.
    unfold memq_view. rewrite mem_view_lookup.
    assert (Hd : fresh ({[""]} ∪ dom (jobs (sw_jobs w))) ∉ dom (jobs (sw_jobs w))).
    { pose proof (is_fresh ({[""]} ∪ dom (jobs (sw_jobs w)))). set_solver. }
    apply not_elem_of_dom in Hd. simpl. by rewrite Hd.
Qed.

Lemma cfg_world : submission_world (inv := pinv) (holds := pholds) (q_inv := memq_inv (J := Job))
  (q_view := memq_view (J := Job)) cfg.
Proof.
  split; [apply smtp_staging|..]; intros; try match goal with H : _ cfg = Some _ |- _ => injection H as <- end;
    by split; apply same_quiet.
Qed.

Lemma empty_inv : pinv empty ∧ memq_inv (J := Job) empty.
Proof. split; [constructor|apply mem_wf_new]. Qed.

(** Two recipients at different vhosts, and one at the deactivated vhost. *)
Definition transaction : list inbound_call :=
  [IMail "joe@x.test"; IRcpt "bob@b.test"; IRcpt "eve@off.test"; IRcpt "alice@a.test"].
#[export] Instance nettext : NetText := { SplitHostPort _ := None; ParseIP _ := None }.
Definition sess : inboundSession := fst (inbound_run cfg (NewInboundSession (TCPAddr (Some "192.0.2.1")) "helo") transaction empty).
Definition sub_sess : submissionSession :=
  fst (submission_run cfg NewSubmissionSession
    [SAuth "PLAIN" "alice@a.test" "pw"; SMail "alice@a.test"; SRcpt "x@c.test"; SRcpt "y@d.test"] empty).
End SmtpExample.

Import SmtpExample.

Lemma inbound_recipients_hosted_witness :
  rcpts sess = ["bob@b.test"; "alice@a.test"] ∧
  snd (fst (Inbound_Rcpt sess "eve@off.test" empty)) = Err err_no_domain.
Proof.
  split; [by vm_compute|].
  pose proof (proj2 (inbound_recipients_hosted cfg (TCPAddr (Some "192.0.2.1")) "helo" transaction empty empty
    "eve@off.test" sess (Err err_no_domain) empty)) as Hr.
  apply Hr. by vm_compute.
Defined.

(** The score 7 is over b.test's quarantine threshold 6, not a.test's 10. *)
Lemma data_files_message_witness :
  let w' := snd (Inbound_Data cfg sess (Ok "hi") empty) in
  Postgres.pinv w' ∧ (λ r, (Postgres.ms_Vhost (row_data r), Postgres.ms_Mailbox (row_data r))) <$> sw_mail w' =
    [("a.test", "alice/Quarantine"); ("b.test", "bob/Quarantine")].
Proof.
  intros w'. split; [|by vm_compute].
  pose proof (data_files_message (SS := store_spec) cfg sess (Ok "hi") empty sess (Ok tt) w' cfg_quiet) as Hd.
  apply Hd.
  - repeat constructor; eexists _, _; (split_and!; [by vm_compute|done|]); exists empty; by vm_compute.
  - apply empty_inv.
  - intros folder. by apply Forall_true.
  - unfold w'. by vm_compute.
Defined.

Lemma strictest_vhost_governs_witness :
  effectiveThresholds sess = (of_int 15, of_int 6) ∧
  ∀ v record aligned score failedOpen, v ∈ vhosts sess →
    severity (Filter.decide record aligned score failedOpen (SpamRejectThreshold (vh_policy v))
                 (SpamQuarantineThreshold (vh_policy v))).1
    ≤ severity (Filter.decide record aligned score failedOpen (of_int 15) (of_int 6)).1.
Proof.
  assert (Ht : effectiveThresholds sess = (of_int 15, of_int 6)) by by vm_compute.
  split; [done|]. assert (Hn : Forall (λ v, SpamRejectThreshold (vh_policy v) ≠ FNaN ∧
    SpamQuarantineThreshold (vh_policy v) ≠ FNaN) (vhosts sess)).
  { replace (vhosts sess) with [vb; va] by by vm_compute. do 2 (apply Forall_cons; split; [vm_compute; split; discriminate|]). constructor. }
  pose proof (strictest_vhost_governs cfg sess Hn) as Hs. rewrite Ht in Hs. apply Hs.
Defined.

Lemma no_relay_without_auth_witness :
  let s := fst (submission_run cfg NewSubmissionSession [SAuth "PLAIN" "alice@a.test" "guess"; SRcpt "x@c.test"] empty) in
  authLocal s = "" ∧ Submission_Mail s "alice@a.test" empty = ((s, Err err_auth_required), empty).
Proof.
  intros s. split; [by vm_compute|].
  refine (proj1 (proj2 (no_relay_without_auth cfg [SAuth "PLAIN" "alice@a.test" "guess"; SRcpt "x@c.test"]
    (Ok "hi") empty empty _) _) "alice@a.test"); [done|by vm_compute].
Defined.

Lemma submission_queues_all_witness :
  let w' := snd (Submission_Data cfg sub_sess (Ok "hi") empty) in
  memq_inv (J := Job) w' ∧
  (λ r, (Postgres.ms_Mailbox (row_data r), Postgres.ms_Body (row_data r))) <$> sw_mail w' =
    [("Outbox", "DKIM-Signature: d=a.test;hi"); ("Outbox", "DKIM-Signature: d=a.test;hi")] ∧
  (λ kv, To kv.2) <$> map_to_list (jobs (sw_jobs w')) ≡ₚ ["x@c.test"; "y@d.test"].
Proof.
  intros w'. split; [|split; [by vm_compute|]].
  - eapply (submission_queues_all (SS := store_spec) (QS := queue_spec) cfg sub_sess (Ok "hi") empty sub_sess (Ok tt) w' cfg_world).
    + apply empty_inv.
    + apply empty_inv.
    + done.
    + by vm_compute.
  - assert (E : (λ kv, To kv.2) <$> map_to_list (jobs (sw_jobs w')) ∈ [["x@c.test"; "y@d.test"]; ["y@d.test"; "x@c.test"]])
      by (vm_compute; set_solver).
    apply elem_of_cons in E as [->|[->|[]%elem_of_nil]%elem_of_cons]; [done|]. constructor.
Defined.
