(* ===== verification/Url.v ===== *)
(** * Query strings

    Go's net/url as the internal API uses it: [url.QueryEscape] on the client,
    [URL.Query().Get] on the server, and that what is escaped is read back. *)

From S2P Require Import Prelude.

(** ** Escaping *)

Definition unreserved (c : ascii) : bool :=
  let n := Ascii.nat_of_ascii c in
  ((48 <=? n) && (n <=? 57) || (65 <=? n) && (n <=? 90) || (97 <=? n) && (n <=? 122))%nat ||
  bool_decide (c = "-"%char) || bool_decide (c = "_"%char) || bool_decide (c = "."%char) || bool_decide (c = "~"%char).

Definition upper_hex (n : nat) : ascii := Ascii.ascii_of_nat (if (n <? 10)%nat then 48 + n else 55 + n)%nat.

Definition escape_char (c : ascii) (s : string) : string :=
  if unreserved c then String c s
  else if bool_decide (c = " "%char) then String "+" s
  else let n := Ascii.nat_of_ascii c in
       String "%" (String (upper_hex (n / 16)) (String (upper_hex (n mod 16)) s)).

Fixpoint QueryEscape (s : string) : string :=
  match s with
  | EmptyString => EmptyString
  | String c s => escape_char c (QueryEscape s)
  end.

Definition unhex (c : ascii) : option nat :=
  let n := Ascii.nat_of_ascii c in
  if ((48 <=? n) && (n <=? 57))%nat then Some (n - 48)%nat
  else if ((97 <=? n) && (n <=? 102))%nat then Some (n - 87)%nat
  else if ((65 <=? n) && (n <=? 70))%nat then Some (n - 55)%nat
  else None.

(** [url.QueryUnescape]; [None] is its error. *)
Fixpoint QueryUnescape (s : string) : option string :=
  match s with
  | EmptyString => Some EmptyString
  | String c s =>
      if bool_decide (c = "%"%char) then
        match s with
        | String a (String b s) =>
            match unhex a, unhex b with
            | Some x, Some y => String (Ascii.ascii_of_nat (16 * x + y)) <$> QueryUnescape s
            | _, _ => None
            end
        | _ => None
        end
      else String (if bool_decide (c = "+"%char) then " "%char else c) <$> QueryUnescape s
  end.

(** ** Parsing *)

(** One [key=value] of [url.ParseQuery]; a malformed or empty one is skipped. *)
Definition parse_pair (piece : string) : list (string * string) :=
  if str_in ";" piece || String.eqb piece "" then []
  else
    let '(k, v, _) := Cut piece "=" in
    match QueryUnescape k, QueryUnescape v with
    | Some k, Some v => [(k, v)]
    | _, _ => []
    end.

Definition ParseQuery (query : string) : list (string * string) :=
  concat (parse_pair <$> SplitByte query "&"%char).

(** [Values.Get]: the first value of the key, or the empty string. *)
Definition Get (values : list (string * string)) (key : string) : string :=
  match List.find (λ kv, String.eqb kv.1 key) values with
  | Some kv => kv.2
  | None => ""
  end.

(** A query built from plain keys and escaped values. *)
Definition query_of (kvs : list (string * string)) : string :=
  Join ((λ kv, kv.1 +:+ "=" +:+ QueryEscape kv.2) <$> kvs) "&".

(** ** The round trip *)

Lemma unescape_escape_char c s : QueryUnescape (escape_char c s) = String c <$> QueryUnescape s.
Proof. destruct c as [[] [] [] [] [] [] [] []]; reflexivity. Qed.

Lemma QueryUnescape_escape s : QueryUnescape (QueryEscape s) = Some s.
Proof. induction s as [|c s IH]; simpl; [done|]. by rewrite unescape_escape_char, IH. Qed.

(** The bytes with a meaning in a query. *)
Definition special (c : ascii) : bool :=
  bool_decide (c = "&"%char) || bool_decide (c = ";"%char) || bool_decide (c = "="%char) || bool_decide (c = "#"%char).

Lemma escape_char_plain x c s : special x = true → str_in x (escape_char c s) = str_in x s.
Proof.
  intros Hx. assert (Hc : x = "&"%char ∨ x = ";"%char ∨ x = "="%char ∨ x = "#"%char).
  { unfold special in Hx. rewrite !orb_true_iff, !bool_decide_eq_true in Hx. tauto. }
  clear Hx. destruct Hc as [->|[->|[->| ->]]]; destruct c as [[] [] [] [] [] [] [] []]; reflexivity.
Qed.

Lemma QueryEscape_plain x s : special x = true → str_in x (QueryEscape s) = false.
Proof. intros Hx. induction s as [|c s IH]; simpl; [done|]. by rewrite escape_char_plain. Qed.

(** A key that is its own escape. *)
Definition plain_key (k : string) : Prop := k ≠ "" ∧ QueryEscape k = k.

Lemma Cut_cons c s : c ≠ "="%char →
  Cut (String c s) "=" = let '(b, a, f) := Cut s "=" in (String c b, a, f).
Proof.
  intros Hc. cbn [Cut]. unfold HasPrefix. cbn [String.prefix].
  destruct (Ascii.ascii_dec "=" c) as [E|_]; [congruence|done].
Qed.

Lemma Cut_found k v : str_in "=" k = false → Cut (k +:+ "=" +:+ v) "=" = (k, v, true).
Proof.
  induction k as [|c k IH].
  - intros _. simpl. unfold HasPrefix. simpl. by destruct v.
  - cbn [str_in]. case_bool_decide as Hc; [done|]. intros Hk. change (String c k +:+ "=" +:+ v) with (String c (k +:+ "=" +:+ v)).
    by rewrite Cut_cons, (IH Hk) by congruence.
Qed.

Lemma str_in_pair x k v : str_in x k = false → str_in x v = false → x ≠ "="%char →
  str_in x (k +:+ "=" +:+ v) = false.
Proof. intros Hk Hv Hx. rewrite str_in_app, Hk. simpl. by case_bool_decide. Qed.

Lemma parse_pair_of k v : plain_key k → parse_pair (k +:+ "=" +:+ QueryEscape v) = [(k, v)].
Proof.
  intros [Hne Hk]. unfold parse_pair.
  rewrite str_in_pair; [|rewrite <-Hk; by apply QueryEscape_plain|by apply QueryEscape_plain|done]. simpl.
  destruct (String.eqb_spec (k +:+ "=" +:+ QueryEscape v) "") as [E|_]; [by destruct k|].
  rewrite Cut_found by (rewrite <-Hk; by apply QueryEscape_plain).
  rewrite <-Hk at 1. by rewrite !QueryUnescape_escape.
Qed.

Lemma ParseQuery_of kvs : Forall (λ kv, plain_key kv.1) kvs → kvs ≠ [] → ParseQuery (query_of kvs) = kvs.
Proof.
  intros Hk Hne. unfold ParseQuery, query_of. rewrite SplitByte_Join.
  - clear Hne. induction Hk as [|[k v] kvs Hk _ IH]; [done|]. rewrite !fmap_cons. cbn [concat fst snd] in *. by rewrite parse_pair_of, IH.
  - by destruct kvs.
  - apply Forall_fmap. eapply Forall_impl; [exact Hk|]. intros [k v] [_ E]. simpl in *.
    apply str_in_pair; [rewrite <-E; by apply QueryEscape_plain|by apply QueryEscape_plain|done].
Qed.
