(* ===== verification/InternalApi.v ===== *)
(** * The internal API (internal/internalapi)

    The protocol by which the SMTP-facing roles reach the directory, the store,
    the queue, the limiter and the webhooks in the api role's process: the wire
    messages (wire.go), the server with its per-role scopes (server.go) and the
    clients (client.go), which are instances of the same interfaces the local
    components implement.  HTTP transport and encoding/json are parameters. *)

From stdpp Require Import gmap pretty.
From S2P Require Import Prelude Float64 Url Queue Kms Directory Webhook Storage.

(** ** Wire messages (wire.go) *)

Definition ScopeDirectoryVhost : string := "directory.vhost".
Definition ScopeDirectoryAuthenticate : string := "directory.authenticate".
Definition ScopeStoreWrite : string := "store.write".
Definition ScopeStoreRead : string := "store.read".
Definition ScopeStoreList : string := "store.list".
Definition ScopeStoreUpdateFlags : string := "store.updateflags".
Definition ScopeQueueEnqueue : string := "queue.enqueue".
Definition ScopeRateLimitAllow : string := "ratelimit.allow".
Definition ScopeWebhookEnqueue : string := "webhook.enqueue".

Definition RoleSMTPInbound : string := "smtp-inbound".
Definition RoleSMTPSubmission : string := "smtp-submission".
Definition RoleIMAP : string := "imap".

Definition HeaderToken : string := "X-Envelope-Internal-Token".

Record errorResponse := mkErrorResponse { er_Error : string }.
Record vhostRequest := mkVhostRequest { vq_Domain : string }.
Record vhostDTO := mkVhostDTO {
  vd_ID : string;
  vd_Domain : string;
  vd_Active : bool;
  vd_DKIMSelector : string;
  vd_DKIMKeyPEM : string;
  vd_MaxMessageBytes : Z;
  vd_DailyQuota : Z;
  vd_SpamRejectThreshold : float64;
  vd_SpamQuarantineThreshold : float64;
  vd_RetentionDays : Z;
}.
Record vhostResponse := mkVhostResponse { vp_Found : bool; vp_Vhost : option vhostDTO }.
Record authenticateRequest := mkAuthRequest { aq_Vhost : string; aq_LocalPart : string; aq_Password : string }.
Record authenticateResponse := mkAuthResponse { ap_OK : bool }.
Record writeResponse := mkWriteResponse { wp_Vhost : string; wp_Mailbox : string; wp_Key : string }.
Record listRequest := mkListRequest { lq_Vhost : string; lq_Mailbox : string }.
Record messageMetaDTO := mkMetaDTO {
  md_Vhost : string;
  md_Mailbox : string;
  md_Key : string;
  md_Size : Z;
  md_Flags : list string;
  md_CreatedAt : Time;
}.
Record listResponse := mkListResponse { lp_Metas : list messageMetaDTO }.
Record updateFlagsRequest := mkFlagsRequest { uq_Vhost : string; uq_Mailbox : string; uq_Key : string; uq_Flags : list string }.
Record enqueueJobRequest := mkEnqueueRequest {
  eq_ID : string;
  eq_Vhost : string;
  eq_From : string;
  eq_To : string;
  eq_BodyRef : string;
  eq_NextAttemptAt : Time;
  eq_CorrelationID : string;
}.
Record rateLimitAllowRequest := mkAllowRequest { rq_Key : string; rq_Capacity : float64; rq_RefillPerSecond : float64 }.
Record rateLimitAllowResponse := mkAllowResponse { rp_Allowed : bool }.
Record webhookEnqueueRequest := mkHookRequest { hq_Vhost : string; hq_EventType : string; hq_Payload : string }.

(** encoding/json at one type: its text, or the error; the value read back. *)
Class JSONCodec (T : Type) := {
  Marshal : T → res string;
  Unmarshal : string → res T;
}.

(** All the wire's types have one. *)
Class WireJSON := {
  wire_error :: JSONCodec errorResponse;
  wire_vhostq :: JSONCodec vhostRequest;
  wire_vhostp :: JSONCodec vhostResponse;
  wire_authq :: JSONCodec authenticateRequest;
  wire_authp :: JSONCodec authenticateResponse;
  wire_writep :: JSONCodec writeResponse;
  wire_listq :: JSONCodec listRequest;
  wire_listp :: JSONCodec listResponse;
  wire_flagsq :: JSONCodec updateFlagsRequest;
  wire_enqueueq :: JSONCodec enqueueJobRequest;
  wire_allowq :: JSONCodec rateLimitAllowRequest;
  wire_allowp :: JSONCodec rateLimitAllowResponse;
  wire_hookq :: JSONCodec webhookEnqueueRequest;
}.

(** A value that survives the wire. *)
Definition travels {T} `{JSONCodec T} (x : T) : Prop := ∃ s, Marshal x = Ok s ∧ Unmarshal s = Ok x.

(** x509.MarshalPKCS1PrivateKey: a key is kept as these bytes. *)
Definition rsaKeyToPEM {W} `{Crypto W} (key : PrivateKey) : string := pem_Encode "RSA PRIVATE KEY" key.

Definition pemToRSAKey {W} `{Crypto W} (s : string) : res PrivateKey :=
  match pem_Decode s with
  | None => Err (Errorf "internalapi: no PEM block found in DKIM key material" [])
  | Some bytes => x509_ParsePKCS1 bytes
  end.

(** ** HTTP *)

(** A request as the server sees it; a body can fail to be read. *)
Record request := mkRequest {
  rq_Method : string;
  rq_Path : string;
  rq_RawQuery : string;
  rq_Token : string;  (* the HeaderToken header *)
  rq_Body : res string;
}.
Record response := mkResponse { rs_StatusCode : Z; rs_Body : string }.

Definition StatusOK : Z := 200.
Definition StatusBadRequest : Z := 400.
Definition StatusUnauthorized : Z := 401.
Definition StatusForbidden : Z := 403.
Definition StatusNotFound : Z := 404.
Definition StatusMethodNotAllowed : Z := 405.
Definition StatusInternalServerError : Z := 500.

(** The client's transport: building a request for a URL can fail; [Do] sends
    it.  [resp.Status] is the status line. *)
Class HTTPClient (W : Type) := {
  NewRequest_error : string → option goerr;
  hc_Do : Ctx → string → request → M W (res response);
  Status_line : Z → string;
}.

(** ** The server (server.go) *)

(** [RateLimiter] of server.go. *)
Class Limiter (W : Type) := lim_Allow : Ctx → string → float64 → float64 → M W (res bool).

Definition roleScopes (role : string) : list string :=
  if String.eqb role RoleSMTPInbound then [ScopeDirectoryVhost; ScopeStoreWrite; ScopeRateLimitAllow; ScopeWebhookEnqueue]
  else if String.eqb role RoleSMTPSubmission then
    [ScopeDirectoryVhost; ScopeDirectoryAuthenticate; ScopeStoreWrite; ScopeQueueEnqueue; ScopeRateLimitAllow]
  else if String.eqb role RoleIMAP then [ScopeDirectoryAuthenticate; ScopeStoreRead; ScopeStoreList; ScopeStoreUpdateFlags]
  else [].

Section Server.
Context {W : Type} `{HD : Directory W, HS : MessageStore W, HQ : QueueBackend W Job, HL : Limiter W, HW : Enqueuer W,
  HC : Crypto W, HJ : WireJSON, HT : ErrorText}.

(** [Server]: the components are type classes; the tokens by value. *)
Record Server := mkServer { tokens : gmap string string }.

Definition writeJSON {T} `{JSONCodec T} (code : Z) (v : T) : response :=
  mkResponse code (match Marshal v with Ok s => s | Err _ => "" end).

Definition writeError (code : Z) (e : goerr) : response := writeJSON code (mkErrorResponse (Error e)).

(** [decodeJSON] and the rest of the handler, which runs on success. *)
Definition with_JSON {T} `{JSONCodec T} (r : request) (k : T → M W response) : M W response :=
  match rq_Body r with
  | Err e => ret (writeError StatusBadRequest e)
  | Ok s => match Unmarshal s with
            | Err e => ret (writeError StatusBadRequest e)
            | Ok req => k req
            end
  end.

Definition dto_of (v : Vhost) : vhostDTO :=
  mkVhostDTO (vh_ID v) (vh_Domain v) (vh_Active v) (vh_DKIMSelector v)
    (match vh_DKIMKey v with Some key => rsaKeyToPEM (W := W) key | None => "" end)
    (MaxMessageBytes (vh_policy v)) (DailyQuota (vh_policy v)) (SpamRejectThreshold (vh_policy v))
    (SpamQuarantineThreshold (vh_policy v)) (RetentionDays (vh_policy v)).

Definition handleVhost (ctx : Ctx) (r : request) : M W response :=
  with_JSON r (λ req : vhostRequest,
    let* v := d_Vhost ctx (vq_Domain req) in
    ret (match v with
         | None => writeJSON StatusOK (mkVhostResponse false None)
         | Some v => writeJSON StatusOK (mkVhostResponse true (Some (dto_of v)))
         end)).

Definition handleAuthenticate (ctx : Ctx) (r : request) : M W response :=
  with_JSON r (λ req : authenticateRequest,
    let* ok := d_Authenticate ctx (aq_Vhost req) (aq_LocalPart req) (aq_Password req) in
    ret (writeJSON StatusOK (mkAuthResponse ok))).

Definition handleStoreWrite (ctx : Ctx) (r : request) : M W response :=
  let q := ParseQuery (rq_RawQuery r) in
  let vhost := Get q "vhost" in
  let mailbox := Get q "mailbox" in
  if String.eqb vhost "" || String.eqb mailbox ""
  then ret (writeError StatusBadRequest (ErrNew "internalapi: vhost and mailbox query params are required"))
  else
    let* ref := s_Write ctx vhost mailbox (rq_Body r) in
    ret (match ref with
         | Err e => writeError StatusInternalServerError e
         | Ok ref => writeJSON StatusOK (mkWriteResponse (rf_Vhost ref) (rf_Mailbox ref) (rf_Key ref))
         end).

Definition handleStoreRead (ctx : Ctx) (r : request) : M W response :=
  let q := ParseQuery (rq_RawQuery r) in
  let ref := mkRef (Get q "vhost") (Get q "mailbox") (Get q "key") in
  if String.eqb (rf_Vhost ref) "" || String.eqb (rf_Mailbox ref) "" || String.eqb (rf_Key ref) ""
  then ret (writeError StatusBadRequest (ErrNew "internalapi: vhost, mailbox, and key query params are required"))
  else
    let* rc := s_Read ctx ref in
    ret (match rc with
         | Err e => writeError StatusNotFound e
         | Ok body => mkResponse StatusOK body
         end).

Definition meta_dto (m : MessageMeta) : messageMetaDTO :=
  mkMetaDTO (rf_Vhost (mm_Ref m)) (rf_Mailbox (mm_Ref m)) (rf_Key (mm_Ref m)) (mm_Size m) (mm_Flags m) (mm_CreatedAt m).

Definition handleStoreList (ctx : Ctx) (r : request) : M W response :=
  with_JSON r (λ req : listRequest,
    let* metas := s_List ctx (lq_Vhost req) (lq_Mailbox req) in
    ret (match metas with
         | Err e => writeError StatusInternalServerError e
         | Ok metas => writeJSON StatusOK (mkListResponse (meta_dto <$> metas))
         end)).

(** A handler whose success has no body. *)
Definition finish (r : res unit) : response :=
  match r with Err e => writeError StatusInternalServerError e | Ok _ => mkResponse StatusOK "" end.

Definition handleStoreUpdateFlags (ctx : Ctx) (r : request) : M W response :=
  with_JSON r (λ req : updateFlagsRequest,
    let ref := mkRef (uq_Vhost req) (uq_Mailbox req) (uq_Key req) in
    let* e := s_UpdateFlags ctx ref (uq_Flags req) in ret (finish e)).

Definition handleQueueEnqueue (ctx : Ctx) (r : request) : M W response :=
  with_JSON r (λ req : enqueueJobRequest,
    let job := mkJob (eq_ID req) (eq_Vhost req) (eq_From req) (eq_To req) (eq_BodyRef req) 0 (eq_NextAttemptAt req) ""
                 (eq_CorrelationID req) in
    let* e := q_Enqueue ctx job in ret (finish e)).

Definition handleRateLimitAllow (ctx : Ctx) (r : request) : M W response :=
  with_JSON r (λ req : rateLimitAllowRequest,
    let* allowed := lim_Allow ctx (rq_Key req) (rq_Capacity req) (rq_RefillPerSecond req) in
    ret (match allowed with
         | Err e => writeError StatusInternalServerError e
         | Ok allowed => writeJSON StatusOK (mkAllowResponse allowed)
         end)).

Definition handleWebhookEnqueue (ctx : Ctx) (r : request) : M W response :=
  with_JSON r (λ req : webhookEnqueueRequest,
    let* e := wh_Enqueue ctx (hq_Vhost req) (hq_EventType req) (hq_Payload req) in ret (finish e)).

(** [authorize]; the tokens are distinct, so the map's order does not matter. *)
Definition authorize (s : Server) (requiredScope : string) (next : Ctx → request → M W response)
  (ctx : Ctx) (r : request) : M W response :=
  let token := rq_Token r in
  if String.eqb token "" then ret (writeError StatusUnauthorized (ErrNew ("internalapi: missing " +:+ HeaderToken)))
  else
    let role := default "" (tokens s !! token) in
    if String.eqb role "" then ret (writeError StatusUnauthorized (ErrNew "internalapi: token not recognized"))
    else if negb (existsb (String.eqb requiredScope) (roleScopes role))
    then ret (writeError StatusForbidden (ErrNew ("internalapi: role " +:+ role +:+ " is not granted " +:+ requiredScope)))
    else next ctx r.

Record route := mkRoute { rt_Method : string; rt_Path : string; rt_Scope : string; rt_Handler : Ctx → request → M W response }.

Definition routes : list route := [
  mkRoute "POST" "/internal/v1/directory/vhost" ScopeDirectoryVhost handleVhost;
  mkRoute "POST" "/internal/v1/directory/authenticate" ScopeDirectoryAuthenticate handleAuthenticate;
  mkRoute "POST" "/internal/v1/store/write" ScopeStoreWrite handleStoreWrite;
  mkRoute "GET" "/internal/v1/store/read" ScopeStoreRead handleStoreRead;
  mkRoute "POST" "/internal/v1/store/list" ScopeStoreList handleStoreList;
  mkRoute "POST" "/internal/v1/store/updateflags" ScopeStoreUpdateFlags handleStoreUpdateFlags;
  mkRoute "POST" "/internal/v1/queue/enqueue" ScopeQueueEnqueue handleQueueEnqueue;
  mkRoute "POST" "/internal/v1/ratelimit/allow" ScopeRateLimitAllow handleRateLimitAllow;
  mkRoute "POST" "/internal/v1/webhook/enqueue" ScopeWebhookEnqueue handleWebhookEnqueue
].

(** http.ServeMux on these patterns: a GET pattern also serves HEAD (whose body
    net/http then does not send; the model's answer keeps it). *)
Definition method_matches (pattern method : string) : bool :=
  String.eqb pattern method || (String.eqb pattern "GET" && String.eqb method "HEAD").

Definition find_route (r : request) : option route :=
  List.find (λ rt, String.eqb (rt_Path rt) (rq_Path r) && method_matches (rt_Method rt) (rq_Method r)) routes.

Definition Handler (s : Server) (ctx : Ctx) (r : request) : M W response :=
  match find_route r with
  | Some rt => authorize s (rt_Scope rt) (rt_Handler rt) ctx r
  | None => ret (if existsb (λ rt, String.eqb (rt_Path rt) (rq_Path r)) routes
                 then mkResponse StatusMethodNotAllowed "Method Not Allowed"
                 else mkResponse StatusNotFound "404 page not found")
  end.
End Server.

(** ** The clients (client.go) *)

Definition MethodPost : string := "POST".
Definition MethodGet : string := "GET".

(** [strings.TrimRight(s, "/")]. *)
Fixpoint TrimRight_slash (s : string) : string :=
  match s with
  | EmptyString => EmptyString
  | String c s =>
      match TrimRight_slash s with
      | EmptyString => if bool_decide (c = "/"%char) then EmptyString else String c EmptyString
      | t => String c t
      end
  end.

Record httpClient := mkHTTPClient { hc_baseURL : string; hc_token : string }.

Definition newHTTPClient (baseURL token : string) : httpClient := mkHTTPClient (TrimRight_slash baseURL) token.

Definition unsupported (method : string) : goerr :=
  Errorf "internalapi: %s is not exposed to SMTP-facing roles over the internal API (least-privilege by design, mirroring deploy/postgres/roles.sql's SQL-level grants)" [method].

Section Client.
Context {W : Type} `{HH : HTTPClient W, HC : Crypto W, HJ : WireJSON}.
Context (c : httpClient).

(** The URL after [baseURL]: a path, with a query if there is one. *)
Definition url_of (path query : string) : string := if String.eqb query "" then path else path +:+ "?" +:+ query.

(** One exchange: build the request, send it; errors worded by the caller. *)
Definition exchange (ctx : Ctx) (method path query : string) (body : res string)
  (build_err do_err : goerr → goerr) : M W (res response) :=
  match NewRequest_error (hc_baseURL c +:+ url_of path query) with
  | Some e => ret (Err (build_err e))
  | None => wrap do_err (hc_Do ctx (hc_baseURL c) (mkRequest method path query (hc_token c) body))
  end.

Definition responseError (method url : string) (resp : response) : goerr :=
  let text := match Unmarshal (T := errorResponse) (rs_Body resp) with Ok e => er_Error e | Err _ => "" end in
  let text := if String.eqb text "" then Status_line (rs_StatusCode resp) else text in
  Errorf "internalapi: %s %s: %d %s" [method; url; pretty (rs_StatusCode resp); text].

(** [doJSON] up to the response body, which the caller decodes if it wants it. *)
Definition doJSON {T} `{JSONCodec T} (ctx : Ctx) (method path : string) (reqBody : T) : M W (res string) :=
  match Marshal reqBody with
  | Err e => ret (Err (ErrorfW "internalapi: encode request: %w" [] e))
  | Ok b =>
      let? resp := exchange ctx method path "" (Ok b) (ErrorfW "internalapi: build request: %w" [])
                     (ErrorfW "internalapi: %s %s: %w" [method; path]) in
      if 300 <=? rs_StatusCode resp then ret (Err (responseError method path resp))
      else ret (Ok (rs_Body resp))
  end.

Definition doJSON_into {T R} `{JSONCodec T, JSONCodec R} (ctx : Ctx) (method path : string) (reqBody : T) : M W (res R) :=
  let? body := doJSON ctx method path reqBody in
  ret (map_err (ErrorfW "internalapi: decode response: %w" []) (Unmarshal body)).

Definition doJSON_only {T} `{JSONCodec T} (ctx : Ctx) (method path : string) (reqBody : T) : M W (res unit) :=
  let? _ := doJSON ctx method path reqBody in ret (Ok tt).

Definition vhost_of (d : vhostDTO) : Vhost :=
  mkVhost (vd_ID d) "" (vd_Domain d) (vd_Active d) (vd_DKIMSelector d)
    (if negb (String.eqb (vd_DKIMKeyPEM d) "")
     then match pemToRSAKey (W := W) (vd_DKIMKeyPEM d) with Ok key => Some key | Err _ => None end
     else None)
    (mkPolicy (vd_MaxMessageBytes d) (vd_DailyQuota d) (vd_SpamRejectThreshold d) (vd_SpamQuarantineThreshold d)
       (vd_RetentionDays d)).

Definition client_Vhost (ctx : Ctx) (domain : string) : M W (option Vhost) :=
  let* resp := doJSON_into (R := vhostResponse) ctx MethodPost "/internal/v1/directory/vhost" (mkVhostRequest domain) in
  ret (match resp with
       | Err _ => None
       | Ok resp => match vp_Vhost resp with
                    | Some d => if negb (vp_Found resp) then None else Some (vhost_of d)
                    | None => None
                    end
       end).

Definition client_VhostActive (ctx : Ctx) (domain : string) : M W bool :=
  let* v := client_Vhost ctx domain in
  ret (match v with Some v => vh_Active v | None => false end).

Definition client_Authenticate (ctx : Ctx) (vhost localPart password : string) : M W bool :=
  let* resp := doJSON_into (R := authenticateResponse) ctx MethodPost "/internal/v1/directory/authenticate"
                 (mkAuthRequest vhost localPart password) in
  ret (match resp with Err _ => false | Ok resp => ap_OK resp end).

Definition DirectoryClient : Directory W :=
  {| d_Vhost := client_Vhost; d_VhostActive := client_VhostActive; d_Authenticate := client_Authenticate |}.

Definition client_Write (ctx : Ctx) (vhost mailbox : string) (body : res string) : M W (res MessageRef) :=
  let path := "/internal/v1/store/write" in
  let query := query_of [("vhost", vhost); ("mailbox", mailbox)] in
  let? resp := exchange ctx MethodPost path query body (ErrorfW "internalapi: build write request: %w" [])
                 (ErrorfW "internalapi: store write: %w" []) in
  if 300 <=? rs_StatusCode resp then ret (Err (responseError MethodPost (url_of path query) resp))
  else ret (match Unmarshal (T := writeResponse) (rs_Body resp) with
            | Err e => Err (ErrorfW "internalapi: decode write response: %w" [] e)
            | Ok wr => Ok (mkRef (wp_Vhost wr) (wp_Mailbox wr) (wp_Key wr))
            end).

Definition client_Read (ctx : Ctx) (ref : MessageRef) : M W (res string) :=
  let path := "/internal/v1/store/read" in
  let query := query_of [("vhost", rf_Vhost ref); ("mailbox", rf_Mailbox ref); ("key", rf_Key ref)] in
  let? resp := exchange ctx MethodGet path query (Ok "") (ErrorfW "internalapi: build read request: %w" [])
                 (ErrorfW "internalapi: store read: %w" []) in
  if 300 <=? rs_StatusCode resp then ret (Err (responseError MethodGet (url_of path query) resp))
  else ret (Ok (rs_Body resp)).

Definition dto_meta (m : messageMetaDTO) : MessageMeta :=
  mkMeta (mkRef (md_Vhost m) (md_Mailbox m) (md_Key m)) (md_Size m) (md_Flags m) (md_CreatedAt m).

Definition client_List (ctx : Ctx) (vhost mailbox : string) : M W (res (list MessageMeta)) :=
  let? resp := doJSON_into (R := listResponse) ctx MethodPost "/internal/v1/store/list" (mkListRequest vhost mailbox) in
  ret (Ok (dto_meta <$> lp_Metas resp)).

Definition client_UpdateFlags (ctx : Ctx) (ref : MessageRef) (flags : list string) : M W (res unit) :=
  doJSON_only ctx MethodPost "/internal/v1/store/updateflags"
    (mkFlagsRequest (rf_Vhost ref) (rf_Mailbox ref) (rf_Key ref) flags).

Definition StoreClient : MessageStore W := {|
  s_Write := client_Write; s_Read := client_Read; s_List := client_List;
  s_ListVhost _ _ := ret (Err (unsupported "Store.ListVhost"));
  s_UpdateFlags := client_UpdateFlags;
  s_Delete _ _ := ret (Err (unsupported "Store.Delete"));
|}.

Definition client_Enqueue (ctx : Ctx) (job : Job) : M W (res unit) :=
  doJSON_only ctx MethodPost "/internal/v1/queue/enqueue"
    (mkEnqueueRequest (ID job) (Queue.Vhost job) (From job) (To job) (BodyRef job) (NextAttemptAt job) (CorrelationID job)).

Definition QueueClient : QueueBackend W Job := {|
  q_Enqueue := client_Enqueue;
  q_Dequeue _ := ret (Err (unsupported "Queue.Dequeue"));
  q_Complete _ _ := ret (Err (unsupported "Queue.Complete"));
  q_Fail _ _ _ _ := ret (Err (unsupported "Queue.Fail"));
|}.

Definition client_Count (ctx : Ctx) : M W (res Z) := ret (Err (unsupported "Queue.Count")).

Definition QueueClient_Counter : QueueCounter W := client_Count.

Definition client_Allow (ctx : Ctx) (key : string) (capacity refillPerSecond : float64) : M W (res bool) :=
  let? resp := doJSON_into (R := rateLimitAllowResponse) ctx MethodPost "/internal/v1/ratelimit/allow"
                 (mkAllowRequest key capacity refillPerSecond) in
  ret (Ok (rp_Allowed resp)).

Definition RateLimiterClient : Limiter W := client_Allow.

Definition client_hook (ctx : Ctx) (vhost eventType payload : string) : M W (res unit) :=
  doJSON_only ctx MethodPost "/internal/v1/webhook/enqueue" (mkHookRequest vhost eventType payload).

Definition WebhookClient : Enqueuer W := client_hook.
End Client.

(** The constructors. *)
Section Constructors.
Context {W : Type} `{HH : HTTPClient W, HC : Crypto W, HJ : WireJSON}.
Definition NewDirectoryClient (baseURL token : string) : Directory W := DirectoryClient (newHTTPClient baseURL token).
Definition NewStoreClient (baseURL token : string) : MessageStore W := StoreClient (newHTTPClient baseURL token).
Definition NewQueueClient (baseURL token : string) : QueueBackend W Job := QueueClient (newHTTPClient baseURL token).
Definition NewRateLimiterClient (baseURL token : string) : Limiter W := RateLimiterClient (newHTTPClient baseURL token).
Definition NewWebhookClient (baseURL token : string) : Enqueuer W := WebhookClient (newHTTPClient baseURL token).
End Constructors.

(** ** Least privilege *)

(** The operations each role may use, by path. *)
Definition granted (role : string) : list string :=
  if String.eqb role "smtp-inbound" then
    ["/internal/v1/directory/vhost"; "/internal/v1/store/write"; "/internal/v1/ratelimit/allow"; "/internal/v1/webhook/enqueue"]
  else if String.eqb role "smtp-submission" then
    ["/internal/v1/directory/vhost"; "/internal/v1/directory/authenticate"; "/internal/v1/store/write";
     "/internal/v1/queue/enqueue"; "/internal/v1/ratelimit/allow"]
  else if String.eqb role "imap" then
    ["/internal/v1/directory/authenticate"; "/internal/v1/store/read"; "/internal/v1/store/list"; "/internal/v1/store/updateflags"]
  else [].

Section ServerFacts.
Context {W : Type} {HD : Directory W} {HS : MessageStore W} {HQ : QueueBackend W Job} {HL : Limiter W} {HW : Enqueuer W}
  {HC : Crypto W} {HJ : WireJSON} {HT : ErrorText}.

Lemma find_route_in r (rt : route (W := W)) : find_route r = Some rt → rt ∈ routes ∧ rt_Path rt = rq_Path r.
Proof.
  intros [Hin Hb]%find_some. apply andb_true_iff in Hb as [Hp%String.eqb_eq _]. by rewrite list_elem_of_In.
Qed.

(** The scope of a route admits exactly the roles granted its path. *)
Lemma scope_granted (rt : route (W := W)) role : rt ∈ routes →
  existsb (String.eqb (rt_Scope rt)) (roleScopes role) = bool_decide (rt_Path rt ∈ granted role).
Proof.
  intros Hin. unfold roleScopes, granted.
  change RoleSMTPInbound with "smtp-inbound". change RoleSMTPSubmission with "smtp-submission". change RoleIMAP with "imap".
  unfold routes in Hin. rewrite !elem_of_cons, elem_of_nil in Hin.
  destruct (String.eqb role "smtp-inbound"), (String.eqb role "smtp-submission"), (String.eqb role "imap");
    by repeat (destruct Hin as [->|Hin]; [vm_compute|]).
Qed.

Lemma authorize_spec s (rt : route (W := W)) ctx r w : rt ∈ routes →
  let role := default "" (tokens s !! rq_Token r) in
  if bool_decide (rq_Token r ≠ "" ∧ rt_Path rt ∈ granted role)
  then authorize s (rt_Scope rt) (rt_Handler rt) ctx r w = rt_Handler rt ctx r w
  else let '(resp, w') := authorize s (rt_Scope rt) (rt_Handler rt) ctx r w in
       w' = w ∧ (rs_StatusCode resp = 401 ∨ rs_StatusCode resp = 403).
Proof.
  intros Hin role. unfold authorize. fold role.
  destruct (String.eqb_spec (rq_Token r) "") as [E|E]; [rewrite bool_decide_false by naive_solver; simpl; auto|].
  destruct (String.eqb_spec role "") as [Er|Er].
  { rewrite bool_decide_false; [simpl; auto|]. rewrite Er. by intros [_ ?%elem_of_nil]. }
  rewrite scope_granted by done. case_bool_decide as Hg.
  - destruct Hg. by rewrite bool_decide_true.
  - rewrite bool_decide_false by naive_solver. simpl. auto.
Qed.

(** What the API offers, by path: the method and the operation behind it. *)
Definition operation (path : string) : option (string * (Ctx → request → M W response)) :=
  if String.eqb path "/internal/v1/directory/vhost" then Some ("POST", handleVhost)
  else if String.eqb path "/internal/v1/directory/authenticate" then Some ("POST", handleAuthenticate)
  else if String.eqb path "/internal/v1/store/write" then Some ("POST", handleStoreWrite)
  else if String.eqb path "/internal/v1/store/read" then Some ("GET", handleStoreRead)
  else if String.eqb path "/internal/v1/store/list" then Some ("POST", handleStoreList)
  else if String.eqb path "/internal/v1/store/updateflags" then Some ("POST", handleStoreUpdateFlags)
  else if String.eqb path "/internal/v1/queue/enqueue" then Some ("POST", handleQueueEnqueue)
  else if String.eqb path "/internal/v1/ratelimit/allow" then Some ("POST", handleRateLimitAllow)
  else if String.eqb path "/internal/v1/webhook/enqueue" then Some ("POST", handleWebhookEnqueue)
  else None.

(** The role the bearer of a request has, if its token is registered for one. *)
Definition bearer (s : Server) (r : request) : option string :=
  if bool_decide (rq_Token r = "") then None
  else role ← tokens s !! rq_Token r; if bool_decide (role = "") then None else Some role.

(** Why a request is refused, if it is: no such path, not the path's method,
    nobody known, or somebody whose role does not list the path. *)
Definition refusal (s : Server) (r : request) : option Z :=
  match operation (rq_Path r) with
  | None => Some 404
  | Some (method, _) =>
      if negb (method_matches method (rq_Method r)) then Some 405
      else match bearer s r with
           | None => Some 401
           | Some role => if bool_decide (rq_Path r ∈ granted role) then None else Some 403
           end
  end.

(** The routing table is the table of operations. *)
Lemma find_route_operation r :
  match operation (rq_Path r) with
  | None => find_route r = None ∧ existsb (λ rt : route (W := W), String.eqb (rt_Path rt) (rq_Path r)) routes = false
  | Some (method, op) =>
      existsb (λ rt : route (W := W), String.eqb (rt_Path rt) (rq_Path r)) routes = true ∧
      if method_matches method (rq_Method r)
      then ∃ rt, find_route r = Some rt ∧ rt_Path rt = rq_Path r ∧ rt_Handler rt = op
      else find_route r = None
  end.
Proof.
  destruct r as [meth path qs tok body]. unfold operation, find_route, routes. cbn -[String.eqb].
  repeat match goal with
  | |- context [String.eqb path ?x] =>
      destruct (String.eqb_spec path x) as [->|?];
      [simpl; split; [done|]; by case_match; eauto
      |rewrite ?(proj2 (String.eqb_neq x path)) by congruence; cbn -[String.eqb]]
  end.
  done.
Qed.

Lemma authorize_refused s (rt : route (W := W)) ctx r : rt ∈ routes →
  match bearer s r with
  | None => ∃ resp, rs_StatusCode resp = 401 ∧ ∀ w, authorize s (rt_Scope rt) (rt_Handler rt) ctx r w = (resp, w)
  | Some role =>
      if bool_decide (rt_Path rt ∈ granted role)
      then ∀ w, authorize s (rt_Scope rt) (rt_Handler rt) ctx r w = rt_Handler rt ctx r w
      else ∃ resp, rs_StatusCode resp = 403 ∧ ∀ w, authorize s (rt_Scope rt) (rt_Handler rt) ctx r w = (resp, w)
  end.
Proof.
  intros Hin. unfold bearer, authorize.
  destruct (String.eqb_spec (rq_Token r) "") as [E|E].
  { rewrite bool_decide_true by done. eexists. by split; [|reflexivity]. }
  rewrite bool_decide_false by done.
  destruct (tokens s !! rq_Token r) as [role|]; simpl; [|eexists; by split; [|reflexivity]].
  destruct (String.eqb_spec role "") as [Er|Er].
  { rewrite bool_decide_true by done. simpl. eexists. by split; [|reflexivity]. }
  rewrite bool_decide_false by done. simpl. rewrite scope_granted by done.
  case_bool_decide; simpl; [done|]. eexists. by split; [|reflexivity].
Qed.

(** C35: a role's token opens exactly its operations.  A request for an offered
    path, with its method, bearing a token registered for a role whose table
    lists the path is served by that path's operation, whatever the state; every
    other request is refused, with the code that says why (404 no such path, 405
    not its method, 401 no registered token, 403 a role the path is not granted
    to), by an answer that is the same in every state and changes none.  The
    tables ([granted]) are the least-privilege ones: inbound cannot
    authenticate, read or enqueue jobs, IMAP cannot write or enqueue, and so on. *)
Theorem least_privilege s ctx r :
  match refusal s r with
  | None =>
      ∃ method op role, operation (rq_Path r) = Some (method, op) ∧ method_matches method (rq_Method r) = true ∧
        rq_Token r ≠ "" ∧ tokens s !! rq_Token r = Some role ∧ rq_Path r ∈ granted role ∧
        ∀ w : W, Handler s ctx r w = op ctx r w
  | Some code => ∃ resp, rs_StatusCode resp = code ∧ ∀ w : W, Handler s ctx r w = (resp, w)
  end.
Proof.
  unfold refusal, Handler. pose proof (find_route_operation r) as Hf.
  destruct (operation (rq_Path r)) as [[method op]|].
  2: { destruct Hf as [-> ->]. eexists. split; [|reflexivity]. done. }
  destruct Hf as [He Hf]. destruct (method_matches method (rq_Method r)) eqn:Em; cbn [negb].
  2: { rewrite Hf, He. eexists. split; [|reflexivity]. done. }
  destruct Hf as (rt & Hr & Hp & <-). rewrite Hr. destruct (find_route_in _ _ Hr) as [Hin _].
  pose proof (authorize_refused s rt ctx r Hin) as Ha. rewrite Hp in Ha.
  destruct (bearer s r) as [role|] eqn:Eb; [|done]. case_bool_decide as Hg; [|done].
  exists method, (rt_Handler rt), role. revert Eb. unfold bearer. case_bool_decide as Et; [done|].
  destruct (tokens s !! rq_Token r) as [role'|] eqn:El; simpl; [|done].
  case_bool_decide; [done|]. intros [= ->]. by auto.
Qed.
End ServerFacts.

(** ** Remote calls are local calls *)

Section Remote.
Context {W : Type} {HD : Directory W} {HS : MessageStore W} {HQ : QueueBackend W Job} {HL : Limiter W} {HW : Enqueuer W}
  {HC : Crypto W} {HJ : WireJSON} {HT : ErrorText} {HH : HTTPClient W}.
Context (c : httpClient) (s : Server) (rctx : Ctx) (role : string) (ctx : Ctx).

(** The client's requests under the context [ctx] reach the server, which serves
    them under the context [rctx] of the HTTP request, and its token is
    registered for [role]. *)
Record connected : Prop := {
  cn_url : ∀ u, NewRequest_error (W := W) u = None;
  cn_do : ∀ r (w : W), hc_Do ctx (hc_baseURL c) r w = let '(resp, w') := Handler s rctx r w in (Ok resp, w');
  cn_token : hc_token c ≠ "" ∧ tokens s !! hc_token c = Some role;
}.
Context (CN : connected).

Lemma exchange_spec method path query body be de (rt : route (W := W)) w :
  find_route (mkRequest method path query (hc_token c) body) = Some rt → path ∈ granted role →
  exchange c ctx method path query body be de w =
  let '(resp, w') := rt_Handler rt rctx (mkRequest method path query (hc_token c) body) w in (Ok resp, w').
Proof.
  intros Hf Hg. unfold exchange. rewrite (cn_url CN). unfold wrap. rewrite (cn_do CN). unfold Handler. rewrite Hf.
  destruct (cn_token CN) as [Ht El]. destruct (find_route_in _ _ Hf) as [Hin Hp].
  pose proof (authorize_spec s rt rctx (mkRequest method path query (hc_token c) body) w Hin) as Ha. cbv zeta in Ha.
  simpl in Ha, Hp. rewrite El, Hp in Ha. rewrite bool_decide_true in Ha by done. rewrite Ha.
  by destruct (rt_Handler rt rctx _ w).
Qed.

(** A JSON request whose handler is [with_JSON r k]. *)
Lemma doJSON_spec {T} {HT' : JSONCodec T} path (x : T) (rt : route (W := W)) (k : T → M W response) w :
  find_route (mkRequest "POST" path "" (hc_token c) (Marshal x)) = Some rt → path ∈ granted role → travels x →
  (∀ r w, rt_Handler rt rctx r w = with_JSON r k w) →
  doJSON c ctx MethodPost path x w =
  let '(resp, w') := k x w in
  (if 300 <=? rs_StatusCode resp then Err (responseError (W := W) MethodPost path resp) else Ok (rs_Body resp), w').
Proof.
  intros Hf Hg (b & Eb & Eu) Hk. unfold doJSON. rewrite Eb in *. unfold mtry.
  rewrite (exchange_spec MethodPost path "" (Ok b) _ _ rt w Hf Hg), Hk.
  unfold with_JSON. simpl. rewrite Eu. destruct (k x w) as [resp w']. unfold ret. by destruct (300 <=? _).
Qed.

Lemma writeJSON_ok {T} {HT' : JSONCodec T} (x : T) :
  travels x → rs_StatusCode (writeJSON StatusOK x) = 200 ∧ Unmarshal (rs_Body (writeJSON StatusOK x)) = Ok x.
Proof. intros (b & Eb & Eu). unfold writeJSON. by rewrite Eb. Qed.

(** What a result becomes on the other side: the value, or some error. *)
Definition relayed {B} (local remote : res B * W) : Prop :=
  snd remote = snd local ∧ match fst local with Ok x => fst remote = Ok x | Err _ => is_Ok (fst remote) = false end.

(** A vhost as it arrives: without its account. *)
Definition arrived (v : Vhost) : Vhost :=
  mkVhost (vh_ID v) "" (vh_Domain v) (vh_Active v) (vh_DKIMSelector v) (vh_DKIMKey v) (vh_policy v).

Lemma vhost_round_trip v :
  (∀ key, vh_DKIMKey v = Some key → rsaKeyToPEM (W := W) key ≠ "" ∧ pemToRSAKey (W := W) (rsaKeyToPEM (W := W) key) = Ok key) →
  vhost_of (W := W) (dto_of (W := W) v) = arrived v.
Proof.
  intros Hk. unfold vhost_of, dto_of, arrived. simpl. f_equal; [|by destruct (vh_policy v)].
  destruct (vh_DKIMKey v) as [key|] eqn:E; [|done]. destruct (Hk key eq_refl) as [Hne Hp].
  apply String.eqb_neq in Hne. by rewrite Hne, Hp.
Qed.

Lemma dto_meta_dto m : dto_meta (meta_dto m) = m.
Proof. by destruct m as [[] ? ? ?]. Qed.

(** A remote operation with no result. *)
Lemma only_relayed {T} {HT' : JSONCodec T} path (x : T) (rt : route (W := W)) (k : T → M W (res unit)) w :
  find_route (mkRequest "POST" path "" (hc_token c) (Marshal x)) = Some rt → path ∈ granted role → travels x →
  (∀ r w, rt_Handler rt rctx r w = with_JSON r (λ x, let* e := k x in ret (finish e)) w) →
  relayed (k x w) (doJSON_only c ctx MethodPost path x w).
Proof.
  intros Hf Hg Hx Hk. unfold doJSON_only, mtry. rewrite (doJSON_spec path x rt _ w Hf Hg Hx Hk). unfold bind, ret.
  destruct (k x w) as [[[]|e] w']; by split.
Qed.

(** A remote operation with a JSON result, [code] on error. *)
Lemma into_relayed {T R B} {HT' : JSONCodec T} {HR' : JSONCodec R} path (x : T) (rt : route (W := W))
  (k : T → M W (res B)) (f : B → R) code w :
  300 ≤ code → find_route (mkRequest "POST" path "" (hc_token c) (Marshal x)) = Some rt → path ∈ granted role → travels x →
  (∀ b, fst (k x w) = Ok b → travels (f b)) →
  (∀ r w, rt_Handler rt rctx r w = with_JSON r (λ x, let* b := k x in
     ret (match b with Err e => writeError code e | Ok b => writeJSON StatusOK (f b) end)) w) →
  let '(r, w') := k x w in
  match r with
  | Ok b => doJSON_into c ctx MethodPost path x w = (Ok (f b), w')
  | Err _ => ∃ e, doJSON_into (R := R) c ctx MethodPost path x w = (Err e, w')
  end.
Proof.
  intros Hcode Hf Hg Hx Hb Hk. unfold doJSON_into, mtry. rewrite (doJSON_spec path x rt _ w Hf Hg Hx Hk).
  unfold bind, ret. destruct (k x w) as [[b|e] w'].
  - destruct (writeJSON_ok (f b) (Hb b eq_refl)) as [E1 E2]. rewrite E1. change (300 <=? 200) with false.
    cbn iota beta. by rewrite E2.
  - simpl. destruct (Z.leb_spec 300 code); [eauto|lia].
Qed.

(** Query-string calls: the server reads back what the client escaped. *)
Lemma write_query v m : let q := ParseQuery (query_of [("vhost", v); ("mailbox", m)]) in
  Get q "vhost" = v ∧ Get q "mailbox" = m.
Proof. rewrite ParseQuery_of; [done|by repeat constructor|done]. Qed.

Lemma read_query v m k : let q := ParseQuery (query_of [("vhost", v); ("mailbox", m); ("key", k)]) in
  Get q "vhost" = v ∧ Get q "mailbox" = m ∧ Get q "key" = k.
Proof. rewrite ParseQuery_of; [done|by repeat constructor|done]. Qed.

Lemma client_Write_spec v m body w :
  "/internal/v1/store/write" ∈ granted role → v ≠ "" → m ≠ "" →
  (∀ ref, fst (s_Write rctx v m body w) = Ok ref → travels (mkWriteResponse (rf_Vhost ref) (rf_Mailbox ref) (rf_Key ref))) →
  relayed (s_Write rctx v m body w) (client_Write c ctx v m body w).
Proof.
  intros Hg Hv Hm Ht. unfold client_Write, mtry.
  rewrite (exchange_spec MethodPost "/internal/v1/store/write" _ _ _ _ (mkRoute MethodPost "/internal/v1/store/write" ScopeStoreWrite handleStoreWrite) w) by done.
  cbn [rt_Handler]. unfold handleStoreWrite. cbn [rq_RawQuery rq_Body]. destruct (write_query v m) as [-> ->].
  rewrite (proj2 (String.eqb_neq v "") Hv), (proj2 (String.eqb_neq m "") Hm). cbn [orb]. unfold bind, ret.
  destruct (s_Write rctx v m body w) as [[ref|e] w']; [|by split].
  destruct (writeJSON_ok _ (Ht ref eq_refl)) as [E1 E2]. rewrite E1. change (300 <=? 200) with false. cbn iota beta.
  rewrite E2. split; [done|]. by destruct ref.
Qed.

Lemma client_Read_spec ref w :
  "/internal/v1/store/read" ∈ granted role → rf_Vhost ref ≠ "" → rf_Mailbox ref ≠ "" → rf_Key ref ≠ "" →
  relayed (s_Read rctx ref w) (client_Read c ctx ref w).
Proof.
  intros Hg Hv Hm Hk. unfold client_Read, mtry.
  rewrite (exchange_spec MethodGet "/internal/v1/store/read" _ _ _ _ (mkRoute MethodGet "/internal/v1/store/read" ScopeStoreRead handleStoreRead) w) by done.
  cbn [rt_Handler]. unfold handleStoreRead. cbn [rq_RawQuery]. destruct (read_query (rf_Vhost ref) (rf_Mailbox ref) (rf_Key ref)) as (-> & -> & ->).
  destruct ref as [v m k]. cbn [rf_Vhost rf_Mailbox rf_Key] in *.
  rewrite (proj2 (String.eqb_neq v "") Hv), (proj2 (String.eqb_neq m "") Hm), (proj2 (String.eqb_neq k "") Hk). cbn [orb].
  unfold bind, ret. destruct (s_Read rctx _ w) as [[b|e] w']; by split.
Qed.

(** Handlers that are [with_JSON] up to the monad laws. *)
Ltac with_json := intros r w0; cbn [rt_Handler]; unfold with_JSON, bind, ret; repeat case_match; by simplify_eq.

Definition key_arrives (v : Vhost) : Prop := ∀ key, vh_DKIMKey v = Some key →
  rsaKeyToPEM (W := W) key ≠ "" ∧ pemToRSAKey (W := W) (rsaKeyToPEM (W := W) key) = Ok key.

Lemma client_Vhost_spec domain w :
  "/internal/v1/directory/vhost" ∈ granted role → travels (mkVhostRequest domain) → travels (mkVhostResponse false None) →
  (∀ v, fst (d_Vhost rctx domain w) = Some v → travels (mkVhostResponse true (Some (dto_of (W := W) v))) ∧ key_arrives v) →
  client_Vhost c ctx domain w = let '(v, w') := d_Vhost rctx domain w in (arrived <$> v, w').
Proof.
  intros Hg Hx Hn Hv. unfold client_Vhost, bind at 1.
  pose proof (into_relayed (R := vhostResponse) "/internal/v1/directory/vhost" (mkVhostRequest domain)
    (mkRoute MethodPost "/internal/v1/directory/vhost" ScopeDirectoryVhost handleVhost)
    (λ req, let* v := d_Vhost rctx (vq_Domain req) in ret (Ok v))
    (λ v, match v with None => mkVhostResponse false None | Some v => mkVhostResponse true (Some (dto_of (W := W) v)) end)
    500 w ltac:(done) eq_refl Hg Hx) as Hi.
  unfold bind, ret in Hi. cbn [vq_Domain] in Hi. destruct (d_Vhost rctx domain w) as [v w'] eqn:Ev. cbn [fst] in Hi, Hv.
  rewrite Hi.
  - destruct v as [v|]; [|done]. unfold ret. simpl. f_equal. f_equal. by apply vhost_round_trip, Hv.
  - intros b [= <-]. destruct v as [v|]; [by apply Hv|done].
  - unfold handleVhost. with_json.
Qed.

Lemma client_Authenticate_spec v l p w :
  "/internal/v1/directory/authenticate" ∈ granted role → travels (mkAuthRequest v l p) → (∀ b, travels (mkAuthResponse b)) →
  client_Authenticate c ctx v l p w = d_Authenticate rctx v l p w.
Proof.
  intros Hg Hx Hb. unfold client_Authenticate, bind at 1.
  pose proof (into_relayed (R := authenticateResponse) "/internal/v1/directory/authenticate" (mkAuthRequest v l p)
    (mkRoute MethodPost "/internal/v1/directory/authenticate" ScopeDirectoryAuthenticate handleAuthenticate)
    (λ req, let* b := d_Authenticate rctx (aq_Vhost req) (aq_LocalPart req) (aq_Password req) in ret (Ok b))
    mkAuthResponse 500 w ltac:(done) eq_refl Hg Hx) as Hi.
  unfold bind, ret in Hi. cbn [aq_Vhost aq_LocalPart aq_Password] in Hi.
  destruct (d_Authenticate rctx v l p w) as [b w'] eqn:Ev. rewrite Hi; [done|by intros ? [= <-]|].
  unfold handleAuthenticate. with_json.
Qed.

Lemma client_List_spec v m w :
  "/internal/v1/store/list" ∈ granted role → travels (mkListRequest v m) →
  (∀ l, fst (s_List rctx v m w) = Ok l → travels (mkListResponse (meta_dto <$> l))) →
  relayed (s_List rctx v m w) (client_List c ctx v m w).
Proof.
  intros Hg Hx Hl. unfold client_List, mtry.
  pose proof (into_relayed (R := listResponse) "/internal/v1/store/list" (mkListRequest v m)
    (mkRoute MethodPost "/internal/v1/store/list" ScopeStoreList handleStoreList)
    (λ req, s_List rctx (lq_Vhost req) (lq_Mailbox req)) (λ l, mkListResponse (meta_dto <$> l)) 500 w
    ltac:(done) eq_refl Hg Hx Hl) as Hi.
  cbn [lq_Vhost lq_Mailbox] in Hi. destruct (s_List rctx v m w) as [[l|e] w'].
  - rewrite Hi by (unfold handleStoreList; with_json). split; [done|]. simpl. f_equal.
    rewrite <-list_fmap_compose. rewrite <-(list_fmap_id l) at 2. apply list_fmap_ext. intros i x _. apply dto_meta_dto.
  - destruct Hi as [e' ->]; [unfold handleStoreList; with_json|]. by split.
Qed.

Lemma client_Allow_spec k cap rate w :
  "/internal/v1/ratelimit/allow" ∈ granted role → travels (mkAllowRequest k cap rate) → (∀ b, travels (mkAllowResponse b)) →
  relayed (lim_Allow rctx k cap rate w) (client_Allow c ctx k cap rate w).
Proof.
  intros Hg Hx Hb. unfold client_Allow, mtry.
  pose proof (into_relayed (R := rateLimitAllowResponse) "/internal/v1/ratelimit/allow" (mkAllowRequest k cap rate)
    (mkRoute MethodPost "/internal/v1/ratelimit/allow" ScopeRateLimitAllow handleRateLimitAllow)
    (λ req, lim_Allow rctx (rq_Key req) (rq_Capacity req) (rq_RefillPerSecond req)) mkAllowResponse 500 w
    ltac:(done) eq_refl Hg Hx (λ b _, Hb b)) as Hi.
  cbn [rq_Key rq_Capacity rq_RefillPerSecond] in Hi. destruct (lim_Allow rctx k cap rate w) as [[b|e] w'].
  - rewrite Hi by (unfold handleRateLimitAllow; with_json). by split.
  - destruct Hi as [e' ->]; [unfold handleRateLimitAllow; with_json|]. by split.
Qed.

Lemma client_UpdateFlags_spec ref fl w :
  "/internal/v1/store/updateflags" ∈ granted role → travels (mkFlagsRequest (rf_Vhost ref) (rf_Mailbox ref) (rf_Key ref) fl) →
  relayed (s_UpdateFlags rctx ref fl w) (client_UpdateFlags c ctx ref fl w).
Proof.
  intros Hg Hx. destruct ref as [v m k].
  apply (only_relayed "/internal/v1/store/updateflags" (mkFlagsRequest v m k fl)
    (mkRoute MethodPost "/internal/v1/store/updateflags" ScopeStoreUpdateFlags handleStoreUpdateFlags)
    (λ req, s_UpdateFlags rctx (mkRef (uq_Vhost req) (uq_Mailbox req) (uq_Key req)) (uq_Flags req)) w); [done..|].
  unfold handleStoreUpdateFlags. with_json.
Qed.

Lemma client_Enqueue_spec job w :
  "/internal/v1/queue/enqueue" ∈ granted role → Attempts job = 0 → LastError job = "" →
  travels (mkEnqueueRequest (ID job) (Queue.Vhost job) (From job) (To job) (BodyRef job) (NextAttemptAt job) (CorrelationID job)) →
  relayed (q_Enqueue rctx job w) (client_Enqueue c ctx job w).
Proof.
  intros Hg Ha Hl Hx. destruct job as [id v f t b a n le cid]. simpl in Ha, Hl. subst a le.
  apply (only_relayed "/internal/v1/queue/enqueue" (mkEnqueueRequest id v f t b n cid)
    (mkRoute MethodPost "/internal/v1/queue/enqueue" ScopeQueueEnqueue handleQueueEnqueue)
    (λ req, q_Enqueue rctx (mkJob (eq_ID req) (eq_Vhost req) (eq_From req) (eq_To req) (eq_BodyRef req) 0
       (eq_NextAttemptAt req) "" (eq_CorrelationID req))) w); [done..|].
  unfold handleQueueEnqueue. with_json.
Qed.

Lemma client_hook_spec v t p w :
  "/internal/v1/webhook/enqueue" ∈ granted role → travels (mkHookRequest v t p) →
  relayed (wh_Enqueue rctx v t p w) (client_hook c ctx v t p w).
Proof.
  intros Hg Hx.
  apply (only_relayed "/internal/v1/webhook/enqueue" (mkHookRequest v t p)
    (mkRoute MethodPost "/internal/v1/webhook/enqueue" ScopeWebhookEnqueue handleWebhookEnqueue)
    (λ req, wh_Enqueue rctx (hq_Vhost req) (hq_EventType req) (hq_Payload req)) w); [done..|].
  unfold handleWebhookEnqueue. with_json.
Qed.
End Remote.

(** A caller's context as the server sees it: no header carries its correlation
    ID. *)
Definition uncorrelated (ctx : Ctx) : Ctx := mkCtx (ctx_Err ctx) "".

Section RemoteClaims.
Context {W : Type} {HD : Directory W} {HS : MessageStore W} {HQ : QueueBackend W Job} {HL : Limiter W} {HW : Enqueuer W}
  {HC : Crypto W} {HJ : WireJSON} {HT : ErrorText} {HH : HTTPClient W}.

(** The directory, store, mail queue and limiter do not look at the correlation
    ID of their context: each implementation only asks whether it is cancelled. *)
Record heedless : Prop := {
  hd_vhost : ∀ ctx d (w : W), d_Vhost (uncorrelated ctx) d w = d_Vhost ctx d w;
  hd_auth : ∀ ctx v l p (w : W), d_Authenticate (uncorrelated ctx) v l p w = d_Authenticate ctx v l p w;
  hd_write : ∀ ctx v m b (w : W), s_Write (uncorrelated ctx) v m b w = s_Write ctx v m b w;
  hd_read : ∀ ctx ref (w : W), s_Read (uncorrelated ctx) ref w = s_Read ctx ref w;
  hd_list : ∀ ctx v m (w : W), s_List (uncorrelated ctx) v m w = s_List ctx v m w;
  hd_flags : ∀ ctx ref fl (w : W), s_UpdateFlags (uncorrelated ctx) ref fl w = s_UpdateFlags ctx ref fl w;
  hd_enqueue : ∀ ctx (job : Job) (w : W), q_Enqueue (uncorrelated ctx) job w = q_Enqueue ctx job w;
  hd_allow : ∀ ctx k cap rate (w : W), lim_Allow (uncorrelated ctx) k cap rate w = lim_Allow ctx k cap rate w;
}.

(** C36: what a remote call does, in terms of the same call made in the api
    process.  Between a connected client and server, for a caller whose context
    is live and values that survive their JSON encoding, every granted
    operation on the directory, the store, the mail queue and the limiter has on
    the api process's state exactly the effect of the direct call under the
    caller's own context, and answers as it does: the same yes or no,
    reference, body, listing or acknowledgement, and an error where it errs.
    Two things do not cross the wire, and the claim says so: the vhost arrives
    whole but for its account, which is empty; and the caller's correlation ID
    is lost, so a webhook event is enqueued as by a caller that has none. *)
Theorem remote_call_exact c s role ctx (w : W) :
  connected c s Background role ctx → heedless → ctx_Err ctx = None →
  (∀ domain, "/internal/v1/directory/vhost" ∈ granted role → travels (mkVhostRequest domain) →
     travels (mkVhostResponse false None) →
     (∀ v, fst (d_Vhost ctx domain w) = Some v →
        travels (mkVhostResponse true (Some (dto_of (W := W) v))) ∧ key_arrives (W := W) v) →
     client_Vhost c ctx domain w = let '(v, w') := d_Vhost ctx domain w in (arrived <$> v, w')) ∧
  (∀ v l p, "/internal/v1/directory/authenticate" ∈ granted role → travels (mkAuthRequest v l p) →
     (∀ b, travels (mkAuthResponse b)) → client_Authenticate c ctx v l p w = d_Authenticate ctx v l p w) ∧
  (∀ v m body, "/internal/v1/store/write" ∈ granted role → v ≠ "" → m ≠ "" →
     (∀ ref, fst (s_Write ctx v m body w) = Ok ref →
        travels (mkWriteResponse (rf_Vhost ref) (rf_Mailbox ref) (rf_Key ref))) →
     relayed (s_Write ctx v m body w) (client_Write c ctx v m body w)) ∧
  (∀ ref, "/internal/v1/store/read" ∈ granted role → rf_Vhost ref ≠ "" → rf_Mailbox ref ≠ "" → rf_Key ref ≠ "" →
     relayed (s_Read ctx ref w) (client_Read c ctx ref w)) ∧
  (∀ v m, "/internal/v1/store/list" ∈ granted role → travels (mkListRequest v m) →
     (∀ l, fst (s_List ctx v m w) = Ok l → travels (mkListResponse (meta_dto <$> l))) →
     relayed (s_List ctx v m w) (client_List c ctx v m w)) ∧
  (∀ ref fl, "/internal/v1/store/updateflags" ∈ granted role →
     travels (mkFlagsRequest (rf_Vhost ref) (rf_Mailbox ref) (rf_Key ref) fl) →
     relayed (s_UpdateFlags ctx ref fl w) (client_UpdateFlags c ctx ref fl w)) ∧
  (∀ job, "/internal/v1/queue/enqueue" ∈ granted role → Attempts job = 0 → LastError job = "" →
     travels (mkEnqueueRequest (ID job) (Queue.Vhost job) (From job) (To job) (BodyRef job) (NextAttemptAt job)
                (CorrelationID job)) →
     relayed (q_Enqueue ctx job w) (client_Enqueue c ctx job w)) ∧
  (∀ k cap rate, "/internal/v1/ratelimit/allow" ∈ granted role → travels (mkAllowRequest k cap rate) →
     (∀ b, travels (mkAllowResponse b)) →
     relayed (lim_Allow ctx k cap rate w) (client_Allow c ctx k cap rate w)) ∧
  (∀ v t p, "/internal/v1/webhook/enqueue" ∈ granted role → travels (mkHookRequest v t p) →
     relayed (wh_Enqueue (uncorrelated ctx) v t p w) (client_hook c ctx v t p w)).
Proof.
  intros CN [] Hc. assert (Eb : uncorrelated ctx = Background) by (unfold uncorrelated; by rewrite Hc).
  split_and!; intros.
  - rewrite <-hd_vhost0, Eb in *. by eapply client_Vhost_spec.
  - rewrite <-hd_auth0, Eb. by eapply client_Authenticate_spec.
  - rewrite <-hd_write0, Eb in *. by eapply client_Write_spec.
  - rewrite <-hd_read0, Eb. by eapply client_Read_spec.
  - rewrite <-hd_list0, Eb in *. by eapply client_List_spec.
  - rewrite <-hd_flags0, Eb. by eapply client_UpdateFlags_spec.
  - rewrite <-hd_enqueue0, Eb. by eapply client_Enqueue_spec.
  - rewrite <-hd_allow0, Eb. by eapply client_Allow_spec.
  - rewrite Eb. by eapply client_hook_spec.
Qed.
End RemoteClaims.

(** ** A run

    An inbound role's client against a server whose store is a list of
    (vhost, mailbox, body), and whose webhook dispatcher notes there the vhost,
    the event's type and the correlation ID it was called under. *)
Module InternalExample.
Definition SW : Type := list (string * string * string).
#[export] Instance text : ErrorText := λ _, "error".
#[export] Instance crypto : Crypto SW := {
  rsa_GenerateKey := ret (Ok "k"); x509_ParsePKCS1 k := Ok k; pem_Encode t b := "PEM" +:+ b; pem_Decode s := Some (str_drop 3 s);
  bcrypt_Generate p := ret (Ok p); bcrypt_Compare := String.eqb;
}.
#[export] Instance dir : Directory SW := {
  d_Vhost _ _ := ret None; d_VhostActive _ _ := ret false; d_Authenticate _ _ _ _ := ret false }.
#[export] Instance store : MessageStore SW := {
  s_Write _ v m body := λ w, match body with
                             | Ok b => (Ok (mkRef v m "k1"), (v, m, b) :: w)
                             | Err e => (Err e, w)
                             end;
  s_Read _ _ := ret (Err (ErrNew "none")); s_List _ _ _ := ret (Ok []); s_ListVhost _ _ := ret (Ok []);
  s_UpdateFlags _ _ _ := ret (Ok tt); s_Delete _ _ := ret (Ok tt) }.
#[export] Instance queue : QueueBackend SW Job := {
  q_Enqueue _ _ := ret (Ok tt); q_Dequeue _ := ret (Ok None); q_Complete _ _ := ret (Ok tt); q_Fail _ _ _ _ := ret (Ok tt) }.
#[export] Instance limiter : Limiter SW := λ _ _ _ _, ret (Ok true).
#[export] Instance hooks : Enqueuer SW := λ ctx v t _ w, (Ok tt, (v, t, ctx_CorrelationID ctx) :: w).

(** Two messages, as query strings; the others are not used here. *)
Definition unused {T} : JSONCodec T := {| Marshal _ := Err (ErrNew "json"); Unmarshal _ := Err (ErrNew "json") |}.
Definition write_codec : JSONCodec writeResponse := {|
  Marshal r := Ok (query_of [("v", wp_Vhost r); ("m", wp_Mailbox r); ("k", wp_Key r)]);
  Unmarshal s := let q := ParseQuery s in Ok (mkWriteResponse (Get q "v") (Get q "m") (Get q "k"))
|}.
Definition hook_codec : JSONCodec webhookEnqueueRequest := {|
  Marshal r := Ok (query_of [("v", hq_Vhost r); ("t", hq_EventType r); ("p", hq_Payload r)]);
  Unmarshal s := let q := ParseQuery s in Ok (mkHookRequest (Get q "v") (Get q "t") (Get q "p"))
|}.
#[export] Instance wire : WireJSON := {
  wire_error := unused; wire_vhostq := unused; wire_vhostp := unused; wire_authq := unused; wire_authp := unused;
  wire_writep := write_codec; wire_listq := unused; wire_listp := unused; wire_flagsq := unused;
  wire_enqueueq := unused; wire_allowq := unused; wire_allowp := unused; wire_hookq := hook_codec;
}.
Definition server : Server := mkServer (<["inbound-secret" := "smtp-inbound"]> ∅).
Definition client : httpClient := newHTTPClient "http://api:8081/" "inbound-secret".
#[export] Instance http : HTTPClient SW := {
  NewRequest_error _ := None;
  hc_Do _ _ r := λ w, let '(resp, w') := Handler server Background r w in (Ok resp, w');
  Status_line n := pretty n;
}.
End InternalExample.

Import InternalExample.

Lemma remote_call_exact_witness :
  let ctx := mkCtx None "c-1" in
  let r := client_Write client ctx "a.test" "jo e&/INBOX" (Ok "hello") [] in
  let h := client_hook client ctx "a.test" "message.received" "{}" [] in
  snd r = [("a.test", "jo e&/INBOX", "hello")] ∧ fst r = Ok (mkRef "a.test" "jo e&/INBOX" "k1") ∧
  fst h = Ok tt ∧ snd h = [("a.test", "message.received", "")] ∧
  snd (wh_Enqueue ctx "a.test" "message.received" "{}" []) = [("a.test", "message.received", "c-1")].
Proof.
  assert (CN : connected client server Background "smtp-inbound" (mkCtx None "c-1")) by (split; [done|done|by split]).
  assert (Hh : heedless (W := SW)) by (by split).
  destruct (remote_call_exact client server "smtp-inbound" (mkCtx None "c-1") [] CN Hh eq_refl)
    as (_ & _ & Hw & _ & _ & _ & _ & _ & Hk).
  destruct (Hw "a.test" "jo e&/INBOX" (Ok "hello")) as [? ?]; [set_solver|done|done| |].
  { intros ref [= <-]. eexists. split; [reflexivity|]. by vm_compute. }
  destruct (Hk "a.test" "message.received" "{}") as [? ?]; [set_solver| |by split_and!].
  eexists. split; [reflexivity|]. by vm_compute.
Defined.
