(* ===== verification/Imap.v ===== *)
(** * The IMAP role (internal/platform/imap)

    A session over one account's mailboxes: LOGIN, SELECT, STATUS, FETCH and
    STORE (session.go), and [Boot]'s checks (platform.go).  go-imap parses the
    commands, keeps the protocol state and writes the responses: its number
    sets, LIST patterns and response writer are parameters. *)

From stdpp Require Import gmap pretty.
From S2P Require Import Maildir Prelude Table Directory Webhook Storage.

(** ** Session data *)

Definition allFlags : list string := [FlagSeen; FlagAnswered; FlagFlagged; FlagDeleted; FlagDraft].

(** A NO response with this text. *)
Definition errNotSupported (command : string) : goerr := IMAPError (command +:+ " not supported").

Definition ErrAuthFailed : goerr := Sentinel "imapserver.ErrAuthFailed".

Record session := mkSession {
  local : string;
  vhost : string;
  mailbox : string;
  view : list MessageMeta;
}.

Definition NewSession : session := mkSession "" "" "" [].

(** A number set by what it contains: sequence numbers, UIDs, or neither. *)
Inductive NumSet := SeqSet (contains : Z → bool) | UIDSet (contains : Z → bool) | OtherSet.

Definition numSetContains (numSet : NumSet) (seqNum uid : Z) : bool :=
  match numSet with
  | SeqSet contains => contains seqNum
  | UIDSet contains => contains uid
  | OtherSet => false
  end.

Inductive StoreOp := StoreFlagsSet | StoreFlagsAdd | StoreFlagsDel.
Record StoreFlags := mkStoreFlags { sf_Op : StoreOp; sf_Flags : list string; sf_Silent : bool }.

(** The items FETCH was asked for; a body section as the client wrote it. *)
Record FetchOptions := mkFetchOptions { fo_UID : bool; fo_Flags : bool; fo_RFC822Size : bool; fo_BodySection : list string }.

(** What a FETCH response is made of. *)
Inductive fetch_item :=
| IMessage (n : Z) | IUID (n : Z) | IFlags (fl : list string) | ISize (n : Z) | IBody (sec body : string) | IEnd.

(** go-imap's response writer. *)
Class FetchWriter (W : Type) := {
  fw_CreateMessage : Z → M W unit;
  fw_WriteUID : Z → M W unit;
  fw_WriteFlags : list string → M W unit;
  fw_WriteRFC822Size : Z → M W unit;
  fw_WriteBodySection : string → string → M W (res unit);  (* the section, its literal *)
  fw_Close : M W (res unit);
}.

(** [uint32(i + 1)]. *)
Definition seq_num (i : nat) : Z := (Z.of_nat i + 1) mod 2 ^ 32.

Definition set_flags (fl : list string) (m : MessageMeta) : MessageMeta :=
  mkMeta (mm_Ref m) (mm_Size m) fl (mm_CreatedAt m).

Definition applyStoreOp (current : list string) (st : StoreFlags) : list string :=
  let set : gset string := list_to_set current in
  let flags : gset string := list_to_set (sf_Flags st) in
  let set := match sf_Op st with
             | StoreFlagsSet => flags
             | StoreFlagsAdd => set ∪ flags
             | StoreFlagsDel => set ∖ flags
             end in
  sort_by str_leb (elements set).

Definition by_key (a b : MessageMeta) : bool := str_leb (rf_Key (mm_Ref a)) (rf_Key (mm_Ref b)).

(** A [goimap.Flag] is the string it converts. *)
Definition toIMAPFlags (flags : list string) : list string := (λ f, f) <$> flags.

Lemma toIMAPFlags_id flags : toIMAPFlags flags = flags.
Proof. apply list_fmap_id. Qed.

(** What SELECT and STATUS report. *)
Record SelectData := mkSelectData {
  sd_Flags : list string;
  sd_PermanentFlags : list string;
  sd_NumMessages : Z;
  sd_UIDNext : Z;
  sd_UIDValidity : Z;
}.
Record StatusData := mkStatusData { st_Mailbox : string; st_UIDValidity : Z; st_UIDNext : Z; st_NumMessages : option Z }.

(** ** Operations *)

Section Ops.
Context {W : Type} `{HD : Directory W, HS : MessageStore W, HF : FetchWriter W}.

Definition Login (s : session) (username password : string) : M W (session * res unit) :=
  match ParseAddress username with
  | None => ret (s, Err ErrAuthFailed)
  | Some (l, v) =>
      let* ok := d_Authenticate Background v l password in
      ret (if negb ok then (s, Err ErrAuthFailed) else (mkSession l v (mailbox s) (view s), Ok tt))
  end.

(** LIST: INBOX once, if some pattern matches it ([MatchList]). *)
Definition List_ (MatchList : string → string → string → bool) (ref : string) (patterns : list string) : list string :=
  if existsb (MatchList "INBOX" ref) patterns then ["INBOX"] else [].

Definition listMailbox (s : session) (folder : string) : M W (res (list MessageMeta)) :=
  let? metas := s_List Background (vhost s) (MailboxPath (local s) folder) in
  ret (Ok (sort_by by_key metas)).

Definition Select (s : session) (mb : string) : M W (session * res SelectData) :=
  let* r := listMailbox s mb in
  ret (match r with
       | Err e => (s, Err e)
       | Ok metas =>
           let n := Z.of_nat (length metas) in
           (mkSession (local s) (vhost s) mb metas,
            Ok (mkSelectData allFlags allFlags (n mod 2 ^ 32) ((n + 1) mod 2 ^ 32) 1))
       end).

Definition Status (s : session) (mb : string) (NumMessages : bool) : M W (res StatusData) :=
  let? metas := listMailbox s mb in
  let n := Z.of_nat (length metas) in
  ret (Ok (mkStatusData mb 1 ((n + 1) mod 2 ^ 32) (if NumMessages then Some (n mod 2 ^ 32) else None))).

Definition Unselect (s : session) : session := mkSession (local s) (vhost s) "" [].

Definition readBody (ref : MessageRef) : M W (res string) := s_Read Background ref.

Definition fetch_body (ref : MessageRef) (sec : string) : M W (res unit) :=
  let* body := readBody ref in
  match body with
  | Err e => let* _ := fw_Close in ret (Err e)
  | Ok body =>
      let* wr := fw_WriteBodySection sec body in
      match wr with
      | Err e => let* _ := fw_Close in ret (Err e)
      | Ok _ => ret (Ok tt)
      end
  end.

Fixpoint fetch_bodies (ref : MessageRef) (secs : list string) : M W (res unit) :=
  match secs with
  | [] => ret (Ok tt)
  | sec :: secs => let? _ := fetch_body ref sec in fetch_bodies ref secs
  end.

Definition fetch_one (options : FetchOptions) (i : nat) (m : MessageMeta) : M W (res unit) :=
  let* _ := fw_CreateMessage (seq_num i) in
  let* _ := (if fo_UID options then fw_WriteUID (seq_num i) else ret tt) in
  let* _ := (if fo_Flags options then fw_WriteFlags (toIMAPFlags (mm_Flags m)) else ret tt) in
  let* _ := (if fo_RFC822Size options then fw_WriteRFC822Size (mm_Size m) else ret tt) in
  let? _ := fetch_bodies (mm_Ref m) (fo_BodySection options) in
  fw_Close.

Fixpoint fetch_from (numSet : NumSet) (options : FetchOptions) (i : nat) (l : list MessageMeta) : M W (res unit) :=
  match l with
  | [] => ret (Ok tt)
  | m :: l =>
      let? _ := (if numSetContains numSet (seq_num i) (seq_num i) then fetch_one options i m else ret (Ok tt)) in
      fetch_from numSet options (S i) l
  end.

Definition Fetch (s : session) (numSet : NumSet) (options : FetchOptions) : M W (res unit) :=
  fetch_from numSet options 0 (view s).

(** The FETCH response of one stored message. *)
Definition report (i : nat) (fl : list string) (silent : bool) : M W (res unit) :=
  if silent then ret (Ok tt)
  else
    let* _ := fw_CreateMessage (seq_num i) in
    let* _ := fw_WriteFlags (toIMAPFlags fl) in fw_Close.

(** The loop of [Store] from index [i]: what the view becomes. *)
Fixpoint store_from (numSet : NumSet) (st : StoreFlags) (i : nat) (l : list MessageMeta)
  : M W (list MessageMeta * res unit) :=
  match l with
  | [] => ret ([], Ok tt)
  | m :: l =>
      if negb (numSetContains numSet (seq_num i) (seq_num i)) then
        let* r := store_from numSet st (S i) l in ret (m :: r.1, r.2)
      else
        let newFlags := applyStoreOp (mm_Flags m) st in
        let* e := s_UpdateFlags Background (mm_Ref m) newFlags in
        match e with
        | Err e => ret (m :: l, Err e)
        | Ok _ =>
            let m := set_flags newFlags m in
            let* e := report i newFlags (sf_Silent st) in
            match e with
            | Err e => ret (m :: l, Err e)
            | Ok _ => let* r := store_from numSet st (S i) l in ret (m :: r.1, r.2)
            end
        end
  end.

Definition Store_ (s : session) (numSet : NumSet) (st : StoreFlags) : M W (session * res unit) :=
  let* r := store_from numSet st 0 (view s) in
  ret (mkSession (local s) (vhost s) (mailbox s) r.1, r.2).

(** The commands FR-7 does not need. *)
Definition session_Create : res unit := Err (errNotSupported "CREATE").
Definition session_Delete : res unit := Err (errNotSupported "DELETE").
Definition session_Rename : res unit := Err (errNotSupported "RENAME").
Definition session_Subscribe : res unit := Err (errNotSupported "SUBSCRIBE").
Definition session_Unsubscribe : res unit := Err (errNotSupported "UNSUBSCRIBE").
Definition session_Append : res unit := Err (errNotSupported "APPEND").
Definition session_Idle : res unit := Err (errNotSupported "IDLE").
Definition session_Expunge : res unit := Err (errNotSupported "EXPUNGE").
Definition session_Search : res unit := Err (errNotSupported "SEARCH").
Definition session_Copy : res unit := Err (errNotSupported "COPY").
Definition session_Move : res unit := Err (errNotSupported "MOVE").

(** POLL reports nothing, and closing a session does nothing. *)
Definition session_Poll : res unit := Ok tt.
Definition session_Close : res unit := Ok tt.

(** NAMESPACE: the personal namespaces, by prefix and delimiter. *)
Definition session_Namespace : res (list (string * ascii)) := Ok [("", "/"%char)].

(** The commands. *)
Inductive command :=
| CLogin (username password : string) | CSelect (mb : string) | CStatus (mb : string) (num : bool) | CUnselect
| CFetch (numSet : NumSet) (options : FetchOptions) | CStore (numSet : NumSet) (st : StoreFlags)
| CNamespace | CPoll | CClose
| CCreate | CDelete | CRename | CSubscribe | CUnsubscribe | CAppend | CIdle | CExpunge | CSearch | CCopy | CMove.

Definition step (s : session) (c : command) : M W (session * res unit) :=
  match c with
  | CLogin u p => Login s u p
  | CSelect mb => let* r := Select s mb in ret (r.1, match r.2 with Ok _ => Ok tt | Err e => Err e end)
  | CStatus mb num => let* r := Status s mb num in ret (s, match r with Ok _ => Ok tt | Err e => Err e end)
  | CUnselect => ret (Unselect s, Ok tt)
  | CFetch n o => let* r := Fetch s n o in ret (s, r)
  | CStore n st => Store_ s n st
  | CNamespace => ret (s, match session_Namespace with Ok _ => Ok tt | Err e => Err e end)
  | CPoll => ret (s, session_Poll)
  | CClose => ret (s, session_Close)
  | CCreate => ret (s, session_Create)
  | CDelete => ret (s, session_Delete)
  | CRename => ret (s, session_Rename)
  | CSubscribe => ret (s, session_Subscribe)
  | CUnsubscribe => ret (s, session_Unsubscribe)
  | CAppend => ret (s, session_Append)
  | CIdle => ret (s, session_Idle)
  | CExpunge => ret (s, session_Expunge)
  | CSearch => ret (s, session_Search)
  | CCopy => ret (s, session_Copy)
  | CMove => ret (s, session_Move)
  end.

Fixpoint run (s : session) (l : list command) : M W session :=
  match l with
  | [] => ret s
  | c :: l => let* r := step s c in run r.1 l
  end.

(** [Boot]: the listener is the system's, and TLS is required. *)
Definition Boot {L} (Listen : string → M W (res L)) (TLSConfig : bool) (addr : string) : M W (res L) :=
  if negb TLSConfig then ret (Err (Errorf "imap: TLSConfig is required (FR-7.1: implicit TLS)" []))
  else wrap (ErrorfW "imap: listen on %s: %w" [addr]) (Listen addr).
End Ops.

Lemma sorted_by_fmap {A B} (f : A → B) (le : B → B → bool) (l : list A) :
  sorted_by (λ a b, le (f a) (f b)) l → sorted_by le (f <$> l).
Proof. induction 1 as [|a l _ IH Hf]; constructor; [done|]. by apply Forall_fmap. Qed.

(** ** Flag arithmetic *)

Lemma applyStoreOp_spec current st f :
  f ∈ applyStoreOp current st ↔
  match sf_Op st with
  | StoreFlagsSet => f ∈ sf_Flags st
  | StoreFlagsAdd => f ∈ current ∨ f ∈ sf_Flags st
  | StoreFlagsDel => f ∈ current ∧ f ∉ sf_Flags st
  end.
Proof. unfold applyStoreOp. rewrite sort_by_perm, elem_of_elements. destruct (sf_Op st); set_solver. Qed.

Lemma applyStoreOp_NoDup current st : NoDup (applyStoreOp current st).
Proof. unfold applyStoreOp. rewrite sort_by_perm. apply NoDup_elements. Qed.

(** ** Facts *)

Section Facts.
Context {W A : Type} {HD : Directory W} {HS : MessageStore W} {HF : FetchWriter W} {inv : W → Prop}
  {addr : MessageRef → A} {norm : list string → list string} {box : string → string → Prop}
  {valid : MessageRef → Prop} {holds : W → A → string → list string → Prop}.
Context {SS : StoreSpec W A inv addr norm box valid holds}.

Notation iquiet := (quiet inv holds).

(** Everything but UpdateFlags leaves the store alone, and listings name
    messages the store can address. *)
Record imap_world : Prop := {
  iw_auth : ∀ ctx v l p, iquiet (d_Authenticate ctx v l p);
  iw_create : ∀ n, iquiet (fw_CreateMessage n);
  iw_uid : ∀ n, iquiet (fw_WriteUID n);
  iw_flags : ∀ l, iquiet (fw_WriteFlags l);
  iw_size : ∀ n, iquiet (fw_WriteRFC822Size n);
  iw_body : ∀ s b, iquiet (fw_WriteBodySection s b);
  iw_close : iquiet fw_Close;
  iw_read : ∀ ctx r, iquiet (s_Read ctx r);
  iw_list : ∀ ctx v m, iquiet (s_List ctx v m);
  iw_valid : ∀ ctx v m w l w', inv w → box v m → s_List ctx v m w = (Ok l, w') → Forall (λ x, valid (mm_Ref x)) l;
}.
Context (IW : imap_world).

(** References to messages of the selected mailbox of the session's own account. *)
Definition own (s : session) (ref : MessageRef) : Prop :=
  rf_Vhost ref = vhost s ∧ rf_Mailbox ref = MailboxPath (local s) (mailbox s) ∧ valid ref.

(** The view shows only these, in key order. *)
Definition view_ok (s : session) : Prop :=
  Forall (own s) (mm_Ref <$> view s) ∧ sorted_by (order_by rf_Key) (mm_Ref <$> view s).

Lemma listMailbox_spec s mb (w : W) r w' :
  inv w → box (vhost s) (MailboxPath (local s) mb) → listMailbox s mb w = (r, w') →
  inv w' ∧ holds w' = holds w ∧ ∀ l, r = Ok l →
    view_ok (mkSession (local s) (vhost s) mb l) ∧ ∃ l0, l ≡ₚ l0 ∧ fst (s_List Background (vhost s) (MailboxPath (local s) mb) w) = Ok l0.
Proof.
  intros Hi Hb. unfold listMailbox, mtry. destruct (s_List Background (vhost s) (MailboxPath (local s) mb) w) as [[l|e] w1] eqn:El;
    intros [= <- <-]; destruct (iw_list IW _ _ _ _ _ _ El) as [Hi1 Hh]; (split_and!; [auto|done|]); [|done].
  intros l' [= <-]. destruct (sp_List_ok _ _ _ _ _ _ Hi Hb El) as (_ & _ & Hin & _). pose proof (iw_valid IW _ _ _ _ _ _ Hi Hb El) as Hv.
  split; [|exists l; split; [apply sort_by_perm|done]]. split.
  - apply Forall_fmap. rewrite Forall_forall in Hv. apply Forall_forall. intros m Hm. simpl in Hm. rewrite sort_by_perm in Hm.
    destruct (Hin m Hm) as (? & ? & _). split_and!; auto.
  - simpl. apply sorted_by_fmap, sort_by_sorted. apply (order_by_total (λ m, rf_Key (mm_Ref m))).
Qed.

Lemma Fetch_quiet s n o : iquiet (Fetch s n o).
Proof.
  unfold Fetch. generalize 0%nat. induction (view s) as [|m l IH]; intros i; simpl; [apply quiet_ret|].
  assert (Hb : ∀ secs, iquiet (fetch_bodies (mm_Ref m) secs)).
  { induction secs as [|sec secs IHs]; simpl; unfold fetch_body, readBody; quiet_calls; auto; destruct IW; auto. }
  unfold fetch_one. quiet_calls; auto; destruct IW; auto.
Qed.

(** What the writer writes, and that the store has no part in it. *)
Record writer_spec (out : W → list fetch_item) : Prop := {
  wr_create : ∀ n w, out (snd (fw_CreateMessage n w)) = out w ++ [IMessage n];
  wr_uid : ∀ n w, out (snd (fw_WriteUID n w)) = out w ++ [IUID n];
  wr_flags : ∀ fl w, out (snd (fw_WriteFlags fl w)) = out w ++ [IFlags fl];
  wr_size : ∀ n w, out (snd (fw_WriteRFC822Size n w)) = out w ++ [ISize n];
  wr_body : ∀ sec b w w', fw_WriteBodySection sec b w = (Ok tt, w') → out w' = out w ++ [IBody sec b];
  wr_end : ∀ w w', fw_Close w = (Ok tt, w') → out w' = out w ++ [IEnd];
  wr_body_any : ∀ sec b w, out w `prefix_of` out (snd (fw_WriteBodySection sec b w));
  wr_end_any : ∀ w, out w `prefix_of` out (snd (fw_Close w));
  wr_read : ∀ ctx ref w, out (snd (s_Read ctx ref w)) = out w;
}.

(** The response for the message at index [i], with this body in each section. *)
Definition response (o : FetchOptions) (i : nat) (m : MessageMeta) (body : string) : list fetch_item :=
  [IMessage (seq_num i)] ++ (if fo_UID o then [IUID (seq_num i)] else [])
  ++ (if fo_Flags o then [IFlags (mm_Flags m)] else []) ++ (if fo_RFC822Size o then [ISize (mm_Size m)] else [])
  ++ ((λ sec, IBody sec body) <$> fo_BodySection o) ++ [IEnd].

(** The responses for messages from index [i] on, each with its body. *)
Fixpoint responses (numSet : NumSet) (o : FetchOptions) (i : nat) (l : list (MessageMeta * string)) : list fetch_item :=
  match l with
  | [] => []
  | (m, body) :: l =>
      (if numSetContains numSet (seq_num i) (seq_num i) then response o i m body else []) ++ responses numSet o (S i) l
  end.

Section Fetching.
Context (out : W → list fetch_item) (WR : writer_spec out).

Lemma fetch_body_spec ref sec (w : W) r w' : inv w → valid ref → fetch_body ref sec w = (r, w') →
  inv w' ∧ holds w' = holds w ∧ out w `prefix_of` out w' ∧
  (r = Ok tt → ∃ body f, holds w (addr ref) body f ∧ out w' = out w ++ [IBody sec body]).
Proof.
  intros Hi Hv. unfold fetch_body, readBody, bind, ret.
  destruct (s_Read Background ref w) as [[body|e] w1] eqn:Er; destruct (iw_read IW _ _ _ _ _ Er) as [Hi1 Hh1];
    pose proof (wr_read _ WR Background ref w) as Ho; rewrite Er in Ho; simpl in Ho.
  - destruct (sp_Read_ok _ _ _ _ _ Hi Hv Er) as (_ & _ & f & Hf).
    pose proof (wr_body_any _ WR sec body w1) as Hp.
    destruct (fw_WriteBodySection sec body w1) as [[[]|e] w2] eqn:Eb; destruct (iw_body IW _ _ _ _ _ Eb) as [Hi2 Hh2]; simpl in Hp.
    + intros [= <- <-]. rewrite Ho in Hp. split_and!; [auto|congruence|done|]. intros _. exists body, f. split; [done|].
      by rewrite (wr_body _ WR _ _ _ _ Eb), Ho.
    + pose proof (wr_end_any _ WR w2) as Hq. destruct (fw_Close w2) as [x w3] eqn:Ec.
      destruct (iw_close IW _ _ _ Ec) as [Hi3 Hh3]. intros [= <- <-]. rewrite Ho in Hp.
      split_and!; [auto|congruence|by etransitivity|done].
  - pose proof (wr_end_any _ WR w1) as Hq. destruct (fw_Close w1) as [x w3] eqn:Ec.
    destruct (iw_close IW _ _ _ Ec) as [Hi3 Hh3]. intros [= <- <-]. rewrite Ho in Hq. split_and!; [auto|congruence|done|done].
Qed.

Lemma fetch_bodies_spec ref secs (w : W) r w' : inv w → valid ref → fetch_bodies ref secs w = (r, w') →
  inv w' ∧ holds w' = holds w ∧ out w `prefix_of` out w' ∧
  (r = Ok tt → ∃ body, (secs ≠ [] → ∃ f, holds w (addr ref) body f) ∧
     out w' = out w ++ ((λ sec, IBody sec body) <$> secs)).
Proof.
  revert w. induction secs as [|sec secs IH]; intros w Hi Hv; simpl.
  { intros [= <- <-]. split_and!; try done. intros _. exists "". split; [done|]. by rewrite app_nil_r. }
  unfold mtry. destruct (fetch_body ref sec w) as [[[]|e] w1] eqn:E;
    apply fetch_body_spec in E as (Hi1 & Hh1 & Hp1 & Hok); [|done|done| |done|done].
  - intros E. apply IH in E as (Hi2 & Hh2 & Hp2 & Hok2); [|done..].
    split_and!; [done|congruence|by etransitivity|]. intros ->. destruct (Hok eq_refl) as (body & f & Hf & Ho1).
    destruct (Hok2 eq_refl) as (body2 & Hf2 & Ho2). exists body. split; [eauto|].
    rewrite Ho2, Ho1, <-app_assoc. simpl. do 2 f_equal. destruct secs as [|sec' secs]; [done|].
    destruct Hf2 as [f2 Hf2]; [done|]. rewrite Hh1 in Hf2. by destruct (sp_holds_fun _ _ _ _ _ _ Hi Hf Hf2) as [-> _].
  - intros [= <- <-]. by split_and!.
Qed.

(** The items before the body sections: each write is quiet and certain. *)
Lemma write_step {B} (m : M W unit) item (k : M W B) (w : W) r w' : iquiet m →
  (∀ w, out (snd (m w)) = out w ++ item) → bind m (λ _, k) w = (r, w') → inv w →
  ∃ w1, inv w1 ∧ holds w1 = holds w ∧ out w1 = out w ++ item ∧ k w1 = (r, w').
Proof.
  intros Hq Ho. unfold bind. specialize (Ho w). destruct (m w) as [[] w1] eqn:E. destruct (Hq _ _ _ E) as [Hi1 Hh1].
  intros E2 Hi. exists w1. split_and!; [auto|done|done|done].
Qed.

Lemma write_if {B} (c : bool) (m : M W unit) item (k : M W B) (w : W) r w' : iquiet m →
  (∀ w, out (snd (m w)) = out w ++ item) → bind (if c then m else ret tt) (λ _, k) w = (r, w') → inv w →
  ∃ w1, inv w1 ∧ holds w1 = holds w ∧ out w1 = out w ++ (if c then item else []) ∧ k w1 = (r, w').
Proof.
  intros Hq Ho. destruct c; [by apply write_step|]. intros E Hi. exists w. by rewrite app_nil_r.
Qed.

Lemma fetch_one_spec o i m (w : W) r w' : inv w → valid (mm_Ref m) → fetch_one o i m w = (r, w') →
  inv w' ∧ holds w' = holds w ∧ out w `prefix_of` out w' ∧
  (r = Ok tt → ∃ body, (fo_BodySection o ≠ [] → ∃ f, holds w (addr (mm_Ref m)) body f) ∧
     out w' = out w ++ response o i m body).
Proof.
  intros Hi Hv. unfold fetch_one. rewrite toIMAPFlags_id. intros E.
  apply (write_step _ _ _ _ _ _ (iw_create IW _) (wr_create _ WR _)) in E as (w1 & Hi1 & Hh1 & Ho1 & E); [|done].
  apply (write_if _ _ _ _ _ _ _ (iw_uid IW _) (wr_uid _ WR _)) in E as (w2 & Hi2 & Hh2 & Ho2 & E); [|done].
  apply (write_if _ _ _ _ _ _ _ (iw_flags IW _) (wr_flags _ WR _)) in E as (w3 & Hi3 & Hh3 & Ho3 & E); [|done].
  apply (write_if _ _ _ _ _ _ _ (iw_size IW _) (wr_size _ WR _)) in E as (w4 & Hi4 & Hh4 & Ho4 & E); [|done].
  revert E. unfold mtry. destruct (fetch_bodies _ _ w4) as [rb w5] eqn:Eb.
  apply fetch_bodies_spec in Eb as (Hi5 & Hh5 & Hp5 & Hok); [|done..].
  assert (Hpre : out w `prefix_of` out w5).
  { etransitivity; [|exact Hp5]. rewrite Ho4, Ho3, Ho2, Ho1, <-!app_assoc. by eexists. }
  destruct rb as [[]|e].
  - intros E. pose proof (wr_end_any _ WR w5) as Hq. rewrite E in Hq. destruct (iw_close IW _ _ _ E) as [Hi6 Hh6].
    split_and!; [auto|congruence|by etransitivity|]. intros ->. destruct (Hok eq_refl) as (body & Hb & Ho5).
    exists body. split; [by rewrite Hh4, Hh3, Hh2, Hh1 in Hb|].
    rewrite (wr_end _ WR _ _ E), Ho5, Ho4, Ho3, Ho2, Ho1. unfold response. by rewrite <-!app_assoc.
  - intros [= <- <-]. split_and!; [done|congruence|done|done].
Qed.

(** The bodies shown are those the store holds. *)
Definition stored_bodies (numSet : NumSet) (o : FetchOptions) (w : W) (i : nat) (shown : list (MessageMeta * string)) : Prop :=
  ∀ k m body, shown !! k = Some (m, body) → numSetContains numSet (seq_num (i + k)) (seq_num (i + k)) = true →
    fo_BodySection o ≠ [] → ∃ f, holds w (addr (mm_Ref m)) body f.

Lemma fetch_from_spec numSet o l i (w : W) r w' : inv w → Forall (λ m, valid (mm_Ref m)) l →
  fetch_from numSet o i l w = (r, w') →
  inv w' ∧ holds w' = holds w ∧ ∃ shown, shown.*1 `prefix_of` l ∧ stored_bodies numSet o w i shown ∧
    out w ++ responses numSet o i shown `prefix_of` out w' ∧
    (r = Ok tt → shown.*1 = l ∧ out w' = out w ++ responses numSet o i shown).
Proof.
  revert i w. induction l as [|m l IH]; intros i w Hi Hv; simpl.
  { intros [= <- <-]. split_and!; try done. exists []. simpl. rewrite app_nil_r. by split_and!. }
  apply Forall_cons in Hv as [Hm Hv]. unfold mtry.
  match goal with |- context [match ?x w with _ => _ end] => destruct (x w) as [rm w1] eqn:E1 end.
  assert (H1 : inv w1 ∧ holds w1 = holds w ∧ out w `prefix_of` out w1 ∧ (rm = Ok tt → ∃ body,
    stored_bodies numSet o w i [(m, body)] ∧ out w1 = out w ++ responses numSet o i [(m, body)])).
  { destruct (numSetContains numSet (seq_num i) (seq_num i)) eqn:En.
    - apply fetch_one_spec in E1 as (Hi1 & Hh1 & Hp1 & Hok); [|done..]. split_and!; [done..|]. intros Hrm.
      destruct (Hok Hrm) as (body & Hb & Ho). exists body. simpl. rewrite En, app_nil_r. split; [|done].
      intros [|k] m' b' [= <- <-] _. exact Hb.
    - injection E1 as <- <-. split_and!; [done..|]. intros _. exists "". simpl. rewrite En, app_nil_r. split; [|done].
      intros [|k] m' b' [= <- <-] Hc. rewrite Nat.add_0_r in Hc. congruence. }
  destruct H1 as (Hi1 & Hh1 & Hp1 & Hok1). destruct rm as [[]|e].
  - destruct (Hok1 eq_refl) as (body & Hb & Ho1). intros E.
    apply IH in E as (Hi2 & Hh2 & shown & Hsp & Hsb & Hpre & Hok2); [|done..].
    split_and!; [done|congruence|]. exists ((m, body) :: shown). simpl in *. rewrite app_nil_r in Ho1.
    rewrite Ho1, <-app_assoc in Hpre. split_and!; [by apply prefix_cons| |done|].
    + intros [|k] m' b' Hl Hc Hne; [by apply (Hb 0%nat m' b' Hl Hc Hne)|]. rewrite <-Hh1.
      apply (Hsb k m' b' Hl); [|done]. by rewrite Nat.add_succ_comm.
    + intros Hr. destruct (Hok2 Hr) as [Hs2 Ho2]. split; [by f_equal|]. by rewrite Ho2, Ho1, <-app_assoc.
  - intros [= <- <-]. split_and!; [done..|]. exists []. simpl. rewrite app_nil_r. split_and!; [by apply prefix_nil| |done|done].
    by intros [].
Qed.

Lemma view_ok_valid s : view_ok s → Forall (λ m, valid (mm_Ref m)) (view s).
Proof. intros [Hv _]. rewrite Forall_fmap in Hv. eapply Forall_impl; [exact Hv|]. by intros m (_ & _ & ?). Qed.
End Fetching.

Lemma report_quiet i fl silent : iquiet (report i fl silent).
Proof. unfold report. quiet_calls; destruct IW; auto. Qed.

(** What STORE has done to the first [n] messages of the view from index [i]. *)
Definition applied (numSet : NumSet) (st : StoreFlags) (n i : nat) (l : list MessageMeta) : list MessageMeta :=
  imap (λ j m, if bool_decide (j < n)%nat && numSetContains numSet (seq_num (i + j)) (seq_num (i + j))
               then set_flags (applyStoreOp (mm_Flags m) st) m else m) l.

(** The messages among them that were changed. *)
Definition touched (numSet : NumSet) (n i : nat) (l : list MessageMeta) (m : MessageMeta) : Prop :=
  ∃ j, l !! j = Some m ∧ (j < n)%nat ∧ numSetContains numSet (seq_num (i + j)) (seq_num (i + j)) = true.

(** The flags of the touched messages are the new ones, all else is as it was. *)
Definition flagged (numSet : NumSet) (st : StoreFlags) (n i : nat) (l : list MessageMeta) (w w' : W) : Prop :=
  ∀ a b f, holds w' a b f ↔
    (∃ m f0, touched numSet n i l m ∧ a = addr (mm_Ref m) ∧ f = norm (applyStoreOp (mm_Flags m) st) ∧ holds w a b f0) ∨
    (holds w a b f ∧ ∀ m, touched numSet n i l m → a ≠ addr (mm_Ref m)).

Lemma touched_none numSet i l m : ¬ touched numSet 0 i l m.
Proof. intros (j & _ & ? & _). lia. Qed.

Lemma touched_cons numSet n i x l m :
  touched numSet (S n) i (x :: l) m ↔
  (m = x ∧ numSetContains numSet (seq_num i) (seq_num i) = true) ∨ touched numSet n (S i) l m.
Proof.
  unfold touched. split.
  - intros ([|j] & Hj & Hn & Hc); simpl in Hj.
    + injection Hj as ->. left. by rewrite Nat.add_0_r in Hc.
    + right. exists j. rewrite <-Nat.add_succ_comm in Hc. split_and!; [done|lia|done].
  - intros [[-> Hc]|(j & Hj & Hn & Hc)].
    + exists 0%nat. rewrite Nat.add_0_r. split_and!; [done|lia|done].
    + exists (S j). rewrite <-Nat.add_succ_comm. split_and!; [done|lia|done].
Qed.

Lemma applied_0 numSet st i l : applied numSet st 0 i l = l.
Proof.
  unfold applied. rewrite <-(list_fmap_id l) at 2. rewrite <-imap_const. apply imap_ext. intros j m _. done.
Qed.

Lemma applied_cons numSet st n i x l :
  applied numSet st (S n) i (x :: l) =
  (if numSetContains numSet (seq_num i) (seq_num i) then set_flags (applyStoreOp (mm_Flags x) st) x else x)
  :: applied numSet st n (S i) l.
Proof.
  unfold applied. simpl. rewrite Nat.add_0_r. f_equal. apply imap_ext. intros j m _. simpl.
  rewrite Nat.add_succ_r, (bool_decide_ext (S j < S n)%nat (j < n)%nat) by lia. done.
Qed.

Lemma flagged_none numSet st i l (w w' : W) : (∀ a b f, holds w' a b f ↔ holds w a b f) → flagged numSet st 0 i l w w'.
Proof.
  intros Hh a b f. rewrite Hh. split.
  - intros H. right. split; [done|]. by intros m ?%touched_none.
  - intros [(m & _ & []%touched_none & _)|[H _]]. done.
Qed.

Lemma touched_addr numSet n i l m : touched numSet n i l m → addr (mm_Ref m) ∈ (λ m, addr (mm_Ref m)) <$> l.
Proof. intros (j & Hj & _). apply list_elem_of_fmap. exists m. split; [done|]. by eapply list_elem_of_lookup_2. Qed.

Lemma flagged_skip numSet st n i m l (w w' : W) : numSetContains numSet (seq_num i) (seq_num i) = false →
  flagged numSet st n (S i) l w w' → flagged numSet st (S n) i (m :: l) w w'.
Proof. intros Ec Hfl a b f. rewrite (Hfl a b f). setoid_rewrite touched_cons. rewrite Ec. naive_solver. Qed.

Lemma flagged_set numSet st n i m l (w w1 w' : W) b0 f0 :
  numSetContains numSet (seq_num i) (seq_num i) = true → inv w → holds w (addr (mm_Ref m)) b0 f0 →
  addr (mm_Ref m) ∉ (λ m, addr (mm_Ref m)) <$> l →
  (∀ a b f, holds w1 a b f ↔ (a = addr (mm_Ref m) ∧ b = b0 ∧ f = norm (applyStoreOp (mm_Flags m) st)) ∨
                             (a ≠ addr (mm_Ref m) ∧ holds w a b f)) →
  flagged numSet st n (S i) l w1 w' → flagged numSet st (S n) i (m :: l) w w'.
Proof.
  intros Ec Hi Hb0 Hm Hh1 Hfl a b f. rewrite (Hfl a b f). setoid_rewrite Hh1. setoid_rewrite touched_cons. rewrite Ec.
  assert (Hne : ∀ x, touched numSet n (S i) l x → addr (mm_Ref x) ≠ addr (mm_Ref m)).
  { intros x Ht E. apply Hm. rewrite <-E. by eapply touched_addr. }
  split.
  - intros [(x & g & Ht & -> & -> & [(E & _)|[_ Hg]])|[[(-> & -> & ->)|[Ha Hx]] Hall]].
    + by apply Hne in Ht.
    + left. exists x, g. auto.
    + left. exists m, f0. auto.
    + right. split; [done|]. intros x [[-> _]|Ht]; [done|]. by apply Hall.
  - intros [(x & g & [[-> _]|Ht] & -> & -> & Hg)|[Ha Hall]].
    + right. destruct (sp_holds_fun _ _ _ _ _ _ Hi Hg Hb0) as [-> _]. split; [by left|].
      intros x Ht E. by apply (Hne x Ht).
    + left. exists x, g. split_and!; [done..|]. right. auto.
    + right. split; [right; split; [apply Hall; by left|done]|]. intros x Ht. apply Hall. by right.
Qed.

Lemma flagged_quiet numSet st n i l (w w1 w' : W) : holds w1 = holds w →
  flagged numSet st n i l w1 w' → flagged numSet st n i l w w'.
Proof. unfold flagged. by intros ->. Qed.

Lemma imap_store_from_spec numSet st l i (w : W) l' r w' :
  inv w → Forall (λ m, valid (mm_Ref m)) l → NoDup ((λ m, addr (mm_Ref m)) <$> l) →
  store_from numSet st i l w = ((l', r), w') →
  inv w' ∧ ∃ n, (n ≤ length l)%nat ∧ (r = Ok tt → n = length l) ∧ l' = applied numSet st n i l ∧
    flagged numSet st n i l w w'.
Proof.
  revert i w l' r w'. induction l as [|m l IH]; intros i w l' r w' Hi Hv Hn; simpl.
  { unfold ret. intros [= <- <- <-]. split; [done|]. exists 0%nat. split_and!; [lia|done|done|by apply flagged_none]. }
  apply Forall_cons in Hv as [Hvm Hv]. rewrite fmap_cons in Hn. apply NoDup_cons in Hn as [Hm Hn].
  destruct (numSetContains numSet (seq_num i) (seq_num i)) eqn:Ec; cbn [negb].
  2:{ unfold bind, ret. destruct (store_from numSet st (S i) l w) as [[l1 r1] w1] eqn:E. intros [= <- <- <-].
    apply IH in E as (Hi1 & n & Hle & Hr & -> & Hfl); [|done..]. split; [done|]. exists (S n).
    split_and!; [lia|by intros ->%Hr|by rewrite applied_cons, Ec|by apply flagged_skip]. }
  unfold bind at 1. destruct (s_UpdateFlags Background (mm_Ref m) (applyStoreOp (mm_Flags m) st) w) as [[[]|e] w1] eqn:Eu.
  2:{ unfold ret. intros [= <- <- <-]. destruct (sp_UpdateFlags_err _ _ _ _ _ _ Hi Hvm Eu) as [Hi1 Hh].
    split; [done|]. exists 0%nat. split_and!; [lia|done|by rewrite applied_0|by apply flagged_none]. }
  destruct (sp_UpdateFlags_ok _ _ _ _ _ Hi Hvm Eu) as (Hi1 & b0 & f0 & Hb0 & Hh1).
  unfold bind at 1. destruct (report i (applyStoreOp (mm_Flags m) st) (sf_Silent st) w1) as [rw w2] eqn:Ew.
  destruct (report_quiet _ _ _ _ _ _ Ew) as [Hi2 Hh2]. specialize (Hi2 Hi1). destruct rw as [[]|e].
  - unfold bind, ret. destruct (store_from numSet st (S i) l w2) as [[l1 r1] w3] eqn:E. intros [= <- <- <-].
    apply IH in E as (Hi3 & n & Hle & Hr & -> & Hfl); [|done..]. split; [done|]. exists (S n).
    split_and!; [lia|by intros ->%Hr|by rewrite applied_cons, Ec|]. eapply flagged_set; [done..|by apply (flagged_quiet _ _ _ _ _ _ w2)].
  - unfold ret. intros [= <- <- <-]. split; [done|]. exists 1%nat. split_and!; [lia|done|by rewrite applied_cons, Ec, applied_0|].
    eapply flagged_set; [done..|]. apply flagged_none. intros a b f. by rewrite Hh2.
Qed.

(** *** What a session can do to the store *)

Context `{!EqDecision A}.

(** Of the account [l]@[v], nothing changes but in the folders [N]; outside it
    nothing does; and no message comes, goes or changes its body. *)
Definition account_effect (N : string → Prop) (v l : string) (w w' : W) : Prop :=
  (∀ a b f, (∀ mb k, N mb → valid (mkRef v (MailboxPath l mb) k) → a ≠ addr (mkRef v (MailboxPath l mb) k)) →
     holds w' a b f ↔ holds w a b f) ∧
  (∀ a b, (∃ f, holds w' a b f) ↔ ∃ f, holds w a b f).

Lemma account_effect_same N v l (w w' : W) : holds w' = holds w → account_effect N v l w w'.
Proof. unfold account_effect. intros ->. done. Qed.

Lemma account_effect_trans N v l (w1 w2 w3 : W) :
  account_effect N v l w1 w2 → account_effect N v l w2 w3 → account_effect N v l w1 w3.
Proof.
  intros [H1 H2] [H3 H4]. split.
  - intros a b f Ha. by rewrite H3, H1.
  - intros a b. by rewrite H4, H2.
Qed.

Lemma update_account (N : string → Prop) s ref fl (w w1 : W) r :
  inv w → N (mailbox s) → valid ref → rf_Vhost ref = vhost s → rf_Mailbox ref = MailboxPath (local s) (mailbox s) →
  s_UpdateFlags Background ref fl w = (r, w1) → inv w1 ∧ account_effect N (vhost s) (local s) w w1.
Proof.
  intros Hi HN Hv Hrv Hrm E. destruct r as [[]|e].
  - destruct (sp_UpdateFlags_ok _ _ _ _ _ Hi Hv E) as (Hi1 & b0 & f0 & Hb0 & Hh). split; [done|]. split.
    + intros a b f Ha. rewrite Hh. assert (Hne : a ≠ addr ref).
      { assert (Er : mkRef (vhost s) (MailboxPath (local s) (mailbox s)) (rf_Key ref) = ref) by (destruct ref; simpl in *; congruence).
        intros ->. by apply (Ha (mailbox s) (rf_Key ref)); rewrite ?Er. }
      tauto.
    + intros a b. setoid_rewrite Hh. split; [naive_solver|]. intros [f Hf].
      destruct (decide (a = addr ref)) as [->|Hne]; [|naive_solver].
      destruct (sp_holds_fun _ _ _ _ _ _ Hi Hf Hb0) as [-> _]. naive_solver.
  - destruct (sp_UpdateFlags_err _ _ _ _ _ _ Hi Hv E) as [Hi1 Hh]. split; [done|]. split; [done|].
    intros a b. by setoid_rewrite Hh.
Qed.

(** The view has been selected among the folders [N]. *)
Definition picked (N : string → Prop) (s : session) : Prop := view s = [] ∨ N (mailbox s).

Lemma store_from_account (N : string → Prop) s numSet st l i (w : W) l' r w' :
  inv w → l = [] ∨ N (mailbox s) → Forall (own s) (mm_Ref <$> l) → store_from numSet st i l w = ((l', r), w') →
  inv w' ∧ account_effect N (vhost s) (local s) w w' ∧ mm_Ref <$> l' = mm_Ref <$> l.
Proof.
  revert i w l' r w'. induction l as [|m l IH]; intros i w l' r w' Hi HN Hv; simpl.
  { intros [= <- <- <-]. split_and!; [done|by apply account_effect_same|done]. }
  assert (HN' : N (mailbox s)) by (by destruct HN). clear HN.
  apply Forall_cons in Hv as [(Hmv & Hmm & Hvm) Hv]. destruct (numSetContains _ _ _); cbn [negb].
  2:{ unfold bind, ret. destruct (store_from numSet st (S i) l w) as [[l1 r1] w1] eqn:E. intros [= <- <- <-].
    apply IH in E as (? & ? & Hr); [|by auto..]. split_and!; [done..|]. simpl. by f_equal. }
  unfold bind at 1. destruct (s_UpdateFlags Background (mm_Ref m) (applyStoreOp (mm_Flags m) st) w) as [ru w1] eqn:Eu.
  apply (update_account N s) in Eu as [Hi1 He1]; [|done..].
  destruct ru as [[]|e]; [|by intros [= <- <- <-]].
  unfold bind at 1. destruct (report i (applyStoreOp (mm_Flags m) st) (sf_Silent st) w1) as [rw w2] eqn:Ew.
  destruct (report_quiet _ _ _ _ _ _ Ew) as [Hi2 Hh2]. specialize (Hi2 Hi1).
  assert (He2 : account_effect N (vhost s) (local s) w w2) by (eapply account_effect_trans; [done|by apply account_effect_same]).
  destruct rw as [[]|e]; [|by intros [= <- <- <-]].
  unfold bind, ret. destruct (store_from numSet st (S i) l w2) as [[l1 r1] w3] eqn:E. intros [= <- <- <-].
  apply IH in E as (? & ? & Hr); [|by auto..]. split_and!; [done|by eapply account_effect_trans|]. simpl. by f_equal.
Qed.

Lemma view_ok_refs s l : mm_Ref <$> l = mm_Ref <$> view s → view_ok s →
  view_ok (mkSession (local s) (vhost s) (mailbox s) l).
Proof. unfold view_ok. simpl. by intros ->. Qed.

(** Commands the server passes on once a login was accepted, on mailbox names
    the store can tell apart; [N] holds of those selected. *)
Definition session_command (N : string → Prop) (s : session) (c : command) : Prop :=
  match c with
  | CLogin _ _ => False
  | CSelect mb => box (vhost s) (MailboxPath (local s) mb) ∧ N mb
  | CStatus mb _ => box (vhost s) (MailboxPath (local s) mb)
  | _ => True
  end.

Lemma step_spec N s c (w : W) s' r w' :
  inv w → view_ok s → picked N s → session_command N s c → step s c w = ((s', r), w') →
  inv w' ∧ view_ok s' ∧ picked N s' ∧ local s' = local s ∧ vhost s' = vhost s ∧
  account_effect N (vhost s) (local s) w w'.
Proof.
  intros Hi Hv HN Hc. destruct c as [u p|mb|mb num| |n o|n st| | | | | | | | | | | | | |]; simpl in Hc; [done|..]; unfold step.
  6-19: by intros [= <- _ <-]; split_and!; [..|apply account_effect_same].
  - destruct Hc as [Hc Hmb]. unfold Select, bind, ret. destruct (listMailbox s mb w) as [rl w1] eqn:E.
    apply listMailbox_spec in E as (Hi1 & Hh & Hl); [|done..]. destruct rl as [l|e]; intros [= <- _ <-].
    + split_and!; [done|by apply Hl|by right|done|done|by apply account_effect_same].
    + split_and!; [done..|by apply account_effect_same].
  - unfold Status, bind, mtry, ret. destruct (listMailbox s mb w) as [rl w1] eqn:E.
    apply listMailbox_spec in E as (Hi1 & Hh & _); [|done..].
    destruct rl; intros [= <- _ <-]; (split_and!; [done..|by apply account_effect_same]).
  - intros [= <- _ <-]. split_and!; [done|by repeat constructor|by left|done|done|by apply account_effect_same].
  - unfold bind, ret. destruct (Fetch s n o w) as [rf w1] eqn:E. destruct (Fetch_quiet _ _ _ _ _ _ E).
    intros [= <- _ <-]. split_and!; [auto..|by apply account_effect_same].
  - unfold Store_, bind, ret. destruct (store_from n st 0 (view s) w) as [[l1 r1] w1] eqn:E. intros [= <- _ <-].
    apply (store_from_account N s) in E as (? & ? & Hr); [|done|exact HN|apply Hv].
    split_and!; [done|by apply view_ok_refs| |done..].
    destruct HN as [Hnil|?]; [left|by right]. simpl. rewrite Hnil in Hr. by apply fmap_nil_inv in Hr.
Qed.
End Facts.

(** ** The claims *)

Section Claims.
Context {W A : Type} {HD : Directory W} {HS : MessageStore W} {HF : FetchWriter W} `{!EqDecision A} {inv : W → Prop}
  {addr : MessageRef → A} {norm : list string → list string} {box : string → string → Prop}
  {valid : MessageRef → Prop} {holds : W → A → string → list string → Prop}.
Context {SS : StoreSpec W A inv addr norm box valid holds}.

(** *** Whose mail it is *)

(** The account [l]@[v] keeps its mail in the mailboxes l/folder of [v]. *)
Definition belongs (l v : string) (ref : MessageRef) : Prop :=
  rf_Vhost ref = v ∧ ∃ folder, rf_Mailbox ref = MailboxPath l folder.

(** A local part without a slash. *)
Definition plain (l : string) : Prop := str_in "/" l = false.

Lemma belongs_once l v l' v' ref : plain l → plain l' → belongs l v ref → belongs l' v' ref → l = l' ∧ v = v'.
Proof.
  intros Hl Hl' [<- [folder Hm]] [<- [folder' Hm']]. rewrite Hm in Hm'. unfold MailboxPath in Hm'.
  by apply app_sep_inj in Hm' as [-> _].
Qed.

(** With slashes the accounts overlap, and nothing keeps such local parts out
    of the directory: what is the INBOX of a/b is the folder b/INBOX of a. *)
Lemma accounts_overlap v k : let ref := mkRef v "a/b/INBOX" k in belongs "a/b" v ref ∧ belongs "a" v ref.
Proof. split; (split; [done|]); [by exists "INBOX"|by exists "b/INBOX"]. Qed.

(** The last login among [logins], from [w], that the directory accepted made
    the session what it is. *)
Definition logged_in (logins : list command) (w : W) (s : session) : Prop :=
  ∃ before username password after, logins = before ++ CLogin username password :: after ∧
    ParseAddress username = Some (local s, vhost s) ∧
    fst (d_Authenticate Background (vhost s) (local s) password (snd (run NewSession before w))) = true.

Lemma run_app s l1 l2 (w : W) : run s (l1 ++ l2) w = let '(s1, w1) := run s l1 w in run s1 l2 w1.
Proof.
  revert s w. induction l1 as [|c l1 IH]; intros s w; simpl; [done|]. unfold bind.
  destruct (step s c w) as [[s1 r] w1]. apply IH.
Qed.

Notation is_login c := (∃ u p, c = CLogin u p).

Lemma run_logins logins (w : W) s w' :
  imap_world (inv := inv) (holds := holds) (valid := valid) (box := box) → inv w → Forall (λ c, is_login c) logins →
  run NewSession logins w = (s, w') →
  inv w' ∧ holds w' = holds w ∧ view s = [] ∧ (vhost s = "" ∨ logged_in logins w s).
Proof.
  intros IW Hi. revert s w'. induction logins as [|c l IH] using rev_ind; intros s w' Hl.
  { intros [= <- <-]. split_and!; [done..|by left]. }
  apply Forall_app in Hl as [Hl (u & p & ->)%Forall_singleton]. rewrite run_app.
  destruct (run NewSession l w) as [s1 w1] eqn:E1. destruct (IH s1 w1 Hl eq_refl) as (Hi1 & Hh1 & Hv1 & Hid1).
  assert (Hkeep : vhost s1 = "" ∨ logged_in (l ++ [CLogin u p]) w s1).
  { destruct Hid1 as [?|(be & u' & p' & af & -> & H)]; [by left|right].
    exists be, u', p', (af ++ [CLogin u p]). by rewrite <-app_assoc. }
  simpl. unfold bind, ret, Login. destruct (ParseAddress u) as [[lo vh]|] eqn:Ep; [|by intros [= <- <-]].
  unfold bind, ret. destruct (d_Authenticate Background vh lo p w1) as [ok w2] eqn:Ea.
  destruct (iw_auth IW _ _ _ _ _ _ _ Ea) as [Hi2 Hh2].
  destruct ok; intros [= <- <-]; (split_and!; [auto|congruence|done|]); [|done].
  right. exists l, u, p, []. rewrite E1. simpl. by rewrite Ea.
Qed.

Lemma run_commands N cmds s (w : W) s' w' :
  imap_world (inv := inv) (holds := holds) (valid := valid) (box := box) → inv w → view_ok (valid := valid) s → picked N s →
  Forall (session_command (box := box) N s) cmds → run s cmds w = (s', w') →
  inv w' ∧ view_ok (valid := valid) s' ∧ picked N s' ∧ local s' = local s ∧ vhost s' = vhost s ∧
  account_effect (addr := addr) (holds := holds) (valid := valid) N (vhost s) (local s) w w'.
Proof.
  intros IW. revert s w. induction cmds as [|c l IH]; intros s w Hi Hv HN Hc; simpl.
  { intros [= <- <-]. split_and!; [done..|by apply account_effect_same]. }
  apply Forall_cons in Hc as [Hc Hl]. unfold bind. destruct (step s c w) as [[s1 r] w1] eqn:E.
  destruct (step_spec IW _ _ _ _ _ _ _ Hi Hv HN Hc E) as (Hi1 & Hv1 & HN1 & El & Ev & He). intros Hr.
  assert (Hl1 : Forall (session_command (box := box) N s1) l).
  { eapply Forall_impl; [exact Hl|]. intros c'. unfold session_command. by rewrite El, Ev. }
  destruct (IH _ _ Hi1 Hv1 HN1 Hl1 Hr) as (? & ? & ? & El2 & Ev2 & He2). rewrite El, Ev in *.
  split_and!; [done..|by eapply account_effect_trans].
Qed.

(** The commands of a session whose mailbox names are [box]es of its account,
    and those it selects. *)
Definition opens (cmds : list command) (mb : string) : Prop := CSelect mb ∈ cmds.
Definition names (cmds : list command) (mb : string) : Prop := CSelect mb ∈ cmds ∨ ∃ num, CStatus mb num ∈ cmds.

Lemma commands_ok s cmds : Forall (λ c, ¬ is_login c) cmds →
  (∀ mb, names cmds mb → box (vhost s) (MailboxPath (local s) mb)) →
  Forall (session_command (box := box) (opens cmds) s) cmds.
Proof.
  rewrite !Forall_forall. intros Hl Hb c Hc. specialize (Hl c Hc). unfold session_command, opens, names in *.
  destruct c; try done; [naive_solver|split; auto|]. apply Hb. right. by eexists.
Qed.


(** C38: FETCH shows exactly the numbered messages as they are stored.  A
    successful FETCH writes, for each message of the view whose number is in
    the set, in view order, one response with that number and the items asked
    for: UID, flags, size, and in every body section the body the store holds;
    it writes nothing else and changes nothing.  A failing FETCH has written
    complete responses for a prefix of the view before its failure. *)
Theorem fetch_exact out s numSet o (w : W) r w' :
  imap_world (inv := inv) (holds := holds) (valid := valid) (box := box) → writer_spec out → inv w → view_ok (valid := valid) s →
  Fetch s numSet o w = (r, w') →
  inv w' ∧ holds w' = holds w ∧ ∃ shown, shown.*1 `prefix_of` view s ∧
    stored_bodies (addr := addr) (holds := holds) numSet o w 0 shown ∧
    out w ++ responses numSet o 0 shown `prefix_of` out w' ∧
    (r = Ok tt → shown.*1 = view s ∧ out w' = out w ++ responses numSet o 0 shown).
Proof. intros IW WR Hi Hv. apply (fetch_from_spec IW out WR); [done|]. by apply view_ok_valid. Qed.

(** C39: STORE flags exactly the numbered messages.  Each message of the view
    whose number is in the set gets, in the store and in the view, the flags
    the request and its old flags give: those of the request, the union, or
    the difference, sorted and without duplicates; its body, the other
    messages and everything else in the store stay as they are.  On a failure
    this holds of a prefix of the view, and of all of it on success. *)
Theorem store_exact s numSet st (w : W) s' r w' :
  imap_world (inv := inv) (holds := holds) (valid := valid) (box := box) → inv w → view_ok (valid := valid) s →
  NoDup (addr <$> (mm_Ref <$> view s)) → Store_ s numSet st w = ((s', r), w') →
  inv w' ∧ local s' = local s ∧ vhost s' = vhost s ∧ mailbox s' = mailbox s ∧
  ∃ n, (n ≤ length (view s))%nat ∧ (r = Ok tt → n = length (view s)) ∧
    view s' = applied numSet st n 0 (view s) ∧
    flagged (addr := addr) (norm := norm) (holds := holds) numSet st n 0 (view s) w w' ∧
    ∀ m f, NoDup (applyStoreOp (mm_Flags m) st) ∧
      (f ∈ applyStoreOp (mm_Flags m) st ↔
       match sf_Op st with
       | StoreFlagsSet => f ∈ sf_Flags st
       | StoreFlagsAdd => f ∈ mm_Flags m ∨ f ∈ sf_Flags st
       | StoreFlagsDel => f ∈ mm_Flags m ∧ f ∉ sf_Flags st
       end).
Proof.
  intros IW Hi [Hv _] Hn. unfold Store_, bind, ret. destruct (store_from numSet st 0 (view s) w) as [[l r1] w1] eqn:E.
  intros [= <- <- <-]. rewrite <-list_fmap_compose in Hn.
  apply (imap_store_from_spec IW) in E as (Hi1 & n & Hle & Hr & Hl & Hf); [|done| |done].
  - split_and!; [done..|]. exists n. split_and!; [done..|]. intros m f. split; [apply applyStoreOp_NoDup|apply applyStoreOp_spec].
  - rewrite Forall_fmap in Hv. eapply Forall_impl; [exact Hv|]. by intros m (_ & _ & ?).
Qed.
End Claims.

(** ** A run: Alice flags the first of her two messages in the Postgres store *)
Module ImapExample.
Import Storage.Postgres.
Record IW := mkIW { iw_rows : list (Row messageRow); iw_out : list fetch_item }.
#[export] Program Instance has_rows : Has IW (list (Row messageRow)) := { getS := iw_rows; setS l w := mkIW l (iw_out w) }.
Solve Obligations with done.
Definition put {B} (x : B) (item : fetch_item) : M IW B := λ w, (x, mkIW (iw_rows w) (iw_out w ++ [item])).
#[export] Instance message_conflicts : ListTable.Conflicts messageRow := λ _ _, false.
#[export] Instance store : MessageStore IW := Backend.
#[export] Instance store_spec : @StoreSpec IW MessageRef store pinv id (λ fl, decodeFlags (encodeFlags fl))
  (λ _ _, True) (λ _, True) pholds.
Proof. apply postgres_store_spec. Qed.
#[export] Instance directory : Directory IW := {
  d_Vhost _ _ := ret None; d_VhostActive _ _ := ret true; d_Authenticate _ v l p := ret (String.eqb p "pw") }.
#[export] Instance writer : FetchWriter IW := {
  fw_CreateMessage n := put tt (IMessage n); fw_WriteUID n := put tt (IUID n); fw_WriteFlags fl := put tt (IFlags fl);
  fw_WriteRFC822Size n := put tt (ISize n); fw_WriteBodySection sec b := put (Ok tt) (IBody sec b);
  fw_Close := put (Ok tt) IEnd }.
Definition msg (id mb : string) : Row messageRow := mkRow id (Some 0) (mkMessageRow "a.test" mb "body" 4 "\Seen").
Definition world : IW := mkIW [msg "m2" "alice/INBOX"; msg "m1" "alice/INBOX"; msg "m3" "bob/INBOX"] [].
Definition logins : list command := [CLogin "alice@a.test" "pw"].
Definition first_only : NumSet := SeqSet (λ n, n =? 1).
Definition flag : StoreFlags := mkStoreFlags StoreFlagsAdd ["\Deleted"] false.
Definition cmds : list command := [CSelect "INBOX"; CStore first_only flag; CExpunge].
Definition flags_of (w : IW) : list (string * string) := (λ r, (row_Id r, ms_Flags (row_data r))) <$> iw_rows w.

Lemma imap_world_ids : pinv world.
Proof. vm_compute. repeat constructor; set_solver. Qed.

Lemma still {B X} (inv : IW → Prop) (obs : IW → X) (m : M IW B) : (∀ w, snd (m w) = w) → quiet inv obs m.
Proof. intros H w b w' E. specialize (H w). rewrite E in H. simpl in H. by subst. Qed.

Lemma read_same ctx ref w : snd (s_Read ctx ref w) = w.
Proof.
  simpl. unfold Read, find, mtry, wrap. simpl. unfold lift, ListTable.First.
  destruct (sort_by _ _); simpl; by destruct w.
Qed.

Lemma imap_world_quiet : imap_world (inv := pinv) (holds := pholds) (valid := λ _, True) (box := λ _ _, True).
Proof.
  split; intros; try (by apply still); try (apply still, read_same); try (by intros w0 x w0' [= _ <-]).
  by apply Forall_true.
Qed.

Lemma iw_writer : writer_spec iw_out.
Proof.
  split; intros; try done; try (by match goal with H : _ = _ |- _ => injection H as <- end); try by eexists.
  by rewrite read_same.
Qed.
End ImapExample.

Import ImapExample.

(** *** The same session over the maildir backend

    Nothing here looks at the responses, so they go nowhere. *)
Module MaildirExample.
Import Maildir.Run.
#[export] Instance mstore : MessageStore Fs := Maildir.Backend base 7 host.
#[export] Instance mstore_spec : @StoreSpec Fs (Path * string) mstore (kinv base 7 host) (addr base) norm box valid (mholds base).
Proof. apply (maildir_keyed_spec base 7 host base_clean host_plain). Qed.
#[export] Instance mdirectory : Directory Fs := {
  d_Vhost _ _ := ret None; d_VhostActive _ _ := ret true; d_Authenticate _ v l p := ret (String.eqb p "pw") }.
#[export] Instance mwriter : FetchWriter Fs := {
  fw_CreateMessage _ := ret tt; fw_WriteUID _ := ret tt; fw_WriteFlags _ := ret tt; fw_WriteRFC822Size _ := ret tt;
  fw_WriteBodySection _ _ := ret (Ok tt); fw_Close := ret (Ok tt) }.

(** Two deliveries: one to Alice, one to Bob. *)
Definition mworld : Fs := snd (s_Write Background "a.test" "bob/INBOX" (Ok "hi") w1).

Lemma write_kinv v m b (w : Fs) : kinv base 7 host w → box v m → kinv base 7 host (snd (s_Write Background v m (Ok b) w)).
Proof.
  intros Hi Hb. destruct (s_Write Background v m (Ok b) w) as [[r|e] w'] eqn:E.
  - exact (proj1 (sp_Write_ok (StoreSpec := mstore_spec) _ _ _ _ _ _ _ Hi Hb E)).
  - exact (proj1 (sp_Write_err (StoreSpec := mstore_spec) _ _ _ _ _ _ _ Hi Hb E)).
Qed.

Lemma mworld_kinv : kinv base 7 host mworld.
Proof.
  apply write_kinv; [|split; [done|by repeat constructor]]. apply (write_kinv _ _ _ w0); [|apply box_ok].
  split; [apply w0_minv|]. intros a b f (_ & p & t & _ & Hp). unfold w0 in Hp. simpl in Hp. by rewrite lookup_empty in Hp.
Qed.

Lemma mworld_quiet : imap_world (inv := kinv base 7 host) (holds := mholds base) (valid := valid) (box := box).
Proof.
  split; try (intros; apply quiet_ret); try apply quiet_ret.
  - intros ctx r. apply asking_quiet, Read_along.
  - intros ctx v m. apply asking_quiet, List_along.
  - intros ctx v m w l w' Hi Hb E. eapply (List_valid base 7 host base_clean host_plain); [exact Hi|exact Hb|exact E].
Qed.
End MaildirExample.

Import MaildirExample.


Lemma store_exact_witness :
  let s := fst (run NewSession (logins ++ [CSelect "INBOX"]) world) in
  Storage.Postgres.pinv (snd (Store_ s first_only flag world)) ∧
  mm_Flags <$> view (fst (fst (Store_ s first_only flag world))) = [["\Deleted"; "\Seen"]; ["\Seen"]].
Proof.
  intros s. split; [|by vm_compute].
  apply (store_exact (SS := store_spec) s first_only flag world (fst (fst (Store_ s first_only flag world)))
    (snd (fst (Store_ s first_only flag world))) (snd (Store_ s first_only flag world))).
  - apply imap_world_quiet.
  - apply imap_world_ids.
  - split; [by vm_compute; repeat constructor|by vm_compute; repeat constructor].
  - vm_compute. repeat constructor; set_solver.
  - by vm_compute.
Defined.

Lemma fetch_exact_witness :
  let s := fst (run NewSession (logins ++ [CSelect "INBOX"]) world) in
  let r := Fetch s first_only (mkFetchOptions true true false [""]) world in
  fst r = Ok tt ∧ iw_out (snd r) = [IMessage 1; IUID 1; IFlags ["\Seen"]; IBody "" "body"; IEnd] ∧
  Storage.Postgres.pinv (snd r).
Proof.
  intros s r. split; [by vm_compute|]. split; [by vm_compute|].
  apply (fetch_exact (SS := store_spec) iw_out s first_only (mkFetchOptions true true false [""]) world (fst r) (snd r)).
  - apply imap_world_quiet.
  - apply iw_writer.
  - apply imap_world_ids.
  - split; [by vm_compute; repeat constructor|by vm_compute; repeat constructor].
  - apply surjective_pairing.
Defined.
