(* ===== verification/Wire.v ===== *)
(** * What the deliverer puts on the wire

    [Deliverer] calls an SMTP client it knows nothing about.  [WireSpec] says
    what the client's calls amount to: each call that succeeds is a command the
    remote server acknowledged, recorded on a log that only grows.  An attempt
    that succeeds has had one whole transaction acknowledged: the job's sender,
    its recipient, and exactly the staged body. *)

From S2P Require Import Prelude Float64 Table Logging Queue Directory Storage Webhook Deliverer.

(** The commands of a mail transaction, as acknowledged; [EEnd] is the reply to
    the end of the data. *)
Inductive command := EMail (from : string) | ERcpt (to : string) | EData | EBody (body : string) | EEnd.

(** The log and the laws of the client. *)
Section Log.
Context {W : Type} {HN : Net W}.

Definition log : Type := list (Client * command).

(** The log may have grown. *)
Definition grows (wire : W → log) (w w' : W) : Prop := ∃ l, wire w' = wire w ++ l.

#[global] Instance grows_preorder wire : PreOrder (grows wire).
Proof.
  split; [intros w; exists []; by rewrite app_nil_r|].
  intros w1 w2 w3 [l1 H1] [l2 H2]. exists (l1 ++ l2). by rewrite H2, H1, app_assoc.
Qed.

Record WireSpec (wire : W → log) : Prop := {
  ws_mail : ∀ c f w w', cl_Mail c f w = (Ok tt, w') → wire w' = wire w ++ [(c, EMail f)];
  ws_rcpt : ∀ c t w w', cl_Rcpt c t w = (Ok tt, w') → wire w' = wire w ++ [(c, ERcpt t)];
  ws_data : ∀ c w w', cl_Data c w = (Ok tt, w') → wire w' = wire w ++ [(c, EData)];
  ws_write : ∀ c b w w', wc_Write c b w = (Ok tt, w') → wire w' = wire w ++ [(c, EBody b)];
  ws_end : ∀ c w w', wc_Close c w = (Ok tt, w') → wire w' = wire w ++ [(c, EEnd)];
  ws_dial : ∀ ctx a, along (grows wire) (DialContext ctx a);
  ws_tls : ∀ c h, along (grows wire) (NewClientStartTLS c h);
  ws_hello : ∀ c h, along (grows wire) (cl_Hello c h);
  ws_mail_any : ∀ c f, along (grows wire) (cl_Mail c f);
  ws_rcpt_any : ∀ c t, along (grows wire) (cl_Rcpt c t);
  ws_data_any : ∀ c, along (grows wire) (cl_Data c);
  ws_write_any : ∀ c b, along (grows wire) (wc_Write c b);
  ws_end_any : ∀ c, along (grows wire) (wc_Close c);
  ws_quit : ∀ c, along (grows wire) (cl_Quit c);
  ws_close : ∀ c, along (grows wire) (cl_Close c);
}.

(** One transaction of a client, whole and acknowledged. *)
Definition transaction (c : Client) (f t b : string) : log :=
  [(c, EMail f); (c, ERcpt t); (c, EData); (c, EBody b); (c, EEnd)].

Definition transmitted (wire : W → log) (f t b : string) (w : W) : Prop :=
  ∃ c l1 l2, wire w = l1 ++ transaction c f t b ++ l2.

Lemma transmitted_grows wire f t b (w w' : W) : grows wire w w' → transmitted wire f t b w → transmitted wire f t b w'.
Proof. intros [l Hl] (c & l1 & l2 & H). exists c, l1, (l2 ++ l). by rewrite Hl, H, <-!app_assoc. Qed.
End Log.

Section Sending.
Context {W : Type} {HRes : Resolver W} {HN : Net W} {HS : MessageStore W}.
Context (wire : W → log) (WS : WireSpec wire).

Ltac wire_calls := along_calls; try apply _; destruct WS; auto.

Lemma dial_grows ctx addr host : along (grows wire) (dial ctx addr host).
Proof. unfold dial. wire_calls. Qed.

Lemma sendToHost_grows cfg ctx host job body : along (grows wire) (sendToHost cfg ctx host job body).
Proof. unfold sendToHost. cbv zeta. pose proof (dial_grows). wire_calls. Qed.

(** What a successful stage of the dialogue appended. *)
Lemma stage {A} f (m : M W (res unit)) (k : unit → M W (res A)) (w : W) a w' :
  mtry (wrap f m) k w = (Ok a, w') → ∃ w1, m w = (Ok tt, w1) ∧ k tt w1 = (Ok a, w').
Proof. unfold mtry, wrap. destruct (m w) as [[[]|e] w1]; simpl; [by eauto|done]. Qed.

Lemma sendToHost_transmits cfg ctx host job body (w : W) w' :
  sendToHost cfg ctx host job body w = (Ok tt, w') → transmitted wire (From job) (To job) body w'.
Proof.
  unfold sendToHost. cbv zeta. unfold mtry at 1, wrap at 1. destruct (dial _ _ _ w) as [[c|e] w1]; simpl; [|done].
  unfold bind at 1. match goal with |- context [let '(_, _) := ?m w1 in _] => destruct (m w1) as [r w2] eqn:E end.
  unfold bind, ret. destruct (cl_Close c w2) as [x w3] eqn:Ec. intros [= -> <-].
  eapply transmitted_grows; [by eapply (ws_close _ WS)|].
  apply stage in E as (w4 & _ & E). apply stage in E as (w5 & H5%(ws_mail _ WS) & E).
  apply stage in E as (w6 & H6%(ws_rcpt _ WS) & E). apply stage in E as (w7 & H7%(ws_data _ WS) & E).
  unfold bind at 1 in E. destruct (wc_Write c body w7) as [[[]|e] w8] eqn:E8.
  - apply stage in E as (w9 & H9%(ws_end _ WS) & E). unfold bind, ret in E. destruct (cl_Quit c w9) as [y w10] eqn:Eq.
    injection E as <-. eapply transmitted_grows; [by eapply (ws_quit _ WS)|].
    exists c, (wire w4), []. rewrite H9, (ws_write _ WS _ _ _ _ E8), H7, H6, H5. by rewrite <-!app_assoc.
  - unfold bind, ret in E. by destruct (wc_Close c w8).
Qed.

Lemma send_hosts_grows cfg ctx mxs job body last : along (grows wire) (send_hosts cfg ctx mxs job body last).
Proof.
  revert last. induction mxs as [|mx mxs IH]; intros last; simpl; [wire_calls|].
  apply along_bind; [apply _|apply sendToHost_grows|]. along_calls; try apply _; apply IH.
Qed.

Lemma send_hosts_transmits cfg ctx mxs job body last (w : W) w' :
  (mxs = [] → last ≠ Ok tt) → send_hosts cfg ctx mxs job body last w = (Ok tt, w') →
  transmitted wire (From job) (To job) body w'.
Proof.
  revert last w. induction mxs as [|mx mxs IH]; intros last w Hl; simpl.
  { intros [= -> _]. by destruct (Hl eq_refl). }
  unfold bind. destruct (sendToHost _ _ _ _ _ w) as [[[]|e] w1] eqn:E.
  - intros [= <-]. by eapply sendToHost_transmits.
  - destruct (isPermanent e); [done|]. by apply IH.
Qed.

(** The resolver and the store leave the wire alone. *)
Record off_wire : Prop := {
  ow_mx : ∀ ctx d, along (grows wire) (LookupMX ctx d);
  ow_read : ∀ ctx r, along (grows wire) (s_Read ctx r);
}.
Context (OW : off_wire).

Lemma lookupMX_grows ctx domain : along (grows wire) (lookupMX ctx domain).
Proof. unfold lookupMX. along_calls; try apply _. apply OW. Qed.

Lemma attempt_grows cfg ctx job : along (grows wire) (attempt cfg ctx job).
Proof.
  unfold attempt. cbv zeta. along_calls; try apply _; [apply lookupMX_grows|apply OW|apply send_hosts_grows].
Qed.

(** A successful attempt read the staged body and transmitted it. *)
Lemma attempt_transmits cfg ctx job (w : W) w' : attempt cfg ctx job w = (Ok tt, w') →
  ∃ mxs w1 body w2, lookupMX ctx (destinationDomain (To job)) w = (Ok mxs, w1) ∧
    s_Read ctx (mkRef (Queue.Vhost job) OutboxMailbox (BodyRef job)) w1 = (Ok body, w2) ∧
    transmitted wire (From job) (To job) body w'.
Proof.
  unfold attempt. cbv zeta. destruct (String.eqb _ _); [done|]. unfold mtry at 1.
  destruct (lookupMX _ _ w) as [[mxs|e] w1] eqn:El; [|done]. unfold mtry, wrap.
  destruct (s_Read _ _ w1) as [[body|e] w2] eqn:Er; simpl; [|done]. intros Es.
  exists mxs, w1, body, w2. split_and!; [done..|]. eapply send_hosts_transmits; [|exact Es].
  intros ->. revert El. unfold lookupMX, bind, ret. destruct (LookupMX _ _ w) as [[[|mx l]|e] w3]; try done.
  - intros [= Hs _]. pose proof (sort_by_perm pref_leb (mx :: l)) as Hp. simpl in Hp. rewrite Hs in Hp.
    by apply Permutation_nil_cons in Hp.
  - by destruct (isNotFoundDNSError e).
Qed.
End Sending.
