(* ===== verification/ApiAuth.v ===== *)
(** * API tokens (internal/apiauth)

    Token generation and hashing, the token [Store] with its in-memory and
    Postgres implementations, and [StoreSpec], what the management API relies
    on: [live w h t] says that the token [t] authenticates under the hash [h].
    Both stores implement it.  SHA-256 is outside the repository. *)

From S2P Require Import Prelude Table Paging Kms Webhook.

(** ** Data (apiauth.go) *)

Definition ErrNotFound : goerr := Sentinel "apiauth.ErrNotFound".

Definition DefaultPageSize : Z := 100.
Definition MaxPageSize : Z := 500.
Definition TokenPrefix : string := "env_".

Record Token := mkToken {
  tk_ID : string;
  tk_AccountID : string;
  tk_Label : string;
  tk_CreatedAt : Time;
}.

(** [None] is the [false] of [Authenticate]. *)
Class Store (W : Type) := {
  ts_CreateToken : Ctx → string → string → string → string → M W (res Token);
  ts_Authenticate : Ctx → string → M W (res (option Token));
  ts_ListTokens : Ctx → string → M W (res (list Token));
  ts_ListTokensPage : Ctx → string → string → Z → M W (res (list Token));
  ts_RevokeToken : Ctx → string → string → M W (res unit);
}.

(** ** Token values *)

Class SHA256 := sha256_Sum : string → string.

(** [base64.RawURLEncoding]: the URL alphabet, no padding. *)
Fixpoint to_raw_url (s : string) : string :=
  match s with
  | EmptyString => EmptyString
  | String c s =>
      if decide (c = "="%char) then to_raw_url s
      else String (if decide (c = "+"%char) then "-"%char
                   else if decide (c = "/"%char) then "_"%char else c) (to_raw_url s)
  end.

Definition RawURL_EncodeToString (s : string) : string := to_raw_url (Base64.EncodeToString s).

Definition HashToken `{SHA256} (raw : string) : string := hex_EncodeToString (sha256_Sum raw).

Definition GenerateToken {W} `{SHA256, RandRead W} : M W (res (string * string)) :=
  let? buf := wrap (ErrorfW "apiauth: generate token: %w" []) (rand_Read 32) in
  let raw := TokenPrefix +:+ RawURL_EncodeToString buf in
  ret (Ok (raw, HashToken raw)).

Definition ConstantTimeEqual (a b : string) : bool := String.eqb a b.

(** ** The contract *)

Class StoreSpec (W : Type) `{Store W} (inv : W → Prop) (live : W → string → Token → Prop) : Prop := {
  as_Create_ok : ∀ ctx id acct label hash w tok w', inv w → (∀ h t, live w h t → tk_ID t ≠ id) →
    ts_CreateToken ctx id acct label hash w = (Ok tok, w') →
    inv w' ∧ tk_ID tok = id ∧ tk_AccountID tok = acct ∧ tk_Label tok = label ∧
    ∀ h t, live w' h t ↔ live w h t ∨ (h = hash ∧ t = tok);
  as_Create_err : ∀ ctx id acct label hash w e w', inv w →
    ts_CreateToken ctx id acct label hash w = (Err e, w') →
    inv w' ∧ ∀ h t, live w' h t ↔ live w h t;
  as_Authenticate : ∀ ctx h w r w', inv w → ts_Authenticate ctx h w = (r, w') →
    inv w' ∧ (∀ h t, live w' h t ↔ live w h t) ∧
    match r with
    | Ok (Some t) => live w h t
    | Ok None => ∀ t, ¬ live w h t
    | Err _ => True
    end;
  as_List_ok : ∀ ctx acct w l w', inv w → ts_ListTokens ctx acct w = (Ok l, w') →
    inv w' ∧ (∀ h t, live w' h t ↔ live w h t) ∧
    ∀ t, t ∈ l ↔ tk_AccountID t = acct ∧ ∃ h, live w h t;
  as_Revoke_ok : ∀ ctx acct id w w', inv w → ts_RevokeToken ctx acct id w = (Ok tt, w') →
    inv w' ∧ (∃ h t, live w h t ∧ tk_ID t = id ∧ tk_AccountID t = acct) ∧
    ∀ h t, live w' h t ↔ live w h t ∧ tk_ID t ≠ id;
  as_Revoke_err : ∀ ctx acct id w e w', inv w → ts_RevokeToken ctx acct id w = (Err e, w') →
    inv w' ∧ ∀ h t, live w' h t ↔ live w h t;
}.

(** ** The in-memory store (memory.go) *)

Record tokenEntry := mkTokenEntry { te_Token : Token; te_Hash : string }.

Definition MemoryStore : Type := gmap string tokenEntry.
Definition NewMemoryStore : MemoryStore := ∅.

Section MemoryStoreOps.
Context {W : Type} `{Env W, !Has W MemoryStore}.
(** The iteration order of the tokens map. *)
Context (order : MemoryStore → list (string * tokenEntry)).

Definition mem_CreateToken (ctx : Ctx) (id accountID label tokenHash : string) : M W (res Token) :=
  guard_ctx ctx (
    if String.eqb id "" then ret (Err (ErrNew "apiauth: token ID is required"))
    else
      let* t := now in
      let tok := mkToken id accountID label t in
      lift (λ m : MemoryStore, (Ok tok, <[id := mkTokenEntry tok tokenHash]> m))).

Definition mem_Authenticate (ctx : Ctx) (tokenHash : string) : M W (res (option Token)) :=
  guard_ctx ctx (lift (λ m : MemoryStore,
    (Ok (te_Token <$> List.find (λ e, String.eqb (te_Hash e) tokenHash) ((order m).*2)), m))).

Definition mem_ListTokens (ctx : Ctx) (accountID : string) : M W (res (list Token)) :=
  guard_ctx ctx (lift (λ m : MemoryStore,
    let out := te_Token <$> filter (λ e, tk_AccountID (te_Token e) = accountID) ((order m).*2) in
    (Ok (sort_by (order_by tk_ID) out), m))).

(** Here a limit above the maximum selects the default. *)
Definition memory_limit (limit : Z) : Z :=
  if (limit <=? 0) || (MaxPageSize <? limit) then DefaultPageSize else limit.

Definition mem_ListTokensPage (ctx : Ctx) (accountID cursor : string) (limit : Z)
  : M W (res (list Token)) :=
  let? all := mem_ListTokens ctx accountID in
  ret (Ok (take (Z.to_nat (memory_limit limit))
    (if String.eqb cursor "" then all else from_first (λ t, str_ltb cursor (tk_ID t)) all))).

Definition mem_RevokeToken (ctx : Ctx) (accountID id : string) : M W (res unit) :=
  guard_ctx ctx (lift (λ m : MemoryStore,
    match m !! id with
    | Some e =>
        if negb (String.eqb (tk_AccountID (te_Token e)) accountID)
        then (Err (ErrorfW "apiauth: token %q: %w" [id] ErrNotFound), m)
        else (Ok tt, delete id m)
    | None => (Err (ErrorfW "apiauth: token %q: %w" [id] ErrNotFound), m)
    end)).

Definition MemoryStore_Store : Store W := {|
  ts_CreateToken := mem_CreateToken; ts_Authenticate := mem_Authenticate;
  ts_ListTokens := mem_ListTokens; ts_ListTokensPage := mem_ListTokensPage;
  ts_RevokeToken := mem_RevokeToken;
|}.
End MemoryStoreOps.

(** ** The Postgres store (postgres.go) *)

(** [tokenRow], less the embedded sql.BaseEntity. *)
Record tokenRow := mkTokenRow {
  tr_AccountID : string;
  tr_VhostID : string;
  tr_Label : string;
  tr_TokenHash : string;
}.

Definition tokenFromRow (r : Row tokenRow) : Token :=
  mkToken (row_Id r) (tr_AccountID (row_data r)) (tr_Label (row_data r)) (default 0 (row_CreatedAt r)).

Section PostgresStoreOps.
Context {W : Type} `{Table W tokenRow}.

Definition hash_is (tokenHash : string) (r : Row tokenRow) : bool :=
  String.eqb (tr_TokenHash (row_data r)) tokenHash.
Definition of_account (accountID : string) (r : Row tokenRow) : bool :=
  String.eqb (tr_AccountID (row_data r)) accountID.

Definition pg_CreateToken (ctx : Ctx) (id accountID label tokenHash : string) : M W (res Token) :=
  if String.eqb id "" then ret (Err (ErrNew "apiauth: token ID is required"))
  else
    let? row := wrap (ErrorfW "apiauth: create token: %w" [])
                  (tbl_Create ctx (mkRow id None (mkTokenRow accountID "" label tokenHash))) in
    ret (Ok (tokenFromRow row)).

Definition pg_Authenticate (ctx : Ctx) (tokenHash : string) : M W (res (option Token)) :=
  let* r := tbl_First ctx (hash_is tokenHash) (order_by row_Id) in
  ret (match r with
       | Ok row => Ok (Some (tokenFromRow row))
       | Err e =>
           if errors_Is "gorm.ErrRecordNotFound" e then Ok None
           else Err (ErrorfW "apiauth: authenticate: %w" [] e)
       end).

Definition pg_ListTokens (ctx : Ctx) (accountID : string) : M W (res (list Token)) :=
  let? rows := wrap (ErrorfW "apiauth: list tokens for account %q: %w" [accountID])
                 (tbl_Find ctx (mkQuery (of_account accountID) (order_by row_Id) None)) in
  ret (Ok (tokenFromRow <$> rows)).

Definition pg_ListTokensPage (ctx : Ctx) (accountID cursor : string) (limit : Z)
  : M W (res (list Token)) :=
  endpoint (ErrorfW "apiauth: list tokens for account %q: %w" [accountID]) tokenFromRow
    (of_account accountID) ctx (page_limit DefaultPageSize MaxPageSize limit) cursor.

Definition pg_RevokeToken (ctx : Ctx) (accountID id : string) : M W (res unit) :=
  let? n := wrap (ErrorfW "apiauth: revoke token %q: %w" [id])
              (tbl_Delete ctx (λ r, of_account accountID r && by_id id r)) in
  if n =? 0 then ret (Err (ErrorfW "apiauth: token %q: %w" [id] ErrNotFound)) else ret (Ok tt).

Definition PostgresStore : Store W := {|
  ts_CreateToken := pg_CreateToken; ts_Authenticate := pg_Authenticate;
  ts_ListTokens := pg_ListTokens; ts_ListTokensPage := pg_ListTokensPage;
  ts_RevokeToken := pg_RevokeToken;
|}.

(** [db.Exec], and gorm's AutoMigrate of the table. *)
Context (db_Exec : string → M W (res unit)) (AutoMigrate : M W (res unit)).

Definition backfill_sql : string := "
		UPDATE api_tokens SET account_id = vhosts.account_id
		FROM vhosts
		WHERE vhosts.id = api_tokens.vhost_id
		  AND (api_tokens.account_id IS NULL OR api_tokens.account_id = '')
	".

Definition backfillTokenAccountIDs : M W (res unit) :=
  let? _ := wrap (ErrorfW "apiauth: backfill token account_id: %w" []) (db_Exec backfill_sql) in
  wrap (ErrorfW "apiauth: tighten api_tokens.account_id to NOT NULL: %w" [])
    (db_Exec "ALTER TABLE api_tokens ALTER COLUMN account_id SET NOT NULL").

Definition MigratePostgres : M W (res unit) :=
  let? _ := AutoMigrate in backfillTokenAccountIDs.
End PostgresStoreOps.

(** ** Both stores implement the contract *)

Section MemoryFacts.
Context {W : Type} `{Env W, !Has W MemoryStore}.
Context (order : MemoryStore → list (string * tokenEntry)).
Context (Hperm : ∀ m, order m ≡ₚ map_to_list m).
Context `{Hnow : !Preserves (getS (S := MemoryStore)) (W := W) now}.

Definition mem_keyed (w : W) : Prop := map_Forall (λ id e, tk_ID (te_Token e) = id) (getS (S := MemoryStore) w).
Definition mem_live (w : W) (h : string) (t : Token) : Prop :=
  ∃ id, getS (S := MemoryStore) w !! id = Some (mkTokenEntry t h).

Lemma order_elem m e : e ∈ (order m).*2 ↔ ∃ id, m !! id = Some e.
Proof.
  rewrite Hperm, list_elem_of_fmap. split.
  - intros ([i x] & -> & Hx%elem_of_map_to_list). by exists i.
  - intros [i Hi]. exists (i, e). split; [done|]. by apply elem_of_map_to_list.
Qed.

Lemma mem_same w w' : getS (S := MemoryStore) w' = getS w → mem_keyed w →
  mem_keyed w' ∧ ∀ h t, mem_live w' h t ↔ mem_live w h t.
Proof. unfold mem_keyed, mem_live. by intros ->. Qed.

#[export] Instance memory_store_spec : @StoreSpec W (MemoryStore_Store order) mem_keyed mem_live.
Proof.
  split; simpl.
  - intros ctx id acct label hash w tok w' Hk Hfresh. unfold mem_CreateToken, guard_ctx.
    case_match; [done|]. case_match; [done|]. unfold bind.
    destruct (now w) as [t w1] eqn:En. pose proof (preserves_eq (getS (S := MemoryStore)) _ _ _ _ En) as Hw.
    intros (s & Hs & Hs')%lift_inv. injection Hs as <- <-. rewrite Hw in Hs'.
    assert (Hnone : getS (S := MemoryStore) w !! id = None).
    { apply eq_None_not_Some. intros [e He]. specialize (Hk _ _ He).
      eapply (Hfresh (te_Hash e) (te_Token e)); [|done]. exists id. by destruct e. }
    split_and!; [|done..|].
    + unfold mem_keyed. rewrite Hs'. by apply map_Forall_insert_2.
    + intros h t0. unfold mem_live. rewrite Hs'. setoid_rewrite lookup_insert_Some. split.
      * intros [i [[<- [= <- <-]]|[_ Hi]]]; [by right|left; eauto].
      * intros [[i Hi]|[-> ->]]; [exists i; right; split; [congruence|done]|exists id; by left].
  - intros ctx id acct label hash w e w' Hk. unfold mem_CreateToken, guard_ctx, ret.
    case_match; [intros [= _ <-]; by apply mem_same|]. case_match; [intros [= _ <-]; by apply mem_same|].
    unfold bind. destruct (now w) as [t w1]. intros (s & Hs & _)%lift_inv. done.
  - intros ctx h w r w' Hk. unfold mem_Authenticate, guard_ctx, ret.
    case_match; [intros [= <- <-]; split; [done|by split]|].
    intros (s & Hs & Hs')%lift_inv. injection Hs as <- <-.
    destruct (mem_same w w' Hs' Hk) as [Hk' Hl]. split_and!; [done|done|].
    destruct (List.find _ _) as [e|] eqn:Ef; simpl.
    + apply List.find_some in Ef as [He Hh]. apply list_elem_of_In, order_elem in He as [i Hi].
      apply String.eqb_eq in Hh as <-. exists i. by destruct e.
    + intros t [i Hi]. assert (Hn : String.eqb h h = false).
      { apply (List.find_none _ _ Ef (mkTokenEntry t h)). apply list_elem_of_In, order_elem. by exists i. }
      by rewrite String.eqb_refl in Hn.
  - intros ctx acct w l w' Hk. unfold mem_ListTokens, guard_ctx, ret. case_match; [done|].
    intros (s & Hs & Hs')%lift_inv. injection Hs as <- <-.
    destruct (mem_same w w' Hs' Hk) as [Hk' Hl]. split_and!; [done|done|]. intros t.
    rewrite sort_by_perm, list_elem_of_fmap. setoid_rewrite list_elem_of_filter.
    setoid_rewrite order_elem. split.
    + intros (e & -> & Ha & i & Hi). split; [done|]. exists (te_Hash e), i. by destruct e.
    + intros (Ha & h & i & Hi). by exists (mkTokenEntry t h); eauto.
  - intros ctx acct id w w' Hk. unfold mem_RevokeToken, guard_ctx, ret. case_match; [done|].
    intros (s & Hs & Hs')%lift_inv. destruct (getS w !! id) as [e|] eqn:He; [|done].
    destruct (String.eqb_spec (tk_AccountID (te_Token e)) acct) as [Ha|]; [|done]. injection Hs as <-.
    split_and!.
    + unfold mem_keyed. rewrite Hs'. by apply map_Forall_delete.
    + exists (te_Hash e), (te_Token e). split_and!; [exists id; by destruct e|by apply Hk|done].
    + intros h t. unfold mem_live. rewrite Hs'. setoid_rewrite lookup_delete_Some. split.
      * intros (i & Hne & Hi). split; [by exists i|]. by rewrite (Hk _ _ Hi : tk_ID t = i).
      * intros [[i Hi] Hne]. exists i. split; [|done]. intros <-. by apply Hne, (Hk _ _ Hi).
  - intros ctx acct id w e w' Hk. unfold mem_RevokeToken, guard_ctx, ret.
    case_match; [intros [= _ <-]; by apply mem_same|].
    intros (s & Hs & Hs')%lift_inv. apply mem_same; [|done]. rewrite Hs'.
    repeat case_match; by simplify_eq.
Qed.
End MemoryFacts.

Section PostgresFacts.
Context {W : Type} `{TableSpec W tokenRow}.

Definition pg_inv (w : W) : Prop := ids_unique (tbl_rows (D := tokenRow) w).
Definition pg_live (w : W) (h : string) (t : Token) : Prop :=
  ∃ r, r ∈ tbl_rows w ∧ tr_TokenHash (row_data r) = h ∧ tokenFromRow r = t.

Lemma pg_same (w w' : W) : tbl_rows (D := tokenRow) w' ≡ₚ tbl_rows w → pg_inv w →
  pg_inv w' ∧ ∀ h t, pg_live w' h t ↔ pg_live w h t.
Proof.
  intros Hp Hu. split; [by eapply ids_unique_perm|]. intros h t. unfold pg_live. by setoid_rewrite Hp.
Qed.

#[export] Instance postgres_store_spec : @StoreSpec W PostgresStore pg_inv pg_live.
Proof.
  split; simpl.
  - intros ctx id acct label hash w tok w' Hu _. unfold pg_CreateToken, mtry, wrap, ret.
    destruct (String.eqb_spec id "") as [|Hid]; [done|].
    destruct (tbl_Create _ _ w) as [[r|e] w1] eqn:E; [|done]. intros [= <- <-].
    apply Create_ok in E as (Hn & Hd & _ & Hrid & Hp). specialize (Hrid Hid). simpl in Hrid, Hd.
    split_and!.
    + unfold pg_inv, ids_unique. rewrite Hp, fmap_cons. apply NoDup_cons. done.
    + done.
    + simpl. by rewrite Hd.
    + simpl. by rewrite Hd.
    + intros h t. unfold pg_live. setoid_rewrite Hp. setoid_rewrite elem_of_cons. split.
      * intros (x & [->|Hx] & Hh & Ht); [right; by rewrite Hd in Hh|left; eauto].
      * intros [(x & Hx & Hh & Ht)|[-> ->]]; [eauto|]. exists r. rewrite Hd. auto.
  - intros ctx id acct label hash w e w' Hu. unfold pg_CreateToken, mtry, wrap, ret.
    case_match; [intros [= _ <-]; by apply pg_same|].
    destruct (tbl_Create _ _ w) as [[r|e'] w1] eqn:E; [done|]. intros [= _ <-].
    apply pg_same; [|done]. by rewrite (Create_err _ _ _ _ _ E).
  - intros ctx h w r w' Hu. unfold pg_Authenticate, bind, ret.
    destruct (tbl_First _ _ _ w) as [x w1] eqn:E. pose proof (First_frame _ _ _ _ _ _ E) as Hf.
    intros [= <- <-]. destruct (pg_same w w1) as [Hu' Hl]; [by rewrite Hf|done|]. split_and!; [done|done|].
    destruct x as [row|e].
    + apply First_ok in E as (Hr & Hh%String.eqb_eq & _). by exists row.
    + destruct (errors_Is _ e) eqn:Ee; [|done]. intros t (row & Hr & Hh & _).
      pose proof (First_missing _ _ _ _ _ _ E Ee row Hr) as Hm. by apply String.eqb_neq in Hm.
  - intros ctx acct w l w' Hu. unfold pg_ListTokens, mtry, wrap, ret.
    destruct (tbl_Find _ _ w) as [[rows|e] w1] eqn:E; [|done]. intros [= <- <-].
    destruct (pg_same w w1) as [Hu' Hl]; [by rewrite (Find_frame _ _ _ _ _ E)|done|].
    split_and!; [done|done|]. intros t.
    apply Find_ok in E as (l' & Hp & _ & ->); [|apply order_by_total]. simpl in *.
    rewrite list_elem_of_fmap. setoid_rewrite Hp. setoid_rewrite list_elem_of_filter. split.
    + intros (r & -> & Ha%String.eqb_eq & Hr). split; [done|]. eexists _, r. eauto.
    + intros (Ha & h & r & Hr & _ & <-). exists r. split; [done|]. split; [|done]. by apply String.eqb_eq.
  - intros ctx acct id w w' Hu. unfold pg_RevokeToken, mtry, wrap, ret.
    destruct (tbl_Delete _ _ w) as [[n|e] w1] eqn:E; [|done]. apply Delete_ok in E as [-> Hp].
    simpl. case_match eqn:En; [done|]. intros [= <-].
    destruct (filter (λ r, of_account acct r && by_id id r = true) (tbl_rows w)) as [|r0 l] eqn:Ef; [done|].
    assert (Hr0 : r0 ∈ filter (λ r, of_account acct r && by_id id r = true) (tbl_rows w)) by (rewrite Ef; set_solver).
    apply list_elem_of_filter in Hr0 as [[Ha%String.eqb_eq Hi%String.eqb_eq]%andb_true_iff Hr0].
    split_and!.
    + eapply ids_unique_perm; [symmetry; exact Hp|]. by apply ids_unique_filter.
    + exists (tr_TokenHash (row_data r0)), (tokenFromRow r0). split_and!; [by exists r0|done|done].
    + intros h t. unfold pg_live. setoid_rewrite Hp. setoid_rewrite list_elem_of_filter.
      setoid_rewrite andb_false_iff. unfold of_account, by_id. setoid_rewrite String.eqb_neq. split.
      * intros (r & [Hne Hr] & Hh & Ht). split; [by exists r|]. rewrite <-Ht. simpl. intros Hid.
        assert (r = r0) as ->; [|by destruct Hne]. eapply ids_unique_eq; [exact Hu|done..|congruence].
      * intros [(r & Hr & Hh & Ht) Hne]. exists r. split_and!; [by right; rewrite <-Ht in Hne|done..].
  - intros ctx acct id w e w' Hu. unfold pg_RevokeToken, mtry, wrap, ret.
    destruct (tbl_Delete _ _ w) as [[n|e'] w1] eqn:E; simpl.
    + apply Delete_ok in E as [-> Hp]. simpl. case_match eqn:En; [|done]. intros [= _ <-]. apply pg_same; [|done].
      rewrite Hp. rewrite filter_all; [done|]. apply Forall_forall. intros r Hr.
      apply not_true_iff_false. intros Hx. apply Z.eqb_eq in En.
      assert (Hin : r ∈ filter (λ r, of_account acct r && by_id id r = true) (tbl_rows w)) by (by apply list_elem_of_filter).
      rewrite (nil_length_inv (filter (λ r, of_account acct r && by_id id r = true) (tbl_rows w))) in Hin by lia.
      set_solver.
    + intros [= _ <-]. apply pg_same; [|done]. by rewrite (Delete_err _ _ _ _ _ E).
Qed.
End PostgresFacts.
