(* ===== verification/AuditLog.v ===== *)
(** * The audit log (internal/audit)

    The [Store] interface with its in-memory and Postgres implementations.
    [StoreSpec] is the contract the management API uses: the log only grows,
    by the recorded entry, and List returns a target's entries, all of them. *)

From S2P Require Import Prelude Table Paging Webhook.

(** ** Data (audit.go) *)

Record Entry := mkEntry {
  en_ID : string;
  en_Actor : string;
  en_Action : string;
  en_Target : string;
  en_Detail : string;
  en_At : Time;
}.

Definition DefaultPageSize : Z := 100.
Definition MaxPageSize : Z := 500.

Class Store (W : Type) := {
  au_Record : Ctx → Entry → M W (res unit);
  au_List : Ctx → string → M W (res (list Entry));
  au_ListPage : Ctx → string → string → Z → M W (res (list Entry));
}.

(** [stored e e'] : [e'] is [e] as the log keeps it: with an identifier of its
    own, and a time when the caller gave none. *)
Definition stored (e e' : Entry) : Prop :=
  en_Actor e' = en_Actor e ∧ en_Action e' = en_Action e ∧ en_Target e' = en_Target e ∧
  en_Detail e' = en_Detail e ∧ (IsZero (en_At e) = false → en_At e' = en_At e).

Class StoreSpec (W : Type) `{Store W} (log : W → list Entry) : Prop := {
  au_Record_ok : ∀ ctx e w w', au_Record ctx e w = (Ok tt, w') →
    ∃ e', stored e e' ∧ log w' ≡ₚ e' :: log w;
  au_Record_err : ∀ ctx e w err w', au_Record ctx e w = (Err err, w') → log w' = log w;
  au_List_ok : ∀ ctx t w l w', au_List ctx t w = (Ok l, w') →
    log w' = log w ∧ l ≡ₚ filter (λ e, en_Target e = t) (log w);
  au_List_err : ∀ ctx t w err w', au_List ctx t w = (Err err, w') → log w' = log w;
  au_ListPage_frame : ∀ ctx t c n w r w', au_ListPage ctx t c n w = (r, w') →
    log w' = log w ∧ ∀ l, r = Ok l → ∀ e, e ∈ l → e ∈ log w ∧ en_Target e = t;
}.

(** ** The in-memory store (memory.go) *)

(** The entries, oldest first. *)
Definition MemoryStore : Type := list Entry.
Definition NewMemoryStore : MemoryStore := [].

Section MemoryStoreOps.
Context {W : Type} `{Env W, !Has W MemoryStore}.

Definition mem_Record (ctx : Ctx) (entry : Entry) : M W (res unit) :=
  guard_ctx ctx (
    let* at_ := (if IsZero (en_At entry) then now else ret (en_At entry)) in
    let* id := uuid_NewString in
    lift (λ m : MemoryStore,
      (Ok tt, m ++ [mkEntry id (en_Actor entry) (en_Action entry) (en_Target entry) (en_Detail entry) at_]))).

Definition mem_List (ctx : Ctx) (target : string) : M W (res (list Entry)) :=
  guard_ctx ctx (lift (λ m : MemoryStore, (Ok (filter (λ e, en_Target e = target) (reverse m)), m))).

(** Here a limit above the maximum selects the default. *)
Definition memory_limit (limit : Z) : Z :=
  if (limit <=? 0) || (MaxPageSize <? limit) then DefaultPageSize else limit.

Definition mem_ListPage (ctx : Ctx) (target cursor : string) (limit : Z) : M W (res (list Entry)) :=
  let? all := mem_List ctx target in
  ret (Ok (take (Z.to_nat (memory_limit limit))
    (if String.eqb cursor "" then all
     else drop 1 (from_first (λ e, String.eqb (en_ID e) cursor) all)))).

Definition MemoryStore_Store : Store W := {|
  au_Record := mem_Record; au_List := mem_List; au_ListPage := mem_ListPage;
|}.
End MemoryStoreOps.

(** ** The Postgres store (postgres.go) *)

(** [entryRow], less the embedded sql.BaseEntity. *)
Record entryRow := mkEntryRow {
  er_Actor : string;
  er_Action : string;
  er_Target : string;
  er_Detail : string;
  er_At : Time;
}.

Definition entryFromRow (r : Row entryRow) : Entry :=
  let d := row_data r in
  mkEntry (row_Id r) (er_Actor d) (er_Action d) (er_Target d) (er_Detail d) (er_At d).

(** [ORDER BY at DESC, id DESC]. *)
Definition newest_first (a b : Row entryRow) : bool :=
  let ta := er_At (row_data a) in
  let tb := er_At (row_data b) in
  (tb <? ta) || ((ta =? tb) && str_leb (row_Id b) (row_Id a)).

Section PostgresStoreOps.
Context {W : Type} `{Env W, Table W entryRow}.

Definition pg_Record (ctx : Ctx) (entry : Entry) : M W (res unit) :=
  let* at_ := (if IsZero (en_At entry) then now else ret (en_At entry)) in
  let* id := uuid_NewString in
  let? _ := wrap (ErrorfW "audit: record entry: %w" [])
    (tbl_Create ctx (mkRow id None
       (mkEntryRow (en_Actor entry) (en_Action entry) (en_Target entry) (en_Detail entry) at_))) in
  ret (Ok tt).

Definition of_target (target : string) (r : Row entryRow) : bool :=
  String.eqb (er_Target (row_data r)) target.

Definition pg_List (ctx : Ctx) (target : string) : M W (res (list Entry)) :=
  let? rows := wrap (ErrorfW "audit: list entries for target %q: %w" [target])
                 (tbl_Find ctx (mkQuery (of_target target) newest_first None)) in
  ret (Ok (entryFromRow <$> rows)).

(** [at < ? OR (at = ? AND id < ?)]. *)
Definition older (a r : Row entryRow) : bool :=
  let ta := er_At (row_data a) in
  let tr := er_At (row_data r) in
  (tr <? ta) || ((tr =? ta) && str_ltb (row_Id r) (row_Id a)).

(** The page query; [after] is the cursor's row. *)
Definition entries_page (ctx : Ctx) (target : string) (limit : Z) (after : option (Row entryRow))
  : M W (res (list Entry)) :=
  let? rows := wrap (ErrorfW "audit: list entries for target %q: %w" [target])
    (tbl_Find ctx (mkQuery
       (λ r, of_target target r && match after with Some a => older a r | None => true end)
       newest_first (Some (Z.to_nat (page_limit DefaultPageSize MaxPageSize limit))))) in
  ret (Ok (entryFromRow <$> rows)).

Definition pg_ListPage (ctx : Ctx) (target cursor : string) (limit : Z) : M W (res (list Entry)) :=
  if String.eqb cursor "" then entries_page ctx target limit None
  else
    let* r := tbl_First ctx (by_id cursor) (order_by row_Id) in
    match r with
    | Ok after => entries_page ctx target limit (Some after)
    | Err e =>
        if errors_Is "gorm.ErrRecordNotFound" e then ret (Ok [])
        else ret (Err (ErrorfW "audit: resolve cursor %q: %w" [cursor] e))
    end.

Definition PostgresStore : Store W := {|
  au_Record := pg_Record; au_List := pg_List; au_ListPage := pg_ListPage;
|}.
End PostgresStoreOps.

Lemma newest_first_total : total_order newest_first.
Proof.
  unfold newest_first. split.
  - intros a b. destruct (str_leb_total (row_Id a) (row_Id b)) as [E|E]; rewrite E; lia.
  - intros a b c Hab Hbc. destruct (str_leb (row_Id c) (row_Id a)) eqn:E; [lia|].
    destruct (str_leb (row_Id b) (row_Id a)) eqn:E1; [|lia].
    destruct (str_leb (row_Id c) (row_Id b)) eqn:E2; [|lia].
    rewrite (str_leb_trans _ _ _ E2 E1) in E. done.
Qed.

(** The cursor comparison is the strict part of the page order, so a page
    resumes right after its cursor even among entries of equal time. *)
Lemma older_strict a r : older a r = newest_first a r && negb (newest_first r a).
Proof.
  unfold older, newest_first. rewrite str_ltb_negb.
  destruct (str_leb_total (row_Id a) (row_Id r)) as [E|E]; rewrite E;
    repeat match goal with |- context [str_leb ?x ?y] => destruct (str_leb x y) end; lia.
Qed.

(** ** Both stores implement the contract *)

Lemma filter_fmap {A B} (f : A → B) (P : B → Prop) `{∀ x, Decision (P x)} (l : list A) :
  filter P (f <$> l) = f <$> filter (λ x, P (f x)) l.
Proof.
  induction l as [|x l IH]; [done|]. rewrite fmap_cons, !filter_cons.
  case_decide; by rewrite ?fmap_cons, IH.
Qed.

Lemma from_first_subset {A} (p : A → bool) l x : x ∈ from_first p l → x ∈ l.
Proof.
  induction l as [|y l IH]; simpl; [done|]. destruct (p y); [done|]. intros Hx. right. auto.
Qed.

Lemma elem_of_drop1 {A} (l : list A) x : x ∈ drop 1 l → x ∈ l.
Proof. destruct l; simpl; [done|]. intros. by right. Qed.

Lemma elem_of_take_sub {A} n (l : list A) x : x ∈ take n l → x ∈ l.
Proof. intros Hx. rewrite <-(take_drop n l). set_solver. Qed.

Section MemoryFacts.
Context {W : Type} `{Env W, !Has W MemoryStore}.
Context `{!Preserves (getS (S := MemoryStore)) (W := W) now,
  !Preserves (getS (S := MemoryStore)) (W := W) uuid_NewString}.

#[export] Instance memory_store_spec : @StoreSpec W MemoryStore_Store (getS (S := MemoryStore)).
Proof.
  assert (Hlist : ∀ ctx t w r w', mem_List ctx t w = (r, w') →
    getS (S := MemoryStore) w' = getS w ∧ ∀ l, r = Ok l → l = filter (λ e, en_Target e = t) (reverse (getS (S := MemoryStore) w))).
  { intros ctx t w r w'. unfold mem_List, guard_ctx, ret. case_match; [by intros [= <- <-]|].
    intros (s & Hs & Hs')%lift_inv. injection Hs as <- <-. split; [done|]. by intros l [= <-]. }
  split; simpl.
  - intros ctx e w w'. unfold mem_Record, guard_ctx. case_match; [done|]. unfold bind.
    destruct ((if IsZero (en_At e) then now else ret (en_At e)) w) as [t w1] eqn:Et.
    assert (Hw1 : getS (S := MemoryStore) w1 = getS w ∧ (IsZero (en_At e) = false → t = en_At e)).
    { destruct (IsZero _); [|by injection Et as <- <-].
      split; [|done]. by apply (preserves_eq (getS (S := MemoryStore)) _ _ _ _ Et). }
    destruct Hw1 as [Hw1 Ht]. destruct (uuid_NewString w1) as [id w2] eqn:Ei.
    pose proof (preserves_eq (getS (S := MemoryStore)) _ _ _ _ Ei) as Hw2.
    intros (s & Hs & Hs')%lift_inv. injection Hs as <-. rewrite Hw2, Hw1 in Hs'.
    eexists. split; [|rewrite Hs'; symmetry; apply Permutation_cons_append]. done.
  - intros ctx e w err w'. unfold mem_Record, guard_ctx. case_match; [by intros [= _ <-]|]. unfold bind.
    destruct ((if IsZero (en_At e) then now else ret (en_At e)) w) as [t w1]. destruct (uuid_NewString w1) as [id w2].
    by intros (s & Hs & _)%lift_inv.
  - intros ctx t w l w' E. apply Hlist in E as [E1 E2]. split; [done|]. rewrite (E2 l eq_refl).
    by rewrite reverse_Permutation.
  - intros ctx t w err w' E. by apply Hlist in E as [E1 _].
  - intros ctx t c n w r w'. unfold mem_ListPage, mtry, ret.
    destruct (mem_List ctx t w) as [[all|e] w1] eqn:E; apply Hlist in E as [E1 E2]; intros [= <- <-];
      (split; [done|]); [|done]. intros l [= <-] x Hx%elem_of_take_sub.
    rewrite (E2 all eq_refl) in Hx.
    assert (Hin : x ∈ filter (λ e, en_Target e = t) (reverse (getS (S := MemoryStore) w))).
    { destruct (String.eqb c ""); [done|]. by apply elem_of_drop1, from_first_subset in Hx. }
    apply list_elem_of_filter in Hin as [Ht Hin]. by rewrite reverse_Permutation in Hin.
Qed.
End MemoryFacts.

Section PostgresFacts.
Context {W : Type} `{Env W, TableSpec W entryRow}.
Context `{!Preserves (tbl_rows (D := entryRow)) (W := W) now,
  !Preserves (tbl_rows (D := entryRow)) (W := W) uuid_NewString}.

Definition pg_log (w : W) : list Entry := entryFromRow <$> tbl_rows w.

Lemma pg_page_frame ctx t n a (w : W) r w' : entries_page ctx t n a w = (r, w') →
  pg_log w' = pg_log w ∧ ∀ l, r = Ok l → ∀ e, e ∈ l → e ∈ pg_log w ∧ en_Target e = t.
Proof.
  unfold entries_page, mtry, wrap, ret, pg_log.
  destruct (tbl_Find _ _ w) as [[rows|e] w1] eqn:E; intros [= <- <-];
    rewrite (Find_frame _ _ _ _ _ E); (split; [done|]); [|done].
  intros l [= <-] x (r & -> & Hr)%list_elem_of_fmap.
  apply Find_ok in E as (l' & Hp & _ & ->); [|apply newest_first_total]. simpl in *.
  apply elem_of_take_sub in Hr. rewrite Hp in Hr.
  apply list_elem_of_filter in Hr as [[Ht%String.eqb_eq _]%andb_true_iff Hr].
  split; [|done]. by apply list_elem_of_fmap_2.
Qed.

#[export] Instance postgres_store_spec : @StoreSpec W PostgresStore pg_log.
Proof.
  split; simpl.
  - intros ctx e w w'. unfold pg_Record, bind, mtry, wrap, ret.
    destruct ((if IsZero (en_At e) then now else λ w0, (en_At e, w0)) w) as [t w1] eqn:Et.
    assert (Hw1 : tbl_rows (D := entryRow) w1 = tbl_rows w ∧ (IsZero (en_At e) = false → t = en_At e)).
    { destruct (IsZero _); [|by injection Et as <- <-].
      split; [|done]. by apply (preserves_eq (tbl_rows (D := entryRow)) _ _ _ _ Et). }
    destruct Hw1 as [Hw1 Ht]. destruct (uuid_NewString w1) as [id w2] eqn:Ei.
    pose proof (preserves_eq (tbl_rows (D := entryRow)) _ _ _ _ Ei) as Hw2.
    destruct (tbl_Create _ _ w2) as [[r|err] w3] eqn:E; [|done]. intros [= <-].
    apply Create_ok in E as (_ & Hd & _ & _ & Hp). exists (entryFromRow r). unfold pg_log.
    split; [|by rewrite Hp, Hw2, Hw1]. unfold stored, entryFromRow. simpl in *. by rewrite Hd.
  - intros ctx e w err w'. unfold pg_Record, bind, mtry, wrap, ret.
    destruct ((if IsZero (en_At e) then now else λ w0, (en_At e, w0)) w) as [t w1] eqn:Et.
    assert (Hw1 : tbl_rows (D := entryRow) w1 = tbl_rows w).
    { destruct (IsZero _); [|by injection Et as _ <-].
      by apply (preserves_eq (tbl_rows (D := entryRow)) _ _ _ _ Et). }
    destruct (uuid_NewString w1) as [id w2] eqn:Ei.
    pose proof (preserves_eq (tbl_rows (D := entryRow)) _ _ _ _ Ei) as Hw2.
    destruct (tbl_Create _ _ w2) as [[r|err'] w3] eqn:E; [done|]. intros [= _ <-].
    unfold pg_log. by rewrite (Create_err _ _ _ _ _ E), Hw2, Hw1.
  - intros ctx t w l w'. unfold pg_List, mtry, wrap, ret, pg_log.
    destruct (tbl_Find _ _ w) as [[rows|e] w1] eqn:E; [|done]. intros [= <- <-].
    rewrite (Find_frame _ _ _ _ _ E). split; [done|].
    apply Find_ok in E as (l' & Hp & _ & ->); [|apply newest_first_total]. simpl in *. rewrite Hp.
    rewrite filter_fmap. erewrite list_filter_iff; [done|]. intros r. apply String.eqb_eq.
  - intros ctx t w err w'. unfold pg_List, mtry, wrap, ret, pg_log.
    destruct (tbl_Find _ _ w) as [[rows|e] w1] eqn:E; [done|]. intros [= _ <-].
    by rewrite (Find_frame _ _ _ _ _ E).
  - intros ctx t c n w r w'. unfold pg_ListPage, bind, ret. case_match; [by apply pg_page_frame|].
    destruct (tbl_First _ _ _ w) as [x w1] eqn:E. pose proof (First_frame _ _ _ _ _ _ E) as Hf.
    destruct x as [a|e]; [|].
    + intros Ep. apply pg_page_frame in Ep as [E1 E2]. unfold pg_log in *. by rewrite Hf in *.
    + case_match; intros [= <- <-]; unfold pg_log; rewrite Hf; (split; [done|]); [|done].
      intros l [= <-]. set_solver.
Qed.
End PostgresFacts.
