(* ===== verification/Mailbuild.v ===== *)
(** * Message composition (internal/mailbuild)

    The MIME message the REST send endpoint composes.  mime/multipart's writer
    is spelled out; strconv.Quote (the [%q] verb, which needs Unicode's tables)
    and the date format are parameters. *)

From S2P Require Import Prelude Table Queue Kms Directory Webhook Storage Deliverer.

(** ** Data *)

Record Attachment := mkAttachment {
  Filename : string;
  ContentType : string;
  Content : string;
}.

Record Message := mkMessage {
  From : string;
  Subject : string;
  Text : string;
  HTML : string;
  Domain : string;
  To : list string;
  Cc : list string;
  Bcc : list string;
  Attachments : list Attachment;
  Headers : gmap string string;
}.

Class StrconvQuote := Quote : string → string.

Definition reservedHeaders : gset string := list_to_set [
  "from"; "to"; "subject"; "date"; "message-id"; "mime-version"; "content-type"; "content-transfer-encoding"].

Definition IsReservedHeader (name : string) : bool := bool_decide (ToLower name ∈ reservedHeaders).

Definition sanitizeHeaderValue (s : string) : string :=
  replace_byte "010" " " (replace_byte "013" " " s).

Definition writeHeader (name value : string) : string :=
  name +:+ ": " +:+ sanitizeHeaderValue value +:+ CRLF.

(** Lines of 76 characters; [fuel] bounds their number. *)
Fixpoint wrap_lines (fuel : nat) (encoded : string) : string :=
  match fuel, encoded with
  | O, _ | _, EmptyString => EmptyString
  | S fuel, _ => String.substring 0 76 encoded +:+ CRLF +:+ wrap_lines fuel (str_drop 76 encoded)
  end.

Definition encodeBase64Wrapped (data : string) : string :=
  let encoded := Base64.EncodeToString data in wrap_lines (String.length encoded) encoded.

(** ** mime/multipart.Writer *)

Record Writer := mkWriter {
  mw_boundary : string;
  mw_lastpart : bool;
  mw_buf : string;
}.

(** A new writer and [SetBoundary]. *)
Definition mw_New (boundary : string) : res Writer :=
  match SetBoundary boundary with
  | Err e => Err e
  | Ok _ => Ok (mkWriter boundary false "")
  end.

Definition part_headers (h : list (string * string)) : string :=
  foldr (λ kv s, kv.1 +:+ ": " +:+ kv.2 +:+ CRLF +:+ s) "" (sort_by (order_by fst) h).

Definition mw_CreatePart (h : list (string * string)) (w : Writer) : Writer :=
  mkWriter (mw_boundary w) true
    (mw_buf w +:+ (if mw_lastpart w then CRLF else "") +:+ "--" +:+ mw_boundary w +:+ CRLF +:+
     part_headers h +:+ CRLF).

Definition mw_Write (s : string) (w : Writer) : Writer :=
  mkWriter (mw_boundary w) (mw_lastpart w) (mw_buf w +:+ s).

Definition mw_Close (w : Writer) : Writer :=
  mkWriter (mw_boundary w) false (mw_buf w +:+ CRLF +:+ "--" +:+ mw_boundary w +:+ "--" +:+ CRLF).

(** ** Composition *)

Section Build.
Context {W : Type} `{Env W, TimeText, StrconvQuote}.

Definition buildBodyPart (text html : string) : M W (res (string * string)) :=
  if negb (String.eqb text "") && negb (String.eqb html "") then
    let* u := uuid_NewString in
    let boundary := "ALT_" +:+ u in
    match mw_New boundary with
    | Err e => ret (Err (ErrorfW "set alternative boundary: %w" [] e))
    | Ok mw =>
        let mw := mw_Write text (mw_CreatePart
          [("Content-Type", "text/plain; charset=utf-8"); ("Content-Transfer-Encoding", "8bit")] mw) in
        let mw := mw_Write html (mw_CreatePart
          [("Content-Type", "text/html; charset=utf-8"); ("Content-Transfer-Encoding", "8bit")] mw) in
        ret (Ok ("multipart/alternative; boundary=" +:+ Quote boundary, mw_buf (mw_Close mw)))
    end
  else if negb (String.eqb html "") then ret (Ok ("text/html; charset=utf-8", html))
  else ret (Ok ("text/plain; charset=utf-8", text)).

Definition attachment_part (mw : Writer) (a : Attachment) : Writer :=
  let ct := if String.eqb (ContentType a) "" then "application/octet-stream" else ContentType a in
  mw_Write (encodeBase64Wrapped (Content a)) (mw_CreatePart
    [("Content-Type", ct);
     ("Content-Disposition", "attachment; filename=" +:+ Quote (sanitizeHeaderValue (Filename a)));
     ("Content-Transfer-Encoding", "base64")] mw).

Definition buildMixed (bodyContentType bodyContent : string) (attachments : list Attachment)
  : M W (res (string * string)) :=
  let* u := uuid_NewString in
  let boundary := "MIXED_" +:+ u in
  match mw_New boundary with
  | Err e => ret (Err (ErrorfW "set mixed boundary: %w" [] e))
  | Ok mw =>
      let bodyHeader := ("Content-Type", bodyContentType) ::
        (if negb (HasPrefix bodyContentType "multipart/") then [("Content-Transfer-Encoding", "8bit")] else []) in
      let mw := mw_Write bodyContent (mw_CreatePart bodyHeader mw) in
      let mw := foldl attachment_part mw attachments in
      ret (Ok ("multipart/mixed; boundary=" +:+ Quote boundary, mw_buf (mw_Close mw)))
  end.

(** The iteration order of the Headers map. *)
Context (order : gmap string string → list (string * string)).

(** The header lines, in the order they are written. *)
Definition header_list (msg : Message) (date messageID contentType : string) : list (string * string) :=
  [("From", From msg)] ++
  (if bool_decide (To msg ≠ []) then [("To", Join (To msg) ", ")] else []) ++
  (if bool_decide (Cc msg ≠ []) then [("Cc", Join (Cc msg) ", ")] else []) ++
  [("Subject", Subject msg); ("Date", date); ("Message-Id", messageID); ("MIME-Version", "1.0")] ++
  order (Headers msg) ++
  [("Content-Type", contentType)].

Definition write_headers (l : list (string * string)) : string :=
  foldr (λ kv s, writeHeader kv.1 kv.2 +:+ s) "" l.

Definition Build (msg : Message) : M W (res string) :=
  let? part := wrap (ErrorfW "mailbuild: build body part: %w" []) (buildBodyPart (Text msg) (HTML msg)) in
  let? top :=
    (if bool_decide (Attachments msg ≠ []) then
       wrap (ErrorfW "mailbuild: build mixed envelope: %w" []) (buildMixed part.1 part.2 (Attachments msg))
     else ret (Ok part)) in
  let* t := now in
  let* u := uuid_NewString in
  let headers := header_list msg (FormatRFC1123Z t) ("<" +:+ u +:+ "@" +:+ Domain msg +:+ ">") top.1 in
  ret (Ok (write_headers headers +:+ CRLF +:+ top.2)).
End Build.

(** ** Attachments survive *)

Lemma str_drop_substring n s : String.substring 0 n s +:+ str_drop n s = s.
Proof.
  revert n. induction s as [|c s IH]; intros [|n]; try done.
  exact (f_equal (String c) (IH n)).
Qed.

Lemma str_drop_length n s : String.length (str_drop n s) = (String.length s - n)%nat.
Proof. revert n. induction s as [|c s IH]; intros [|n]; simpl; [done..|apply IH]. Qed.

Lemma strip_nl_app s t : Base64.strip_nl (s +:+ t) = Base64.strip_nl s +:+ Base64.strip_nl t.
Proof. induction s as [|c s IH]; simpl; [done|]. case_match; [done|]. simpl. by rewrite IH. Qed.

Lemma strip_wrapped fuel s : (String.length s ≤ fuel)%nat → Base64.strip_nl (wrap_lines fuel s) = Base64.strip_nl s.
Proof.
  revert s. induction fuel as [|fuel IH]; intros [|c s] Hf; simpl in Hf; try done; [lia|].
  change (wrap_lines (S fuel) (String c s)) with
    (String.substring 0 76 (String c s) +:+ CRLF +:+ wrap_lines fuel (str_drop 76 (String c s))).
  rewrite !strip_nl_app. rewrite IH by (rewrite str_drop_length; simpl; lia). 
  rewrite <-(str_drop_substring 76 (String c s)) at 3. by rewrite strip_nl_app.
Qed.

(** A decoder recovers the attachment: the encoding wraps, it loses nothing. *)
Lemma wrapped_round_trip data : Base64.DecodeString (encodeBase64Wrapped data) = Ok data.
Proof.
  unfold encodeBase64Wrapped, Base64.DecodeString. rewrite strip_wrapped by done.
  apply Base64.decode_encode.
Qed.

(** ** Header values inject nothing *)

Section Facts.
Context {W : Type} {HE : Env W} {HF : TimeText} {HQ : StrconvQuote}.
Context (order : gmap string string → list (string * string)).

(** The header section of a composed message: exactly the lines of
    [header_list], and as many line ends as headers, whatever the values. *)
Lemma write_headers_breaks (l : list (string * string)) c :
  c = "010"%char ∨ c = "013"%char →
  Forall (λ kv, count_char c kv.1 = 0%nat) l →
  count_char c (write_headers l) = length l.
Proof.
  intros Hc. induction 1 as [|[k v] l Hk Hl IH]; [done|].
  change (write_headers ((k, v) :: l)) with (writeHeader k v +:+ write_headers l).
  unfold writeHeader.
  rewrite !count_char_app, IH, (sanitize_no_break c v Hc : count_char c (sanitizeHeaderValue v) = 0%nat). simpl in Hk. rewrite Hk.
  by destruct Hc as [-> | ->].
Qed.

Lemma build_shape msg (w : W) raw w' : Build order msg w = (Ok raw, w') →
  ∃ date messageID contentType body,
    raw = write_headers (header_list order msg date messageID contentType) +:+ CRLF +:+ body.
Proof.
  unfold Build, mtry, wrap, bind, ret.
  destruct (buildBodyPart _ _ w) as [[part|e] w1]; [|done]. simpl.
  case_bool_decide.
  - destruct (buildMixed _ _ _ w1) as [[top|e] w2]; [|done]. simpl.
    destruct (now w2) as [t w3]. destruct (uuid_NewString w3) as [u w4]. intros [= <- _]. eauto.
  - destruct (now w1) as [t w3]. destruct (uuid_NewString w3) as [u w4]. intros [= <- _]. eauto.
Qed.

Lemma build_no_injection msg (w : W) raw w' c :
  Build order msg w = (Ok raw, w') → c = "010"%char ∨ c = "013"%char →
  Forall (λ kv, count_char c kv.1 = 0%nat) (order (Headers msg)) →
  ∃ headers body, raw = write_headers headers +:+ CRLF +:+ body ∧
    count_char c (write_headers headers) = length headers ∧
    headers.*1 = ["From"] ++ (if decide (To msg = []) then [] else ["To"]) ++
      (if decide (Cc msg = []) then [] else ["Cc"]) ++
      ["Subject"; "Date"; "Message-Id"; "MIME-Version"] ++ (order (Headers msg)).*1 ++ ["Content-Type"].
Proof.
  intros Hb Hc Hf. apply build_shape in Hb as (date & mid & ct & body & ->).
  eexists _, body. split; [done|]. split.
  - apply write_headers_breaks; [done|]. unfold header_list. rewrite !Forall_app.
    split_and!; [|case_bool_decide|case_bool_decide|..]; repeat constructor; try done;
      by destruct Hc as [-> | ->].
  - unfold header_list. rewrite !fmap_app. repeat case_bool_decide; repeat case_decide; try done;
      by exfalso; auto.
Qed.

(** A blind copy stays blind: Bcc has no influence on the message. *)
Lemma build_bcc msg bcc :
  Build order (mkMessage (From msg) (Subject msg) (Text msg) (HTML msg) (Domain msg) (To msg) (Cc msg) bcc
                 (Attachments msg) (Headers msg)) = Build (W := W) order msg.
Proof. done. Qed.
End Facts.
