(* ===== verification/Mime.v ===== *)
(** * Reading composed messages back (internal/mailbuild)

    A reader of MIME messages, written from RFC 5322, 2045 and 2046 and not from
    the composer: lines end in CRLF, a header section ends at the first empty
    line, a multipart body is cut at the lines that start with its delimiter (the
    line break before a delimiter belongs to the delimiter), and the transfer
    encoding is undone.  It reads what [Mailbuild.Build] writes; folded header
    lines and nested comments, which the composer never produces, are not
    understood. *)

From S2P Require Import Prelude Table Queue Kms Directory Webhook Storage Deliverer Mailbuild.

(** ** The reader *)

Definition push (c : ascii) (ls : list string) : list string :=
  match ls with [] => [String c ""] | l :: ls => String c l :: ls end.

(** The lines of a text; never the empty list. *)
Fixpoint lines (s : string) : list string :=
  match s with
  | EmptyString => [""]
  | String c s' =>
      match s' with
      | EmptyString => [String c ""]
      | String d s'' =>
          if bool_decide (c = "013"%char ∧ d = "010"%char) then "" :: lines s'' else push c (lines s')
      end
  end.

Definition header := (string * string)%type.

(** The value of a header line starts after one space. *)
Definition drop_space (v : string) : string := TrimPrefix v " ".

Fixpoint read_headers (ls : list string) : option (list header * list string) :=
  match ls with
  | [] => None
  | l :: ls =>
      if String.eqb l "" then Some ([], ls)
      else match Cut l ":" with
           | (name, value, true) => '(h, body) ← read_headers ls; Some ((name, drop_space value) :: h, body)
           | _ => None
           end
  end.

(** Header names compare without case. *)
Definition header_field (h : list header) (name : string) : option string :=
  snd <$> List.find (λ kv, String.eqb (ToLower kv.1) name) h.

(** The boundary of a multipart body; its quotes are optional. *)
Definition boundary_of (h : list header) : option string :=
  ct ← header_field h "content-type";
  if HasPrefix (ToLower ct) "multipart/" then
    match Cut ct "boundary=" with
    | (_, String "034" b, true) => Some (fst (fst (Cut b (String "034" ""))))
    | (_, b, true) => Some (fst (fst (Cut b ";")))
    | _ => None
    end
  else None.

(** The parts between the delimiters; [part] is the one being read, if any, its
    last line first.  What comes before the first delimiter and after the last
    is dropped. *)
Fixpoint read_parts (b : string) (part : option (list string)) (ls : list string) : option (list (list string)) :=
  match ls with
  | [] => None
  | l :: ls =>
      if HasPrefix l ("--" +:+ b) then
        let done := match part with Some p => [rev p] | None => [] end in
        if HasPrefix l ("--" +:+ b +:+ "--") then Some done
        else app done <$> read_parts b (Some []) ls
      else read_parts b (cons l <$> part) ls
  end.

Definition decode (h : list header) (s : string) : option string :=
  if bool_decide (ToLower <$> header_field h "content-transfer-encoding" = Some "base64") then
    match Base64.DecodeString s with Ok d => Some d | Err _ => None end
  else Some s.

Inductive entity :=
| Leaf (h : list header) (content : string)
| Multipart (h : list header) (parts : list entity).

(** [fuel] bounds the nesting of multiparts. *)
Fixpoint read_entity (fuel : nat) (ls : list string) : option entity :=
  match fuel with
  | O => None
  | S fuel =>
      '(h, body) ← read_headers ls;
      match boundary_of h with
      | Some b => ps ← read_parts b None body; es ← mapM (read_entity fuel) ps; Some (Multipart h es)
      | None => content ← decode h (Join body CRLF); Some (Leaf h content)
      end
  end.

Definition read_message (raw : string) : option entity :=
  let ls := lines raw in read_entity (length ls) ls.

(** ** Lines *)

Definition one_line (s : string) : Prop := count_char "010" s = 0%nat.

Lemma one_line_app s t : one_line (s +:+ t) ↔ one_line s ∧ one_line t.
Proof. unfold one_line. rewrite count_char_app. lia. Qed.

Lemma lines_two c d s : lines (String c (String d s)) =
  if bool_decide (c = "013"%char ∧ d = "010"%char) then "" :: lines s else push c (lines (String d s)).
Proof. done. Qed.

Lemma lines_one s : one_line s → lines s = [s].
Proof.
  induction s as [|c s IH]; [done|]. intros Hs. unfold one_line in *. simpl in Hs. destruct s as [|d s]; [done|].
  rewrite lines_two, bool_decide_false; [by rewrite IH by lia|]. intros [_ ->]. simpl in Hs. lia.
Qed.

Lemma lines_not_nil s : lines s ≠ [].
Proof.
  destruct s as [|c [|d s]]; [done..|]. rewrite lines_two. case_bool_decide; [done|]. unfold push. by case_match.
Qed.

(** Induction along the scan for CRLF. *)
Lemma string_two_ind (P : string → Prop) : P "" → (∀ c, P (String c "")) →
  (∀ c d s, P s → P (String d s) → P (String c (String d s))) → ∀ s, P s.
Proof.
  intros H0 H1 H2 s. enough (P s ∧ ∀ c, P (String c s)) as [? _] by done.
  induction s as [|c s [IH1 IH2]]; auto.
Qed.

Lemma lines_app a t : lines (a +:+ CRLF +:+ t) = lines a ++ lines t.
Proof.
  induction a as [|c|c d s IH1 IH2] using string_two_ind; [done|..].
  - change (String c "" +:+ CRLF +:+ t) with (String c (String "013" (String "010" t))).
    rewrite lines_two, bool_decide_false; [done|]. by intros [_ ?].
  - change (String c (String d s) +:+ CRLF +:+ t) with (String c (String d (s +:+ CRLF +:+ t))).
    rewrite !lines_two. case_bool_decide; [by rewrite IH1|].
    change (String d (s +:+ CRLF +:+ t)) with (String d s +:+ CRLF +:+ t). rewrite IH2.
    pose proof (lines_not_nil (String d s)). by destruct (lines (String d s)).
Qed.

Lemma Join_lines s : Join (lines s) CRLF = s.
Proof.
  induction s as [|c|c d s IH1 IH2] using string_two_ind; [done..|]. rewrite lines_two. case_bool_decide as Hc.
  - destruct Hc as [-> ->]. pose proof (lines_not_nil s). rewrite <-IH1 at 2. by destruct (lines s).
  - pose proof (lines_not_nil (String d s)). rewrite <-IH2 at 2. by destruct (lines (String d s)) as [|l [|l' ls]].
Qed.

Lemma lines_count c s : Forall (λ l, (count_char c l ≤ count_char c s)%nat) (lines s).
Proof.
  induction s as [|e|e d s IH1 IH2] using string_two_ind; [by repeat constructor..|]. rewrite lines_two. case_bool_decide.
  - constructor; [simpl; lia|]. eapply Forall_impl; [exact IH1|]. simpl. intros l. lia.
  - destruct (lines (String d s)) as [|l ls]; cbn [push].
    + repeat constructor. simpl. lia.
    + apply Forall_cons in IH2 as [H1 H2]. constructor; [simpl in *; lia|].
      eapply Forall_impl; [exact H2|]. simpl. intros l'. lia.
Qed.

(** ** Headers *)

Definition header_line (kv : header) : string := kv.1 +:+ ": " +:+ kv.2.

Definition header_ok (kv : header) : Prop := one_line kv.1 ∧ str_in ":" kv.1 = false ∧ one_line kv.2.

Lemma header_line_one kv : header_ok kv → one_line (header_line kv).
Proof. intros (Hk & _ & Hv). unfold header_line. by rewrite !one_line_app. Qed.

Lemma str_app_assoc (a b c : string) : (a +:+ b) +:+ c = a +:+ b +:+ c.
Proof. induction a as [|x a IH]; [done|]. exact (f_equal (String x) IH). Qed.

Lemma HasPrefix_app p s : HasPrefix (p +:+ s) p = true.
Proof.
  unfold HasPrefix. induction p as [|c p IH]; [by destruct s|]. simpl. by destruct (Ascii.ascii_dec c c).
Qed.

Lemma HasPrefix_cons c s p : HasPrefix (String c s) (String c p) = HasPrefix s p.
Proof. unfold HasPrefix. simpl. by destruct (Ascii.ascii_dec c c). Qed.

Lemma HasPrefix_ne c d s p : c ≠ d → HasPrefix (String c s) (String d p) = false.
Proof. intros Hc. unfold HasPrefix. simpl. by destruct (Ascii.ascii_dec d c). Qed.

Lemma Cut_at c a b : str_in c a = false → Cut (a +:+ String c b) (String c "") = (a, b, true).
Proof.
  induction a as [|d a IH].
  - intros _. change ("" +:+ String c b) with (String c b). cbn [Cut]. by rewrite HasPrefix_cons; destruct b.
  - intros [Hd Ha]%orb_false_iff. apply bool_decide_eq_false in Hd.
    change (String d a +:+ String c b) with (String d (a +:+ String c b)).
    cbn [Cut]. by rewrite HasPrefix_ne, IH by done.
Qed.

Lemma header_line_read kv : header_ok kv → String.eqb (header_line kv) "" = false ∧
  Cut (header_line kv) ":" = (kv.1, " " +:+ kv.2, true).
Proof.
  intros (_ & Hk & _). split.
  - unfold header_line. by destruct (fst kv).
  - exact (Cut_at ":" kv.1 (" " +:+ kv.2) Hk).
Qed.

Lemma drop_one_space v : drop_space (" " +:+ v) = v.
Proof. unfold drop_space, TrimPrefix. by rewrite HasPrefix_app. Qed.

Lemma read_headers_lines h body : Forall header_ok h →
  read_headers ((header_line <$> h) ++ "" :: body) = Some (h, body).
Proof.
  induction 1 as [|kv h Hkv _ IH]; [done|]. destruct (header_line_read kv Hkv) as [He Hc].
  rewrite fmap_cons. simpl. rewrite He, Hc, IH. simpl. rewrite drop_one_space. by destruct kv.
Qed.

(** A block of header lines and what follows it. *)
Lemma lines_headers h rest : Forall header_ok h →
  lines (foldr (λ kv s, header_line kv +:+ CRLF +:+ s) "" h +:+ CRLF +:+ rest) = (header_line <$> h) ++ "" :: lines rest.
Proof.
  induction 1 as [|kv h Hkv _ IH]; [exact (lines_app "" rest)|]. cbn [foldr]. rewrite !str_app_assoc, lines_app.
  by rewrite lines_one, IH by by apply header_line_one.
Qed.

(** ** What the multipart writer has written, line by line *)

Definition sorted_headers (h : list header) : list header := sort_by (order_by fst) h.

Definition part_lines (h : list header) (body : string) : list string :=
  (header_line <$> sorted_headers h) ++ "" :: lines body.

Definition delimited (b : string) (ps : list (list string)) : list string :=
  mjoin ((λ p, ("--" +:+ b) :: p) <$> ps).

Definition wrote (b : string) (ps : list (list string)) (w : Writer) : Prop :=
  mw_boundary w = b ∧ mw_lastpart w = bool_decide (ps ≠ []) ∧
  if decide (ps = []) then mw_buf w = "" else lines (mw_buf w) = delimited b ps.

Lemma part_headers_lines h :
  part_headers h = foldr (λ kv s, header_line kv +:+ CRLF +:+ s) "" (sorted_headers h).
Proof.
  unfold part_headers, sorted_headers. induction (sort_by _ h) as [|kv l IH]; [done|]. cbn [foldr]. rewrite IH.
  unfold header_line. by rewrite !str_app_assoc.
Qed.

Lemma sorted_headers_ok h : Forall header_ok h → Forall header_ok (sorted_headers h).
Proof. intros Hh. unfold sorted_headers. by rewrite (sort_by_perm (order_by fst) h). Qed.

Lemma wrote_new b mw : mw_New b = Ok mw → wrote b [] mw.
Proof. unfold mw_New. destruct (SetBoundary b); [|done]. by intros [= <-]. Qed.

Lemma wrote_part b ps h s w : one_line b → Forall header_ok h → wrote b ps w →
  wrote b (ps ++ [part_lines h s]) (mw_Write s (mw_CreatePart h w)).
Proof.
  intros Hb Hh (Hwb & Hl & Hbuf). split; [done|]. rewrite bool_decide_true by (by destruct ps). split; [done|].
  rewrite decide_False by (by destruct ps). unfold mw_Write, mw_CreatePart. cbn [mw_buf mw_boundary]. rewrite Hwb, Hl.
  unfold delimited. rewrite fmap_app, join_app. simpl mjoin. rewrite app_nil_r.
  assert (Hpart : lines ("--" +:+ b +:+ CRLF +:+ (part_headers h +:+ CRLF) +:+ s) = ("--" +:+ b) :: part_lines h s).
  { rewrite <-(str_app_assoc "--"), lines_app, (lines_one ("--" +:+ b)) by (by apply one_line_app). simpl. f_equal.
    rewrite str_app_assoc, part_headers_lines. by apply lines_headers, sorted_headers_ok. }
  case_decide as Hps.
  - subst ps. rewrite bool_decide_false by auto. rewrite Hbuf. rewrite !str_app_assoc in *. exact Hpart.
  - rewrite bool_decide_true by done. rewrite !str_app_assoc in *. rewrite lines_app, Hbuf, Hpart. done.
Qed.

Lemma wrote_close b ps w : one_line b → ps ≠ [] → wrote b ps w →
  lines (mw_buf (mw_Close w)) = delimited b ps ++ ["--" +:+ b +:+ "--"; ""].
Proof.
  intros Hb Hps (Hwb & _ & Hbuf). rewrite decide_False in Hbuf by done. unfold mw_Close. cbn [mw_buf]. rewrite Hwb, lines_app, Hbuf.
  f_equal. rewrite <-(str_app_assoc b), <-(str_app_assoc "--").
  change CRLF with (CRLF +:+ "") at 1. rewrite lines_app, lines_one; [done|]. by rewrite !one_line_app.
Qed.

(** ** Reading a multipart body *)

Definition undelimited (b : string) (p : list string) : Prop := Forall (λ l, HasPrefix l ("--" +:+ b) = false) p.

Lemma read_parts_lines b q p ls : undelimited b p →
  read_parts b (Some q) (p ++ ls) = read_parts b (Some (rev p ++ q)) ls.
Proof.
  intros Hp. revert q. induction Hp as [|l p Hl _ IH]; intros q; [done|]. simpl. rewrite Hl, IH. simpl.
  by rewrite <-(assoc_L (++)).
Qed.

Lemma opening_delimiter b : HasPrefix ("--" +:+ b) ("--" +:+ b) = true ∧ HasPrefix ("--" +:+ b) ("--" +:+ b +:+ "--") = false.
Proof.
  split.
  - unfold HasPrefix. induction ("--" +:+ b) as [|c s IH]; [done|]. simpl. by destruct (Ascii.ascii_dec c c).
  - change (HasPrefix (String "-" (String "-" b)) (String "-" (String "-" (b +:+ "--"))) = false). rewrite !HasPrefix_cons.
    induction b as [|c b IH]; [done|]. change (String c b +:+ "--") with (String c (b +:+ "--")). by rewrite HasPrefix_cons.
Qed.

Lemma closing_delimiter b : HasPrefix ("--" +:+ b +:+ "--") ("--" +:+ b) = true ∧
  HasPrefix ("--" +:+ b +:+ "--") ("--" +:+ b +:+ "--") = true.
Proof.
  split; [rewrite <-str_app_assoc; apply HasPrefix_app|]. exact (proj1 (opening_delimiter (b +:+ "--"))).
Qed.

Lemma delimited_cons b p ps tail :
  delimited b (p :: ps) ++ tail = ("--" +:+ b) :: p ++ delimited b ps ++ tail.
Proof. unfold delimited. rewrite fmap_cons. simpl. by rewrite <-(assoc_L (++)). Qed.

Lemma read_parts_from b q ps rest : Forall (undelimited b) ps →
  read_parts b (Some q) (delimited b ps ++ ("--" +:+ b +:+ "--") :: rest) = Some (rev q :: ps).
Proof.
  intros Hps. revert q. destruct (opening_delimiter b) as [Ho1 Ho2], (closing_delimiter b) as [Hc1 Hc2].
  induction Hps as [|p ps Hp _ IH]; intros q.
  - cbn [delimited fmap list_fmap mjoin list_join app read_parts]. by rewrite Hc1, Hc2.
  - rewrite delimited_cons. cbn [read_parts]. rewrite Ho1, Ho2, read_parts_lines by done. rewrite IH. simpl.
    by rewrite app_nil_r, rev_involutive.
Qed.

Lemma read_parts_written b ps rest : ps ≠ [] → Forall (undelimited b) ps →
  read_parts b None (delimited b ps ++ ("--" +:+ b +:+ "--") :: rest) = Some ps.
Proof.
  destruct ps as [|p ps]; [done|]. intros _ [Hp Hps]%Forall_cons. destruct (opening_delimiter b) as [Ho1 Ho2].
  rewrite delimited_cons. cbn [read_parts]. rewrite Ho1, Ho2, read_parts_lines by done. rewrite read_parts_from by done. simpl.
  by rewrite app_nil_r, rev_involutive.
Qed.

(** *** Base64 has no dashes *)

Lemma enc1_dash n : Base64.enc1 n ≠ "-"%char.
Proof.
  unfold Base64.enc1. assert (H : ∀ i s, str_in "-" s = false → default "A"%char (String.get i s) ≠ "-"%char).
  { intros i s. revert i. induction s as [|c s IH]; [done|]. intros [|i] [Hc Hs]%orb_false_iff; simpl; [|by apply IH].
    apply bool_decide_eq_false in Hc. auto. }
  by apply H.
Qed.

Lemma encode_dash s : count_char "-" (Base64.EncodeToString s) = 0%nat.
Proof.
  revert s. fix IH 1. intros [|a [|b [|c s]]]; [done|..]; cbn [Base64.EncodeToString count_char]; cbv zeta;
    rewrite !decide_False by apply enc1_dash; [done..|]. by rewrite IH.
Qed.

Lemma wrapped_dash data : count_char "-" (encodeBase64Wrapped data) = 0%nat.
Proof.
  unfold encodeBase64Wrapped. generalize (String.length (Base64.EncodeToString data)). pose proof (encode_dash data) as He.
  intros n. revert He. generalize (Base64.EncodeToString data). induction n as [|n IH]; intros s Hs; [by destruct s|].
  destruct s as [|c s]; [done|]. set (t := String c s) in *. change (wrap_lines (S n) t) with
    (String.substring 0 76 t +:+ CRLF +:+ wrap_lines n (str_drop 76 t)).
  rewrite <-(str_drop_substring 76 t), count_char_app in Hs. rewrite !count_char_app, IH by lia. change (count_char "-" CRLF) with 0%nat. lia.
Qed.

Lemma wrapped_undelimited b data : undelimited b (lines (encodeBase64Wrapped data)).
Proof.
  eapply Forall_impl; [apply (lines_count "-")|]. intros l Hl. simpl in Hl. rewrite wrapped_dash in Hl.
  destruct l as [|c l]; [done|]. change ("--" +:+ b) with (String "-" ("-" +:+ b)). apply HasPrefix_ne. intros ->. simpl in Hl. lia.
Qed.

(** ** What a message says *)

Section View.
Context {W : Type} {HE : Env W} {HF : TimeText} {HQ : StrconvQuote}.
Context (order : gmap string string → list (string * string)).

Definition both (msg : Message) : bool := negb (String.eqb (Text msg) "") && negb (String.eqb (HTML msg) "").

(** The content type of the text, with the boundary [alt] of its alternatives. *)
Definition body_type (msg : Message) (alt : string) : string :=
  if both msg then "multipart/alternative; boundary=" +:+ Quote alt
  else if negb (String.eqb (HTML msg) "") then "text/html; charset=utf-8" else "text/plain; charset=utf-8".

Definition text_part (kind content : string) : entity :=
  Leaf [("Content-Transfer-Encoding", "8bit"); ("Content-Type", "text/" +:+ kind +:+ "; charset=utf-8")] content.

(** The text under the headers [h]: the plain version before the rich one. *)
Definition body_view (msg : Message) (h : list header) : entity :=
  if both msg then Multipart h [text_part "plain" (Text msg); text_part "html" (HTML msg)]
  else Leaf h (if negb (String.eqb (HTML msg) "") then HTML msg else Text msg).

Definition attachment_type (a : Attachment) : string :=
  if String.eqb (ContentType a) "" then "application/octet-stream" else ContentType a.

Definition attachment_view (a : Attachment) : entity :=
  Leaf [("Content-Disposition", "attachment; filename=" +:+ Quote (sanitizeHeaderValue (Filename a)));
        ("Content-Transfer-Encoding", "base64"); ("Content-Type", attachment_type a)] (Content a).

(** The headers as they were given, their values on one line. *)
Definition headers_view (msg : Message) (date messageID contentType : string) : list header :=
  (λ kv, (kv.1, sanitizeHeaderValue kv.2)) <$> header_list order msg date messageID contentType.

Definition mixed_headers (msg : Message) (alt : string) : list header :=
  if both msg then [("Content-Type", body_type msg alt)]
  else [("Content-Transfer-Encoding", "8bit"); ("Content-Type", body_type msg alt)].

Definition message_view (msg : Message) (date messageID alt mixed : string) : entity :=
  if decide (Attachments msg = []) then body_view msg (headers_view msg date messageID (body_type msg alt))
  else Multipart (headers_view msg date messageID ("multipart/mixed; boundary=" +:+ Quote mixed))
         (body_view msg (mixed_headers msg alt) :: (attachment_view <$> Attachments msg)).

(** The boundaries [Build] draws. *)
Definition drawn (msg : Message) (w : W) : list string :=
  let '(alt, w) := if both msg then let '(u, w) := uuid_NewString w in (["ALT_" +:+ u], w) else ([], w) in
  if decide (Attachments msg = []) then alt else alt ++ ["MIXED_" +:+ fst (uuid_NewString w)].

(** strconv.Quote: plain text is only put in quotes, and the result is one line. *)
Record quoting : Prop := {
  quote_boundary : ∀ b, SetBoundary b = Ok tt → Quote b = String "034" (b +:+ String "034" "");
  quote_line : ∀ s, one_line (Quote s);
}.
Context (Q : quoting).

(** *** The reader on the composer's pieces *)

Lemma boundary_plain b : SetBoundary b = Ok tt →
  one_line b ∧ str_in "034" b = false ∧ count_char "013" b = 0%nat.
Proof.
  unfold SetBoundary. destruct (_ || _); [done|]. destruct (boundary_chars b) eqn:E; [intros _|done].
  unfold one_line. induction b as [|c b IH]; [done|]. simpl in E. apply andb_true_iff in E as [Hc E].
  destruct (IH E) as (H1 & H2 & H3). simpl. rewrite H1, H2, H3. split_and!.
  - rewrite decide_False; [done|]. by intros ->.
  - rewrite bool_decide_false; [done|]. by intros <-.
  - rewrite decide_False; [done|]. by intros ->.
Qed.

Lemma sanitize_plain s : one_line s → count_char "013" s = 0%nat → sanitizeHeaderValue s = s.
Proof.
  assert (Hr : ∀ o n s, count_char o s = 0%nat → replace_byte o n s = s).
  { intros o n t. induction t as [|c t IH]; [done|]. simpl. case_decide as Hc; [done|]. intros Hn. by rewrite IH. }
  intros H1 H2. unfold sanitizeHeaderValue. by rewrite (Hr "013"%char), Hr.
Qed.

(** The content type of a multipart goes through the header unharmed. *)
Lemma multipart_type_plain kind b : kind = "alternative" ∨ kind = "mixed" → SetBoundary b = Ok tt →
  let ct := "multipart/" +:+ kind +:+ "; boundary=" +:+ Quote b in sanitizeHeaderValue ct = ct.
Proof.
  intros Hk Hb ct. destruct (boundary_plain b Hb) as (H1 & _ & H2). unfold ct. rewrite (quote_boundary Q _ Hb).
  unfold one_line in H1. apply sanitize_plain; unfold one_line; change (String "034" (b +:+ String "034" "")) with
    (String "034" "" +:+ b +:+ String "034" ""); rewrite !count_char_app, ?H1, ?H2; by destruct Hk as [-> | ->].
Qed.

Lemma boundary_read h kind b : kind = "alternative" ∨ kind = "mixed" → SetBoundary b = Ok tt →
  header_field h "content-type" = Some ("multipart/" +:+ kind +:+ "; boundary=" +:+ Quote b) → boundary_of h = Some b.
Proof.
  intros Hk Hb Hh. unfold boundary_of. rewrite Hh, (quote_boundary Q _ Hb). destruct (boundary_plain b Hb) as (_ & Hq & _).
  pose proof (Cut_at "034" b "" Hq) as Hx. revert Hx. generalize (b +:+ String "034" ""). intros x Hx.
  assert (E : Cut ("multipart/" +:+ kind +:+ "; boundary=" +:+ String "034" x) "boundary=" =
    ("multipart/" +:+ kind +:+ "; ", String "034" x, true)) by by destruct Hk as [-> | ->].
  assert (Hm : HasPrefix (ToLower ("multipart/" +:+ kind +:+ "; boundary=" +:+ String "034" x)) "multipart/" = true)
    by by destruct Hk as [-> | ->].
  change (mbind (M := option) ?f (Some ?a)) with (f a). cbv beta. rewrite Hm, E. by rewrite Hx.
Qed.

Lemma read_leaf fuel h s content : Forall header_ok h → boundary_of h = None → decode h s = Some content →
  read_entity (S fuel) ((header_line <$> h) ++ "" :: lines s) = Some (Leaf h content).
Proof. intros Hh Hb Hd. cbn [read_entity]. rewrite read_headers_lines by done. simpl. by rewrite Hb, Join_lines, Hd. Qed.

Lemma read_multipart fuel h b ps es : Forall header_ok h → boundary_of h = Some b → ps ≠ [] →
  Forall (undelimited b) ps → mapM (read_entity fuel) ps = Some es →
  read_entity (S fuel) ((header_line <$> h) ++ "" :: delimited b ps ++ ["--" +:+ b +:+ "--"; ""]) = Some (Multipart h es).
Proof.
  intros Hh Hb Hn Hps Hes. cbn [read_entity]. rewrite read_headers_lines by done. simpl. rewrite Hb. simpl.
  rewrite read_parts_written by done. simpl. by rewrite Hes.
Qed.
(** No line of the texts looks like a delimiter. *)
Definition texts_clear (msg : Message) (b : string) : Prop :=
  undelimited b (lines (Text msg)) ∧ undelimited b (lines (HTML msg)).

Lemma header_undelimited b h name : Forall (λ kv, ∃ c n, kv.1 = String c n ∧ c ≠ "-"%char) h →
  undelimited b (lines name) → undelimited b ((header_line <$> h) ++ "" :: lines name).
Proof.
  intros Hh Hn. apply Forall_app. split; [|by constructor].
  apply Forall_fmap. eapply Forall_impl; [exact Hh|]. intros [k v] (c & n & Hk & Hc). simpl in Hk. subst k.
  exact (HasPrefix_ne c "-" _ ("-" +:+ b) Hc).
Qed.

Definition text_headers (kind : string) : list header :=
  [("Content-Type", "text/" +:+ kind +:+ "; charset=utf-8"); ("Content-Transfer-Encoding", "8bit")].

Lemma text_part_read fuel kind s : kind = "plain" ∨ kind = "html" →
  Forall header_ok (text_headers kind) ∧
  read_entity (S fuel) (part_lines (text_headers kind) s) = Some (text_part kind s) ∧
  (∀ b, undelimited b (lines s) → undelimited b (part_lines (text_headers kind) s)).
Proof.
  intros Hk. split_and!.
  - destruct Hk as [-> | ->]; by repeat constructor.
  - unfold part_lines. change (sorted_headers (text_headers kind)) with
      [("Content-Transfer-Encoding", "8bit"); ("Content-Type", "text/" +:+ kind +:+ "; charset=utf-8")].
    apply read_leaf; destruct Hk as [-> | ->]; by repeat constructor.
  - intros b Hs. apply header_undelimited; [|done]. repeat constructor; by eexists _, _.
Qed.

(** The text of the message, in a part of its own or as the whole body. *)
Lemma body_read msg (w : W) ct body w' : buildBodyPart (Text msg) (HTML msg) w = (Ok (ct, body), w') →
  ∃ alt, ct = body_type msg alt ∧ sanitizeHeaderValue ct = ct ∧ HasPrefix ct "multipart/" = both msg ∧
    (if both msg then ∃ u, uuid_NewString w = (u, w') ∧ alt = "ALT_" +:+ u else w' = w) ∧
    (∀ u, texts_clear msg ("MIXED_" +:+ u) → undelimited ("MIXED_" +:+ u) (lines body)) ∧
    ∀ fuel h, Forall header_ok h → header_field h "content-type" = Some ct →
      header_field h "content-transfer-encoding" = None ∨ header_field h "content-transfer-encoding" = Some "8bit" →
      (both msg = true → texts_clear msg alt) →
      read_entity (S (S fuel)) ((header_line <$> h) ++ "" :: lines body) = Some (body_view msg h).
Proof.
  unfold buildBodyPart, body_type, body_view. fold (both msg). destruct (both msg) eqn:Hb.
  - unfold bind. destruct (uuid_NewString w) as [u w1]. destruct (mw_New ("ALT_" +:+ u)) as [mw|e] eqn:En; [|done].
    assert (Hset : SetBoundary ("ALT_" +:+ u) = Ok tt).
    { unfold mw_New in En. by destruct (SetBoundary _) as [[]|]. }
    destruct (boundary_plain _ Hset) as (Hone & _). unfold ret. intros [= <- Hbody <-]. exists ("ALT_" +:+ u).
    destruct (text_part_read 0 "plain" (Text msg)) as (Hp1 & _ & Hp3); [by left|].
    destruct (text_part_read 0 "html" (HTML msg)) as (Hh1 & _ & Hh3); [by right|].
    pose proof (wrote_part _ _ _ (HTML msg) _ Hone Hh1
      (wrote_part _ _ _ (Text msg) _ Hone Hp1 (wrote_new _ _ En))) as Hw.
    apply wrote_close in Hw; [|done..].
    assert (Hl : lines body = delimited ("ALT_" +:+ u) [part_lines (text_headers "plain") (Text msg);
      part_lines (text_headers "html") (HTML msg)] ++ ["--" +:+ ("ALT_" +:+ u) +:+ "--"; ""]) by (rewrite <-Hbody; exact Hw).
    clear Hw Hbody. rewrite Hl. split_and!; [done| | |by exists u| |].
    + by apply (multipart_type_plain "alternative"); [left|].
    + done.
    + intros u' [Ht Hht]. rewrite !delimited_cons. constructor; [done|]. apply Forall_app. split; [by apply Hp3|].
      constructor; [done|]. apply Forall_app. split; [by apply Hh3|]. by repeat constructor.
    + intros fuel h Hh Hct Hcte Hclear. destruct (Hclear eq_refl) as [Ht Hht].
      apply read_multipart; [done|by apply (boundary_read h "alternative"); [left| |]|done| |].
      * apply Forall_cons. split; [by apply Hp3|]. apply Forall_singleton. by apply Hh3.
      * destruct (text_part_read fuel "plain" (Text msg)) as (_ & Hpr & _); [by left|].
        destruct (text_part_read fuel "html" (HTML msg)) as (_ & Hhr & _); [by right|].
        cbn [mapM]. rewrite Hpr, Hhr. done.
  - assert (Hleaf : ∀ fuel h s ct, Forall header_ok h → header_field h "content-type" = Some ct →
      HasPrefix (ToLower ct) "multipart/" = false →
      header_field h "content-transfer-encoding" = None ∨ header_field h "content-transfer-encoding" = Some "8bit" →
      read_entity (S (S fuel)) ((header_line <$> h) ++ "" :: lines s) = Some (Leaf h s)).
    { intros fuel h s ct' Hh Hct Hm Hcte. apply read_leaf; [done| |].
      - unfold boundary_of. rewrite Hct. simpl. by rewrite Hm.
      - unfold decode. by destruct Hcte as [-> | ->]. }
    destruct (negb (String.eqb (HTML msg) "")); unfold ret; intros [= <- <- <-]; exists ""; split_and!; try done.
    + by intros u [_ ?].
    + intros fuel h Hh Hct Hcte _. by eapply Hleaf.
    + by intros u [? _].
    + intros fuel h Hh Hct Hcte _. by eapply Hleaf.
Qed.
(** *** Attachments *)

Definition attachment_headers (a : Attachment) : list header :=
  [("Content-Type", attachment_type a);
   ("Content-Disposition", "attachment; filename=" +:+ Quote (sanitizeHeaderValue (Filename a)));
   ("Content-Transfer-Encoding", "base64")].

Definition attachment_lines (a : Attachment) : list string :=
  part_lines (attachment_headers a) (encodeBase64Wrapped (Content a)).

(** A content type that is one line, and not of a multipart. *)
Definition attachment_ok (a : Attachment) : Prop :=
  one_line (ContentType a) ∧ HasPrefix (ToLower (ContentType a)) "multipart/" = false.

Lemma attachment_read fuel a : attachment_ok a → Forall header_ok (attachment_headers a) ∧
  read_entity (S fuel) (attachment_lines a) = Some (attachment_view a) ∧ ∀ b, undelimited b (attachment_lines a).
Proof.
  intros [Hone Hm]. assert (Ht : one_line (attachment_type a) ∧ HasPrefix (ToLower (attachment_type a)) "multipart/" = false).
  { unfold attachment_type. by destruct (String.eqb _ _). }
  destruct Ht as [Ht1 Ht2]. assert (Hok : Forall header_ok (attachment_headers a)).
  { repeat constructor; [done|]. apply one_line_app. split; [done|apply Q]. }
  split_and!; [done| |].
  - apply read_leaf; [exact (sorted_headers_ok _ Hok)|..].
    + unfold boundary_of. change (header_field _ "content-type") with (Some (attachment_type a)). simpl. by rewrite Ht2.
    + unfold decode. change (header_field _ _) with (Some "base64"). rewrite bool_decide_true by done. by rewrite wrapped_round_trip.
  - intros b. apply header_undelimited; [|apply wrapped_undelimited].
    change (sorted_headers (attachment_headers a)) with
      [("Content-Disposition", "attachment; filename=" +:+ Quote (sanitizeHeaderValue (Filename a)));
       ("Content-Transfer-Encoding", "base64"); ("Content-Type", attachment_type a)].
    repeat constructor; by eexists _, _.
Qed.

Lemma attachments_wrote b l ps mw : one_line b → Forall attachment_ok l → wrote b ps mw →
  wrote b (ps ++ (attachment_lines <$> l)) (foldl attachment_part mw l).
Proof.
  intros Hb Hl. revert ps mw. induction Hl as [|a l Ha _ IH]; intros ps mw Hw; [by rewrite app_nil_r|].
  cbn [foldl]. rewrite fmap_cons, cons_middle, (assoc_L (++)). apply IH. apply wrote_part; [done| |done].
  by apply (attachment_read 0).
Qed.
(** *** The header section *)

Lemma write_headers_lines l rest : Forall header_ok ((λ kv, (kv.1, sanitizeHeaderValue kv.2)) <$> l) →
  lines (write_headers l +:+ CRLF +:+ rest) =
  (header_line <$> ((λ kv, (kv.1, sanitizeHeaderValue kv.2)) <$> l)) ++ "" :: lines rest.
Proof.
  intros Hl. rewrite <-lines_headers by done. f_equal. f_equal. clear Hl. induction l as [|[k v] l IH]; [done|].
  change (write_headers ((k, v) :: l)) with (writeHeader k v +:+ write_headers l). rewrite fmap_cons. cbn [foldr].
  rewrite <-IH. unfold writeHeader, header_line. simpl fst. simpl snd. by rewrite !str_app_assoc.
Qed.

Lemma header_field_app h1 h2 name : Forall (λ kv, ToLower kv.1 ≠ name) h1 →
  header_field (h1 ++ h2) name = header_field h2 name.
Proof.
  unfold header_field. induction 1 as [|kv h1 Hkv _ IH]; [done|]. simpl. by rewrite (proj2 (String.eqb_neq _ _) Hkv).
Qed.

(** Header names a caller may choose: one line, no colon, not one of those the
    composer writes itself. *)
Definition name_ok (name : string) : Prop :=
  one_line name ∧ str_in ":" name = false ∧ IsReservedHeader name = false.

Definition names_ok (msg : Message) : Prop := Forall (λ kv, name_ok kv.1) (order (Headers msg)).

Lemma headers_view_ok msg date mid ct : names_ok msg → Forall header_ok (headers_view msg date mid ct).
Proof.
  intros Hn. unfold headers_view. apply Forall_fmap. unfold header_list. rewrite !Forall_app.
  assert (Hs : ∀ k v, one_line k → str_in ":" k = false → (header_ok ∘ (λ kv : header, (kv.1, sanitizeHeaderValue kv.2))) (k, v)).
  { intros k v Hk Hc. split_and!; [done..|]. simpl. unfold one_line. apply sanitize_no_break. by left. }
  split_and!; [|case_bool_decide|case_bool_decide|..]; try (by repeat (constructor; try by apply Hs)).
  eapply Forall_impl; [exact Hn|]. intros [k v] (H1 & H2 & _). by apply Hs.
Qed.

Lemma headers_view_type msg date mid ct : names_ok msg →
  header_field (headers_view msg date mid ct) "content-type" = Some (sanitizeHeaderValue ct) ∧
  header_field (headers_view msg date mid ct) "content-transfer-encoding" = None.
Proof.
  intros Hn. unfold headers_view, header_list. rewrite !fmap_app.
  assert (Ho : ∀ name, name ∈ reservedHeaders → Forall (λ kv : header, ToLower kv.1 ≠ name)
    ((λ kv, (kv.1, sanitizeHeaderValue kv.2)) <$> order (Headers msg))).
  { intros name Hname. apply Forall_fmap. eapply Forall_impl; [exact Hn|]. intros [k v] (_ & _ & Hr) He. simpl in Hr, He.
    unfold IsReservedHeader in Hr. apply bool_decide_eq_false in Hr. by rewrite He in Hr. }
  split; rewrite !header_field_app; try done; try (by repeat constructor); try (by case_bool_decide; repeat constructor);
    apply Ho, elem_of_list_to_set; by repeat constructor.
Qed.
(** *** The envelope of attachments *)

Lemma mixed_headers_sorted msg alt ct : HasPrefix ct "multipart/" = both msg → ct = body_type msg alt →
  let h := ("Content-Type", ct) :: (if negb (HasPrefix ct "multipart/") then [("Content-Transfer-Encoding", "8bit")] else []) in
  sorted_headers h = mixed_headers msg alt ∧ (sanitizeHeaderValue ct = ct → Forall header_ok h) ∧
  header_field (mixed_headers msg alt) "content-type" = Some ct ∧
  (header_field (mixed_headers msg alt) "content-transfer-encoding" = None ∨
   header_field (mixed_headers msg alt) "content-transfer-encoding" = Some "8bit") ∧
  Forall (λ kv, ∃ c n, kv.1 = String c n ∧ c ≠ "-"%char) (mixed_headers msg alt).
Proof.
  intros -> ->. unfold mixed_headers.
  assert (Hone : sanitizeHeaderValue (body_type msg alt) = body_type msg alt → header_ok ("Content-Type", body_type msg alt)).
  { intros He. split_and!; [done..|]. simpl. rewrite <-He. apply sanitize_no_break. by left. }
  destruct (both msg); split_and!; auto; try (by repeat constructor; eexists _, _);
    intros He; repeat constructor; by try apply Hone.
Qed.

Lemma mixed_read msg alt body (w : W) ct out w' :
  sanitizeHeaderValue (body_type msg alt) = body_type msg alt → HasPrefix (body_type msg alt) "multipart/" = both msg →
  (∀ fuel h, Forall header_ok h → header_field h "content-type" = Some (body_type msg alt) →
     header_field h "content-transfer-encoding" = None ∨ header_field h "content-transfer-encoding" = Some "8bit" →
     read_entity (S (S fuel)) ((header_line <$> h) ++ "" :: lines body) = Some (body_view msg h)) →
  undelimited ("MIXED_" +:+ fst (uuid_NewString w)) (lines body) → Forall attachment_ok (Attachments msg) →
  buildMixed (body_type msg alt) body (Attachments msg) w = (Ok (ct, out), w') →
  ∃ mixed, ct = "multipart/mixed; boundary=" +:+ Quote mixed ∧ sanitizeHeaderValue ct = ct ∧
    ∀ fuel h, Forall header_ok h → header_field h "content-type" = Some ct →
      read_entity (S (S (S fuel))) ((header_line <$> h) ++ "" :: lines out) =
      Some (Multipart h (body_view msg (mixed_headers msg alt) :: (attachment_view <$> Attachments msg))).
Proof.
  intros Hsan Hpre Hread Hund Hatt. unfold buildMixed, bind. destruct (uuid_NewString w) as [u w1]. simpl in Hund.
  destruct (mw_New ("MIXED_" +:+ u)) as [mw|e] eqn:En; [|done].
  assert (Hset : SetBoundary ("MIXED_" +:+ u) = Ok tt) by (unfold mw_New in En; by destruct (SetBoundary _) as [[]|]).
  destruct (boundary_plain _ Hset) as (Hone & _).
  destruct (mixed_headers_sorted msg alt (body_type msg alt) Hpre eq_refl) as (Hsort & Hok & Hct & Hcte & Hnames).
  cbv zeta. set (h0 := ("Content-Type", _) :: _) in *. unfold ret. intros [= <- Hout <-]. exists ("MIXED_" +:+ u).
  split; [done|]. split; [by apply (multipart_type_plain "mixed"); [right|]|]. intros fuel h Hh Hct'.
  pose proof (attachments_wrote _ _ _ _ Hone Hatt (wrote_part _ _ h0 body _ Hone (Hok Hsan) (wrote_new _ _ En))) as Hw.
  apply wrote_close in Hw; [|done..].
  assert (Hl : lines out = delimited ("MIXED_" +:+ u) (part_lines h0 body :: (attachment_lines <$> Attachments msg)) ++
    ["--" +:+ ("MIXED_" +:+ u) +:+ "--"; ""]) by (rewrite <-Hout; exact Hw). rewrite Hl. clear Hw Hout Hl.
  assert (Hlines : part_lines h0 body = (header_line <$> mixed_headers msg alt) ++ "" :: lines body).
  { unfold part_lines. by rewrite Hsort. }
  apply read_multipart; [done|by apply (boundary_read h "mixed"); [right| |]|done| |].
  - simpl. constructor; [rewrite Hlines; by apply header_undelimited|]. apply Forall_fmap.
    eapply Forall_impl; [exact Hatt|]. intros a Ha. by apply (attachment_read 0).
  - apply mapM_Some_2. simpl. constructor.
    + rewrite Hlines. apply Hread; [|done..]. rewrite <-Hsort. apply sorted_headers_ok, Hok, Hsan.
    + apply Forall2_fmap_2, Forall_Forall2_diag. eapply Forall_impl; [exact Hatt|]. intros a Ha.
      exact (proj1 (proj2 (attachment_read (S fuel) a Ha))).
Qed.
(** C4: a composed message reads back.  Whenever [Build] succeeds on a message
    whose custom header names have no line break and no colon and are not
    reserved, whose attachments' content types have no line break and are not
    multipart, and whose texts have no line that starts with a delimiter drawn
    for it, a MIME reader recovers from the bytes
    exactly what was put in: every header in its order, with its value on one
    line; the plain text, or the HTML, or both as alternatives with the plain
    text first; and each attachment in its order, with its content type, its file
    name and its bytes. *)
Theorem build_read msg (w : W) raw w' :
  names_ok msg → Forall attachment_ok (Attachments msg) → Forall (texts_clear msg) (drawn msg w) →
  Build order msg w = (Ok raw, w') →
  ∃ t u alt mixed,
    read_message raw = Some (message_view msg (FormatRFC1123Z t) ("<" +:+ u +:+ "@" +:+ Domain msg +:+ ">") alt mixed).
Proof.
  intros Hn Hatt Hclear. unfold Build, mtry, wrap, bind, ret.
  destruct (buildBodyPart _ _ w) as [[[ct body]|e] w1] eqn:Eb; [|done].
  apply body_read in Eb as (alt & -> & Hsan & Hpre & Hu & Hund & Hread). simpl fst. simpl snd.
  assert (Halt : both msg = true → texts_clear msg alt).
  { intros Hb. rewrite Hb in Hu. destruct Hu as (u & Eu & ->). revert Hclear. unfold drawn. rewrite Hb, Eu.
    case_decide; by intros [? _]%Forall_cons. }
  assert (Hfuel : ∀ date mid ct' rest, ∃ n, length ((header_line <$> headers_view msg date mid ct') ++ "" :: rest) = S (S (S n))).
  { intros date mid ct' rest. unfold headers_view, header_list. rewrite length_app, !length_fmap, !length_app. simpl.
    match goal with |- ∃ n, ?l = _ => exists (l - 3)%nat end. lia. }
  destruct (decide (Attachments msg = [])) as [Ha|Ha].
  - rewrite bool_decide_false by auto. destruct (now w1) as [t w2]. destruct (uuid_NewString w2) as [u w3].
    set (date := FormatRFC1123Z t). set (mid := "<" +:+ u +:+ "@" +:+ Domain msg +:+ ">"). intros E.
    assert (raw = write_headers (header_list order msg date mid (body_type msg alt)) +:+ CRLF +:+ body) as -> by (injection E as E' _; symmetry; exact E').
    exists t, u, alt, "". unfold read_message, message_view. rewrite decide_True by done. cbv zeta.
    destruct (headers_view_type msg date mid (body_type msg alt) Hn) as [Hct Hcte].
    pose proof (headers_view_ok msg date mid (body_type msg alt) Hn) as Hok.
    rewrite write_headers_lines by exact Hok. fold (headers_view msg date mid (body_type msg alt)).
    destruct (Hfuel date mid (body_type msg alt) (lines body)) as [n ->]. rewrite Hsan in Hct. apply Hread; auto.
  - rewrite bool_decide_true by auto. cbn [map_err fst snd]. destruct (buildMixed _ _ _ w1) as [[[ct out]|e] w2] eqn:Em; [|done].
    assert (Hmix : texts_clear msg ("MIXED_" +:+ fst (uuid_NewString w1))).
    { revert Hclear. unfold drawn. destruct (both msg).
      - destruct Hu as (u & -> & _). rewrite decide_False by done. by intros [_ [? _]%Forall_cons]%Forall_cons.
      - subst w1. rewrite decide_False by done. by intros [? _]%Forall_cons. }
    apply (mixed_read msg alt body w1) in Em as (mixed & -> & Hsan' & Hread'); [|auto..].
    destruct (now w2) as [t w3]. destruct (uuid_NewString w3) as [u w4].
    set (date := FormatRFC1123Z t). set (mid := "<" +:+ u +:+ "@" +:+ Domain msg +:+ ">").
    set (ct := "multipart/mixed; boundary=" +:+ Quote mixed) in *. intros E.
    assert (raw = write_headers (header_list order msg date mid ct) +:+ CRLF +:+ out) as -> by (injection E as E' _; symmetry; exact E').
    exists t, u, alt, mixed. unfold read_message, message_view. rewrite decide_False by done. cbv zeta.
    destruct (headers_view_type msg date mid ct Hn) as [Hct _].
    pose proof (headers_view_ok msg date mid ct Hn) as Hok.
    rewrite write_headers_lines by exact Hok. fold (headers_view msg date mid ct).
    destruct (Hfuel date mid ct (lines out)) as [n ->]. rewrite Hsan' in Hct. by apply Hread'.
Qed.
End View.

(** ** A message of each kind *)
Module MimeExample.
#[export] Instance env : Env unit := { env_metrics := unread; now := ret 100; uuid_NewString := ret "u" }.
#[export] Instance date : TimeText := λ _, "today".
#[export] Instance quote : StrconvQuote := λ s, String "034" (sanitizeHeaderValue s +:+ String "034" "").
Definition in_order (m : gmap string string) : list (string * string) := map_to_list m.

Lemma quotes : quoting.
Proof.
  split.
  - intros b Hb. destruct (boundary_plain b Hb) as (H1 & _ & H2). unfold Quote, quote. by rewrite sanitize_plain.
  - intros s. unfold one_line, Quote, quote. change (String "034" (sanitizeHeaderValue s +:+ String "034" "")) with
      (String "034" "" +:+ sanitizeHeaderValue s +:+ String "034" "").
    rewrite !count_char_app. assert (count_char "010" (sanitizeHeaderValue s) = 0%nat) as -> by (apply sanitize_no_break; by left). done.
Qed.

(** A forged header in the subject, a text that ends a line with CRLF and has a
    line of dashes, an HTML version and two files, one of them empty. *)
Definition letter : Message :=
  mkMessage "alice@a.test" ("hi" +:+ CRLF +:+ "Bcc: eve@x.test") ("one" +:+ CRLF +:+ "--two" +:+ CRLF) "<p>one</p>" "a.test"
    ["bob@b.test"; "carol@c.test"] [] [] [mkAttachment "a.bin" "" ("--MIXED_u" +:+ CRLF +:+ "x"); mkAttachment "b.txt" "text/plain" ""]
    {["X-Tag" := "t"]}.
Definition note : Message := mkMessage "alice@a.test" "hi" "" "<p>one</p>" "a.test" ["bob@b.test"] [] [] [] ∅.
Definition composed (msg : Message) : string := match fst (Build in_order msg tt) with Ok raw => raw | Err _ => "" end.
End MimeExample.

Import MimeExample.

Lemma build_read_witness :
  read_message (composed letter) = Some (message_view in_order letter "today" "<u@a.test>" "ALT_u" "MIXED_u") ∧
  (∃ t u alt mixed, read_message (composed letter) =
     Some (message_view in_order letter (FormatRFC1123Z t) ("<" +:+ u +:+ "@a.test>") alt mixed)) ∧
  read_message (composed note) = Some (Leaf
    [("From", "alice@a.test"); ("To", "bob@b.test"); ("Subject", "hi"); ("Date", "today"); ("Message-Id", "<u@a.test>");
     ("MIME-Version", "1.0"); ("Content-Type", "text/html; charset=utf-8")] "<p>one</p>") ∧
  ∃ t u alt mixed, read_message (composed note) =
     Some (message_view in_order note (FormatRFC1123Z t) ("<" +:+ u +:+ "@a.test>") alt mixed).
Proof.
  split; [by vm_compute|]. split; [|split; [by vm_compute|]].
  - apply (build_read in_order quotes letter tt (composed letter) tt); [|repeat constructor| |by vm_compute].
    + change (names_ok in_order letter) with (Forall (λ kv : string * string, name_ok kv.1) (in_order {["X-Tag" := "t"]})).
      assert (in_order {["X-Tag" := "t"]} = [("X-Tag", "t")]) as -> by by vm_compute.
      apply Forall_singleton. by split_and!.
    + apply Forall_cons. split; [split; by repeat constructor|]. apply Forall_singleton. split; by repeat constructor.
  - apply (build_read in_order quotes note tt (composed note) tt); [constructor|constructor|constructor|by vm_compute].
Defined.
