(* ===== verification/Api.v ===== *)
(** * The management API (internal/api)

    Every route of [ROUTES]: the request types with what they bind, the guards
    (per-address rate limit, bearer token, account and vhost authorisation),
    each controller's handler whole, and the views it answers with.  The goose
    framework's outputs are the constructors of [Output].  net/mail's address
    parser, DKIM signing and public-key encoding are parameters. *)

From stdpp Require Import gmap pretty.
From S2P Require Import Prelude Float64 Table Paging Kms Queue Logging Directory Webhook Storage Deliverer.
From S2P Require Import Smtp ApiAuth AuditLog Mailbuild.

(** ** Requests (dtos.go)

    Every request carries the credentials; the rest is one constructor per DTO. *)

Record Credentials := mkCredentials { Authorization : string; ClientIP : string }.

Record AttachmentDto := mkAttachmentDto {
  ad_Filename : string;
  ad_ContentType : string;
  ad_ContentBase64 : string;
}.

Record SendFields := mkSendFields {
  sm_From : string;
  sm_To : list string;
  sm_Cc : list string;
  sm_Bcc : list string;
  sm_Subject : string;
  sm_Text : string;
  sm_HTML : string;
  sm_Attachments : list AttachmentDto;
  sm_Headers : gmap string string;
}.

Inductive Dto :=
| CreateVhostDto (AccountID Domain : string)
| ListVhostsDto (Cursor : string) (Limit : Z)
| GetVhostDto (ID : string)
| DeactivateVhostDto (ID : string)
| UpdateVhostPolicyDto (ID : string) (policy : VhostPolicy)
| CreateMailboxDto (VhostID LocalPart Password : string)
| ListMailboxesDto (VhostID Cursor : string) (Limit : Z)
| GetMailboxDto (VhostID ID : string)
| DeleteMailboxDto (VhostID ID : string)
| CreateWebhookSubscriptionDto (VhostID URL Secret : string) (EventTypes : list string)
| ListWebhookSubscriptionsDto (VhostID Cursor : string) (Limit : Z)
| DisableWebhookSubscriptionDto (VhostID ID : string)
| ListWebhookAttemptsDto (VhostID ID Cursor : string) (Limit : Z)
| RedriveWebhookAttemptDto (VhostID ID EventID : string)
| CreateTokenDto (AccountID Label : string)
| ListTokensDto (AccountID Cursor : string) (Limit : Z)
| RevokeTokenDto (AccountID ID : string)
| CreateAccountDto (Name : string)
| ListAccountsDto (Cursor : string) (Limit : Z)
| GetAccountDto (ID : string)
| ListAccountAuditEntriesDto (AccountID Cursor : string) (Limit : Z)
| SendMessageDto (AccountID : string) (m : SendFields)
| ListAuditEntriesDto (VhostID Cursor : string) (Limit : Z)
| ExportVhostDataDto (ID : string)
| DeleteVhostDataDto (ID : string).

(** ** Views (views.go) *)

(** [x509.MarshalPKIXPublicKey] of the public half. *)
Class X509 := x509_MarshalPKIX : PrivateKey → res string.

Record vhostView := mkVhostView {
  vv_ID : string;
  vv_AccountID : string;
  vv_Domain : string;
  vv_Active : bool;
  vv_policy : VhostPolicy;
  vv_DKIMSelector : string;
  vv_DKIMDNSRecord : string;
}.

Definition newVhostView `{X509} (v : Vhost) : vhostView :=
  mkVhostView (vh_ID v) (vh_AccountID v) (vh_Domain v) (vh_Active v) (vh_policy v) (vh_DKIMSelector v)
    (match vh_DKIMKey v with
     | None => ""
     | Some key =>
         match x509_MarshalPKIX key with
         | Err _ => ""
         | Ok der => "v=DKIM1; k=rsa; p=" +:+ Base64.EncodeToString der
         end
     end).

Record mailboxView := mkMailboxView { mv_ID : string; mv_VhostID : string; mv_LocalPart : string }.

Definition newMailboxView (m : Mailbox) : mailboxView :=
  mkMailboxView (mb_ID m) (mb_VhostID m) (mb_LocalPart m).

Record webhookSubscriptionView := mkSubscriptionView {
  wv_ID : string;
  wv_VhostID : string;
  wv_URL : string;
  wv_EventTypes : list string;
  wv_Disabled : bool;
}.

Definition newWebhookSubscriptionView (vhostID : string) (s : Subscription) : webhookSubscriptionView :=
  mkSubscriptionView (sub_ID s) vhostID (sub_URL s) (sub_EventTypes s) (sub_Disabled s).

Record webhookAttemptView := mkAttemptView {
  wa_ID : string;
  wa_EventID : string;
  wa_Attempt : Z;
  wa_StatusCode : Z;
  wa_Error : string;
  wa_AttemptedAt : Time;
}.

Definition newWebhookAttemptView (a : DeliveryAttempt) : webhookAttemptView :=
  mkAttemptView (at_ID a) (at_EventID a) (at_Attempt a) (at_StatusCode a) (at_Error a) (at_AttemptedAt a).

Record tokenView := mkTokenView {
  tv_ID : string;
  tv_AccountID : string;
  tv_Label : string;
  tv_CreatedAt : Time;
  tv_Token : string;
}.

Definition newTokenView (t : Token) (rawToken : string) : tokenView :=
  mkTokenView (tk_ID t) (tk_AccountID t) (tk_Label t) (tk_CreatedAt t) rawToken.

Record accountView := mkAccountView { av_ID : string; av_Name : string; av_CreatedAt : Time }.

Definition newAccountView (a : Account) : accountView :=
  mkAccountView (ac_ID a) (ac_Name a) (ac_CreatedAt a).

Record accountWithTokenView := mkAccountWithTokenView { aw_Account : accountView; aw_Token : tokenView }.

Definition newAccountWithTokenView (a : Account) (t : Token) (raw : string) : accountWithTokenView :=
  mkAccountWithTokenView (newAccountView a) (newTokenView t raw).

Record auditEntryView := mkAuditEntryView {
  ev_Actor : string;
  ev_Action : string;
  ev_Detail : string;
  ev_At : Time;
}.

Definition newAuditEntryView (e : Entry) : auditEntryView :=
  mkAuditEntryView (en_Actor e) (en_Action e) (en_Detail e) (en_At e).

Record messageExportView := mkMessageExportView {
  me_Mailbox : string;
  me_Size : Z;
  me_Flags : list string;
  me_CreatedAt : Time;
  me_Body : string;
}.

Record dataExportView := mkDataExportView {
  de_Vhost : vhostView;
  de_Mailboxes : list mailboxView;
  de_Messages : list messageExportView;
  de_WebhookSubscriptions : list webhookSubscriptionView;
  de_AuditLog : list auditEntryView;
}.

Definition newDataExportView `{X509} (v : Vhost) (mailboxes : list Mailbox) (messages : list messageExportView)
  (vhostID : string) (subs : list Subscription) (entries : list Entry) : dataExportView :=
  mkDataExportView (newVhostView v) (newMailboxView <$> mailboxes) messages
    (newWebhookSubscriptionView vhostID <$> subs) (newAuditEntryView <$> entries).

Inductive View :=
| VVhost (v : vhostView) | VMailbox (v : mailboxView) | VSubscription (v : webhookSubscriptionView)
| VAttempt (v : webhookAttemptView) | VToken (v : tokenView) | VAccount (v : accountView)
| VAccountWithToken (v : accountWithTokenView) | VAuditEntry (v : auditEntryView) | VDataExport (v : dataExportView)
| VMessagesDeleted (n : Z) | VQueued (queued : Z) (vhostId : string) (jobIds : list string).

(** goose's outputs; [BadRequest] with the operands of its format. *)
Inductive Output :=
| BadRequest (format : string) (args : list string)
| Unauthorized (msg : string)
| Forbidden (msg : string)
| NotFound (msg : string)
| TooManyRequests (msg : string)
| InternalServerError (msg : string)
| ServiceUnavailable (msg : string)
| Created (v : View)
| OK (v : View)
| Success (msg : string) (v : option View)
| SuccessWithMeta (views : list View) (nextCursor : string).

(** ** Handlers that may answer early *)

Definition obind {W A} (m : M W (Output + A)) (k : A → M W Output) : M W Output := λ w,
  match m w with (inl o, w') => (o, w') | (inr a, w') => k a w' end.

Notation "'let!' x ':=' m 'in' k" := (obind m (λ x, k))
  (at level 200, x binder, m at level 100, k at level 200, right associativity) : go_scope.

(** [if err != nil { return f(err) }]. *)
Definition or_return {W A} (m : M W (res A)) (f : goerr → Output) : M W (Output + A) := λ w,
  match m w with (Ok a, w') => (inr a, w') | (Err e, w') => (inl (f e), w') end.

Definition internal (msg : string) (e : goerr) : Output := InternalServerError msg.

Definition missing_or (sentinel missing msg : string) (e : goerr) : Output :=
  if errors_Is sentinel e then NotFound missing else InternalServerError msg.

(** [if cond { return o }]. *)
Definition return_if {W} (cond : bool) (o : Output) : M W (Output + unit) := λ w,
  if cond then (inl o, w) else (inr tt, w).

(** ** What the container injects (auth.go, ratelimit.go) *)

Record RateLimitPolicy (W : Type) := mkRateLimitPolicy {
  rl_Limiter : option (RateLimiter W);
  rl_Capacity : float64;
  rl_RefillPerSecond : float64;
}.
Arguments rl_Limiter {W} _. Arguments rl_Capacity {W} _. Arguments rl_RefillPerSecond {W} _.

(** [webhook.Redriver]. *)
Definition Redriver (W : Type) : Type := Ctx → string → string → string → M W (res unit).

(** The optional collaborators; the stores are type classes. *)
Record Injected (W : Type) := mkInjected {
  admin : option string;                       (* AdminToken.Value *)
  rateLimit : option (RateLimitPolicy W);
  redrive : option (option (Redriver W));      (* RedrivePolicy.Dispatcher *)
  quota : option (option (RateLimiter W));     (* QuotaPolicy.Limiter *)
  webhooks : option (Enqueuer W);
}.
Arguments admin {W} _. Arguments rateLimit {W} _. Arguments redrive {W} _. Arguments quota {W} _.
Arguments webhooks {W} _.

(** What the initializers of the api instance register: every collaborator
    is there. *)
Definition apiInitializers {W} (adm : string) (apiRateLimit : RateLimitPolicy W) (dispatcher : option (Redriver W))
  (messageWebhooks : Enqueuer W) (quotaLimiter : option (RateLimiter W)) : Injected W :=
  mkInjected W (Some adm) (Some apiRateLimit) (Some dispatcher) (Some quotaLimiter) (Some messageWebhooks).

Record authContext := mkAuthContext { ac_IsAdmin : bool; ac_AccountID : string }.

Definition Actor (ac : authContext) : string :=
  if ac_IsAdmin ac then "admin" else "account:" +:+ ac_AccountID ac.

Definition DefaultAPIRateLimitCapacity : float64 := of_int 60.
Definition DefaultAPIRateLimitRefillPerSecond : float64 := of_int 1.

Definition clientIPFromHeader (xff : string) : string :=
  let '(first, _, _) := Cut xff "," in TrimSpace first.

Definition bearerToken (header : string) : option string :=
  if negb (HasPrefix header "Bearer ") then None
  else
    let raw := TrimSpace (TrimPrefix header "Bearer ") in
    if String.eqb raw "" then None else Some raw.

(** [net/mail.ParseAddress]: the address of a mailbox. *)
Class NetMail := mail_ParseAddress : string → res string.

(** [len(page) == limit], with the limit the handler computes. *)
Definition nextCursor (dflt max limit : Z) (ids : list string) : string :=
  let limit := if (limit <=? 0) || (max <? limit) then dflt else limit in
  if Z.of_nat (length ids) =? limit then default "" (last ids) else "".

Fixpoint unique_from (seen : gset string) (l : list string) : list string :=
  match l with
  | [] => []
  | addr :: l =>
      if String.eqb addr "" || bool_decide (addr ∈ seen) then unique_from seen l
      else addr :: unique_from ({[addr]} ∪ seen) l
  end.

Definition uniqueRecipients (lists : list (list string)) : list string := unique_from ∅ (concat lists).

Section Controllers.
Context {W : Type} {HDb : Db W} {HTa : Table W accountRow} {HTv : Table W vhostRow} {HTm : Table W mailboxRow}
  {HTk : Table W dkimKeyRow} {HC : Crypto W} {HE : Env W} {HR : RandRead W} {HT : ApiAuth.Store W}
  {HA : AuditLog.Store W} {HH : Webhook.Store W} {HS : MessageStore W} {HQ : QueueBackend W Job}
  {HK : DKIMSigner W} {HJ : JSON} {HX : X509} {HN : NetMail} {HSha : SHA256} {HF : TimeText} {HSq : StrconvQuote}.
(** The directory service's Encryptor, the iteration order of the Headers map. *)
Context (enc : Encryptor W) (order : gmap string string → list (string * string)).
Context (c : Injected W).

Notation ctx := Background.

(** ** Guards (auth.go) *)

Definition checkAPIRateLimit (clientIPHeader : string) : M W (option Output) :=
  match rateLimit c with
  | None => ret None
  | Some policy =>
      match rl_Limiter policy with
      | None => ret None
      | Some Allow =>
          let ip := clientIPFromHeader clientIPHeader in
          if String.eqb ip "" then ret None
          else
            let capacity := if fle (rl_Capacity policy) F0 then DefaultAPIRateLimitCapacity else rl_Capacity policy in
            let refill := if fle (rl_RefillPerSecond policy) F0 then DefaultAPIRateLimitRefillPerSecond
                          else rl_RefillPerSecond policy in
            let* r := Allow ctx ("api:" +:+ ip) capacity refill in
            ret (match r with
                 | Ok false => Some (TooManyRequests "rate limit exceeded, try again later")
                 | _ => None
                 end)
      end
  end.

Definition is_admin_token (raw : string) : bool :=
  match admin c with
  | None => false
  | Some value => negb (String.eqb value "") && ConstantTimeEqual raw value
  end.

Definition authenticate (a : Credentials) : M W (Output + authContext) :=
  let* limited := checkAPIRateLimit (ClientIP a) in
  match limited with
  | Some o => ret (inl o)
  | None =>
      match bearerToken (Authorization a) with
      | None => ret (inl (Unauthorized "missing or malformed Authorization header (expected: Bearer <token>)"))
      | Some raw =>
          if is_admin_token raw then ret (inr (mkAuthContext true ""))
          else
            let* r := ts_Authenticate ctx (HashToken raw) in
            ret (match r with
                 | Err _ => inl (InternalServerError "failed to authenticate")
                 | Ok None => inl (Unauthorized "invalid or revoked token")
                 | Ok (Some tok) => inr (mkAuthContext false (tk_AccountID tok))
                 end)
      end
  end.

Definition requireAdmin (a : Credentials) : M W (Output + authContext) :=
  let* r := authenticate a in
  ret (match r with
       | inl o => inl o
       | inr ac => if negb (ac_IsAdmin ac) then inl (Forbidden "admin token required") else inr ac
       end).

Definition requireAccountAccess (a : Credentials) (accountID : string) : M W (Output + authContext) :=
  let* r := authenticate a in
  ret (match r with
       | inl o => inl o
       | inr ac =>
           if ac_IsAdmin ac || String.eqb (ac_AccountID ac) accountID then inr ac
           else inl (Forbidden "token is not authorized for this account")
       end).

Definition vhost_forbidden : Output := Forbidden "token is not authorized for this vhost".

Definition requireVhostAccountAccess (a : Credentials) (vhostID : string) : M W (Output + authContext) :=
  let* r := authenticate a in
  match r with
  | inl o => ret (inl o)
  | inr ac =>
      if ac_IsAdmin ac then ret (inr ac)
      else
        let* v := GetVhost enc ctx vhostID in
        ret (match v with
             | Err e =>
                 if errors_Is "directory.ErrNotFound" e then inl vhost_forbidden
                 else inl (InternalServerError "failed to verify vhost")
             | Ok v => if String.eqb (ac_AccountID ac) (vh_AccountID v) then inr ac else inl vhost_forbidden
             end)
  end.

Definition recordAudit (store : option (AuditLog.Store W)) (ac : authContext) (action target detail : string) : M W unit :=
  match store with
  | None => ret tt
  | Some HA => let* _ := @au_Record W HA ctx (mkEntry "" (Actor ac) action target detail 0) in ret tt
  end.

(** ** Vhosts and mailboxes (controller.go) *)

Definition no_vhost : goerr → Output :=
  missing_or "directory.ErrNotFound" "vhost not found" "failed to fetch vhost".

Definition VhostController_CreateVhost (a : Credentials) (accountID domain : string) : M W Output :=
  let! ac := requireAccountAccess a accountID in
  let! _ := return_if (String.eqb domain "") (BadRequest "domain is required" []) in
  let! _ := or_return (GetAccount ctx accountID)
              (missing_or "directory.ErrNotFound" "account not found" "failed to verify account") in
  let! v := or_return (CreateVhost enc ctx accountID domain) (internal "failed to create vhost") in
  let* _ := recordAudit (Some HA) ac "vhost.create" (vh_ID v) domain in
  ret (Created (VVhost (newVhostView v))).

Definition VhostController_ListVhosts (a : Credentials) (cursor : string) (limit : Z) : M W Output :=
  let! _ := requireAdmin a in
  let! vhosts := or_return (ListVhosts ctx cursor limit) (internal "failed to list vhosts") in
  ret (SuccessWithMeta ((λ v, VVhost (newVhostView v)) <$> vhosts)
         (nextCursor DefaultVhostPageSize MaxVhostPageSize limit (vh_ID <$> vhosts))).

Definition VhostController_GetVhost (a : Credentials) (id : string) : M W Output :=
  let! _ := requireVhostAccountAccess a id in
  let! v := or_return (GetVhost enc ctx id) no_vhost in
  ret (OK (VVhost (newVhostView v))).

Definition VhostController_DeactivateVhost (a : Credentials) (id : string) : M W Output :=
  let! ac := requireVhostAccountAccess a id in
  let! _ := or_return (DeactivateVhost ctx id)
              (missing_or "directory.ErrNotFound" "vhost not found" "failed to deactivate vhost") in
  let* _ := recordAudit (Some HA) ac "vhost.deactivate" id "" in
  ret (Success "vhost deactivated" None).

Definition VhostController_UpdateVhostPolicy (a : Credentials) (id : string) (policy : VhostPolicy) : M W Output :=
  let! ac := requireVhostAccountAccess a id in
  let! _ := or_return (UpdateVhostPolicy ctx id policy)
              (missing_or "directory.ErrNotFound" "vhost not found" "failed to update vhost policy") in
  let! v := or_return (GetVhost enc ctx id) (internal "failed to fetch updated vhost") in
  let* _ := recordAudit (Some HA) ac "vhost.policy.update" id "" in
  ret (Success "vhost policy updated" (Some (VVhost (newVhostView v)))).

Definition VhostController_CreateMailbox (a : Credentials) (vhostID localPart password : string) : M W Output :=
  let! ac := requireVhostAccountAccess a vhostID in
  let! _ := return_if (String.eqb localPart "" || String.eqb password "")
              (BadRequest "localPart and password are required" []) in
  let! _ := or_return (GetVhost enc ctx vhostID)
              (missing_or "directory.ErrNotFound" "vhost not found" "failed to verify vhost") in
  let! mb := or_return (CreateMailbox ctx vhostID localPart password) (internal "failed to create mailbox") in
  let* _ := recordAudit (Some HA) ac "mailbox.create" vhostID localPart in
  ret (Created (VMailbox (newMailboxView mb))).

Definition VhostController_ListMailboxes (a : Credentials) (vhostID cursor : string) (limit : Z) : M W Output :=
  let! _ := requireVhostAccountAccess a vhostID in
  let! mailboxes := or_return (ListMailboxesPage ctx vhostID cursor limit) (internal "failed to list mailboxes") in
  ret (SuccessWithMeta ((λ m, VMailbox (newMailboxView m)) <$> mailboxes)
         (nextCursor DefaultVhostPageSize MaxVhostPageSize limit (mb_ID <$> mailboxes))).

Definition VhostController_GetMailbox (a : Credentials) (vhostID id : string) : M W Output :=
  let! _ := requireVhostAccountAccess a vhostID in
  let! mb := or_return (GetMailbox ctx vhostID id)
               (missing_or "directory.ErrNotFound" "mailbox not found" "failed to fetch mailbox") in
  ret (OK (VMailbox (newMailboxView mb))).

Definition VhostController_DeleteMailbox (a : Credentials) (vhostID id : string) : M W Output :=
  let! ac := requireVhostAccountAccess a vhostID in
  let! _ := or_return (DeleteMailbox ctx vhostID id)
              (missing_or "directory.ErrNotFound" "mailbox not found" "failed to delete mailbox") in
  let* _ := recordAudit (Some HA) ac "mailbox.delete" vhostID id in
  ret (Success "mailbox deleted" None).

(** ** Tokens and accounts (token_controller.go, account_controller.go) *)

Definition mintToken (accountID label : string) : M W (res (Token * string)) :=
  let? g := GenerateToken in
  let '(raw, hash) := g in
  let* id := uuid_NewString in
  let? tok := ts_CreateToken ctx id accountID label hash in
  ret (Ok (tok, raw)).

Definition TokenController_CreateToken (a : Credentials) (accountID label : string) : M W Output :=
  let! ac := requireAccountAccess a accountID in
  let! _ := or_return (GetAccount ctx accountID)
              (missing_or "directory.ErrNotFound" "account not found" "failed to verify account") in
  let! t := or_return (mintToken accountID label) (internal "failed to create token") in
  let '(tok, raw) := t in
  let* _ := recordAudit (Some HA) ac "token.create" accountID label in
  ret (Created (VToken (newTokenView tok raw))).

Definition TokenController_ListTokens (a : Credentials) (accountID cursor : string) (limit : Z) : M W Output :=
  let! _ := requireAccountAccess a accountID in
  let! tokens := or_return (ts_ListTokensPage ctx accountID cursor limit) (internal "failed to list tokens") in
  ret (SuccessWithMeta ((λ t, VToken (newTokenView t "")) <$> tokens)
         (nextCursor ApiAuth.DefaultPageSize ApiAuth.MaxPageSize limit (tk_ID <$> tokens))).

Definition TokenController_RevokeToken (a : Credentials) (accountID id : string) : M W Output :=
  let! ac := requireAccountAccess a accountID in
  let! _ := or_return (ts_RevokeToken ctx accountID id)
              (missing_or "apiauth.ErrNotFound" "token not found" "failed to revoke token") in
  let* _ := recordAudit (Some HA) ac "token.revoke" accountID id in
  ret (Success "token revoked" None).

Definition AccountController_CreateAccount (a : Credentials) (name : string) : M W Output :=
  let! ac := requireAdmin a in
  let! _ := return_if (String.eqb name "") (BadRequest "name is required" []) in
  let! acct := or_return (CreateAccount ctx name) (internal "failed to create account") in
  let! t := or_return (mintToken (ac_ID acct) "default") (internal "failed to create account's first token") in
  let '(tok, raw) := t in
  let* _ := recordAudit (Some HA) ac "account.create" (ac_ID acct) name in
  let* _ := recordAudit (Some HA) ac "token.create" (ac_ID acct) "default" in
  ret (Created (VAccountWithToken (newAccountWithTokenView acct tok raw))).

Definition AccountController_ListAccounts (a : Credentials) (cursor : string) (limit : Z) : M W Output :=
  let! _ := requireAdmin a in
  let! accounts := or_return (ListAccounts ctx cursor limit) (internal "failed to list accounts") in
  ret (SuccessWithMeta ((λ x, VAccount (newAccountView x)) <$> accounts)
         (nextCursor DefaultVhostPageSize MaxVhostPageSize limit (ac_ID <$> accounts))).

Definition AccountController_GetAccount (a : Credentials) (id : string) : M W Output :=
  let! _ := requireAccountAccess a id in
  let! acct := or_return (GetAccount ctx id)
                 (missing_or "directory.ErrNotFound" "account not found" "failed to fetch account") in
  ret (OK (VAccount (newAccountView acct))).

(** The page of a target's audit entries. *)
Definition audit_page (target cursor : string) (limit : Z) : M W Output :=
  let! entries := or_return (au_ListPage ctx target cursor limit) (internal "failed to list audit log entries") in
  ret (SuccessWithMeta ((λ e, VAuditEntry (newAuditEntryView e)) <$> entries)
         (nextCursor AuditLog.DefaultPageSize AuditLog.MaxPageSize limit (en_ID <$> entries))).

Definition AccountController_ListEntries (a : Credentials) (accountID cursor : string) (limit : Z) : M W Output :=
  let! _ := requireAccountAccess a accountID in audit_page accountID cursor limit.

Definition AuditController_ListEntries (a : Credentials) (vhostID cursor : string) (limit : Z) : M W Output :=
  let! _ := requireVhostAccountAccess a vhostID in audit_page vhostID cursor limit.

(** ** Webhooks (webhook_controller.go) *)

Definition vhostDomain (vhostID : string) : M W (Output + string) :=
  let* v := GetVhost enc ctx vhostID in
  ret (match v with
       | Err e => inl (missing_or "directory.ErrNotFound" "vhost not found" "failed to verify vhost" e)
       | Ok v => inr (vh_Domain v)
       end).

Definition WebhookController_CreateSubscription (a : Credentials) (vhostID url secret : string)
  (eventTypes : list string) : M W Output :=
  let! ac := requireVhostAccountAccess a vhostID in
  let! _ := return_if (String.eqb url "" || String.eqb secret "") (BadRequest "url and secret are required" []) in
  let! domain := vhostDomain vhostID in
  let* id := uuid_NewString in
  let sub := mkSubscription id domain url secret eventTypes false in
  let! _ := or_return (st_CreateSubscription ctx sub) (internal "failed to create webhook subscription") in
  let* _ := recordAudit (Some HA) ac "webhook.create" vhostID url in
  ret (Created (VSubscription (newWebhookSubscriptionView vhostID sub))).

Definition WebhookController_ListSubscriptions (a : Credentials) (vhostID cursor : string) (limit : Z) : M W Output :=
  let! _ := requireVhostAccountAccess a vhostID in
  let! domain := vhostDomain vhostID in
  let! subs := or_return (st_ListSubscriptionsPage ctx domain cursor limit)
                 (internal "failed to list webhook subscriptions") in
  ret (SuccessWithMeta ((λ s, VSubscription (newWebhookSubscriptionView vhostID s)) <$> subs)
         (nextCursor 100 500 limit (sub_ID <$> subs))).

Definition WebhookController_DisableSubscription (a : Credentials) (vhostID id : string) : M W Output :=
  let! ac := requireVhostAccountAccess a vhostID in
  let! domain := vhostDomain vhostID in
  let! _ := or_return (st_DisableSubscription ctx domain id)
              (missing_or "webhook.ErrNotFound" "webhook subscription not found"
                 "failed to disable webhook subscription") in
  let* _ := recordAudit (Some HA) ac "webhook.disable" vhostID id in
  ret (Success "webhook subscription disabled" None).

Definition WebhookController_ListAttempts (a : Credentials) (vhostID id cursor : string) (limit : Z) : M W Output :=
  let! _ := requireVhostAccountAccess a vhostID in
  let! domain := vhostDomain vhostID in
  let! attempts := or_return (st_ListAttemptsPage ctx domain id cursor limit)
                     (internal "failed to list delivery attempts") in
  ret (SuccessWithMeta ((λ x, VAttempt (newWebhookAttemptView x)) <$> attempts)
         (nextCursor 100 500 limit (at_ID <$> attempts))).

Definition WebhookController_RedriveAttempt (a : Credentials) (vhostID id eventID : string) : M W Output :=
  let! ac := requireVhostAccountAccess a vhostID in
  match redrive c with
  | Some (Some Redrive) =>
      let! domain := vhostDomain vhostID in
      let! _ := or_return (Redrive ctx domain id eventID)
                  (missing_or "webhook.ErrNotFound" "subscription or event not found"
                     "failed to redrive webhook delivery") in
      let* _ := recordAudit (Some HA) ac "webhook.redrive" vhostID eventID in
      ret (Success "webhook delivery redriven" None)
  | _ => ret (ServiceUnavailable "manual redrive is not configured on this deployment")
  end.

(** ** Tenant data (data_controller.go) *)

(** The export loop: a message that cannot be read is left out. *)
Fixpoint export_messages (metas : list MessageMeta) : M W (list messageExportView) :=
  match metas with
  | [] => ret []
  | m :: metas =>
      let* r := s_Read ctx (mm_Ref m) in
      let* rest := export_messages metas in
      ret (match r with
           | Err _ => rest
           | Ok body =>
               mkMessageExportView (rf_Mailbox (mm_Ref m)) (mm_Size m) (mm_Flags m) (mm_CreatedAt m)
                 (Base64.EncodeToString body) :: rest
           end)
  end.

Definition DataController_Export (a : Credentials) (id : string) : M W Output :=
  let! ac := requireVhostAccountAccess a id in
  let! v := or_return (GetVhost enc ctx id) no_vhost in
  let! mailboxes := or_return (ListMailboxes ctx id) (internal "failed to list mailboxes") in
  let! metas := or_return (s_ListVhost ctx (vh_Domain v)) (internal "failed to list messages") in
  let* messages := export_messages metas in
  let! subs := or_return (st_ListSubscriptions ctx (vh_Domain v)) (internal "failed to list webhook subscriptions") in
  let! entries := or_return (au_List ctx id) (internal "failed to list audit log") in
  let* _ := recordAudit (Some HA) ac "vhost.data.export" id "" in
  ret (OK (VDataExport (newDataExportView v mailboxes messages id subs entries))).

(** The erasing loop: the number of messages deleted. *)
Fixpoint delete_messages (metas : list MessageMeta) (deleted : Z) : M W Z :=
  match metas with
  | [] => ret deleted
  | m :: metas =>
      let* r := s_Delete ctx (mm_Ref m) in
      delete_messages metas (match r with Ok _ => deleted + 1 | Err _ => deleted end)
  end.

Definition DataController_Delete (a : Credentials) (id : string) : M W Output :=
  let! ac := requireVhostAccountAccess a id in
  let! v := or_return (GetVhost enc ctx id) no_vhost in
  let! metas := or_return (s_ListVhost ctx (vh_Domain v)) (internal "failed to list messages") in
  let* deleted := delete_messages metas 0 in
  let* _ := recordAudit (Some HA) ac "vhost.data.delete" id (pretty deleted +:+ " messages") in
  ret (Success "vhost data deleted" (Some (VMessagesDeleted deleted))).

(** ** Sending (message_controller.go) *)

Fixpoint decode_attachments (l : list AttachmentDto) : Output + list Attachment :=
  match l with
  | [] => inr []
  | a :: l =>
      match Base64.DecodeString (ad_ContentBase64 a) with
      | Err _ => inl (BadRequest "attachment %q: contentBase64 is not valid base64" [ad_Filename a])
      | Ok content =>
          match decode_attachments l with
          | inl o => inl o
          | inr atts => inr (mkAttachment (ad_Filename a) (ad_ContentType a) content :: atts)
          end
      end
  end.

(** The first reserved header the caller sets. *)
Definition reserved_header (headers : gmap string string) : option string :=
  List.find IsReservedHeader ((order headers).*1).

Definition message_checkQuota (ctx : Ctx) (v : Vhost) : M W (option Output) :=
  match quota c with
  | Some (Some Allow) =>
      let q := DailyQuota (vh_policy v) in
      if q <=? 0 then ret None
      else
        let* r := Allow ctx ("quota:" +:+ vh_ID v) (of_int q) (fdiv_int (of_int q) (24 * 60 * 60)) in
        ret (match r with
             | Ok false => Some (TooManyRequests "daily sending quota exceeded for this vhost, try again later")
             | _ => None
             end)
  | _ => ret None
  end.

Definition message_fireQueued (ctx : Ctx) (vhostDomain from : string) (to : list string) : M W unit :=
  match webhooks c with
  | None => ret tt
  | Some enqueue =>
      let* id := uuid_NewString in
      let* payload := NewEventPayload id EventMessageQueued vhostDomain [("from", JString from); ("to", JStrings to)] in
      match payload with
      | Err _ => ret tt
      | Ok p => let* _ := enqueue ctx vhostDomain EventMessageQueued p in ret tt
      end
  end.

(** The job of one recipient. *)
Definition message_job (v : Vhost) (from id rcpt key : string) (t : Time) (correlationID : string) : Job :=
  mkJob id (vh_Domain v) from rcpt key 0 t "" correlationID.

(** One copy and one job per recipient. *)
Fixpoint send_each (ctx : Ctx) (v : Vhost) (from signed correlationID : string) (rcpts : list string)
  : M W (Output + list string) :=
  match rcpts with
  | [] => ret (inr [])
  | rcpt :: rcpts =>
      let* ref := s_Write ctx (vh_Domain v) OutboxMailbox (Ok signed) in
      match ref with
      | Err _ => ret (inl (InternalServerError "temporary storage failure"))
      | Ok ref =>
          let* id := uuid_NewString in
          let* t := now in
          let* r := q_Enqueue ctx (message_job v from id rcpt (rf_Key ref) t correlationID) in
          match r with
          | Err _ => ret (inl (InternalServerError "queue unavailable"))
          | Ok _ =>
              let* rest := send_each ctx v from signed correlationID rcpts in
              ret (match rest with inl o => inl o | inr ids => inr (id :: ids) end)
          end
      end
  end.

(** The sender's vhost, when the caller may send from it. *)
Definition sender (ac : authContext) (m : SendFields) : M W (Output + (string * Vhost * PrivateKey)) :=
  match mail_ParseAddress (sm_From m) with
  | Err _ => ret (inl (BadRequest "from is not a valid email address" []))
  | Ok addr =>
      match ParseAddress addr with
      | None => ret (inl (BadRequest "from is not a valid email address" []))
      | Some (_, domain) =>
          let* v := Service_Vhost enc ctx domain in
          ret (match v with
               | None => inl (NotFound "vhost not found for from address")
               | Some v =>
                   if negb (vh_Active v) then inl (Forbidden "vhost is not active")
                   else if negb (ac_IsAdmin ac) && negb (String.eqb (ac_AccountID ac) (vh_AccountID v))
                   then inl (Forbidden "from address's vhost does not belong to this account")
                   else match vh_DKIMKey v with
                        | None => inl (ServiceUnavailable "no DKIM key configured for sending vhost")
                        | Some key => inr (addr, v, key)
                        end
               end)
      end
  end.

Definition dkimSign (body : string) (v : Vhost) (key : PrivateKey) : M W (res string) :=
  dkim_Sign (vh_Domain v) (vh_DKIMSelector v) key body.

(** Composing, signing and queueing the checked request. *)
Definition send_message (ac : authContext) (m : SendFields) (addr : string) (v : Vhost) (key : PrivateKey)
  (recipients : list string) (attachments : list Attachment) : M W Output :=
  let! raw := or_return (Build order (mkMessage (sm_From m) (sm_Subject m) (sm_Text m) (sm_HTML m) (vh_Domain v)
                           (sm_To m) (sm_Cc m) (sm_Bcc m) attachments (sm_Headers m)))
                (internal "failed to compose message") in
  let! signed := or_return (dkimSign raw v key) (internal "DKIM signing failed") in
  let* correlationID := NewCorrelationID in
  let ctx' := WithCorrelationID ctx correlationID in
  let! jobIDs := send_each ctx' v addr signed correlationID recipients in
  let* _ := message_fireQueued ctx' (vh_Domain v) addr recipients in
  let* _ := recordAudit (Some HA) ac "message.send" (vh_ID v) (sm_Subject m) in
  ret (Created (VQueued (Z.of_nat (length jobIDs)) (vh_ID v) jobIDs)).

Definition MessageController_Send (a : Credentials) (accountID : string) (m : SendFields) : M W Output :=
  let! ac := requireAccountAccess a accountID in
  let! s := sender ac m in
  let '(addr, v, key) := s in
  let recipients := uniqueRecipients [sm_To m; sm_Cc m; sm_Bcc m] in
  let! _ := return_if (bool_decide (recipients = []))
              (BadRequest "at least one recipient (to, cc, or bcc) is required" []) in
  let! _ := return_if (String.eqb (sm_Text m) "" && String.eqb (sm_HTML m) "")
              (BadRequest "text or html body is required" []) in
  let! attachments := ret (decode_attachments (sm_Attachments m)) in
  let! _ := ret (match reserved_header (sm_Headers m) with
                 | Some k => inl (BadRequest "cannot override reserved header %q" [k])
                 | None => inr tt
                 end) in
  let! _ := (let* q := message_checkQuota ctx v in
             ret (match q with Some o => inl o | None => inr tt end)) in
  send_message ac m addr v key recipients attachments.

(** ** Routes (routes.go) *)

Definition handle (a : Credentials) (dto : Dto) : M W Output :=
  match dto with
  | CreateVhostDto acct d => VhostController_CreateVhost a acct d
  | ListVhostsDto cur n => VhostController_ListVhosts a cur n
  | GetVhostDto id => VhostController_GetVhost a id
  | DeactivateVhostDto id => VhostController_DeactivateVhost a id
  | UpdateVhostPolicyDto id p => VhostController_UpdateVhostPolicy a id p
  | CreateMailboxDto v l p => VhostController_CreateMailbox a v l p
  | ListMailboxesDto v cur n => VhostController_ListMailboxes a v cur n
  | GetMailboxDto v id => VhostController_GetMailbox a v id
  | DeleteMailboxDto v id => VhostController_DeleteMailbox a v id
  | CreateWebhookSubscriptionDto v u s ts => WebhookController_CreateSubscription a v u s ts
  | ListWebhookSubscriptionsDto v cur n => WebhookController_ListSubscriptions a v cur n
  | DisableWebhookSubscriptionDto v id => WebhookController_DisableSubscription a v id
  | ListWebhookAttemptsDto v id cur n => WebhookController_ListAttempts a v id cur n
  | RedriveWebhookAttemptDto v id ev => WebhookController_RedriveAttempt a v id ev
  | CreateTokenDto acct l => TokenController_CreateToken a acct l
  | ListTokensDto acct cur n => TokenController_ListTokens a acct cur n
  | RevokeTokenDto acct id => TokenController_RevokeToken a acct id
  | CreateAccountDto name => AccountController_CreateAccount a name
  | ListAccountsDto cur n => AccountController_ListAccounts a cur n
  | GetAccountDto id => AccountController_GetAccount a id
  | ListAccountAuditEntriesDto acct cur n => AccountController_ListEntries a acct cur n
  | SendMessageDto acct m => MessageController_Send a acct m
  | ListAuditEntriesDto v cur n => AuditController_ListEntries a v cur n
  | ExportVhostDataDto id => DataController_Export a id
  | DeleteVhostDataDto id => DataController_Delete a id
  end.
End Controllers.

(** ** Facts *)

Lemma unique_from_spec seen l :
  NoDup (unique_from seen l) ∧ ∀ x, x ∈ unique_from seen l ↔ x ∈ l ∧ x ≠ "" ∧ x ∉ seen.
Proof.
  revert seen. induction l as [|a l IH]; intros seen; simpl; [split; [constructor|set_solver]|].
  destruct (String.eqb_spec a "") as [->|Ha]; simpl.
  { destruct (IH seen) as [Hn Hx]. split; [done|]. intros x. rewrite Hx, elem_of_cons. naive_solver. }
  case_bool_decide as Hs.
  - destruct (IH seen) as [Hn Hx]. split; [done|]. intros x. rewrite Hx, elem_of_cons. naive_solver.
  - destruct (IH ({[a]} ∪ seen)) as [Hn Hx]. split.
    + constructor; [|done]. rewrite Hx. set_solver.
    + intros x. rewrite elem_of_cons, Hx, elem_of_cons. destruct (decide (x = a)); set_solver.
Qed.

(** Each address once, the empty ones dropped. *)
Lemma uniqueRecipients_spec lists :
  NoDup (uniqueRecipients lists) ∧
  ∀ x, x ∈ uniqueRecipients lists ↔ x ≠ "" ∧ ∃ l, l ∈ lists ∧ x ∈ l.
Proof.
  destruct (unique_from_spec ∅ (concat lists)) as [Hn Hx]. split; [exact Hn|]. intros x.
  unfold uniqueRecipients. rewrite Hx, (list_elem_of_In (concat lists)), in_concat.
  setoid_rewrite <-list_elem_of_In. set_solver.
Qed.

(** What a request acts on, from its route. *)
Inductive Scope := SAdmin | SAccount (id : string) | SVhost (id : string).

Definition scope_of (dto : Dto) : Scope :=
  match dto with
  | ListVhostsDto _ _ | CreateAccountDto _ | ListAccountsDto _ _ => SAdmin
  | CreateVhostDto a _ | CreateTokenDto a _ | ListTokensDto a _ _ | RevokeTokenDto a _ | GetAccountDto a
  | ListAccountAuditEntriesDto a _ _ | SendMessageDto a _ => SAccount a
  | GetVhostDto v | DeactivateVhostDto v | UpdateVhostPolicyDto v _ | CreateMailboxDto v _ _
  | ListMailboxesDto v _ _ | GetMailboxDto v _ | DeleteMailboxDto v _ | CreateWebhookSubscriptionDto v _ _ _
  | ListWebhookSubscriptionsDto v _ _ | DisableWebhookSubscriptionDto v _ | ListWebhookAttemptsDto v _ _ _
  | RedriveWebhookAttemptDto v _ _ | ListAuditEntriesDto v _ _ | ExportVhostDataDto v | DeleteVhostDataDto v =>
      SVhost v
  end.

Section Boundary.
Context {W : Type} {HDb : Db W} {HTa : Table W accountRow} {HTv : Table W vhostRow} {HTm : Table W mailboxRow}
  {HTk : Table W dkimKeyRow} {HC : Crypto W} {HE : Env W} {HR : RandRead W} {HT : ApiAuth.Store W}
  {HA : AuditLog.Store W} {HH : Webhook.Store W} {HS : MessageStore W} {HQ : QueueBackend W Job}
  {HK : DKIMSigner W} {HJ : JSON} {HX : X509} {HN : NetMail} {HSha : SHA256} {HF : TimeText} {HSq : StrconvQuote}.
Context `{!TableSpec W vhostRow} {tinv : W → Prop} {live : W → string → Token → Prop}
  `{!ApiAuth.StoreSpec W tinv live}.
Context (enc : Encryptor W) (order : gmap string string → list (string * string)).
Context (c : Injected W).
Context {X : Type} (view : W → X).

Definition guard (a : Credentials) (s : Scope) : M W (Output + authContext) :=
  match s with
  | SAdmin => requireAdmin c a
  | SAccount id => requireAccountAccess c a id
  | SVhost id => requireVhostAccountAccess enc c a id
  end.

(** A request a guard refuses ends there. *)
Lemma handle_refused a dto (w : W) o w1 :
  guard a (scope_of dto) w = (inl o, w1) → handle enc order c a dto w = (o, w1).
Proof.
  destruct dto; simpl; intros E;
    unfold VhostController_CreateVhost, VhostController_ListVhosts, VhostController_GetVhost,
      VhostController_DeactivateVhost, VhostController_UpdateVhostPolicy, VhostController_CreateMailbox,
      VhostController_ListMailboxes, VhostController_GetMailbox, VhostController_DeleteMailbox,
      WebhookController_CreateSubscription, WebhookController_ListSubscriptions,
      WebhookController_DisableSubscription, WebhookController_ListAttempts, WebhookController_RedriveAttempt,
      TokenController_CreateToken, TokenController_ListTokens, TokenController_RevokeToken,
      AccountController_CreateAccount, AccountController_ListAccounts, AccountController_GetAccount,
      AccountController_ListEntries, AuditController_ListEntries, MessageController_Send,
      DataController_Export, DataController_Delete; unfold obind at 1; by rewrite E.
Qed.

(** A token opens its own account and the vhosts that account owns. *)
Definition allows (w : W) (tok : Token) (s : Scope) : Prop :=
  match s with
  | SAdmin => False
  | SAccount id => tk_AccountID tok = id
  | SVhost id => ∃ row, row ∈ tbl_rows w ∧ row_Id row = id ∧ vr_AccountID (row_data row) = tk_AccountID tok
  end.

(** The bearer of [raw] may act on [s]. *)
Definition entitled (w : W) (raw : string) (s : Scope) : Prop :=
  is_admin_token c raw = true ∨ ∃ tok, live w (HashToken raw) tok ∧ allows w tok s.

(** [m] leaves the tokens, the vhosts and the observation alone. *)
Definition aside {A} (m : M W A) : Prop := ∀ w r w', tinv w → m w = (r, w') →
  tinv w' ∧ (∀ h t, live w' h t ↔ live w h t) ∧ tbl_rows (D := vhostRow) w' = tbl_rows w ∧ view w' = view w.

(** The guards' own accesses: the limiter's bucket, a token looked up, a vhost
    and its key read. *)
Record guard_reads : Prop := {
  gr_limiter : ∀ p Allow, rateLimit c = Some p → rl_Limiter p = Some Allow →
    ∀ ctx k x y, aside (Allow ctx k x y);
  gr_tokens : ∀ ctx h, aside (ts_Authenticate ctx h);
  gr_vhosts : ∀ ctx p o, aside (tbl_First (D := vhostRow) ctx p o);
  gr_keys : ∀ ctx p o, aside (tbl_First (D := dkimKeyRow) ctx p o);
}.
Context (GR : guard_reads).

Lemma aside_ret {A} (x : A) : aside (ret x).
Proof. by intros w r w' Hi [= _ <-]. Qed.

Lemma aside_bind {A B} (m : M W A) (k : A → M W B) : aside m → (∀ x, aside (k x)) → aside (bind m k).
Proof.
  intros Hm Hk w r w' Hi. unfold bind. destruct (m w) as [x w1] eqn:E.
  destruct (Hm _ _ _ Hi E) as (Hi1 & Hl1 & Hv1 & Hx1). intros E2.
  destruct (Hk _ _ _ _ Hi1 E2) as (Hi2 & Hl2 & Hv2 & Hx2). split_and!; [done|..|congruence|congruence].
  intros h t. by rewrite Hl2.
Qed.

Lemma aside_limit ip : aside (checkAPIRateLimit c ip).
Proof.
  unfold checkAPIRateLimit. destruct (rateLimit c) as [p|] eqn:Ep; [|apply aside_ret].
  destruct (rl_Limiter p) as [Allow|] eqn:El; [|apply aside_ret].
  case_match; [apply aside_ret|]. apply aside_bind; [by eapply gr_limiter|]. intros r. apply aside_ret.
Qed.

Lemma aside_GetVhost ctx id : aside (GetVhost enc ctx id).
Proof.
  intros w r w' Hi. unfold GetVhost, mtry, wrap.
  destruct (tbl_First _ _ _ w) as [[row|e] w1] eqn:E; destruct (gr_vhosts GR _ _ _ _ _ _ Hi E) as (Hi1 & Hl1 & Hv1 & Hx1).
  - simpl. intros E2. assert (Ha : aside (hydrateVhost enc ctx row)).
    { unfold hydrateVhost. apply aside_bind; [by apply gr_keys|]. intros y. apply aside_ret. }
    destruct (Ha _ _ _ Hi1 E2) as (Hi2 & Hl2 & Hv2 & Hx2). split_and!; [done|..|congruence|congruence].
    intros h t. by rewrite Hl2.
  - by intros [= _ <-].
Qed.

Lemma aside_authenticate a : aside (authenticate c a).
Proof.
  unfold authenticate. apply aside_bind; [apply aside_limit|]. intros [o|]; [apply aside_ret|].
  destruct (bearerToken _) as [raw|]; [|apply aside_ret]. case_match; [apply aside_ret|].
  apply aside_bind; [by apply gr_tokens|]. intros r. apply aside_ret.
Qed.

Lemma aside_guard a s : aside (guard a s).
Proof.
  destruct s; simpl.
  - unfold requireAdmin. apply aside_bind; [apply aside_authenticate|]. intros r. apply aside_ret.
  - unfold requireAccountAccess. apply aside_bind; [apply aside_authenticate|]. intros r. apply aside_ret.
  - unfold requireVhostAccountAccess. apply aside_bind; [apply aside_authenticate|]. intros [o|ac]; [apply aside_ret|].
    case_match; [apply aside_ret|]. apply aside_bind; [apply aside_GetVhost|]. intros r. apply aside_ret.
Qed.

(** An answer that depends on the limiter or on a failed lookup only. *)
Definition unavailable (o : Output) : Prop :=
  match o with TooManyRequests _ | InternalServerError _ => True | _ => False end.

Lemma authenticate_spec a (w : W) r w' : tinv w → authenticate c a w = (r, w') →
  match r with
  | inl o => unavailable o ∨ (∃ m, o = Unauthorized m) ∧
      (bearerToken (Authorization a) = None ∨ ∃ raw, bearerToken (Authorization a) = Some raw ∧
         is_admin_token c raw = false ∧ ∀ t, ¬ live w (HashToken raw) t)
  | inr ac => ∃ raw, bearerToken (Authorization a) = Some raw ∧
      ((is_admin_token c raw = true ∧ ac = mkAuthContext true "") ∨
       (is_admin_token c raw = false ∧ ∃ tok, live w (HashToken raw) tok ∧ ac = mkAuthContext false (tk_AccountID tok)))
  end.
Proof.
  intros Hi. unfold authenticate, bind, ret.
  destruct (checkAPIRateLimit c (ClientIP a) w) as [lim w1] eqn:El.
  destruct (aside_limit _ _ _ _ Hi El) as (Hi1 & Hl1 & _).
  destruct lim as [o|].
  { intros [= <- <-]. left. revert El. unfold checkAPIRateLimit, bind, ret. repeat case_match; intros [=]; by subst. }
  destruct (bearerToken _) as [raw|] eqn:Eb; [|intros [= <- <-]; right; eauto].
  destruct (is_admin_token c raw) eqn:Ea; [intros [= <- <-]; exists raw; auto|].
  destruct (ts_Authenticate _ _ w1) as [[[tok|]|e] w2] eqn:Et; intros [= <- <-];
    apply as_Authenticate in Et as (_ & _ & Ht); try done.
  - exists raw. split; [done|]. right. split; [done|]. exists tok. by rewrite <-Hl1.
  - right. split; [by eexists|]. right. exists raw. split_and!; [done..|]. intros t. by rewrite <-Hl1.
  - by left.
Qed.

(** Errors of the database and of cryptography are not this repository's
    sentinel. *)
Record foreign_errors : Prop := {
  fe_First : ∀ ctx p o w e w', tbl_First (D := vhostRow) ctx p o w = (Err e, w') →
    errors_Is "directory.ErrNotFound" e = false;
  fe_hydrate : ∀ ctx row w e w', hydrateVhost enc ctx row w = (Err e, w') →
    errors_Is "directory.ErrNotFound" e = false;
}.
Context (FE : foreign_errors).

Lemma GetVhost_spec ctx id (w : W) r w' : ids_unique (tbl_rows (D := vhostRow) w) →
  GetVhost enc ctx id w = (r, w') →
  match r with
  | Ok v => ∃ row, row ∈ tbl_rows w ∧ row_Id row = id ∧ vr_AccountID (row_data row) = vh_AccountID v ∧
      ∀ row', row' ∈ tbl_rows w → row_Id row' = id → row' = row
  | Err e => errors_Is "directory.ErrNotFound" e = true → ∀ row, row ∈ tbl_rows w → row_Id row ≠ id
  end.
Proof.
  intros Hu. unfold GetVhost, mtry, wrap.
  destruct (tbl_First _ _ _ w) as [[row|e] w1] eqn:E; simpl.
  - apply First_ok in E as (Hr & Hid%String.eqb_eq & _). intros Eh. destruct r as [v|e].
    + apply hydrate_inv in Eh as [key ->]. exists row. split_and!; [done..|].
      intros row' Hr' Hid'. eapply ids_unique_eq; [done..|congruence].
    + apply (fe_hydrate FE) in Eh. by rewrite Eh.
  - intros [= <- _]. unfold not_found. destruct (errors_Is "gorm.ErrRecordNotFound" e) eqn:Ee; simpl.
    + intros _ row Hr Hid. pose proof (First_missing _ _ _ _ _ _ E Ee row Hr) as Hm. by apply String.eqb_neq in Hm.
    + by rewrite (fe_First FE _ _ _ _ _ _ E).
Qed.

(** The refusal of each kind of scope: it depends on nothing else. *)
Definition forbidden_of (s : Scope) : Output :=
  match s with
  | SAdmin => Forbidden "admin token required"
  | SAccount _ => Forbidden "token is not authorized for this account"
  | SVhost _ => vhost_forbidden
  end.

(** Who a token identifies. *)
Definition identifies (w : W) (raw : string) (ac : authContext) : Prop :=
  (is_admin_token c raw = true ∧ ac = mkAuthContext true "") ∨
  (is_admin_token c raw = false ∧ ∃ tok, live w (HashToken raw) tok ∧ ac = mkAuthContext false (tk_AccountID tok)).

Lemma guard_spec a s (w : W) r w' : tinv w → ids_unique (tbl_rows (D := vhostRow) w) →
  guard a s w = (r, w') →
  match r with
  | inr ac => ∃ raw, bearerToken (Authorization a) = Some raw ∧ identifies w raw ac ∧
      (is_admin_token c raw = true ∨ ∃ tok, live w (HashToken raw) tok ∧ ac_AccountID ac = tk_AccountID tok ∧ allows w tok s)
  | inl o => unavailable o ∨
      ((∃ m, o = Unauthorized m) ∧ (bearerToken (Authorization a) = None ∨
         ∃ raw, bearerToken (Authorization a) = Some raw ∧ is_admin_token c raw = false ∧ ∀ t, ¬ live w (HashToken raw) t)) ∨
      (o = forbidden_of s ∧ ∃ raw tok, bearerToken (Authorization a) = Some raw ∧ is_admin_token c raw = false ∧
         live w (HashToken raw) tok ∧ ¬ allows w tok s)
  end.
Proof.
  intros Hi Hu. destruct s as [|id|id]; simpl;
    unfold requireAdmin, requireAccountAccess, requireVhostAccountAccess, bind, ret;
    destruct (authenticate c a w) as [[o|ac] w1] eqn:Ea; pose proof (authenticate_spec _ _ _ _ Hi Ea) as Hs;
    cbv beta iota in Hs |- *; try (intros [= <- <-]; tauto);
    destruct Hs as (raw & Hb & [[Hadm ->]|(Hadm & tok & Hl & ->)]); simpl.
  - intros [= <- <-]. exists raw. split_and!; [done|by left|by left].
  - intros [= <- <-]. right; right. split; [done|]. exists raw, tok. auto.
  - intros [= <- <-]. exists raw. split_and!; [done|by left|by left].
  - destruct (String.eqb_spec (tk_AccountID tok) id) as [He|He]; intros [= <- <-].
    + exists raw. split_and!; [done|right; eauto|]. right. by exists tok.
    + right; right. split; [done|]. by exists raw, tok.
  - intros [= <- <-]. exists raw. split_and!; [done|by left|by left].
  - destruct (aside_authenticate _ _ _ _ Hi Ea) as (_ & _ & Hv & _).
    destruct (GetVhost enc Background id w1) as [[v|e] w2] eqn:Ev;
      apply GetVhost_spec in Ev; try (by rewrite Hv); rewrite Hv in Ev.
    + destruct Ev as (row & Hr & Hid & Hac & Honly).
      destruct (String.eqb_spec (tk_AccountID tok) (vh_AccountID v)) as [He|He]; intros [= <- <-].
      * exists raw. split_and!; [done|right; eauto|]. right. exists tok. split_and!; [done..|].
        exists row. split_and!; [done..|congruence].
      * right; right. split; [done|]. exists raw, tok. split_and!; [done..|].
        intros (row' & Hr' & Hid' & Hac'). rewrite (Honly row') in Hac' by done. congruence.
    + destruct (errors_Is _ e); intros [= <- <-]; [|by left].
      right; right. split; [done|]. exists raw, tok. split_and!; [done..|].
      intros (row' & Hr' & Hid' & _). by eapply Ev.
Qed.

Lemma sender_spec ac m (w : W) addr v key w' :
  sender enc ac m w = (inr (addr, v, key), w') →
  ∃ local dom row, mail_ParseAddress (sm_From m) = Ok addr ∧ ParseAddress addr = Some (local, dom) ∧
    row ∈ tbl_rows w ∧ vr_Domain (row_data row) = dom ∧ vr_Active (row_data row) = true ∧
    v = vhostFromRow row (Some key) ∧ (ac_IsAdmin ac = true ∨ vr_AccountID (row_data row) = ac_AccountID ac).
Proof.
  unfold sender, bind, ret. destruct (mail_ParseAddress _) as [ad|e]; [|done].
  destruct (ParseAddress ad) as [[local dom]|] eqn:Ep; [|done].
  unfold Service_Vhost, bind, ret.
  destruct (tbl_First _ _ _ w) as [[row|e] w1] eqn:Ef; [|done].
  apply First_ok in Ef as (Hr & Hd%String.eqb_eq & _).
  destruct (hydrateVhost enc Background row w1) as [[v0|e] w2] eqn:Eh; [|done].
  apply hydrate_inv in Eh as [k ->]. destruct (vh_Active (vhostFromRow row k)) eqn:Ha; [|done]. simpl in Ha. simpl negb. cbv iota.
  destruct (negb (ac_IsAdmin ac) && _) eqn:Eo; [done|]. destruct (vh_DKIMKey _) as [key'|] eqn:Ek; [|done].
  intros [= <- <- <- <-]. simpl in Ek. subst k. exists local, dom, row. split_and!; [done..|].
  apply andb_false_iff in Eo as [Eo|Eo]; [left; by apply negb_false_iff|right].
  apply negb_false_iff, String.eqb_eq in Eo. simpl in Eo. done.
Qed.

Lemma boundary_spec a dto (w : W) o w' :
  tinv w → ids_unique (tbl_rows (D := vhostRow) w) → (∀ h t t', live w h t → live w h t' → t = t') →
  handle enc order c a dto w = (o, w') →
  let s := scope_of dto in
  ((∀ raw, bearerToken (Authorization a) = Some raw → ¬ entitled w raw s) →
     view w' = view w ∧ (unavailable o ∨ (∃ m, o = Unauthorized m) ∨ o = forbidden_of s)) ∧
  (∀ raw tok, bearerToken (Authorization a) = Some raw → is_admin_token c raw = false →
     live w (HashToken raw) tok → ¬ allows w tok s → unavailable o ∨ o = forbidden_of s) ∧
  (∀ raw, bearerToken (Authorization a) = Some raw → entitled w raw s →
     ∃ r w1, guard a s w = (r, w1) ∧ view w1 = view w ∧
       match r with inl o1 => o = o1 ∧ unavailable o | inr ac => identifies w raw ac end).
Proof.
  intros Hi Hu Hl Eh s. destruct (guard a s w) as [r w1] eqn:Eg.
  pose proof (aside_guard _ _ _ _ _ Hi Eg) as (_ & _ & _ & Hv).
  pose proof (guard_spec _ _ _ _ _ Hi Hu Eg) as Hg.
  destruct r as [o1|ac].
  - rewrite (handle_refused _ _ _ _ _ Eg) in Eh. injection Eh as <- <-. split_and!.
    + intros _. split; [done|]. destruct Hg as [Hg|[[Hg _]|[Hg _]]]; auto.
    + intros raw tok Hb Ha Ht Hn. destruct Hg as [Hg|[[_ [Hg|(r2 & Hb2 & _ & Hg)]]|[Hg _]]]; auto; exfalso.
      * congruence.
      * simplify_eq. by eapply Hg.
    + intros raw Hb He. eexists _, _. split_and!; [done..|].
      destruct Hg as [Hg|[[_ [Hg|(r2 & Hb2 & Ha & Hg)]]|(_ & r2 & tok & Hb2 & Ha & Ht & Hn)]]; [done|exfalso..].
      * congruence.
      * simplify_eq. destruct He as [He|(t & Ht & _)]; [congruence|]. by eapply Hg.
      * simplify_eq. destruct He as [He|(t & Ht' & Hal)]; [congruence|]. by rewrite (Hl _ _ _ Ht' Ht) in Hal.
  - destruct Hg as (raw & Hb & Hid & Hal). split_and!.
    + intros Hn. exfalso. apply (Hn raw Hb). destruct Hal as [Hal|(t & Ht & _ & Hal)]; [by left|right; eauto].
    + intros raw' tok Hb' Ha Ht Hn. simplify_eq. exfalso.
      destruct Hal as [Hal|(t & Ht' & _ & Hal)]; [congruence|]. by rewrite (Hl _ _ _ Ht' Ht) in Hal.
    + intros raw' Hb' He. simplify_eq. eexists _, _. split_and!; done.
Qed.

Lemma send_spec a acct m (w : W) v w' :
  tinv w → ids_unique (tbl_rows (D := vhostRow) w) →
  handle enc order c a (SendMessageDto acct m) w = (Created v, w') →
  ∃ raw addr local dom row, bearerToken (Authorization a) = Some raw ∧
    mail_ParseAddress (sm_From m) = Ok addr ∧ ParseAddress addr = Some (local, dom) ∧
    row ∈ tbl_rows w ∧ vr_Domain (row_data row) = dom ∧ vr_Active (row_data row) = true ∧
    (is_admin_token c raw = true ∨
     ∃ tok, live w (HashToken raw) tok ∧ tk_AccountID tok = acct ∧ vr_AccountID (row_data row) = acct).
Proof.
  intros Hi Hu. simpl. unfold MessageController_Send, obind at 1.
  change (requireAccountAccess c a acct) with (guard a (SAccount acct)).
  destruct (guard a (SAccount acct) w) as [[o|ac] w1] eqn:Eg; pose proof (guard_spec _ _ _ _ _ Hi Hu Eg) as Hg.
  { intros [= -> _]. exfalso. by destruct Hg as [Hg|[[[m' Hg] _]|[Hg _]]]. }
  destruct (aside_guard _ _ _ _ _ Hi Eg) as (_ & _ & Hv & _).
  unfold obind at 1. destruct (sender enc ac m w1) as [[o|[[addr vh] key]] w2] eqn:Es.
  - intros [= -> _]. exfalso. revert Es. unfold sender, bind, ret. repeat case_match; by intros [=].
  - intros _. apply sender_spec in Es as (local & dom & row & Hp & Hpa & Hr & Hd & Hact & _ & Hown).
    destruct Hg as (raw & Hb & Hid & Hal). exists raw, addr, local, dom, row. rewrite Hv in Hr. split_and!; [done..|].
    destruct Hal as [Hal|(tok & Ht & Hac & Hal)]; [by left|]. simpl in Hal.
    destruct Hid as [[Ha _]|(Ha & t & _ & ->)]; [by left|]. simpl in *.
    destruct Hown as [Hown|Hown]; [done|]. right. exists tok. split_and!; congruence.
Qed.

(** The address a send is from names a domain of [row]. *)
Definition from_row (m : SendFields) (row : Row vhostRow) : Prop :=
  ∃ addr local, mail_ParseAddress (sm_From m) = Ok addr ∧ ParseAddress addr = Some (local, vr_Domain (row_data row)).

(** How a send from a domain that is not the caller's is refused. *)
Definition foreign_sender (w : W) (m : SendFields) (o : Output) : Prop :=
  o = BadRequest "from is not a valid email address" [] ∨ o = NotFound "vhost not found for from address" ∨
  (o = Forbidden "vhost is not active" ∨ o = Forbidden "from address's vhost does not belong to this account") ∧
  ∃ row, row ∈ tbl_rows (D := vhostRow) w ∧ from_row m row.

Lemma aside_Service_Vhost ctx domain : aside (Service_Vhost enc ctx domain).
Proof.
  unfold Service_Vhost. apply aside_bind; [by apply gr_vhosts|]. intros [row|e]; [|apply aside_ret].
  unfold hydrateVhost. apply aside_bind; [|intros r; apply aside_ret].
  apply aside_bind; [by apply gr_keys|]. intros y. apply aside_ret.
Qed.

Lemma sender_foreign ac m (w : W) r w' : tinv w → ac_IsAdmin ac = false →
  (∀ row, row ∈ tbl_rows (D := vhostRow) w → from_row m row → vr_AccountID (row_data row) ≠ ac_AccountID ac) →
  sender enc ac m w = (r, w') → view w' = view w ∧ ∃ o, r = inl o ∧ foreign_sender w m o.
Proof.
  intros Hi Ha Hno. unfold sender, foreign_sender.
  destruct (mail_ParseAddress _) as [ad|e] eqn:Em; [|intros [= <- <-]; (split; [done|]); eexists; split; [reflexivity|]; by auto 7].
  destruct (ParseAddress ad) as [[local dom]|] eqn:Ep; [|intros [= <- <-]; (split; [done|]); eexists; split; [reflexivity|]; by auto 7].
  unfold bind at 1, ret. destruct (Service_Vhost enc Background dom w) as [v w1] eqn:Ev.
  destruct (aside_Service_Vhost _ _ _ _ _ Hi Ev) as (_ & _ & _ & Hv).
  destruct v as [v|]; [|intros [= <- <-]; (split; [done|]); eexists; split; [reflexivity|]; by auto 7].
  revert Ev. unfold Service_Vhost, bind, ret.
  destruct (tbl_First _ _ _ w) as [[row|e] w2] eqn:Ef; [|done]. apply First_ok in Ef as (Hr & Hd%String.eqb_eq & _).
  destruct (hydrateVhost enc Background row w2) as [[v0|e] w3] eqn:Eh; [|done]. apply hydrate_inv in Eh as [k ->]. intros [= <- _].
  assert (Hfrom : from_row m row) by (exists ad, local; by rewrite Hd). specialize (Hno row Hr Hfrom).
  assert (Hrow : ∃ row, row ∈ tbl_rows (D := vhostRow) w ∧ from_row m row) by eauto.
  rewrite Ha. simpl. destruct (vr_Active (row_data row)); [|intros [= <- <-]; (split; [done|]); eexists; split; [reflexivity|]; by auto 7].
  rewrite (proj2 (String.eqb_neq _ _)) by congruence. intros [= <- <-]. (split; [done|]); eexists; split; [reflexivity|]; by auto 7.
Qed.

Lemma send_foreign a acct m (w : W) o w' raw tok :
  tinv w → ids_unique (tbl_rows (D := vhostRow) w) → (∀ h t t', live w h t → live w h t' → t = t') →
  handle enc order c a (SendMessageDto acct m) w = (o, w') →
  bearerToken (Authorization a) = Some raw → is_admin_token c raw = false → live w (HashToken raw) tok →
  (∀ row, row ∈ tbl_rows (D := vhostRow) w → from_row m row → vr_AccountID (row_data row) ≠ tk_AccountID tok) →
  view w' = view w ∧ (unavailable o ∨ o = forbidden_of (SAccount acct) ∨ foreign_sender w m o).
Proof.
  intros Hi Hu Hl Eh Hb Ha Ht Hno. simpl in Eh. revert Eh. unfold MessageController_Send, obind at 1.
  change (requireAccountAccess c a acct) with (guard a (SAccount acct)).
  destruct (guard a (SAccount acct) w) as [r w1] eqn:Eg. pose proof (guard_spec _ _ _ _ _ Hi Hu Eg) as Hg.
  destruct (aside_guard _ _ _ _ _ Hi Eg) as (Hi1 & _ & Hv1 & Hx1). destruct r as [o1|ac].
  - intros [= <- <-]. split; [done|]. destruct Hg as [Hg|[[_ [Hg|(raw' & Hb' & _ & Hn)]]|[Hg _]]]; auto; [congruence|].
    simplify_eq. by destruct (Hn tok).
  - destruct Hg as (raw' & Hb' & Hid & _). simplify_eq. destruct Hid as [[? _]|(_ & tok' & Ht' & ->)]; [congruence|].
    rewrite (Hl _ _ _ Ht' Ht). unfold obind at 1. destruct (sender enc _ m w1) as [rs w2] eqn:Es.
    apply sender_foreign in Es as (Hx2 & o1 & -> & Ho); [|done|done|by rewrite Hv1].
    intros [= <- <-]. split; [congruence|]. right; right. unfold foreign_sender in *. by rewrite Hv1 in Ho.
Qed.

End Boundary.

(** ** The audit trail (NFR-COMP-4) *)

Definition succeeded (o : Output) : bool :=
  match o with Created _ | OK _ | Success _ _ | SuccessWithMeta _ _ => true | _ => false end.

(** [m] answers early only to refuse. *)
Definition refuses {W A} (m : M W (Output + A)) : Prop :=
  ∀ w o w', m w = (inl o, w') → succeeded o = false.

Lemma obind_succeeds {W A} (m : M W (Output + A)) (k : A → M W Output) w o w' :
  obind m k w = (o, w') → refuses m → succeeded o = true → ∃ x w1, m w = (inr x, w1) ∧ k x w1 = (o, w').
Proof.
  unfold obind. intros E Hm Ho. destruct (m w) as [[o1|x] w1] eqn:Em; [|eauto].
  injection E as <- <-. rewrite (Hm _ _ _ Em) in Ho. done.
Qed.

Lemma bind_inv {W A B} (m : M W A) (k : A → M W B) w o w' :
  bind m k w = (o, w') → ∃ x w1, m w = (x, w1) ∧ k x w1 = (o, w').
Proof. unfold bind. destruct (m w) as [x w1]. eauto. Qed.

Create HintDb api_refuses.

Section Refuses.
Context {W : Type}.

Lemma refuses_or_return {A} (m : M W (res A)) f : (∀ e, succeeded (f e) = false) → refuses (or_return m f).
Proof. intros Hf w o w'. unfold or_return. destruct (m w) as [[x|e] w1]; by intros [= <- _]. Qed.

Lemma refuses_return_if b o : succeeded o = false → refuses (W := W) (return_if b o).
Proof. intros Ho w o' w'. unfold return_if. destruct b; by intros [= <- _]. Qed.

Lemma refuses_bind {A B} (m : M W A) (k : A → M W (Output + B)) : (∀ x, refuses (k x)) → refuses (bind m k).
Proof. intros Hk w o w' (x & w1 & _ & E)%bind_inv. by eapply Hk. Qed.

Lemma refuses_ret {A} (x : Output + A) : (∀ o, x = inl o → succeeded o = false) → refuses (W := W) (ret x).
Proof. intros Hx w o w' [= -> _]. by apply Hx. Qed.

Lemma internal_refuses msg e : succeeded (internal msg e) = false.
Proof. done. Qed.
Lemma missing_or_refuses s m1 m2 e : succeeded (missing_or s m1 m2 e) = false.
Proof. unfold missing_or. by case_match. Qed.
End Refuses.
#[export] Hint Resolve refuses_or_return refuses_return_if internal_refuses missing_or_refuses : api_refuses.

Section Trail.
Context {W : Type} {HDb : Db W} {HTa : Table W accountRow} {HTv : Table W vhostRow} {HTm : Table W mailboxRow}
  {HTk : Table W dkimKeyRow} {HC : Crypto W} {HE : Env W} {HR : RandRead W} {HT : ApiAuth.Store W}
  {HA : AuditLog.Store W} {HH : Webhook.Store W} {HS : MessageStore W} {HQ : QueueBackend W Job}
  {HK : DKIMSigner W} {HJ : JSON} {HX : X509} {HN : NetMail} {HSha : SHA256} {HF : TimeText} {HSq : StrconvQuote}.
Context (enc : Encryptor W) (order : gmap string string → list (string * string)).
Context (c : Injected W).

Lemma authenticate_refuses a : refuses (authenticate c a).
Proof.
  intros w o w'. unfold authenticate, bind at 1.
  destruct (checkAPIRateLimit c (ClientIP a) w) as [lim w1] eqn:El. destruct lim as [o1|].
  - intros [= <- _]. revert El. unfold checkAPIRateLimit, bind, ret. repeat case_match; intros [=]; by subst.
  - unfold bind, ret. repeat case_match; by intros [= <- _].
Qed.

Lemma guard_refuses a s : refuses (guard enc c a s).
Proof.
  intros w o w'. pose proof (authenticate_refuses a) as Ha. destruct s; simpl;
    unfold requireAdmin, requireAccountAccess, requireVhostAccountAccess, bind, ret;
    destruct (authenticate c a w) as [[o1|ac] w1] eqn:E; try (intros [= <- _]; by eapply Ha);
    repeat case_match; by intros [= <- _].
Qed.

Lemma requireAdmin_refuses a : refuses (requireAdmin c a).
Proof. apply (guard_refuses a SAdmin). Qed.
Lemma requireAccountAccess_refuses a id : refuses (requireAccountAccess c a id).
Proof. apply (guard_refuses a (SAccount id)). Qed.
Lemma requireVhostAccountAccess_refuses a id : refuses (requireVhostAccountAccess enc c a id).
Proof. apply (guard_refuses a (SVhost id)). Qed.

Lemma vhostDomain_refuses id : refuses (vhostDomain enc id).
Proof.
  unfold vhostDomain. apply refuses_bind. intros r. apply refuses_ret. intros o.
  destruct r; [done|]. intros [= <-]. apply missing_or_refuses.
Qed.

Lemma sender_refuses ac m : refuses (sender enc ac m).
Proof. intros w o w'. unfold sender, bind, ret. repeat case_match; by intros [= <- _]. Qed.

Lemma decode_attachments_refuses l : refuses (W := W) (ret (decode_attachments l)).
Proof.
  apply refuses_ret. induction l as [|x l IH]; simpl; [done|]. intros o. case_match; [|by intros [= <-]].
  destruct (decode_attachments l); [|done]. intros [= <-]. by apply IH.
Qed.

Lemma send_each_refuses ctx v from signed cid l : refuses (send_each ctx v from signed cid l).
Proof.
  induction l as [|r l IH]; intros w o w'; simpl; [done|]. unfold bind, ret.
  destruct (s_Write _ _ _ _ w) as [[ref|e] w1]; [|by intros [= <- _]].
  destruct (uuid_NewString w1) as [id w2]. destruct (now w2) as [t w3].
  destruct (q_Enqueue _ _ w3) as [[u|e] w4]; [|by intros [= <- _]].
  destruct (send_each _ _ _ _ _ l w4) as [[o1|ids] w5] eqn:E; intros [= <- _]. by eapply IH.
Qed.

Lemma quota_refuses ctx v : refuses (let* q := message_checkQuota c ctx v in
  ret (match q with Some o => inl o | None => inr tt end)).
Proof.
  intros w o w'. unfold message_checkQuota, bind, ret. repeat case_match; intros [=]; by simplify_eq.
Qed.

Lemma header_refuses h : refuses (W := W) (ret (match reserved_header order h with
  | Some k => inl (BadRequest "cannot override reserved header %q" [k]) | None => inr tt end)).
Proof. apply refuses_ret. intros o. case_match; by intros [= <-]. Qed.

Hint Resolve requireAdmin_refuses requireAccountAccess_refuses requireVhostAccountAccess_refuses
  vhostDomain_refuses sender_refuses decode_attachments_refuses send_each_refuses quota_refuses header_refuses
  : api_refuses.

(** The action a request is recorded under; [None] for reads. *)
Definition action_of (dto : Dto) : option string :=
  match dto with
  | CreateVhostDto _ _ => Some "vhost.create"
  | DeactivateVhostDto _ => Some "vhost.deactivate"
  | UpdateVhostPolicyDto _ _ => Some "vhost.policy.update"
  | CreateMailboxDto _ _ _ => Some "mailbox.create"
  | DeleteMailboxDto _ _ => Some "mailbox.delete"
  | CreateWebhookSubscriptionDto _ _ _ _ => Some "webhook.create"
  | DisableWebhookSubscriptionDto _ _ => Some "webhook.disable"
  | RedriveWebhookAttemptDto _ _ _ => Some "webhook.redrive"
  | CreateTokenDto _ _ => Some "token.create"
  | RevokeTokenDto _ _ => Some "token.revoke"
  | CreateAccountDto _ => Some "token.create"
  | SendMessageDto _ _ => Some "message.send"
  | ExportVhostDataDto _ => Some "vhost.data.export"
  | DeleteVhostDataDto _ => Some "vhost.data.delete"
  | _ => None
  end.

Ltac run_call E :=
  first [ apply obind_succeeds in E as (? & ? & ? & E); [|by eauto with api_refuses|done]
        | apply bind_inv in E as (? & ? & ? & E)
        | progress (unfold send_message in E)
        | match type of E with (match ?x with _ => _ end) _ = _ => destruct x end
        | match type of E with ret _ _ = _ => fail 2 end
        | progress (cbv zeta in E) ].

(** Every change that is reported as done was the granted caller's, and ended
    in one attempt to record it, under its action and the caller's name. *)
Lemma audit_trail a dto (w : W) o w' action :
  action_of dto = Some action → handle enc order c a dto w = (o, w') → succeeded o = true →
  ∃ ac w0 target detail w1 r, guard enc c a (scope_of dto) w = (inr ac, w0) ∧
    au_Record Background (mkEntry "" (Actor ac) action target detail 0) w1 = (r, w').
Proof.
  intros Ha E Ho. destruct dto; simpl in Ha; simplify_eq; simpl in E |- *;
    unfold VhostController_CreateVhost, VhostController_DeactivateVhost, VhostController_UpdateVhostPolicy,
      VhostController_CreateMailbox, VhostController_DeleteMailbox,
      WebhookController_CreateSubscription, WebhookController_DisableSubscription, WebhookController_RedriveAttempt,
      TokenController_CreateToken, TokenController_RevokeToken, AccountController_CreateAccount,
      MessageController_Send, DataController_Export, DataController_Delete in E;
    (apply obind_succeeds in E as (ac & w0 & Hg & E); [|by eauto with api_refuses|done]); exists ac, w0;
    repeat (run_call E); unfold ret in E; injection E as Eo Ew; try (by rewrite <-Eo in Ho).
  all: match type of Ew with ?w2 = _ => match goal with H : recordAudit _ _ _ ?t ?d ?w1 = (_, w2) |- _ =>
         subst w2; unfold recordAudit in H; apply bind_inv in H as (r1 & w3 & H & E2);
         unfold ret in E2; injection E2 as _ <-; exists t, d, w1, r1; split; [exact Hg|exact H] end end.
Qed.
End Trail.

(** ** A world for the witness

    The directory's and the token table, one token of the account that owns
    [v1] but not [v2]. *)
Module ApiExample.
Record AW := mkAW {
  aw_accounts : list (Row accountRow);
  aw_vhosts : list (Row vhostRow);
  aw_mailboxes : list (Row mailboxRow);
  aw_dkim : list (Row dkimKeyRow);
  aw_tokens : list (Row tokenRow);
  aw_audit : list Entry;
}.
#[export] Instance api_c1 : ListTable.Conflicts accountRow := λ _ _, false.
#[export] Instance api_c2 : ListTable.Conflicts vhostRow := λ a b, String.eqb (vr_Domain a) (vr_Domain b).
#[export] Instance api_c3 : ListTable.Conflicts mailboxRow := λ _ _, false.
#[export] Instance api_c4 : ListTable.Conflicts dkimKeyRow := λ _ _, false.
#[export] Instance api_c5 : ListTable.Conflicts tokenRow := λ a b, String.eqb (tr_TokenHash a) (tr_TokenHash b).
#[export] Program Instance api_h1 : Has AW (list (Row accountRow)) := { getS := aw_accounts;
  setS l w := mkAW l (aw_vhosts w) (aw_mailboxes w) (aw_dkim w) (aw_tokens w) (aw_audit w) }.
Solve Obligations with done.
#[export] Program Instance api_h2 : Has AW (list (Row vhostRow)) := { getS := aw_vhosts;
  setS l w := mkAW (aw_accounts w) l (aw_mailboxes w) (aw_dkim w) (aw_tokens w) (aw_audit w) }.
Solve Obligations with done.
#[export] Program Instance api_h3 : Has AW (list (Row mailboxRow)) := { getS := aw_mailboxes;
  setS l w := mkAW (aw_accounts w) (aw_vhosts w) l (aw_dkim w) (aw_tokens w) (aw_audit w) }.
Solve Obligations with done.
#[export] Program Instance api_h4 : Has AW (list (Row dkimKeyRow)) := { getS := aw_dkim;
  setS l w := mkAW (aw_accounts w) (aw_vhosts w) (aw_mailboxes w) l (aw_tokens w) (aw_audit w) }.
Solve Obligations with done.
#[export] Program Instance api_h5 : Has AW (list (Row tokenRow)) := { getS := aw_tokens;
  setS l w := mkAW (aw_accounts w) (aw_vhosts w) (aw_mailboxes w) (aw_dkim w) l (aw_audit w) }.
Solve Obligations with done.
#[export] Program Instance api_h6 : Has AW AuditLog.MemoryStore := { getS := aw_audit;
  setS l w := mkAW (aw_accounts w) (aw_vhosts w) (aw_mailboxes w) (aw_dkim w) (aw_tokens w) l }.
Solve Obligations with done.
#[export] Instance api_env : Env AW := { env_metrics := unread; now := ret 7; uuid_NewString := ret "u" }.
#[export] Instance api_crypto : Crypto AW := {
  rsa_GenerateKey := ret (Ok "KEY"); x509_ParsePKCS1 b := Ok b; pem_Encode t b := b; pem_Decode s := Some s;
  bcrypt_Generate p := ret (Ok p); bcrypt_Compare h p := String.eqb h p }.
#[export] Instance api_rand : RandRead AW := λ n, ret (Ok "random").
#[export] Instance api_sha : SHA256 := λ s, s.
#[export] Instance api_tokens : ApiAuth.Store AW := ApiAuth.PostgresStore.
#[export] Instance api_audit : AuditLog.Store AW := AuditLog.MemoryStore_Store.
#[export] Instance api_hooks : Webhook.Store AW := {
  st_CreateSubscription _ _ := ret (Ok tt); st_ListSubscriptions _ _ := ret (Ok []);
  st_ListSubscriptionsPage _ _ _ _ := ret (Ok []); st_DisableSubscription _ _ _ := ret (Ok tt);
  st_RecordAttempt _ _ := ret (Ok tt); st_ListAttempts _ _ _ := ret (Ok []);
  st_ListAttemptsPage _ _ _ _ _ := ret (Ok []) }.
#[export] Instance api_store : MessageStore AW := {
  s_Write _ v m _ := ret (Ok (mkRef v m "k")); s_Read _ _ := ret (Ok ""); s_List _ _ _ := ret (Ok []);
  s_ListVhost _ _ := ret (Ok []); s_UpdateFlags _ _ _ := ret (Ok tt); s_Delete _ _ := ret (Ok tt) }.
#[export] Instance api_queue : QueueBackend AW Job := {
  q_Enqueue _ _ := ret (Ok tt); q_Dequeue _ := ret (Ok None); q_Complete _ _ := ret (Ok tt);
  q_Fail _ _ _ _ := ret (Ok tt) }.
#[export] Instance api_signer : DKIMSigner AW := λ _ _ _ b, ret (Ok b).
#[export] Instance api_json : JSON := { json_data _ := Ok "{}"; json_envelope _ := Ok "{}" }.
#[export] Instance api_x509 : X509 := λ k, Ok k.
#[export] Instance api_mail : NetMail := λ s, Ok s.
#[export] Instance api_time : TimeText := λ _, "today".
#[export] Instance api_quote : StrconvQuote := λ s, s.
Definition api_enc : Encryptor AW := mkEncryptor (λ p, ret (Ok p)) (λ s, Ok s).
Definition busy : RateLimiter AW := λ _ _ _ _, ret (Ok true).
Definition injected : Injected AW :=
  mkInjected AW (Some "root") (Some (mkRateLimitPolicy AW (Some busy) F0 F0)) None None None.
Definition hdr_order (m : gmap string string) : list (string * string) := map_to_list m.
Definition token (id acct hash : string) : Row tokenRow := mkRow id None (mkTokenRow acct "" "" hash).
Definition api_world : AW := mkAW []
  [mkRow "v1" None (mkVhostRow "acc" "a.test" true policy_zero);
   mkRow "v2" None (mkVhostRow "other" "b.test" true policy_zero)] []
  [mkRow "d1" None (mkDkimKeyRow "v1" "envelope" (Base64.EncodeToString "K") true)]
  [token "t1" "acc" (HashToken "env_x"); token "t2" "other" (HashToken "env_y")] [].
Definition creds : Credentials := mkCredentials "Bearer env_x" "192.0.2.1, 10.0.0.1".
Definition mail : SendFields := mkSendFields "joe@a.test" ["x@c.test"; "y@d.test"] ["x@c.test"] [] "hi" "text" "" [] ∅.
Definition api_view (w : AW) : AW := w.

Lemma api_reads : guard_reads (tinv := pg_inv) (live := pg_live) injected api_view.
Proof.
  split.
  - intros p Allow [= <-] [= <-] ctx k x y w r w' Hi [= _ <-]. done.
  - intros ctx h w r w' Hi. simpl. unfold pg_Authenticate, bind, ret. simpl. unfold lift, ListTable.First.
    destruct w; simpl. destruct (sort_by _ _); simpl; by intros [= _ <-].
  - intros ctx p o w r w' Hi. simpl. unfold lift, ListTable.First.
    destruct w; simpl. destruct (sort_by _ _); simpl; by intros [= _ <-].
  - intros ctx p o w r w' Hi. simpl. unfold lift, ListTable.First.
    destruct w; simpl. destruct (sort_by _ _); simpl; by intros [= _ <-].
Qed.

Lemma api_errors : foreign_errors api_enc.
Proof.
  assert (Hpem : ∀ s e, decryptPEM api_enc s = Err e → errors_Is "directory.ErrNotFound" e = false).
  { intros s e. unfold decryptPEM, Base64.DecodeString.
    destruct (Base64.dec_quads _); simpl; intros [=]; by subst. }
  split.
  - intros ctx p o w e w'. simpl. unfold lift, ListTable.First.
    destruct (sort_by _ _); simpl; intros [=]; by subst.
  - intros ctx row w e w'. unfold hydrateVhost, bind, ret. simpl. unfold lift, ListTable.First.
    destruct (sort_by _ _) as [|d l]; simpl; [done|]. case_match; [done|]. destruct (decryptPEM _ _) as [k|e1] eqn:Ed; [done|].
    intros [= <- _]. simpl. by eapply Hpem.
Qed.
End ApiExample.
Import ApiExample.

(** The oracle: the token of acc, sending from a domain of another account and
    from one that nobody has. *)
Definition mail_from (from : string) : SendFields :=
  mkSendFields from ["x@c.test"] [] [] "hi" "text" "" [] ∅.

Lemma send_tells_hosted :
  let answer from := fst (handle api_enc hdr_order injected creds (SendMessageDto "acc" (mail_from from)) api_world) in
  answer "joe@b.test" = Forbidden "from address's vhost does not belong to this account" ∧
  answer "joe@nowhere.test" = NotFound "vhost not found for from address".
Proof. by vm_compute. Qed.

