(* ===== verification/Routes.v ===== *)
(** * The routes of the API instance (internal/api/routes.go, internal/api/module.go, internal/app)

    The route table, the request each route binds, the health check and the
    module tree.  goose's router, which matches a path against the patterns and
    binds the parameters, is outside: a pattern is its segments. *)

From stdpp Require Import base list strings.
From S2P Require Import Prelude Directory Api.

(** ** Routes *)

Inductive Verb := VGet | VPost | VPatch | VDelete.

#[export] Instance Verb_eq_dec : EqDecision Verb.
Proof. solve_decision. Defined.

(** A literal segment of a pattern, or a parameter ([:name]). *)
Inductive segment := Lit (s : string) | Par (name : string).

#[export] Instance segment_eq_dec : EqDecision segment.
Proof. solve_decision. Defined.

(** A verb, a pattern, a controller and its method. *)
Record Route := mkRoute { ro_Verb : Verb; ro_Path : list segment; ro_Controller : string; ro_Method : string }.

#[export] Instance Route_eq_dec : EqDecision Route.
Proof. solve_decision. Defined.

(** [router.ForRoutes]' patterns, cut at their slashes. *)
Definition parse_segment (s : string) : segment :=
  match s with String ":" name => Par name | _ => Lit s end.

Definition to (verb : Verb) (path controller method : string) : Route :=
  mkRoute verb (parse_segment <$> filter (λ s, s ≠ "") (SplitByte path "/"%char)) controller method.

Definition api_ROUTES : list Route := [
  to VPost "accounts" "AccountController" "CreateAccount";
  to VGet "accounts" "AccountController" "ListAccounts";
  to VGet "accounts/:id" "AccountController" "GetAccount";
  to VGet "accounts/:accountId/audit-log" "AccountController" "ListEntries";
  to VPost "accounts/:accountId/vhosts" "VhostController" "CreateVhost";
  to VGet "vhosts" "VhostController" "ListVhosts";
  to VGet "vhosts/:id" "VhostController" "GetVhost";
  to VPatch "vhosts/:id/deactivate" "VhostController" "DeactivateVhost";
  to VPatch "vhosts/:id/policy" "VhostController" "UpdateVhostPolicy";
  to VPost "vhosts/:vhostId/mailboxes" "VhostController" "CreateMailbox";
  to VGet "vhosts/:vhostId/mailboxes" "VhostController" "ListMailboxes";
  to VGet "vhosts/:vhostId/mailboxes/:id" "VhostController" "GetMailbox";
  to VDelete "vhosts/:vhostId/mailboxes/:id" "VhostController" "DeleteMailbox";
  to VPost "vhosts/:vhostId/webhooks" "WebhookController" "CreateSubscription";
  to VGet "vhosts/:vhostId/webhooks" "WebhookController" "ListSubscriptions";
  to VPatch "vhosts/:vhostId/webhooks/:id/disable" "WebhookController" "DisableSubscription";
  to VGet "vhosts/:vhostId/webhooks/:id/attempts" "WebhookController" "ListAttempts";
  to VPost "vhosts/:vhostId/webhooks/:id/attempts/:eventId/redrive" "WebhookController" "RedriveAttempt";
  to VPost "accounts/:accountId/tokens" "TokenController" "CreateToken";
  to VGet "accounts/:accountId/tokens" "TokenController" "ListTokens";
  to VDelete "accounts/:accountId/tokens/:id" "TokenController" "RevokeToken";
  to VGet "vhosts/:vhostId/audit-log" "AuditController" "ListEntries";
  to VGet "vhosts/:id/export" "DataController" "Export";
  to VDelete "vhosts/:id/data" "DataController" "Delete";
  to VPost "accounts/:accountId/messages" "MessageController" "Send"].

(** ** The health check (internal/app) *)

Definition AppService_Health : string := "ok".

(** The JSON object answered. *)
Definition AppController_Health : list (string * string) := [("status", AppService_Health)].

Definition app_ROUTES : list Route := [to VGet "/health" "AppController" "Health"].

(** ** The module tree *)

(** [types.Module]: what it imports (a route list is a module too), exports
    and declares. *)
Inductive GooseModule :=
| RouteModule (l : list Route)
| mkModule (Imports : list GooseModule) (Exports Declarations : list string).

(** [api.Module]. *)
Definition Module_ : GooseModule := mkModule [RouteModule api_ROUTES] []
  ["VhostController"; "WebhookController"; "TokenController"; "AuditController"; "DataController"; "AccountController";
   "MessageController"].

(** [app.AppModule]; and [emptyModule], of the instances without routes. *)
Definition AppModule : GooseModule := mkModule [RouteModule app_ROUTES; Module_] [] ["AppService"].
Definition emptyModule : GooseModule := mkModule [] [] [].

(** The routes below a module, and what it declares. *)
Fixpoint routes_of (m : GooseModule) : list Route :=
  match m with
  | RouteModule l => l
  | mkModule imports _ _ => List.flat_map routes_of imports
  end.

Definition declarations (m : GooseModule) : list string :=
  match m with RouteModule _ => [] | mkModule _ _ ds => ds end.

Definition all_routes : list Route := routes_of AppModule.

(** ** What a route binds *)

(** The controller and method a request is for. *)
Definition handler_of (dto : Dto) : string * string :=
  match dto with
  | CreateVhostDto _ _ => ("VhostController", "CreateVhost")
  | ListVhostsDto _ _ => ("VhostController", "ListVhosts")
  | GetVhostDto _ => ("VhostController", "GetVhost")
  | DeactivateVhostDto _ => ("VhostController", "DeactivateVhost")
  | UpdateVhostPolicyDto _ _ => ("VhostController", "UpdateVhostPolicy")
  | CreateMailboxDto _ _ _ => ("VhostController", "CreateMailbox")
  | ListMailboxesDto _ _ _ => ("VhostController", "ListMailboxes")
  | GetMailboxDto _ _ => ("VhostController", "GetMailbox")
  | DeleteMailboxDto _ _ => ("VhostController", "DeleteMailbox")
  | CreateWebhookSubscriptionDto _ _ _ _ => ("WebhookController", "CreateSubscription")
  | ListWebhookSubscriptionsDto _ _ _ => ("WebhookController", "ListSubscriptions")
  | DisableWebhookSubscriptionDto _ _ => ("WebhookController", "DisableSubscription")
  | ListWebhookAttemptsDto _ _ _ _ => ("WebhookController", "ListAttempts")
  | RedriveWebhookAttemptDto _ _ _ => ("WebhookController", "RedriveAttempt")
  | CreateTokenDto _ _ => ("TokenController", "CreateToken")
  | ListTokensDto _ _ _ => ("TokenController", "ListTokens")
  | RevokeTokenDto _ _ => ("TokenController", "RevokeToken")
  | CreateAccountDto _ => ("AccountController", "CreateAccount")
  | ListAccountsDto _ _ => ("AccountController", "ListAccounts")
  | GetAccountDto _ => ("AccountController", "GetAccount")
  | ListAccountAuditEntriesDto _ _ _ => ("AccountController", "ListEntries")
  | SendMessageDto _ _ => ("MessageController", "Send")
  | ListAuditEntriesDto _ _ _ => ("AuditController", "ListEntries")
  | ExportVhostDataDto _ => ("DataController", "Export")
  | DeleteVhostDataDto _ => ("DataController", "Delete")
  end.

(** The resource a pattern names first. *)
Definition resource (r : Route) : option string :=
  match ro_Path r with
  | Lit kind :: Par _ :: _ => Some kind
  | _ => None
  end.

(** Whether some path could match both patterns, segment by segment. *)
Fixpoint overlap (p q : list segment) : bool :=
  match p, q with
  | [], [] => true
  | Lit a :: p, Lit b :: q => String.eqb a b && overlap p q
  | _ :: p, _ :: q => overlap p q
  | _, _ => false
  end.

(** ** Facts *)

(** No path is served by two routes of the same verb, whatever the order in
    which the router tries them. *)
Lemma routes_unambiguous r1 r2 : r1 ∈ all_routes → r2 ∈ all_routes →
  ro_Verb r1 = ro_Verb r2 → overlap (ro_Path r1) (ro_Path r2) = true → r1 = r2.
Proof.
  assert (Hall : Forall (λ r1, Forall (λ r2, ro_Verb r1 = ro_Verb r2 ∧ overlap (ro_Path r1) (ro_Path r2) = true → r1 = r2)
    all_routes) all_routes) by (apply (bool_decide_unpack _); by vm_compute).
  rewrite Forall_forall in Hall. intros H1 H2 Hv Ho. specialize (Hall r1 H1). rewrite Forall_forall in Hall. auto.
Qed.

(** Every request the controllers handle has a route, to a controller the module
    declares, whose pattern names the resource the request acts on. *)
Lemma routes_handled dto : ∃ r, r ∈ api_ROUTES ∧ (ro_Controller r, ro_Method r) = handler_of dto ∧
  ro_Controller r ∈ declarations Module_ ∧
  resource r = match scope_of dto with
               | SAdmin => None
               | SAccount _ => Some "accounts"
               | SVhost _ => Some "vhosts"
               end.
Proof.
  assert (Hfind : ∀ h, match list_find (λ r, (ro_Controller r, ro_Method r) = h) api_ROUTES with
    | Some (_, r) => r ∈ api_ROUTES ∧ (ro_Controller r, ro_Method r) = h | None => True end).
  { intros h. destruct (list_find _ _) as [[i r]|] eqn:E; [|done]. apply list_find_Some in E as (Hl & Hp & _).
    split; [by eapply list_elem_of_lookup_2|done]. }
  destruct dto; match goal with |- context [handler_of ?d] => pose proof (Hfind (handler_of d)) as Hf end;
    vm_compute list_find in Hf; destruct Hf as [H1 H2]; eexists;
    (split; [exact H1|split; [exact H2|split; [apply (bool_decide_unpack _); by vm_compute|done]]]).
Qed.

(** The health check is the only route outside the authenticated API. *)
Lemma open_route r : r ∈ all_routes → r ∈ api_ROUTES ∨ r = to VGet "/health" "AppController" "Health".
Proof.
  unfold all_routes. intros [Hr|Hr]%elem_of_app; [right; by apply list_elem_of_singleton in Hr|left].
  change (r ∈ api_ROUTES ++ []) in Hr. by rewrite app_nil_r in Hr.
Qed.
