(* ===== verification/Sending.v ===== *)
(** * Mail sent through the management API, and the submission session

    [MessageController_Send] (internal/api) and the submission session's DATA
    (internal/platform/smtp) stage and queue the same way: the loop of one is the
    loop of the other, up to the answers. *)

From S2P Require Import Prelude Float64 Table Logging Queue RateLimit Kms Filter Directory Webhook Storage Deliverer ApiAuth AuditLog Mailbuild Api Smtp.

Section Loop.
Context {W : Type} {HE : Env W} {HS : MessageStore W} {HQ : QueueBackend W Job}.

(** The session whose DATA would queue the same jobs. *)
Definition as_session (v : Vhost) (from correlationID : string) (rcpts : list string) : submissionSession :=
  mkSubmission "" (vh_Domain v) from rcpts correlationID.

Definition same_outcome (r : Output + list string) (r' : res unit) : Prop :=
  match r with inr _ => r' = Ok tt | inl o => succeeded o = false ∧ ∃ e, r' = Err e end.

Lemma send_each_submits ctx v from signed corr rcpts0 rcpts (w : W) r w' :
  send_each ctx v from signed corr rcpts w = (r, w') →
  ∃ r', submit_all ctx (as_session v from corr rcpts0) signed rcpts w = (r', w') ∧ same_outcome r r'.
Proof.
  revert w r w'. induction rcpts as [|rcpt rcpts IH]; intros w r w'; simpl.
  { unfold ret. intros [= <- <-]. by eexists. }
  unfold mtry at 1, submit_one, mtry at 1, wrap, bind, ret. simpl.
  destruct (s_Write ctx (vh_Domain v) OutboxMailbox (Ok signed) w) as [[ref|e] w1]; simpl;
    [|intros [= <- <-]; eexists; split; [done|]; split; [done|by eexists]].
  destruct (uuid_NewString w1) as [id w2]. destruct (now w2) as [t w3].
  change (submission_job (as_session v from corr rcpts0) id rcpt ref t) with (message_job v from id rcpt (rf_Key ref) t corr).
  destruct (q_Enqueue ctx _ w3) as [[[]|e] w4]; simpl;
    [|intros [= <- <-]; eexists; split; [done|]; split; [done|by eexists]].
  destruct (send_each ctx v from signed corr rcpts w4) as [rest w5] eqn:Er. apply IH in Er as (r' & Er & Hs).
  intros [= <- <-]. exists r'. split; [done|]. by destruct rest.
Qed.
End Loop.

Section Send.
Context {W A : Type} {HTv : Table W vhostRow} {HTk : Table W dkimKeyRow} {HC : Crypto W} {HE : Env W}
  {HT : ApiAuth.Store W} {HA : AuditLog.Store W} {HS : MessageStore W} {HQ : QueueBackend W Job} {HK : DKIMSigner W}
  {HJ : JSON} {HX : ErrorText} {HN : NetMail} {HSha : SHA256} {HF : TimeText} {HSq : StrconvQuote} {inv : W → Prop} {addr : MessageRef → A}
  {norm : list string → list string} {box : string → string → Prop} {valid : MessageRef → Prop}
  {holds : W → A → string → list string → Prop} {q_inv : W → Prop} {q_view : W → QView Job}.
Context {SS : Storage.StoreSpec W A inv addr norm box valid holds} {QS : QueueSpec W Job q_inv q_view}.
Context (enc : Encryptor W) (order : gmap string string → list (string * string)) (c : Injected W).

Notation is_bystander := (bystander (inv := inv) (holds := holds) (q_inv := q_inv) (q_view := q_view)).

(** What surrounds the store and the queue leaves them alone. *)
Record sending_world : Prop := {
  sd_staging : staging_world (inv := inv) (holds := holds) (q_inv := q_inv) (q_view := q_view);
  sd_tokens : ∀ ctx h, is_bystander (ts_Authenticate ctx h);
  sd_limiter : ∀ p Allow, rateLimit c = Some p → rl_Limiter p = Some Allow → ∀ ctx k x y, is_bystander (Allow ctx k x y);
  sd_vhosts : ∀ ctx p o, is_bystander (tbl_First (D := vhostRow) ctx p o);
  sd_keys : ∀ ctx p o, is_bystander (tbl_First (D := dkimKeyRow) ctx p o);
  sd_quota : ∀ Allow, Api.quota c = Some (Some Allow) → ∀ ctx k x y, is_bystander (Allow ctx k x y);
  sd_sign : ∀ d sel k b, is_bystander (dkim_Sign d sel k b);
  sd_hooks : ∀ enqueue, webhooks c = Some enqueue → ∀ ctx v t p, is_bystander (enqueue ctx v t p);
  sd_audit : ∀ ctx e, is_bystander (au_Record ctx e);
}.
Context (SW : sending_world).

(** Nothing happened to the store or the queue. *)
Definition calm (w w' : W) : Prop := (inv w → inv w') ∧ (q_inv w → q_inv w') ∧ holds w' = holds w ∧ q_view w' = q_view w.

#[local] Instance calm_preorder : PreOrder calm.
Proof.
  split; [by intros w|]. intros w1 w2 w3 (H1 & H2 & H3 & H4) (K1 & K2 & K3 & K4). split_and!; [auto..|congruence|congruence].
Qed.

Lemma bystander_calm {B} (m : M W B) : is_bystander m → along calm m.
Proof. intros Hm w b w' E. exact (bystander_spec _ _ _ _ Hm E). Qed.

Lemma along_or_return {B} (m : M W (res B)) f : along calm m → along calm (or_return m f).
Proof. intros Hm w b w'. unfold or_return. destruct (m w) as [[x|e] w1] eqn:E; intros [= _ <-]; by eapply Hm. Qed.

Ltac calm_calls := along_calls; try apply _; try apply along_or_return;
  try (apply bystander_calm; first [apply (sg_now (sd_staging SW))|apply (sg_uuid (sd_staging SW))|apply (sd_tokens SW)
    |apply (sd_vhosts SW)|apply (sd_keys SW)|apply (sd_sign SW)|apply (sd_audit SW)]).

Lemma calm_authenticate a : along calm (Api.authenticate c a).
Proof.
  unfold Api.authenticate, checkAPIRateLimit. destruct (rateLimit c) as [p|] eqn:Ep; [destruct (rl_Limiter p) as [Allow|] eqn:El|].
  all: calm_calls. by apply bystander_calm, (sd_limiter SW p).
Qed.

Lemma calm_access a acct : along calm (requireAccountAccess c a acct).
Proof. unfold requireAccountAccess. pose proof calm_authenticate. calm_calls. auto. Qed.

Lemma calm_sender ac m : along calm (sender enc ac m).
Proof. unfold sender, Service_Vhost, hydrateVhost. calm_calls. Qed.

Lemma calm_quota ctx v : along calm (message_checkQuota c ctx v).
Proof.
  unfold message_checkQuota. destruct (Api.quota c) as [[Allow|]|] eqn:E; cbv zeta; calm_calls. by apply bystander_calm, (sd_quota SW).
Qed.

Lemma calm_fire ctx d from to : along calm (message_fireQueued c ctx d from to).
Proof. unfold message_fireQueued, NewEventPayload. destruct (webhooks c) eqn:E; calm_calls. by apply bystander_calm, (sd_hooks SW). Qed.

Lemma calm_Build msg : along calm (Build order msg).
Proof. unfold Build, buildMixed, buildBodyPart. cbv zeta. calm_calls. Qed.

Hint Resolve requireAccountAccess_refuses sender_refuses decode_attachments_refuses send_each_refuses quota_refuses
  header_refuses : api_refuses.

Lemma return_if_passes (b : bool) o (w : W) x w' : return_if b o w = (inr x, w') → w' = w.
Proof. unfold return_if. by destruct b; intros [= _ <-]. Qed.

Lemma calm_ret {B} (x : B) : along calm (ret x).
Proof. by intros w y w' [= _ <-]. Qed.

(** The message of the request, composed and signed with the key of the
    sender's vhost. *)
Definition signed_request (m : SendFields) (v : Vhost) (signed : string) : Prop :=
  ∃ key raw msg (w1 w2 : W), vh_DKIMKey v = Some key ∧ Mailbuild.Text msg = sm_Text m ∧ Mailbuild.Subject msg = sm_Subject m ∧
    fst (Build order msg w1) = Ok raw ∧ fst (dkim_Sign (vh_Domain v) (vh_DKIMSelector v) key raw w2) = Ok signed.

(** A send that succeeds has run the submission's loop, from the sender's
    vhost, over the distinct recipients, and nothing else. *)
Lemma message_sent a acct m (w : W) o w' : MessageController_Send enc order c a acct m w = (o, w') → succeeded o = true →
  ∃ v from corr signed w1 w2, let rcpts := uniqueRecipients [sm_To m; sm_Cc m; sm_Bcc m] in
    mail_ParseAddress (sm_From m) = Ok from ∧ signed_request m v signed ∧ calm w w1 ∧
    submit_all (WithCorrelationID Background corr) (as_session v from corr rcpts) signed rcpts w1 = (Ok tt, w2) ∧
    calm w2 w'.
Proof.
  intros E Ho. unfold MessageController_Send in E.
  apply obind_succeeds in E as (ac & wa & Ea & E); [|by eauto with api_refuses|done]. apply calm_access in Ea.
  apply obind_succeeds in E as ([[from v] key] & wb & Eb & E); [|by eauto with api_refuses|done].
  assert (Hs : mail_ParseAddress (sm_From m) = Ok from ∧ vh_DKIMKey v = Some key).
  { revert Eb. unfold sender, bind, ret. repeat case_match; intros [=]; subst; auto. }
  apply calm_sender in Eb. destruct Hs as [Hfrom Hkey].
  apply obind_succeeds in E as (y1 & wc & Ec & E); [|by eauto with api_refuses|done].
  apply return_if_passes in Ec as ->.
  apply obind_succeeds in E as (y2 & wc & Ec & E); [|by eauto with api_refuses|done].
  apply return_if_passes in Ec as ->.
  apply obind_succeeds in E as (atts & wc & Ec & E); [|by eauto with api_refuses|done]. apply calm_ret in Ec.
  apply obind_succeeds in E as (y3 & wd & Ed & E); [|by eauto with api_refuses|done]. apply calm_ret in Ed.
  apply obind_succeeds in E as (x2 & we & Ee & E); [|by eauto with api_refuses|done].
  apply bind_inv in Ee as (q & wf & Eq & Ee). apply calm_quota in Eq. apply calm_ret in Ee.
  unfold send_message in E.
  apply obind_succeeds in E as (raw & wg & Eg & E); [|by eauto with api_refuses|done].
  apply obind_succeeds in E as (signed & wh & Eh & E); [|by eauto with api_refuses|done].
  assert (Hsig : signed_request m v signed).
  { unfold or_return in Eg, Eh. destruct (Build _ _ we) as [[raw'|e] wx] eqn:Ebd; [|done]. injection Eg as -> ->.
    unfold dkimSign in Eh. destruct (dkim_Sign _ _ _ _ wg) as [[sg|e] wy] eqn:Esg; [|done]. injection Eh as -> ->.
    eexists key, raw, _, we, wg. rewrite Ebd, Esg. by split_and!. }
  assert (Kg : calm we wg) by (revert Eg; apply along_or_return, calm_Build).
  assert (Kh : calm wg wh) by (revert Eh; apply along_or_return, bystander_calm, (sd_sign SW)).
  apply bind_inv in E as (corr & wi & Ei & E). apply (bystander_calm _ (sg_uuid (sd_staging SW))) in Ei.
  apply obind_succeeds in E as (ids & wj & Ej & E); [|by eauto with api_refuses|done].
  apply bind_inv in E as (y & wk & Ek & E). apply calm_fire in Ek.
  apply bind_inv in E as (z & wl & El & E). apply calm_ret in E.
  assert (Kl : calm wk wl).
  { revert El. unfold recordAudit, bind, ret. destruct (au_Record _ _ wk) as [r wm] eqn:Er.
    apply (bystander_calm _ (sd_audit SW _ _)) in Er. by intros [= _ <-]. }
  eapply (send_each_submits _ _ _ _ _ (uniqueRecipients [sm_To m; sm_Cc m; sm_Bcc m])) in Ej as (r' & Ej & Hr'). simpl in Hr'. subst r'.
  exists v, from, corr, signed, wi, wj. split_and!; [done|done| |exact Ej|by do 2 (etransitivity; [done|])].
  by do 8 (etransitivity; [done|]).
Qed.
End Send.
