(* ===== verification/Journeys.v ===== *)
(** * Journeys of a message through the system

    What the components promise together.  A submission: from the DATA of an
    authenticated user (internal/platform/smtp) through the queue to the workers
    of internal/deliverer and the wire, or back to the sender.  A received
    message: from the DATA of a remote server through the store to the user's
    IMAP session.  A vhost that is deactivated in internal/directory, as the
    protocol servers see it.  Everything here is proved against the components'
    interfaces, so it holds of every combination of their implementations. *)

From stdpp Require Import pretty.
From S2P Require Import Mailbuild ApiAuth AuditLog Api.
From S2P Require Import Prelude Float64 Table Logging Queue RateLimit Kms Filter Directory Integrity Webhook Storage Deliverer Fleet Smtp Sending Imap Wire.

(** ** Outbound: from submission to the wire *)

Section Outbound.
Context {W A : Type} {HE : Env W} {HM : MsgAuth W} {HD : Directory W} {HS : MessageStore W} {HQ : QueueBackend W Job}
  {HW : Enqueuer W} {HRes : Deliverer.Resolver W} {HN : Net W} {HR : Rand W} {HJ : JSON} {HT : ErrorText} {HF : TimeText}
  {QC : QueueCounter W} {inv : W → Prop} {addr : MessageRef → A} {norm : list string → list string} {box : string → string → Prop}
  {valid : MessageRef → Prop} {holds : W → A → string → list string → Prop} {q_inv : W → Prop} {q_view : W → QView Job}.
Context {SS : StoreSpec W A inv addr norm box valid holds} {QS : QueueSpec W Job q_inv q_view}
  {CS : CounterSpec W q_inv q_view} {RS : RandSpec W}.
Context (wire : W → log).

(** The store has the message, whatever its flags. *)
Definition kept (w : W) (a : A) (body : string) : Prop := ∃ f, holds w a body f.

(** The store keeps what it holds and the wire's log grows. *)
Definition keeps (w w' : W) : Prop :=
  (inv w → inv w' ∧ ∀ a b, kept w a b → kept w' a b) ∧ grows wire w w'.

#[global] Instance keeps_preorder : PreOrder keeps.
Proof.
  split; [by split; [auto|reflexivity]|]. intros w1 w2 w3 [H1 G1] [H2 G2].
  split; [|by etransitivity]. intros Hi. destruct (H1 Hi) as [Hi2 Hh]. destruct (H2 Hi2) as [Hi3 Hh2]. auto.
Qed.

(** The services around: none removes mail from the store, and the client of
    [Wire] is the only one to write to its log. *)
Record outbound_world : Prop := {
  ob_queue : Deliverer.quiet_world q_inv q_view;
  ob_wire : WireSpec wire;
  ob_now : along keeps now;
  ob_uuid : along keeps uuid_NewString;
  ob_inc : ∀ m, along keeps (Inc m);
  ob_observe : ∀ m d, along keeps (Observe m d);
  ob_set : ∀ m n, along keeps (Set_ m n);
  ob_count : ∀ ctx, along keeps (q_Count ctx);
  ob_mx : ∀ ctx d, along keeps (LookupMX ctx d);
  ob_dial : ∀ ctx a, along keeps (DialContext ctx a);
  ob_tls : ∀ c h, along keeps (NewClientStartTLS c h);
  ob_hello : ∀ c s, along keeps (cl_Hello c s);
  ob_mail : ∀ c s, along keeps (cl_Mail c s);
  ob_rcpt : ∀ c s, along keeps (cl_Rcpt c s);
  ob_data : ∀ c, along keeps (cl_Data c);
  ob_write : ∀ c s, along keeps (wc_Write c s);
  ob_wclose : ∀ c, along keeps (wc_Close c);
  ob_quit : ∀ c, along keeps (cl_Quit c);
  ob_close : ∀ c, along keeps (cl_Close c);
  ob_read : ∀ ctx r, along keeps (s_Read ctx r);
  ob_active : ∀ ctx v, along keeps (d_VhostActive ctx v);
  ob_hook : ∀ ctx v t p, along keeps (wh_Enqueue ctx v t p);
  ob_rand : ∀ n, along keeps (Int63n n);
  ob_enqueue : ∀ ctx j, along keeps (q_Enqueue (J := Job) ctx j);
  ob_dequeue : ∀ ctx, along keeps (q_Dequeue (J := Job) ctx);
  ob_complete : ∀ ctx id, along keeps (q_Complete (J := Job) ctx id);
  ob_fail : ∀ ctx id e t, along keeps (q_Fail (J := Job) ctx id e t);
  ob_store : ∀ ctx v m b, along (grows wire) (s_Write ctx v m b);
}.
Context (OW : outbound_world) (cfg : Deliverer.Config).

(** The store can tell the sender's INBOX apart. *)
Definition sender_ok (job : Job) : Prop :=
  ∀ local dom, ParseAddress (From job) = Some (local, dom) → box dom (MailboxPath local "INBOX").

Ltac keeps_calls := along_calls; try apply keeps_preorder; first [assumption|destruct OW; auto].

Lemma bounce_write_keeps ctx local dom b : box dom (MailboxPath local "INBOX") →
  along keeps (s_Write ctx dom (MailboxPath local "INBOX") (Ok b)).
Proof.
  intros Hb w r w' E. split; [|by eapply (ob_store OW)]. intros Hi.
  destruct r as [ref|e].
  - destruct (sp_Write_ok _ _ _ _ _ _ _ Hi Hb E) as (Hi' & _ & _ & _ & b' & _ & _ & Hh). split; [done|].
    intros a' b2 [f Ha]. exists f. apply Hh. by right.
  - destruct (sp_Write_err _ _ _ _ _ _ _ Hi Hb E) as [Hi' Hh]. split; [done|]. intros a' b2 [f Ha]. exists f. by apply Hh.
Qed.

Lemma buildDSN_keeps job mta cause : along keeps (buildDSN job mta cause).
Proof. unfold buildDSN. keeps_calls. Qed.

Lemma deliverBounce_keeps ctx job cause : sender_ok job → along keeps (deliverBounce cfg ctx job cause).
Proof.
  intros Hs. unfold deliverBounce. destruct (ParseAddress (From job)) as [[local dom]|] eqn:Hp; [|keeps_calls].
  pose proof (buildDSN_keeps). pose proof (λ b, bounce_write_keeps ctx local dom b (Hs _ _ Hp)). keeps_calls.
Qed.

Lemma fire_keeps ctx job et data : along keeps (fire cfg ctx job et data).
Proof. unfold fire, NewEventPayload. keeps_calls. Qed.

Lemma sendToHost_keeps ctx host job body : along keeps (sendToHost cfg ctx host job body).
Proof. unfold sendToHost, dial. cbv zeta. keeps_calls. Qed.

Lemma send_hosts_keeps ctx mxs job body last : along keeps (send_hosts cfg ctx mxs job body last).
Proof.
  revert last. induction mxs as [|mx mxs IH]; intros last; simpl; [keeps_calls|].
  pose proof (sendToHost_keeps). keeps_calls; apply IH.
Qed.

Lemma lookupMX_keeps ctx domain : along keeps (lookupMX ctx domain).
Proof. unfold lookupMX. keeps_calls. Qed.

Lemma attempt_keeps ctx job : along keeps (attempt cfg ctx job).
Proof. unfold attempt, send. cbv zeta. pose proof lookupMX_keeps. pose proof send_hosts_keeps. keeps_calls. Qed.

Lemma measured_keeps ctx job : along keeps (measured cfg ctx job).
Proof. unfold measured. pose proof attempt_keeps. keeps_calls. Qed.

Lemma refresh_keeps ctx : along keeps (refresh_depth ctx).
Proof. unfold refresh_depth. keeps_calls. Qed.

Lemma jitter_keeps n b m : along keeps (FullJitter n b m).
Proof. unfold FullJitter. cbv zeta. keeps_calls. Qed.

(** *** What becomes of a job *)

(** The job as it was submitted, whatever retries it has had. *)
Definition same_mail (j j' : Job) : Prop :=
  ID j' = ID j ∧ Queue.Vhost j' = Queue.Vhost j ∧ From j' = From j ∧ To j' = To j ∧ BodyRef j' = BodyRef j.

Definition staged (j : Job) : MessageRef := mkRef (Queue.Vhost j) OutboxMailbox (BodyRef j).

(** What [deliverBounce], run from [w0], had done by [w1]: the notification is
    in the sender's INBOX, or there was no hosted sender to tell, or it could
    not be written. *)
Inductive notice (ctx : Ctx) (job : Job) (cause : goerr) (w0 w1 : W) : Prop :=
| notice_filed local dom ref dsn w2 w3 : ParseAddress (From job) = Some (local, dom) →
    d_VhostActive ctx dom w0 = (true, w2) → buildDSN job (Domain cfg) cause w2 = (Ok dsn, w3) →
    rf_Vhost ref = dom → rf_Mailbox ref = MailboxPath local "INBOX" → holds w1 (addr ref) dsn [] →
    notice ctx job cause w0 w1
| notice_no_sender : ParseAddress (From job) = None → notice ctx job cause w0 w1
| notice_not_hosted local dom w2 : ParseAddress (From job) = Some (local, dom) →
    d_VhostActive ctx dom w0 = (false, w2) → notice ctx job cause w0 w1
| notice_not_built local dom e w2 w3 : ParseAddress (From job) = Some (local, dom) →
    d_VhostActive ctx dom w0 = (true, w2) → buildDSN job (Domain cfg) cause w2 = (Err e, w3) →
    notice ctx job cause w0 w1
| notice_not_stored local dom dsn e w2 w3 : ParseAddress (From job) = Some (local, dom) →
    d_VhostActive ctx dom w0 = (true, w2) → buildDSN job (Domain cfg) cause w2 = (Ok dsn, w3) →
    s_Write ctx dom (MailboxPath local "INBOX") (Ok dsn) w3 = (Err e, w1) →
    notice ctx job cause w0 w1.

(** The deliverer gave the job up, for a reason that allows it, and notified. *)
Definition given_up (start : W) (j : Job) (w : W) : Prop :=
  ∃ ctx job e cause w0 w1, same_mail j job ∧ keeps start w0 ∧ keeps w1 w ∧
    (isPermanent e = true ∨ MaxAttempts cfg ≤ Attempts job + 1) ∧ notice ctx job cause w0 w1 ∧
    (cause = e ∨ cause = ErrorfW "exhausted %d delivery attempts, last error: %w" [pretty (MaxAttempts cfg)] e).

Definition pending (j : Job) (w : W) : Prop := ∃ j' c, q_view w !! ID j = Some (j', c) ∧ same_mail j j'.

(** [lost] lists the jobs whose bounce was due when their process died. *)
Definition settled (start : W) (j : Job) (body : string) (lost : list Job) (w : W) : Prop :=
  transmitted wire (From j) (To j) body w ∨ given_up start j w ∨ ∃ job, job ∈ lost ∧ same_mail j job.

(** Since [start], the mail of [j] is staged, and it is pending, sent as staged,
    or given up. *)
Definition accounted (start : W) (j : Job) (body : string) (lost : list Job) (w : W) : Prop :=
  inv w ∧ keeps start w ∧ kept w (addr (staged j)) body ∧ (pending j w ∨ settled start j body lost w).

Lemma same_mail_refl j : same_mail j j.
Proof. done. Qed.

Lemma same_mail_retry j j' e t : same_mail j j' → same_mail j (Job_retry e t j').
Proof. done. Qed.

Lemma settled_keeps start j body lost (w w' : W) : keeps w w' →
  settled start j body lost w → settled start j body lost w'.
Proof.
  intros K [Ht|[(ctx & job & e & cause & w0 & w1 & ? & ? & ? & ? & ? & ?)|?]]; [left|right; left|by right; right].
  - eapply transmitted_grows; [apply K|done].
  - exists ctx, job, e, cause, w0, w1. split_and!; try done. by etransitivity.
Qed.

Lemma accounted_lost start j body lost lost' w : lost ⊆ lost' →
  accounted start j body lost w → accounted start j body lost' w.
Proof.
  intros Hs (? & ? & ? & Hf). split_and!; [done..|]. destruct Hf as [?|[?|[?|(job & Hj & ?)]]]; [by left|right..].
  - by left.
  - by right; left.
  - right. right. exists job. split; [by apply Hs|done].
Qed.

Lemma accounted_keeps start j body lost (w w' : W) : keeps w w' →
  (pending j w → pending j w' ∨ settled start j body lost w') →
  accounted start j body lost w → accounted start j body lost w'.
Proof.
  intros K Hp (Hi & Ks & Hh & Hf). destruct (proj1 K Hi) as [Hi' Hm]. split_and!; [done|by etransitivity|by apply Hm|].
  destruct Hf as [?|?]; [auto|right]. by eapply settled_keeps.
Qed.

Lemma pending_frame j (w w' : W) : q_view w' !! ID j = q_view w !! ID j → pending j w → pending j w'.
Proof. intros E (j' & c & Hl & Hs). exists j', c. by rewrite E. Qed.

(** *** The bounce of a job given up *)

Lemma deliverBounce_notice ctx job cause (w : W) w' : sender_ok job → inv w →
  deliverBounce cfg ctx job cause w = (tt, w') → notice ctx job cause w w'.
Proof.
  intros Hok Hi. unfold deliverBounce. destruct (ParseAddress (From job)) as [[local dom]|] eqn:Hp; [|by constructor 2].
  unfold bind at 1. destruct (d_VhostActive ctx dom w) as [[] w1] eqn:Ea; [|by intros _; econstructor 3].
  destruct (proj1 (ob_active OW _ _ _ _ _ Ea) Hi) as [Hi1 _]. simpl.
  unfold bind at 1. destruct (buildDSN job (Domain cfg) cause w1) as [[dsn|e] w2] eqn:Eb; [|by intros _; econstructor 4].
  destruct (proj1 (buildDSN_keeps _ _ _ _ _ _ Eb) Hi1) as [Hi2 _].
  unfold bind, ret. destruct (s_Write _ _ _ _ w2) as [[ref|e] w3] eqn:Es; intros [= <-].
  - destruct (sp_Write_ok _ _ _ _ _ _ _ Hi2 (Hok _ _ Hp) Es) as (_ & _ & Hv & Hm & b & [= <-] & _ & Hh).
    econstructor 1; [done..|]. apply Hh. by left.
  - by econstructor 5.
Qed.

(** *** One delivery *)

Lemma record_outcome_keeps ctx job r : along keeps (record_outcome cfg ctx job r).
Proof. unfold record_outcome, nextBackoff. pose proof jitter_keeps. keeps_calls. Qed.

Lemma handle_until_keeps k ctx job : sender_ok job → along keeps (handle_until cfg k ctx job).
Proof.
  intros Hs. unfold handle_until. cbv zeta. pose proof measured_keeps. pose proof record_outcome_keeps.
  pose proof (λ ctx e, deliverBounce_keeps ctx job e Hs). keeps_calls.
Qed.

Lemma attempt_sent ctx j job body (w : W) w' : same_mail j job → valid (staged j) → inv w →
  kept w (addr (staged j)) body → attempt cfg ctx job w = (Ok tt, w') → transmitted wire (From j) (To j) body w'.
Proof.
  intros (_ & Hs2 & Hs3 & Hs4 & Hs5) Hval Hi Hh Ea.
  apply (attempt_transmits wire (ob_wire OW)) in Ea as (mxs & w2 & b & w3 & El & Er & Ht).
  rewrite Hs2, Hs5 in Er. change (mkRef _ _ _) with (staged j) in Er. rewrite Hs3, Hs4 in Ht.
  assert (K2 : keeps w w2) by (eapply lookupMX_keeps; exact El). destruct (proj1 K2 Hi) as [Hi2 Hh2].
  destruct (sp_Read_ok _ _ _ _ _ Hi2 Hval Er) as (_ & _ & f & Hb).
  destruct (Hh2 _ _ Hh) as [f' Hf']. by destruct (sp_holds_fun _ _ _ _ _ _ Hi2 Hb Hf') as [-> _].
Qed.

Lemma measured_sent ctx j job body (w : W) w' : same_mail j job → valid (staged j) → inv w →
  kept w (addr (staged j)) body → measured cfg ctx job w = (Ok tt, w') → transmitted wire (From j) (To j) body w'.
Proof.
  intros Hs Hval Hi Hh. unfold measured, bind, ret. destruct (now w) as [start w1] eqn:E1.
  destruct (proj1 (ob_now OW _ _ _ E1) Hi) as [Hi1 Hh1]. destruct (attempt cfg ctx job w1) as [r w2] eqn:E2.
  destruct (now w2) as [stop w3] eqn:E3. destruct (Observe _ _ w3) as [[] w4] eqn:E4. intros [= -> <-].
  eapply transmitted_grows; [apply (ob_observe OW _ _ _ _ _ E4)|].
  eapply transmitted_grows; [apply (ob_now OW _ _ _ E3)|]. eapply attempt_sent; [done..| |exact E2]. by apply Hh1.
Qed.

Lemma final_cause_spec job e :
  match final_cause cfg job e with
  | Some cause => (isPermanent e = true ∨ MaxAttempts cfg ≤ Attempts job + 1) ∧
      (cause = e ∨ cause = ErrorfW "exhausted %d delivery attempts, last error: %w" [pretty (MaxAttempts cfg)] e)
  | None => isPermanent e || (MaxAttempts cfg <=? Attempts job + 1) = false
  end.
Proof.
  unfold final_cause. destruct (isPermanent e); [by split; [left|left]|].
  destruct (Z.leb_spec (MaxAttempts cfg) (Attempts job + 1)); [by split; [right|right]|done].
Qed.

(** Wherever a delivery is cut, its job is accounted for. *)
Lemma handle_until_accounted start j body lost k ctx job (w : W) b w' :
  config_ok cfg → sender_ok job → q_inv w → valid (staged j) →
  q_view w !! ID job = Some (job, true) → handle_until cfg k ctx job w = (b, w') →
  accounted start j body lost w → accounted start j body (if b then job :: lost else lost) w'.
Proof.
  intros Hc Hok Hq Hval Hclaim Eh Hacc. pose proof (handle_until_keeps _ _ _ Hok _ _ _ Eh) as K.
  apply (accounted_lost start j body lost (if b then job :: lost else lost)) in Hacc; [|destruct b; [by right|done]].
  apply (accounted_keeps start j body _ w w' K); [|done]. intros Hp. destruct Hacc as (Hi & Ks & Hh & _).
  destruct (base.decide (ID job = ID j)) as [Hid|Hid].
  2:{ left. eapply pending_frame; [|done]. by eapply (handle_until_frame q_inv q_view (ob_queue OW)), not_eq_sym. }
  destruct Hp as (j' & c & Hl & Hs). rewrite <-Hid, Hclaim in Hl. injection Hl as <- <-.
  revert Eh. unfold handle_until, bind, ret. set (ctx' := WithCorrelationID _ _).
  destruct (measured cfg ctx' job w) as [a w1] eqn:Ea. pose proof (measured_keeps _ _ _ _ _ Ea) as Ka.
  destruct (measured_quiet q_inv q_view (ob_queue OW) _ _ _ _ _ _ Ea) as [Hq1 Hv1]. specialize (Hq1 Hq).
  assert (Hstill : ∀ w2, q_view w2 = q_view w → pending j w2) by (intros w2 Hv; exists job, true; by rewrite Hv, <-Hid).
  destruct (record_outcome cfg ctx' job a w1) as [due w2] eqn:Er.
  pose proof (record_outcome_keeps _ _ _ _ _ _ Er) as K2.
  pose proof Er as Er'. apply (record_outcome_spec q_inv q_view (ob_queue OW) cfg Hc) in Er as (_ & Hv2 & Hdue); [|done].
  assert (Hout : w' = w2 ∧ due = None → pending j w' ∨ settled start j body (if b then job :: lost else lost) w').
  { intros [-> Hnone]. rewrite Hnone in Hdue. destruct Hv2 as [Hv2|Hv2]; [left; apply Hstill; congruence|].
    destruct a as [[]|e].
    - right. left. eapply transmitted_grows; [apply K2|]. by eapply measured_sent.
    - pose proof (final_cause_spec job e) as Hf. rewrite <-Hdue in Hf. simpl in Hv2. rewrite Hf in Hv2.
      destruct Hv2 as (jx & b0 & t & delay & Hl & _ & Hv). rewrite Hv1, Hclaim in Hl. injection Hl as <- <-.
      left. eexists _, _. rewrite <-Hid, Hv, lookup_insert_eq. split; [done|]. by apply same_mail_retry. }
  destruct k; [intros [= _ <-]; left; by apply Hstill|..].
  - rewrite Er'. intros [= <- <-]. destruct due as [cause|]; [|by apply Hout].
    right. right. right. exists job. rewrite bool_decide_true by done. split; [by left|done].
  - rewrite Er'. destruct due as [cause|]; [|intros [= <- <-]; by apply Hout].
    destruct (deliverBounce cfg ctx' job cause w2) as [[] w3] eqn:Eb. intros [= <- <-].
    assert (Hi2 : inv w2) by (apply K2, Ka, Hi). apply deliverBounce_notice in Eb; [|done..].
    destruct a as [[]|e]; [done|]. pose proof (final_cause_spec job e) as Hf. rewrite <-Hdue in Hf. destruct Hf as [Hf1 Hf2].
    right. right. left. exists ctx', job, e, cause, w2, w3. split_and!; try done. by do 2 (etransitivity; [done|]).
Qed.

Lemma handle_accounted start j body lost ctx job (w : W) r w' : config_ok cfg → sender_ok job → q_inv w → valid (staged j) →
  q_view w !! ID job = Some (job, true) → handle cfg ctx job w = (r, w') →
  accounted start j body lost w → accounted start j body lost w'.
Proof.
  intros Hc Hok Hq Hval Hclaim Eh Hacc. destruct (handle_until cfg AtEvent ctx job w) as [b w1] eqn:Eu.
  pose proof (handle_until_accounted _ _ _ _ _ _ _ _ _ _ Hc Hok Hq Hval Hclaim Eu Hacc) as Hacc1.
  apply handle_until_event in Eu as (-> & event & He & Hev). rewrite Eh in He. simpl in He. subst w'.
  destruct Hev as [->|(et & data & ->)]; [done|]. destruct (fire _ _ _ _ _ w1) as [x w2] eqn:Ef. simpl.
  apply (accounted_keeps start j body lost w1 w2); [by eapply fire_keeps| |done]. intros Hp. left.
  eapply pending_frame; [|done]. by destruct (fire_quiet q_inv q_view (ob_queue OW) _ _ _ _ _ _ _ _ Ef) as [_ ->].
Qed.

(** *** Under the fleet's workers *)

(** Every job in the queue has a sender the store can tell apart. *)
Definition senders_ok (w : W) : Prop := ∀ id job c, q_view w !! id = Some (job, c) → sender_ok job.

(** What others enqueue: new jobs of such senders. *)
Definition submittable (w : W) (job : Job) : Prop := unused_id q_view w job ∧ sender_ok job.

(** The rest of the system at work: whatever removes no mail, leaves the queue as
    it is and writes to the wire only through the client. *)
Definition elsewhere (w w' : W) : Prop := keeps w w' ∧ (q_inv w → q_inv w') ∧ q_view w' = q_view w.

Notation jstep := (fstep cfg submittable elsewhere).

Definition journey_ok (start : W) (j : Job) (body : string) (lost : list Job) (w : W) : Prop :=
  senders_ok w ∧ accounted start j body lost w.

Lemma elsewhere_ok start j body lost w w' : elsewhere w w' → journey_ok start j body lost w → journey_ok start j body lost w'.
Proof.
  intros (K & _ & Hv) [Hs Ha]. split; [unfold senders_ok; by rewrite Hv|].
  apply (accounted_keeps start j body lost w w'); [done| |done]. intros Hp. left.
  exact (pending_frame j w w' (f_equal (λ v, v !! ID j) Hv) Hp).
Qed.

Lemma outcome_senders job r (w w' : W) : q_view w !! ID job = Some (job, true) →
  q_view w' = q_view w ∨ job_outcome cfg job r (q_view w) (q_view w') → senders_ok w → senders_ok w'.
Proof.
  intros Hj Hv Hok i x c. destruct Hv as [->|Ho]; [apply Hok|]. destruct (base.decide (i = ID job)) as [->|Hne].
  - revert Ho. unfold job_outcome. destruct r as [[]|e]; [intros ->; by rewrite lookup_delete_eq|].
    destruct (_ || _); [intros ->; by rewrite lookup_delete_eq|].
    intros (jx & b & t & delay & Hl & _ & ->). rewrite lookup_insert_eq. intros [= <- _].
    rewrite Hj in Hl. injection Hl as <- _. exact (Hok _ _ _ Hj).
  - rewrite (outcome_frame _ _ _ _ _ i Ho Hne). apply Hok.
Qed.

Lemma enqueue_journey start j body lost ctx job (w : W) r w' : q_inv w → submittable w job →
  q_Enqueue ctx job w = (r, w') → journey_ok start j body lost w → journey_ok start j body lost w'.
Proof.
  intros Hq [Hfree Hjob] E [Hok Ha]. split.
  - intros i x c. destruct r as [[]|e]; [|rewrite (Enqueue_err _ _ _ _ _ Hq E); apply Hok].
    apply Enqueue_ok in E as [_ ->]; [|done..]. rewrite lookup_insert. case_decide; [|apply Hok]. by intros [= <- _].
  - apply (accounted_keeps start j body lost w w'); [by eapply (ob_enqueue OW)| |done]. intros Hp. left.
    destruct Hp as (j' & c & Hl & Hs). eapply pending_frame; [|by exists j', c].
    destruct r as [[]|e]; [|by rewrite (Enqueue_err _ _ _ _ _ Hq E)].
    eapply Enqueue_other; [exact Hq|exact E|]. change (j_ID job) with (ID job). intros He.
    unfold unused_id in Hfree. rewrite <-He in Hfree. congruence.
Qed.

Lemma rstep_journey start j body lost rest p p' : config_ok cfg → valid (staged j) → rstep submittable cfg p p' →
  q_inv (pl_world p) → claims_ok q_view (pl_world p) (pl_workers p ++ rest) →
  journey_ok start j body lost (pl_world p) → journey_ok start j body lost (pl_world p').
Proof.
  intros Hc Hval Hs Hq Hcl [Hok Ha].
  destruct Hs as [ctx w w' d ws job E|ctx w w' d ws r E Hr|w d d' l1 l2 job dom _|ctx w d l1 l2 job dom _
    |ctx w d l1 l2 job dom|ctx w d ws|ctx w w' d ws job r E Hsub]; simpl in *; try done.
  - pose proof (ob_dequeue OW _ _ _ _ E) as K. apply Dequeue_some in E as (Hu & Hv & _); [|done].
    change (j_ID job) with (ID job) in *. split.
    + intros i x c. rewrite Hv, lookup_insert. case_decide; [|apply Hok]. intros [= <- _]. by eapply Hok.
    + apply (accounted_keeps start j body lost w w'); [done| |done]. intros (j' & c & Hl & Hs). left.
      destruct (base.decide (ID job = ID j)) as [Hid|Hid].
      * exists job, true. rewrite Hid in Hu, Hv. rewrite Hl in Hu. injection Hu as -> ->. by rewrite Hv, lookup_insert_eq.
      * exists j', c. by rewrite Hv, lookup_insert_ne.
  - apply (elsewhere_ok _ _ _ _ w w'); [|done]. split_and!; [by eapply (ob_dequeue OW)|by intros; eapply Dequeue_inv|].
    destruct r as [[job|]|e]; [by destruct (Hr job)| |].
    + by apply Dequeue_none in E as [-> _].
    + by apply Dequeue_err in E as ->.
  - destruct (handle cfg ctx job w) as [r w'] eqn:E. simpl.
    assert (Hj : q_view w !! ID job = Some (job, true)).
    { destruct Hcl as [_ Hcl]. apply (Hcl (mkWorker job dom Holding)). rewrite <-app_assoc. apply elem_of_app. right. by left. }
    split; [|by eapply handle_accounted; [| |exact Hq| |exact Hj|exact E|]; [..|exact (Hok _ _ _ Hj)|done|done]].
    pose proof (handle_spec q_inv q_view (ob_queue OW) _ _ _ _ _ _ Hc Hq E) as (_ & _ & Hv). by eapply outcome_senders.
  - destruct (refresh_depth ctx w) as [[] w'] eqn:E. destruct (refresh_quiet q_inv q_view (ob_queue OW) _ _ _ _ E) as [Hi' Hv].
    apply (elsewhere_ok _ _ _ _ w w'); [|done]. split_and!; [by eapply refresh_keeps|done..].
  - by eapply enqueue_journey.
Qed.

Lemma dying_journey start j body lost rest w ws cut_off w' : config_ok cfg → valid (staged j) → dying cfg w ws cut_off w' →
  q_inv w → claims_ok q_view w (ws ++ rest) →
  journey_ok start j body lost w → journey_ok start j body (cut_off ++ lost) w'.
Proof.
  intros Hc Hval Hd. revert lost.
  induction Hd as [w|w x ws cut_off w' _ IH|k ctx w w1 job dom b ws cut_off w' E _ IH]; intros lost Hq Hcl [Hok Ha]; [done|..].
  - apply IH; [done| |done]. by apply (claims_sub q_view w [] (ws ++ rest) x).
  - assert (Hj : q_view w !! ID job = Some (job, true)).
    { destruct Hcl as [_ Hcl']. apply (Hcl' (mkWorker job dom Holding)). by left. }
    pose proof (handle_until_spec q_inv q_view (ob_queue OW) cfg Hc _ _ _ _ _ _ Hq E) as [Hq1 Hv].
    pose proof (handle_until_accounted _ _ _ _ _ _ _ _ _ _ Hc (Hok _ _ _ Hj) Hq Hval Hj E Ha) as Ha1.
    destruct (IH (if b then job :: lost else lost)) as [Hok' Ha'].
    + done.
    + eapply claims_frame; [|by apply (claims_sub q_view w [] (ws ++ rest) _ Hcl)]. intros y Hy.
      eapply (handle_until_frame q_inv q_view (ob_queue OW)); [exact Hc|exact Hq|exact E|].
      exact (claims_other q_view w [] _ _ _ Hcl Hy).
    + split; [by eapply outcome_senders|done].
    + split; [done|]. eapply accounted_lost; [|exact Ha']. intros x. destruct b; rewrite !elem_of_app, ?elem_of_cons; tauto.
Qed.

Lemma jstep_fleet_ok f f' : config_ok cfg → rtc jstep f f' → fleet_ok q_inv q_view cfg [] f → fleet_ok q_inv q_view cfg [] f'.
Proof.
  intros Hc. induction 1 as [|f f1 f' Hs _ IH]; [done|]. intros Hf. apply IH.
  eapply (fstep_ok q_inv q_view (ob_queue OW) cfg Hc elsewhere); [by intros ?? (_ & ? & ?)| |exact Hf].
  eapply fstep_weaken; [|exact Hs]. by intros ?? [? _].
Qed.

Lemma fleet_accounted start j body (w : W) lost ps f : config_ok cfg → valid (staged j) → senders_ok w →
  fleet_ok q_inv q_view cfg [] (mkFleet w ps lost) → rtc jstep (mkFleet w ps lost) f →
  accounted start j body lost w → accounted start j body (fl_lost f) (fl_world f).
Proof.
  intros Hc Hval Hs Hf Hr Ha.
  enough (fleet_ok q_inv q_view cfg [] f ∧ journey_ok start j body (fl_lost f) (fl_world f)) as (_ & _ & ?) by done.
  revert f Hr. apply rtc_ind_r; [by split|]. intros f f' _ Hstep [Hok Hj]. split.
  { by eapply jstep_fleet_ok; [|apply rtc_once|]. }
  destruct Hok as (Hq & _ & Hcl).
  destruct Hstep as [w0 w' l1 l2 d d' ws ws' lost' Hr|w0 ps' lost'|w0 w' l1 d ws l2 cut_off lost' Hd
    |ctx w0 w' ps' lost' job r E Hu|w0 w' ps' lost' Ho]; simpl in *; [| done | |by eapply enqueue_journey|by eapply elsewhere_ok].
  - apply (claims_perm _ _ _ _ (fleet_workers_middle l1 d ws l2 [])) in Hcl.
    exact (rstep_journey _ _ _ _ _ _ _ Hc Hval Hr Hq Hcl Hj).
  - apply (claims_perm _ _ _ _ (fleet_workers_middle l1 d ws l2 [])) in Hcl. by eapply dying_journey.
Qed.

(** *** Where mail comes from *)

Definition session_sender_ok (s : submissionSession) : Prop :=
  ∀ local dom, ParseAddress (sub_from s) = Some (local, dom) → box dom (MailboxPath local "INBOX").

(** The queue keeps the jobs it has as they are. *)
Definition queue_grows (w w' : W) : Prop := ∀ id x, q_view w !! id = Some x → q_view w' !! id = Some x.

(** What the loop over the recipients has queued, next to what was there. *)
Lemma queued_accounted s l signed refs jobs (w w1 : W) : inv w1 →
  added addr valid holds w w1 refs signed → Forall (in_outbox s) refs →
  new_ids (q_view w) jobs → q_view w1 = add_jobs (q_view w) jobs →
  Forall2 (queued s) (take (length jobs) (zip l refs)) jobs → length jobs = length l → length refs = length l →
  session_sender_ok s → senders_ok w →
  senders_ok w1 ∧ queue_grows w w1 ∧ NoDup (ID <$> jobs) ∧
  Forall2 (λ rcpt j, Queue.Vhost j = authVhost s ∧ From j = sub_from s ∧ To j = rcpt ∧
    valid (staged j) ∧ accounted w1 j signed [] w1) l jobs.
Proof.
  intros Hi1 Had Hout Hnew Hv Hqd Hl Hlr Hsend Hold.
  assert (Hh : ∀ j, j ∈ jobs → holds w1 (addr (staged j)) signed []) by by intros j; eapply jobs_staged.
  rewrite firstn_all2 in Hqd by (rewrite length_zip_with; lia).
  split_and!; [|intros id x; rewrite Hv; by apply add_jobs_keeps|apply Hnew|].
  - intros id j c. rewrite Hv, add_jobs_lookup by done. destruct (List.find _ jobs) as [x|] eqn:Ef; [|apply Hold].
    intros [= <- _] local dom. apply find_some in Ef as [Hx _]. apply list_elem_of_In, list_elem_of_lookup in Hx as [i Hx].
    destruct (Forall2_lookup_r _ _ _ _ _ Hqd Hx) as (p & _ & ->). apply Hsend.
  - apply Forall2_same_length_lookup. split; [done|]. intros i rcpt j Hi1' Hj.
    destruct (lookup_lt_is_Some_2 refs i) as [ref Href]; [apply lookup_lt_Some in Hj; lia|].
    assert (Hz : zip l refs !! i = Some (rcpt, ref)) by (apply lookup_zip_with_Some; eauto).
    pose proof (Forall2_lookup_lr _ _ _ _ _ _ Hqd Hz Hj) as Hjq. rewrite Hjq. simpl. split_and!; [done..| |]; rewrite <-Hjq.
    + destruct Had as (_ & Hval & _). rewrite Forall_forall in Hval. rewrite Forall_forall in Hout.
      apply list_elem_of_lookup_2 in Href. specialize (Hval _ Href). destruct (Hout _ Href) as [Ho1 Ho2].
      rewrite Hjq. unfold staged. simpl. rewrite <-Ho1, <-Ho2. by destruct ref.
    + apply list_elem_of_lookup_2 in Hj. split_and!; [done|reflexivity|by eexists; apply Hh|]. left.
      exists j, false. split; [|done]. rewrite Hv. exact (add_jobs_in _ jobs j Hnew Hj).
Qed.

Context {HTv : Table W vhostRow} {HTk : Table W dkimKeyRow} {HC : Crypto W} {HA : ApiAuth.Store W} {HL : AuditLog.Store W}
  {HK : DKIMSigner W} {HP : NetMail} {HSha : SHA256} {HSq : StrconvQuote}.

(** A message handed to the system: the DATA of a submission session, or a
    request to the management API's message route. *)
Inductive entry :=
| OverSMTP (scfg : Smtp.Config W) (s : submissionSession) (r : res string)
| OverAPI (enc : Encryptor W) (order : gmap string string → list (string * string)) (c : Injected W)
    (a : Credentials) (acct : string) (m : SendFields).

(** It was acknowledged: the reply to DATA, the answer of the API. *)
Definition acknowledged (e : entry) (w w1 : W) : Prop :=
  match e with
  | OverSMTP scfg s r => ∃ s', Submission_Data scfg s r w = ((s', Ok tt), w1)
  | OverAPI enc order c a acct m => ∃ o, MessageController_Send enc order c a acct m w = (o, w1) ∧ succeeded o = true
  end.

(** Its sender, the vhost it is sent from, its recipients and its text, signed
    with that vhost's key. *)
Definition handed (e : entry) (from vhost : string) (rcpts : list string) (signed : string) : Prop :=
  match e with
  | OverSMTP scfg s r => from = sub_from s ∧ vhost = authVhost s ∧ rcpts = sub_rcpts s ∧ signed_for s r signed
  | OverAPI enc order c a acct m => mail_ParseAddress (sm_From m) = Ok from ∧
      rcpts = uniqueRecipients [sm_To m; sm_Cc m; sm_Bcc m] ∧
      ∃ v, vhost = vh_Domain v ∧ signed_request order m v signed
  end.

Definition entry_world (e : entry) : Prop :=
  match e with
  | OverSMTP scfg _ _ => submission_world (inv := inv) (holds := holds) (q_inv := q_inv) (q_view := q_view) scfg
  | OverAPI _ _ c _ _ _ => sending_world (inv := inv) (holds := holds) (q_inv := q_inv) (q_view := q_view) c
  end.

(** The store can tell apart the mailboxes it involves. *)
Definition entry_boxes (e : entry) : Prop :=
  match e with
  | OverSMTP _ s _ => box (authVhost s) OutboxMailbox ∧ session_sender_ok s
  | OverAPI _ _ _ _ _ _ => ∀ from vhost rcpts signed, handed e from vhost rcpts signed → box vhost OutboxMailbox ∧
      ∀ local dom, ParseAddress from = Some (local, dom) → box dom (MailboxPath local "INBOX")
  end.

Lemma acknowledged_accounted e (w w1 : W) : entry_world e → entry_boxes e → inv w → q_inv w → senders_ok w →
  acknowledged e w w1 →
  q_inv w1 ∧ senders_ok w1 ∧ queue_grows w w1 ∧ ∃ from vhost rcpts signed jobs, handed e from vhost rcpts signed ∧ NoDup (ID <$> jobs) ∧
    Forall2 (λ rcpt j, Queue.Vhost j = vhost ∧ From j = from ∧ To j = rcpt ∧
      valid (staged j) ∧ accounted w1 j signed [] w1) rcpts jobs.
Proof.
  intros Hw Hb Hi Hq Hold Hack. destruct e as [scfg s r|enc order c a acct m]; simpl in Hw, Hack.
  - destruct Hack as [s' E], Hb as [Hbo Hbs]. apply (Submission_Data_spec scfg) in E; [|done..].
    destruct E as (_ & Hi1 & Hq1 & signed & refs & jobs & Had & Hout & Hnew & Hv & Hqd & _ & Hr).
    destruct Hr as [(Hs & Hl & Hlr & _)|[(_ & _ & [?|?])|(_ & _ & e & ? & _)]]; [|done..].
    destruct (queued_accounted s (sub_rcpts s) signed refs jobs w w1) as (Hok & Hg & Hn & Hj); [done..|].
    split_and!; [done..|]. by exists (sub_from s), (authVhost s), (sub_rcpts s), signed, jobs.
  - destruct Hack as (o & E & Ho).
    apply (message_sent enc order c Hw) in E as (v & from & corr & signed & w2 & w3 & Hfrom & Hsig & K1 & Es & K2); [|done].
    set (rcpts := uniqueRecipients _) in *. destruct K1 as (Ki & Kq & Kh & Kv).
    assert (Henv : handed (OverAPI enc order c a acct m) from (vh_Domain v) rcpts signed) by by split_and!; eauto.
    destruct (Hb _ _ _ _ Henv) as [Hbo Hbs].
    apply (submit_all_spec (sd_staging _ Hw)) in Es as (Hi3 & Hq3 & refs & jobs & Had & Hout & Hnew & Hv3 & Hqd & Hr); [|auto..].
    destruct Hr as [(_ & Hl & Hlr)|[[?|?] _]]; [|done..]. destruct K2 as (Ki2 & Kq2 & Kh2 & Kv2).
    destruct (queued_accounted (as_session v from corr rcpts) rcpts signed refs jobs w w1) as (Hok & Hg & Hn & Hj); try done.
    + auto.
    + apply (added_quiet_l _ w2); [done|]. by apply (added_quiet_r _ w3).
    + by rewrite <-Kv.
    + by rewrite Kv2, Hv3, Kv.
    + split_and!; [auto|done..|]. by exists from, (vh_Domain v), rcpts, signed, jobs.
Qed.

(** C1: an accepted message is never lost silently.  Take any state that starting
    and dying processes, their workers, other submissions and the rest of the
    system have led to, and a message acknowledged there, to a submission session
    or to a caller of the management API.  Then whatever happens next, processes
    dying in mid-delivery included, and whatever the network, the resolver and
    the remote servers answer, the message as signed with the vhost's key is
    still staged and each recipient has a job of its own that is in one of these
    places: pending in the queue with the sender, recipient and body of the
    submission; acknowledged by a remote server, in one transaction with that
    sender, that recipient and exactly the signed message; given up, for a
    permanent failure or because the allowed attempts are used, with a
    notification in the sender's INBOX unless the sender has no hosted mailbox or
    the notification could not be built or written; or among the jobs whose
    process died in the window between taking the job off the queue and writing
    that notification, the only loss that leaves no trace. *)
Theorem no_silent_loss e (w0 w1 : W) f0 f :
  config_ok cfg → q_inv w0 → rtc jstep (mkFleet w0 [] []) f0 →
  entry_world e → entry_boxes e → inv (fl_world f0) → senders_ok (fl_world f0) →
  acknowledged e (fl_world f0) w1 → rtc jstep (mkFleet w1 (fl_procs f0) []) f →
  ∃ from vhost rcpts signed jobs, handed e from vhost rcpts signed ∧ NoDup (ID <$> jobs) ∧
    Forall2 (λ rcpt j, Queue.Vhost j = vhost ∧ From j = from ∧ To j = rcpt ∧
      kept (fl_world f) (addr (staged j)) signed ∧
      (pending j (fl_world f) ∨ transmitted wire from rcpt signed (fl_world f) ∨ given_up w1 j (fl_world f) ∨
       ∃ job, job ∈ fl_lost f ∧ same_mail j job)) rcpts jobs.
Proof.
  intros Hc Hq0 Hr0 Hw Hb Hi Hold Hack Hr. pose proof (jstep_fleet_ok _ _ Hc Hr0 (fleet_ok_start _ _ cfg w0 Hq0)) as (Hq & Hp & Hcl).
  destruct (acknowledged_accounted e (fl_world f0) w1 Hw Hb Hi Hq Hold Hack)
    as (Hq1 & Hok1 & Hg & from & vhost & rcpts & signed & jobs & Henv & Hn & Hj).
  exists from, vhost, rcpts, signed, jobs. split_and!; [done..|]. eapply Forall2_impl; [exact Hj|].
  intros rcpt j (Hv & Hf & Ht & Hval & Hacc).
  assert (Hf1 : fleet_ok q_inv q_view cfg [] (mkFleet w1 (fl_procs f0) [])).
  { split_and!; [done..|]. split; [apply Hcl|]. intros x Hx. by apply Hg, Hcl. }
  destruct (fleet_accounted w1 j signed w1 [] _ f Hc Hval Hok1 Hf1 Hr Hacc) as (_ & _ & Hh & Hwh).
  unfold settled in Hwh. rewrite Hf, Ht in Hwh. by split_and!.
Qed.
End Outbound.

(** ** Inbound: from a remote server to the user's session *)

Section Inbound.
Context {W A : Type} {HE : Env W} {HM : MsgAuth W} {HR : RspamdChecker W} {HD : Directory W} {HS : MessageStore W}
  {HJ : JSON} {HF : FetchWriter W} {inv : W → Prop} {addr : MessageRef → A} {norm : list string → list string}
  {box : string → string → Prop} {valid : MessageRef → Prop} {holds : W → A → string → list string → Prop}.
Context {SS : StoreSpec W A inv addr norm box valid holds}.
Context (out : W → list fetch_item).

(** The directory answers about the domain it was asked for. *)
Definition answers_domain : Prop := ∀ ctx d (w : W) v, fst (d_Vhost ctx d w) = Some v → vh_Domain v = d.

Lemma responses_at numSet o i shown n m body : shown !! n = Some (m, body) →
  numSetContains numSet (seq_num (i + n)) (seq_num (i + n)) = true →
  ∃ l1 l2, responses numSet o i shown = l1 ++ response o (i + n) m body ++ l2.
Proof.
  revert i n. induction shown as [|[m' b'] shown IH]; intros i n; [done|]. destruct n as [|n]; simpl.
  - intros [= -> ->]. rewrite Nat.add_0_r. intros ->. by eexists [], _.
  - intros Hn Hc. destruct (IH (S i) n Hn) as (l1 & l2 & ->); [by rewrite Nat.add_succ_comm|].
    rewrite Nat.add_succ_comm. eexists (_ ++ l1), l2. by rewrite <-app_assoc.
Qed.

(** A successful DATA has a copy for each recipient in the recipient's own
    mailbox. *)
Lemma data_copy (cfg : Smtp.Config W) s r (w : W) s' w1 i rcpt local dom :
  store_quiet (inv := inv) (holds := holds) cfg → session_ok (W := W) s → answers_domain → inv w →
  (∀ folder, boxes_ok (box := box) folder (zip (rcpts s) (vhosts s))) →
  Inbound_Data cfg s r w = ((s', Ok tt), w1) → rcpts s !! i = Some rcpt → ParseAddress rcpt = Some (local, dom) →
  ∃ body folder ref, readBounded r (effectiveMaxBytes cfg s) = Ok body ∧ (folder = "INBOX" ∨ folder = "Quarantine") ∧
    inv w1 ∧ valid ref ∧ rf_Vhost ref = dom ∧ rf_Mailbox ref = MailboxPath local folder ∧ box dom (rf_Mailbox ref) ∧
    holds w1 (addr ref) body [].
Proof.
  intros SQ Hok Hdom Hi Hbox E Hr Hp. pose proof (Inbound_Data_spec cfg s r w s' (Ok tt) w1 SQ Hok Hi Hbox E) as Hs.
  destruct (readBounded _ _) as [body|e]; [|by destruct Hs]. cbv zeta in Hs.
  set (v := r_Verdict _) in Hs. destruct Hs as (Hi1 & refs & (_ & Hval & _ & Hh) & Hcopy & Hres).
  destruct Hres as [(_ & _ & ?)|[(_ & _ & Hlen)|(_ & ? & _)]]; [done| |done].
  pose proof (session_ok_length s Hok) as Hl.
  destruct (lookup_lt_is_Some_2 (vhosts s) i) as [vh Hvh]; [apply lookup_lt_Some in Hr; lia|].
  destruct (lookup_lt_is_Some_2 refs i) as [ref Href]; [apply lookup_lt_Some in Hr; lia|].
  rewrite firstn_all2 in Hcopy by (rewrite length_zip_with; lia).
  assert (Hz : zip (rcpts s) (vhosts s) !! i = Some (rcpt, vh)) by (apply lookup_zip_with_Some; eauto).
  destruct (Forall2_lookup_lr _ _ _ _ _ _ Hcopy Hz Href) as (Hv & l & d & Hp' & Hm). simpl in Hp', Hv.
  rewrite Hp in Hp'. injection Hp' as <- <-.
  destruct (Forall2_lookup_lr _ _ _ _ _ _ Hok Hr Hvh) as (l & d & Hp' & _ & w' & Hd).
  rewrite Hp in Hp'. injection Hp' as <- <-. rewrite (Hdom _ _ _ _ Hd) in Hv.
  exists body, (folder_of v), ref. split_and!; [done|destruct v; auto|done| |done|done| |].
  - rewrite Forall_forall in Hval. by apply Hval, (list_elem_of_lookup_2 _ i).
  - specialize (Hbox (folder_of v)). unfold boxes_ok in Hbox. rewrite Forall_forall in Hbox.
    apply list_elem_of_lookup_2 in Hz. specialize (Hbox _ Hz local dom Hp). simpl in Hbox.
    by rewrite (Hdom _ _ _ _ Hd), <-Hm in Hbox.
  - apply Hh. left. split_and!; [|done..]. by apply list_elem_of_fmap_2, (list_elem_of_lookup_2 _ i).
Qed.

(** SELECT numbers what is held. *)
Lemma select_shows sess folder (w : W) sess' d w' ref body f :
  imap_world (inv := inv) (holds := holds) (valid := valid) (box := box) → inv w →
  box (vhost sess) (MailboxPath (local sess) folder) → valid ref →
  rf_Vhost ref = vhost sess → rf_Mailbox ref = MailboxPath (local sess) folder → holds w (addr ref) body f →
  Select sess folder w = ((sess', Ok d), w') →
  inv w' ∧ holds w' = holds w ∧ view_ok (valid := valid) sess' ∧
  ∃ n m, view sess' !! n = Some m ∧ mm_Ref m = ref ∧ mm_Flags m = f.
Proof.
  intros IW Hi Hb Hv Hrv Hrm Hh. unfold Select, bind, ret. destruct (listMailbox sess folder w) as [[l|e] w1] eqn:E; [|done].
  intros [= <- _ <-]. pose proof E as E'. apply (listMailbox_spec IW) in E as (Hi1 & Hh1 & Hl); [|done..].
  destruct (Hl l eq_refl) as [Hok (l0 & Hp & El)]. split_and!; [done..|].
  destruct (s_List Background (vhost sess) (MailboxPath (local sess) folder) w) as [rl w2] eqn:Es. simpl in El. subst rl.
  destruct (sp_List_ok _ _ _ _ _ _ Hi Hb Es) as (_ & _ & _ & Hall).
  assert (Href : ref = mkRef (vhost sess) (MailboxPath (local sess) folder) (rf_Key ref)) by (destruct ref; simpl in *; congruence).
  rewrite Href in Hv, Hh. destruct (Hall _ _ _ Hv Hh) as (x & Hx & Hxr & Hxf). rewrite <-Hp in Hx.
  apply list_elem_of_lookup in Hx as [n Hn]. exists n, x. split_and!; [done|by rewrite Hxr|done].
Qed.

(** C2: received mail reaches its recipient.  When DATA is acknowledged, then
    for each recipient of the transaction the message is in that address's
    mailbox, in INBOX or Quarantine, unflagged; and as long as it stays there,
    the user who logs in with the address, selects the folder and fetches the
    bodies of its messages is shown, under some number, the message exactly as
    the remote server sent it, with the flags it has by then. *)
Theorem received_mail_readable (cfg : Smtp.Config W) s r (w : W) s' w1 i rcpt local dom :
  store_quiet (inv := inv) (holds := holds) cfg → imap_world (inv := inv) (holds := holds) (valid := valid) (box := box) →
  writer_spec out → session_ok (W := W) s → answers_domain → inv w →
  (∀ folder, boxes_ok (box := box) folder (zip (rcpts s) (vhosts s))) →
  Inbound_Data cfg s r w = ((s', Ok tt), w1) → rcpts s !! i = Some rcpt → ParseAddress rcpt = Some (local, dom) →
  ∃ body folder ref, readBounded r (effectiveMaxBytes cfg s) = Ok body ∧ (folder = "INBOX" ∨ folder = "Quarantine") ∧
    holds w1 (addr ref) body [] ∧
    ∀ w2 f sess0 password sess1 w3 sess2 d w4 o w5,
      inv w2 → holds w2 (addr ref) body f →
      Login sess0 rcpt password w2 = ((sess1, Ok tt), w3) → Select sess1 folder w3 = ((sess2, Ok d), w4) →
      fo_BodySection o ≠ [] → Fetch sess2 (SeqSet (λ _, true)) o w4 = (Ok tt, w5) →
      ∃ n m l1 l2, view sess2 !! n = Some m ∧ mm_Ref m = ref ∧ mm_Flags m = f ∧
        out w5 = out w4 ++ l1 ++ response o n m body ++ l2.
Proof.
  intros SQ IW WR Hok Hdom Hi Hbox E Hr Hp.
  destruct (data_copy cfg s r w s' w1 i rcpt local dom SQ Hok Hdom Hi Hbox E Hr Hp)
    as (body & folder & ref & Hb & Hf & _ & Hv & Hrv & Hrm & Hbx & Hh).
  exists body, folder, ref. split_and!; [done..|]. clear w Hi E.
  intros w2 f sess0 password sess1 w3 sess2 d w4 o w5 Hi2 Hh2 EL ES Ho EF.
  unfold Login in EL. rewrite Hp in EL. unfold bind, ret in EL.
  destruct (d_Authenticate Background dom local password w2) as [ok w3'] eqn:Ea.
  destruct (iw_auth IW _ _ _ _ _ _ _ Ea) as [Hi3 Hh3]. destruct ok; [|done]. injection EL as <- <-.
  apply (select_shows _ _ _ _ _ _ ref body f) in ES as (Hi4 & Hh4 & Hvo & n & m & Hn & Hm & Hfl); simpl;
    [|done|auto|by rewrite Hrm in Hbx|done..|by rewrite Hh3].
  apply (fetch_from_spec IW out WR) in EF as (_ & _ & shown & _ & Hsb & _ & Hout); [|done|by apply view_ok_valid].
  destruct (Hout eq_refl) as [Hs Hw5]. rewrite <-Hs, list_lookup_fmap in Hn.
  destruct (shown !! n) as [[m' b]|] eqn:Esh; [|done]. simpl in Hn. injection Hn as ->.
  destruct (Hsb _ _ _ Esh) as [f' Hbf]; [done|done|]. rewrite Hm, Hh4, Hh3 in Hbf.
  destruct (sp_holds_fun _ _ _ _ _ _ Hi2 Hbf Hh2) as [-> _].
  destruct (responses_at (SeqSet (λ _, true)) o 0 shown n m body Esh) as (l1 & l2 & Hrs); [done|].
  exists n, m, l1, l2. rewrite Hw5, Hrs, <-Hs, list_lookup_fmap, Esh. by split_and!.
Qed.
End Inbound.

(** ** A deactivated vhost *)

Section Deactivated.
Context {W : Type} `{Db W, !Table W accountRow, !Table W vhostRow, !Table W mailboxRow, !Table W dkimKeyRow,
  !TableSpec W accountRow, !TableSpec W vhostRow, !TableSpec W mailboxRow, !TableSpec W dkimKeyRow, CryptoSpec W}.
Context `{!UniqueIndex W vhostRow string vr_Domain, !UniqueIndex W mailboxRow (string * string) address_of}.
Context `{!Separate W accountRow vhostRow, !Separate W accountRow mailboxRow, !Separate W accountRow dkimKeyRow,
  !Separate W vhostRow mailboxRow, !Separate W vhostRow dkimKeyRow, !Separate W mailboxRow vhostRow,
  !Separate W mailboxRow dkimKeyRow, !Separate W dkimKeyRow vhostRow, !Separate W dkimKeyRow mailboxRow}.
Context {HE : Env W} {HS : MessageStore W} {HT : ErrorText} {HF : TimeText}.
Context (good : Encryptor W → Prop) (CQ : crypto_quiet good) (db_Exec : string → M W (res unit)).

(** What the directory says of a dark domain. *)
Lemma dark_refused m domain (w : W) : integrity m w → dark domain (tbl_rows w) → ∀ enc ctx,
  (∀ v, fst (Service_Vhost enc ctx domain w) = Some v → vh_Active v = false) ∧ fst (VhostActive enc ctx domain w) = false.
Proof.
  intros Hi Hd enc ctx.
  assert (Hv : ∀ v, fst (Service_Vhost enc ctx domain w) = Some v → vh_Active v = false).
  { intros v. destruct (Service_Vhost enc ctx domain w) as [r w1] eqn:E. simpl. intros ->.
    apply Service_Vhost_inv in E as (row & w2 & w3 & Hrow & _ & Hh); [|by eapply integrity_dir_inv].
    apply hydrate_inv in Hh as [key ->]. by eapply dark_inactive. }
  split; [done|]. unfold VhostActive, bind, ret. destruct (Service_Vhost enc ctx domain w) as [[v|] w1]; [|done].
  by apply Hv.
Qed.

(** C3: deactivation is final, and what faces the outside follows at once.
    Once DeactivateVhost has succeeded, then after any further directory
    operations, with any outcome: the vhost's domain is not active; an inbound
    session answers every RCPT to an address of it with 550 and stays as it is;
    and the deliverer files no bounce to a sender there. *)
Theorem deactivated_vhost_closed ctx id (w : W) w1 m0 m w2 : (∀ s, Preserves tables (db_Exec s)) → mode_ok good m0 →
  integrity m0 w → DeactivateVhost ctx id w = (Ok tt, w1) → rtc (dstep good db_Exec) (m0, w1) (m, w2) →
  ∃ row, row ∈ tbl_rows w ∧ row_Id row = id ∧ ∀ enc, let HD := Service enc in
    (∀ ctx', fst (VhostActive enc ctx' (vr_Domain (row_data row)) w2) = false) ∧
    (∀ s to local s' r w3, ParseAddress to = Some (local, vr_Domain (row_data row)) →
       Inbound_Rcpt s to w2 = ((s', r), w3) → s' = s ∧ r = Err err_no_domain) ∧
    (∀ cfg ctx' job cause local, ParseAddress (From job) = Some (local, vr_Domain (row_data row)) →
       deliverBounce (W := W) cfg ctx' job cause w2 =
         (tt, snd (VhostActive enc ctx' (vr_Domain (row_data row)) w2))).
Proof.
  intros Hx Hm Hi E Hr. destruct (deactivation_final good CQ db_Exec ctx id w w1 m0 m w2 Hx Hm Hi E Hr) as (row & Hrow & Hid & Hi2 & Hd).
  exists row. split_and!; [done..|]. intros enc. pose proof (dark_refused m _ w2 Hi2 Hd enc) as Hdark. split_and!.
  - intros ctx'. apply Hdark.
  - intros s to local s' r w3 Hp [(-> & Hn & _)|(l & dom & Hp' & Hcase)]%Inbound_Rcpt_spec; [congruence|].
    rewrite Hp in Hp'. injection Hp' as <- <-. destruct Hcase as [(-> & -> & _)|(v & _ & Ha & Hv & _)]; [done|].
    destruct Ha as (_ & _ & _ & Hact & _). apply Hdark in Hv. congruence.
  - intros cfg ctx' job cause local Hp. destruct (Hdark ctx') as [_ Hf]. unfold deliverBounce. rewrite Hp. unfold bind. simpl.
    unfold domain_of in Hf. by destruct (VhostActive enc ctx' _ w2) as [b w3]; simpl in *; subst b.
Qed.
End Deactivated.

(** ** A run

    Postgres rows for the mail, the in-memory queue for the jobs and the log of
    the wire; one remote host, which refuses one address for good. *)
Module JourneyExample.
Import Storage.Postgres.
Record JW := mkJW {
  jw_mail : list (Row messageRow);
  jw_jobs : MemoryBackend Job;
  jw_wire : list (string * Wire.command);
  jw_out : list fetch_item;
}.
#[export] Program Instance has_mail : Has JW (list (Row messageRow)) := { getS := jw_mail; setS l w := mkJW l (jw_jobs w) (jw_wire w) (jw_out w) }.
Solve Obligations with done.
#[export] Program Instance has_jobs : Has JW (MemoryBackend Job) := { getS := jw_jobs; setS q w := mkJW (jw_mail w) q (jw_wire w) (jw_out w) }.
Solve Obligations with done.
#[export] Instance message_conflicts : ListTable.Conflicts messageRow := λ _ _, false.
#[export] Instance env : Env JW := { env_metrics := unread;
  now := ret 100;
  uuid_NewString w := (fresh ({[""]} ∪ dom (jobs (jw_jobs w))), w);
}.
#[export] Instance text : ErrorText := λ _, "error".
#[export] Instance times : TimeText := λ _, "today".
#[export] Instance json : JSON := { json_data _ := Ok "{}"; json_envelope _ := Ok "{}" }.
#[export] Instance rand : Rand JW := λ _, ret 0.
#[export] Instance rand_spec : RandSpec JW.
Proof. intros n w Hn. simpl. lia. Qed.
#[export] Instance auth : MsgAuth JW := {
  Filter.Resolver := unit;
  spf_CheckHostWithSender _ _ _ _ _ := ret (SPFNone, None);
  dkim_Verify _ _ _ := ret (Ok []);
  dmarc_Lookup _ _ _ := ret (Err (Sentinel ErrNoPolicy));
  EffectiveTLDPlusOne d := Ok d;
  mail_From _ := None;
}.
Definition va : Vhost := mkVhost "v1" "acc" "a.test" true "envelope" (Some "key") (mkPolicy 0 10 F1 F1 0).
#[export] Instance directory : Directory JW := {
  d_Vhost _ d := ret (if String.eqb d "a.test" then Some va else None);
  d_VhostActive _ d := ret (String.eqb d "a.test");
  d_Authenticate _ v l p := ret (String.eqb v "a.test" && String.eqb l "alice" && String.eqb p "pw");
}.
#[export] Instance hooks : Enqueuer JW := λ _ _ _ _, ret (Ok tt).
#[export] Instance store : MessageStore JW := Backend.
#[export] Instance store_spec : @StoreSpec JW MessageRef store pinv id (λ fl, decodeFlags (encodeFlags fl))
  (λ _ _, True) (λ _, True) pholds.
Proof. apply postgres_store_spec. Qed.
Definition order (m : gmap string Job) : list (string * Job) := map_to_list m.
#[export] Instance queue : QueueBackend JW Job := MemoryQueue order.
#[export] Instance queue_spec : QueueSpec JW Job (memq_inv (J := Job)) (memq_view (J := Job)).
Proof. apply memq_spec; [done|by intros w]. Qed.
#[export] Instance queue_count : QueueCounter JW := MemoryCounter (J := Job).
#[export] Instance queue_count_spec : CounterSpec JW (memq_inv (J := Job)) (memq_view (J := Job)).
Proof. apply memq_count. Qed.
#[export] Instance signer : DKIMSigner JW := λ d _ _ b, ret (Ok ("DKIM-Signature: d=" +:+ d +:+ ";" +:+ b)).
#[export] Instance resolver : Deliverer.Resolver JW := λ _ d,
  ret (if String.eqb d "b.test" then Ok [mkMX "mx.b.test." 10] else Err (DNSError true)).
Definition say (c : string) (x : Wire.command) : M JW (res unit) :=
  λ w, (Ok tt, mkJW (jw_mail w) (jw_jobs w) (jw_wire w ++ [(c, x)]) (jw_out w)).
#[export] Instance net : Net JW := {|
  Conn := string; Client := string;
  DialContext _ a := ret (Ok a);
  NewClientStartTLS _ _ := ret (Err (ErrNew "no tls"));
  NewClient c := c;
  cl_Hello _ _ := ret (Ok tt);
  cl_Mail c f := say c (EMail f);
  cl_Rcpt c a := if String.eqb a "gone@b.test" then ret (Err (SMTPError 550 (5, 1, 1) "no such user")) else say c (ERcpt a);
  cl_Data c := say c EData;
  wc_Write c b := say c (EBody b);
  wc_Close c := say c EEnd;
  cl_Quit _ := ret (Ok tt);
  cl_Close _ := ret (Ok tt);
|}.
#[export] Instance scanner : RspamdChecker JW := λ _ _ _ _, ret (Ok (rspamd.mkVerdict "no action" F0 F1 ∅)).
Definition put {B} (x : B) (item : fetch_item) : M JW B :=
  λ w, (x, mkJW (jw_mail w) (jw_jobs w) (jw_wire w) (jw_out w ++ [item])).
#[export] Instance writer : FetchWriter JW := {
  fw_CreateMessage n := put tt (IMessage n); fw_WriteUID n := put tt (IUID n); fw_WriteFlags fl := put tt (IFlags fl);
  fw_WriteRFC822Size n := put tt (ISize n); fw_WriteBodySection sec b := put (Ok tt) (IBody sec b);
  fw_Close := put (Ok tt) IEnd;
}.
Definition limiter : RateLimiter JW := λ _ _ _ _, ret (Ok true).
Definition scfg : Smtp.Config JW := Smtp.mkConfig JW _ ModeSubmission "" ":587" "mx.a.test" true false 0 (mkPipeline None)
  (Some limiter) F1 F1 F1 F1 (Some limiter) (Some hooks).
Definition icfg : Smtp.Config JW := Smtp.mkConfig JW _ ModeInbound "" ":25" "mx.a.test" false false 0 (mkPipeline None)
  (Some limiter) F1 F1 F1 F1 (Some limiter) (Some hooks).
Definition cfg : Deliverer.Config := withDefaults (Deliverer.mkConfig true "mx.a.test" 0 0 0 0 0 0 0 0).
Definition empty : JW := mkJW [] NewMemoryBackend [] [].
Definition submission : submissionSession :=
  mkSubmission "alice" "a.test" "alice@a.test" ["bob@b.test"; "gone@b.test"] "corr".
Definition accepted : JW := snd (Submission_Data scfg submission (Ok "hi") empty).

(** The rows the API reads, which nothing here writes. *)
Definition fixed {D} (l : list (Row D)) : Table JW D := {|
  tbl_Create _ _ := ret (Err (ErrNew "read only"));
  tbl_First _ p _ := ret (match List.find p l with Some r => Ok r | None => Err (Sentinel "gorm.ErrRecordNotFound") end);
  tbl_Find _ q := ret (Ok (filter (λ r, q_where q r = true) l));
  tbl_Updates _ _ _ := ret (Err (ErrNew "read only"));
  tbl_Delete _ _ := ret (Err (ErrNew "read only"));
|}.
#[export] Instance vhosts_table : Table JW vhostRow := fixed [mkRow "v1" None (mkVhostRow "acc" "a.test" true (mkPolicy 0 10 F1 F1 5))].
#[export] Instance keys_table : Table JW dkimKeyRow := fixed [mkRow "d1" None (mkDkimKeyRow "v1" "envelope" (Base64.EncodeToString "K") true)].
#[export] Instance tokens : ApiAuth.Store JW := {
  ts_CreateToken _ _ _ _ _ := ret (Err (ErrNew "read only"));
  ts_Authenticate _ _ := ret (Ok None);
  ts_ListTokens _ _ := ret (Ok []);
  ts_ListTokensPage _ _ _ _ := ret (Ok []);
  ts_RevokeToken _ _ _ := ret (Err (ErrNew "read only"));
}.
#[export] Instance auditing : AuditLog.Store JW := {
  au_Record _ _ := ret (Ok tt); au_List _ _ := ret (Ok []); au_ListPage _ _ _ _ := ret (Ok []);
}.
#[export] Instance keys : Crypto JW := {
  rsa_GenerateKey := ret (Ok "K"); x509_ParsePKCS1 b := Ok b; pem_Encode t b := b; pem_Decode s := Some s;
  bcrypt_Generate p := ret (Ok p); bcrypt_Compare h p := String.eqb h p;
}.
#[export] Instance sha : SHA256 := λ s, s.
#[export] Instance addresses : NetMail := λ s, Ok s.
#[export] Instance quoting : StrconvQuote := λ s, s.
Definition plain : Encryptor JW := mkEncryptor (λ p, ret (Ok p)) (λ s, Ok s).
Definition api : Injected JW :=
  mkInjected JW (Some "root") (Some (mkRateLimitPolicy JW (Some limiter) F1 F1)) None (Some (Some limiter)) (Some hooks).
Definition operator : Credentials := mkCredentials "Bearer root" "192.0.2.1".
Definition letter : SendFields := mkSendFields "alice@a.test" ["bob@b.test"] ["gone@b.test"; "bob@b.test"] [] "hi" "text" "" [] ∅.
Definition headers (m : gmap string string) : list (string * string) := map_to_list m.
Definition over_smtp : entry := OverSMTP scfg submission (Ok "hi").
Definition over_api : entry := OverAPI plain headers api operator "acc" letter.
Definition requested : JW := snd (MessageController_Send plain headers api operator "acc" letter empty).

Lemma same_along (R : JW → JW → Prop) {B} (m : M JW B) : Reflexive R → (∀ w, snd (m w) = w) → along R m.
Proof. intros HR H w b w' E. specialize (H w). rewrite E in H. simpl in H. by subst. Qed.

Lemma still_quiet {B X} (i : JW → Prop) (view : JW → X) (m : M JW B) : (∀ w, snd (m w) = w) → quiet i view m.
Proof. intros H w b w' E. specialize (H w). rewrite E in H. simpl in H. by subst. Qed.

(** A call that leaves the mail alone and may have appended to the log. *)
Lemma mail_kept (w w' : JW) : jw_mail w' = jw_mail w → grows jw_wire w w' → keeps (inv := pinv) (holds := pholds) jw_wire w w'.
Proof.
  intros Hm Hg. split; [|done]. unfold kept, pinv, pholds, tbl_rows. simpl. rewrite Hm. auto.
Qed.

Lemma lift_mail {B} (m : M (list (Row messageRow)) B) w b w' : lift m w = (b, w') →
  jw_jobs w' = jw_jobs w ∧ jw_wire w' = jw_wire w.
Proof. unfold lift. destruct (m (getS w)). by intros [= _ <-]. Qed.

Lemma lift_jobs {B} (m : M (MemoryBackend Job) B) w b w' : lift m w = (b, w') →
  jw_mail w' = jw_mail w ∧ jw_wire w' = jw_wire w.
Proof. unfold lift. destruct (m (getS w)). by intros [= _ <-]. Qed.

Lemma write_elsewhere ctx v m b w r w' : s_Write ctx v m b w = (r, w') → jw_jobs w' = jw_jobs w ∧ jw_wire w' = jw_wire w.
Proof.
  simpl. unfold Write. destruct b; [|by intros [= _ <-]]. unfold mtry, wrap. simpl.
  destruct (lift _ w) as [[] w1] eqn:E; apply lift_mail in E; by intros [= _ <-].
Qed.

Lemma read_still ctx ref w : snd (s_Read ctx ref w) = w.
Proof.
  simpl. unfold Read, find, mtry, wrap. simpl. unfold lift, ListTable.First.
  destruct (sort_by _ _); simpl; by destruct w.
Qed.

Lemma same_wire (w w' : JW) : jw_wire w' = jw_wire w → grows jw_wire w w'.
Proof. intros H. exists []. by rewrite app_nil_r. Qed.

Lemma queue_keeps {B} (m : M (MemoryBackend Job) B) : along (keeps (inv := pinv) (holds := pholds) jw_wire) (lift m).
Proof. intros w r w' [Hm Hw]%lift_jobs. apply mail_kept; [done|]. by apply same_wire. Qed.

Lemma say_keeps c x : along (keeps (inv := pinv) (holds := pholds) jw_wire) (say c x).
Proof. intros w r w' [= _ <-]. apply mail_kept; [done|]. by eexists. Qed.

Lemma wire_spec : WireSpec jw_wire.
Proof.
  split; intros; try (by match goal with H : _ = _ |- _ => injection H as <- end);
    try (intros w0 r w0' [= _ <-]; by eexists); try (apply same_along; [apply _|done]).
  - simpl in *. destruct (String.eqb t _); [done|]. by injection H as <-.
  - simpl. case_match; [apply same_along; [apply _|done]|]. intros w0 r w0' [= _ <-]. by eexists.
Qed.

Lemma queue_bystanders : Deliverer.quiet_world (W := JW) (memq_inv (J := Job)) (memq_view (J := Job)).
Proof.
  split; intros; try (apply still_quiet; done); try (apply still_quiet, read_still); try (by intros w0 x w0' [= _ <-]).
  - simpl. case_match; [by apply still_quiet|by intros w0 r w0' [= _ <-]].
  - intros w0 x w0' [Hj _]%write_elsewhere. unfold memq_inv, memq_view. simpl. by rewrite Hj.
Qed.

Lemma outbound : outbound_world (HW := hooks) (inv := pinv) (holds := pholds)
  (q_inv := memq_inv (J := Job)) (q_view := memq_view (J := Job)) jw_wire.
Proof.
  split; intros; try apply queue_bystanders; try apply wire_spec; try apply queue_keeps; try apply say_keeps; try done;
    try (apply same_along; [apply _|done]); try (apply same_along; [apply _|apply read_still]).
  - simpl. destruct (String.eqb s _); [by apply same_along; [apply _|]|apply say_keeps].
  - simpl. unfold guard_ctx. destruct (ctx_Err ctx); [by apply same_along; [apply _|]|].
    apply along_bind; [apply _|by apply same_along; [apply _|]|intros t; apply queue_keeps].
  - intros w0 r w0' [_ Hw]%write_elsewhere. by apply same_wire.
Qed.

Lemma journey_staging : staging_world (inv := pinv) (holds := pholds) (q_inv := memq_inv (J := Job)) (q_view := memq_view (J := Job)).
Proof.
  split; intros; try (by split; apply still_quiet).
  - intros w x w' [Hj _]%write_elsewhere. unfold memq_inv, memq_view. simpl. by rewrite Hj.
  - intros w x w' [Hm _]%lift_jobs. unfold pinv, pholds, tbl_rows. simpl. by rewrite Hm.
  - match goal with H : uuid_NewString _ = _ |- _ => injection H as <- <- end.
    unfold memq_view. rewrite mem_view_lookup.
    assert (Hd : fresh ({[""]} ∪ dom (jobs (jw_jobs w))) ∉ dom (jobs (jw_jobs w))).
    { pose proof (is_fresh ({[""]} ∪ dom (jobs (jw_jobs w)))). set_solver. }
    apply not_elem_of_dom in Hd. simpl. by rewrite Hd.
Qed.

Lemma submitting : submission_world (inv := pinv) (holds := pholds) (q_inv := memq_inv (J := Job))
  (q_view := memq_view (J := Job)) scfg.
Proof.
  split; [apply journey_staging|..]; intros; try match goal with H : _ scfg = Some _ |- _ => injection H as <- end;
    by split; apply still_quiet.
Qed.

Lemma requesting : sending_world (inv := pinv) (holds := pholds) (q_inv := memq_inv (J := Job))
  (q_view := memq_view (J := Job)) api.
Proof.
  split; [apply journey_staging|..]; intros; repeat match goal with H : _ = Some _ |- _ => injection H as <- end;
    by split; apply still_quiet.
Qed.

Lemma workers_ok : config_ok cfg.
Proof. vm_compute. intuition congruence. Qed.

(** One turn of the loop for an idle pool: claim, take the slot, deliver. *)
Definition turn (p : pool JW) : pool JW :=
  match q_Dequeue (J := Job) Background (pl_world p) with
  | (Ok (Some job), w) =>
      let domain := destinationDomain (To job) in
      match try_acquire (open_sem (pl_sems p) domain) domain with
      | Some d => mkPool (snd (handle cfg Background job w)) (release d domain) []
      | None => p
      end
  | (_, _) => p
  end.

(** The same, cut between taking the job off the queue and the bounce. *)
Definition crash (p : pool JW) : fleet JW :=
  match q_Dequeue (J := Job) Background (pl_world p) with
  | (Ok (Some job), w) =>
      let '(b, w') := handle_until cfg AtBounce Background job w in mkFleet w' [] (if b then [job] else [])
  | (_, _) => mkFleet (pl_world p) [] []
  end.

Definition alone (p : pool JW) : fleet JW := mkFleet (pl_world p) [mkProc (pl_sems p) (pl_workers p)] [].

Notation jstep := (fstep (W := JW) (H3 := hooks) cfg
  (submittable (box := λ _ _, True) (q_view := memq_view (J := Job)))
  (elsewhere (inv := pinv) (holds := pholds) (q_inv := memq_inv (J := Job)) (q_view := memq_view (J := Job)) jw_wire)).

Lemma one_process adm others p p' : rstep (W := JW) (H3 := hooks) adm cfg p p' → fstep (H3 := hooks) cfg adm others (alone p) (alone p').
Proof. destruct p as [w d ws], p' as [w' d' ws']. exact (fleet_run cfg adm others w w' [] [] d d' ws ws' []). Qed.

Lemma turn_steps p : pl_workers p = [] → pl_workers (turn p) = [] ∧ rtc jstep (alone p) (alone (turn p)).
Proof.
  destruct p as [w d ws]. simpl. intros ->. unfold turn. simpl pl_world. simpl pl_sems.
  destruct (q_Dequeue Background w) as [[[job|]|e] w1] eqn:E; [|by split..].
  destruct (try_acquire _ _) as [d'|] eqn:Ea; [|by split]. split; [done|].
  eapply rtc_l; [apply one_process; by eapply run_claim|].
  eapply rtc_l; [apply one_process; exact (run_acquire _ cfg _ _ _ [] [] _ _ Ea)|].
  apply rtc_once, one_process. apply (run_handle _ cfg Background _ _ [] []).
Qed.

Lemma crash_steps p : pl_workers p = [] → is_Some (try_acquire (open_sem (pl_sems p) "b.test") "b.test") →
  (∀ job w, q_Dequeue (J := Job) Background (pl_world p) = (Ok (Some job), w) → destinationDomain (To job) = "b.test") →
  rtc jstep (alone p) (crash p).
Proof.
  destruct p as [w d ws]. simpl. intros -> [d' Ha] Hd. unfold crash. simpl pl_world.
  destruct (q_Dequeue Background w) as [[[job|]|e] w1] eqn:E.
  2-3: apply rtc_once, (fleet_die cfg _ _ w w [] d [] [] []); constructor.
  specialize (Hd job w1 E). rewrite <-Hd in Ha. destruct (handle_until cfg AtBounce Background job w1) as [b w2] eqn:Eu.
  eapply rtc_l; [apply one_process; by eapply run_claim|].
  eapply rtc_l; [apply one_process; exact (run_acquire _ cfg _ _ _ [] [] _ _ Ha)|]. apply rtc_once.
  pose proof (dying_cut cfg AtBounce Background w1 w2 job (destinationDomain (To job)) b [] [] w2 Eu (dying_done _ _)) as Hdie.
  pose proof (fleet_die cfg (submittable (box := λ _ _, True) (q_view := memq_view (J := Job))) (elsewhere (inv := pinv) (holds := pholds) (q_inv := memq_inv (J := Job)) (q_view := memq_view (J := Job)) jw_wire) _ _ [] d' _ [] _ [] Hdie) as Hs.
  destruct b; exact Hs.
Qed.

Lemma receiving : store_quiet (inv := pinv) (holds := pholds) icfg.
Proof. split; intros; try match goal with H : _ icfg = Some _ |- _ => injection H as <- end; by apply still_quiet. Qed.

Lemma reading : imap_world (inv := pinv) (holds := pholds) (valid := λ _, True) (box := λ _ _, True).
Proof.
  split; intros; try (by apply still_quiet); try (apply still_quiet, read_still); try (by intros w0 x w0' [= _ <-]).
  by apply Forall_true.
Qed.

Lemma showing : writer_spec jw_out.
Proof.
  split; intros; try done; try (by match goal with H : _ = _ |- _ => injection H as <- end); try by eexists.
  by rewrite read_still.
Qed.

#[export] Instance nettext : NetText := { SplitHostPort _ := None; ParseIP _ := None }.
Definition incoming : inboundSession :=
  fst (inbound_run icfg (NewInboundSession (TCPAddr (Some "192.0.2.1")) "helo") [IMail "joe@x.test"; IRcpt "alice@a.test"] empty).
Definition received : JW := snd (Inbound_Data icfg incoming (Ok "hello") empty).
Lemma received_inv : pinv received.
Proof. vm_compute. apply NoDup_singleton. Qed.

Definition bodies : FetchOptions := mkFetchOptions false true false [""].
Definition logged_in : Imap.session := mkSession "alice" "a.test" "" [].
Definition selected : session := fst (fst (Select logged_in "INBOX" received)).
End JourneyExample.

Import JourneyExample.


(** A process that has started, two turns of its loop after an acknowledgement,
    and what they leave; or a crash in the first turn. *)
Definition started (w : JW) : fleet JW := alone (mkPool w (newDomainSemaphores 5) []).
Definition after (w : JW) : fleet JW := alone (turn (turn (mkPool w (newDomainSemaphores 5) []))).
Definition crashed (w : JW) : fleet JW := crash (mkPool w (newDomainSemaphores 5) []).
Definition staged_copies (w : JW) (signed : string) (jobs : list Job) : Prop := NoDup (ID <$> jobs) ∧
  Forall2 (λ rcpt j, To j = rcpt ∧ ∃ f, Postgres.pholds w (staged j) signed f) ["bob@b.test"; "gone@b.test"] jobs.

Lemma started_steps : rtc jstep (mkFleet empty [] []) (started empty).
Proof. apply rtc_once. exact (fleet_start cfg _ _ empty [] []). Qed.

Lemma after_steps w : rtc jstep (started w) (after w).
Proof.
  destruct (turn_steps (mkPool w (newDomainSemaphores 5) []) eq_refl) as [He H1].
  etransitivity; [exact H1|]. by apply turn_steps.
Qed.

Lemma crashed_steps : rtc jstep (started accepted) (crashed accepted).
Proof.
  apply crash_steps; [done|by vm_compute; eexists|].
  intros job w E. vm_compute in E. injection E as <- <-. by vm_compute.
Qed.

(** Both recipients, one after the other: one is refused for good and alice is
    told, the other's message is transmitted.  First by SMTP, then by the API,
    where one recipient is named twice.  Last by SMTP again, with the process
    dying before it can tell alice. *)
Lemma no_silent_loss_witness :
  let p := fl_world (after accepted) in let p' := fl_world (after requested) in let c := crashed accepted in
  (q_Dequeue (J := Job) Background p = (Ok None, p) ∧
   (λ r, (Postgres.ms_Vhost (row_data r), Postgres.ms_Mailbox (row_data r))) <$> jw_mail p =
     [("a.test", "alice/INBOX"); ("a.test", "Outbox"); ("a.test", "Outbox")] ∧
   jw_wire p = ("mx.b.test:25", EMail "alice@a.test") ::
     transaction "mx.b.test:25" "alice@a.test" "bob@b.test" "DKIM-Signature: d=a.test;hi" ∧
   ∃ signed jobs, staged_copies p signed jobs) ∧
  (q_Dequeue (J := Job) Background p' = (Ok None, p') ∧
   ∃ v signed jobs, signed_request (W := JW) headers letter v signed ∧ staged_copies p' signed jobs) ∧
  To <$> fl_lost c = ["gone@b.test"] ∧ length (jw_mail (fl_world c)) = 2%nat ∧
  ∃ signed jobs, staged_copies (fl_world c) signed jobs.
Proof.
  intros p p' c. split; [|split; [|split; [|split]]].
  3-4: by vm_compute.
  - split; [by vm_compute|]. split; [by vm_compute|]. split; [by vm_compute|].
    destruct (no_silent_loss (HW := hooks) (HN := net) jw_wire outbound cfg over_smtp empty accepted (started empty) (after accepted)
      workers_ok ltac:(apply mem_wf_new) started_steps submitting)
      as (from & vhost & rcpts & signed & jobs & (_ & _ & -> & _) & Hn & Hj).
    + done.
    + constructor.
    + done.
    + exists submission. by vm_compute.
    + apply after_steps.
    + exists signed, jobs. split; [done|]. eapply Forall2_impl; [exact Hj|]. by intros rcpt j (_ & _ & Ht & Hh & _).
  - split; [by vm_compute|]. destruct (no_silent_loss (HW := hooks) (HN := net) jw_wire outbound cfg over_api empty requested (started empty) (after requested)
      workers_ok ltac:(apply mem_wf_new) started_steps requesting)
      as (from & vhost & rcpts & signed & jobs & (_ & -> & v & _ & Hs) & Hn & Hj).
    + done.
    + constructor.
    + done.
    + eexists. by vm_compute.
    + apply after_steps.
    + exists v, signed, jobs. split; [done|]. split; [done|]. eapply Forall2_impl; [exact Hj|]. by intros rcpt j (_ & _ & Ht & Hh & _).
  - destruct (no_silent_loss (HW := hooks) (HN := net) jw_wire outbound cfg over_smtp empty accepted (started empty) c
      workers_ok ltac:(apply mem_wf_new) started_steps submitting)
      as (from & vhost & rcpts & signed & jobs & (_ & _ & -> & _) & Hn & Hj).
    + done.
    + constructor.
    + done.
    + exists submission. by vm_compute.
    + apply crashed_steps.
    + exists signed, jobs. split; [done|]. eapply Forall2_impl; [exact Hj|]. by intros rcpt j (_ & _ & Ht & Hh & _).
Defined.

(** Joe's mail reaches alice; her client is shown it, and the folder is INBOX. *)
Lemma received_mail_readable_witness :
  let w5 := snd (Fetch selected (SeqSet (λ _, true)) bodies received) in
  jw_out w5 = [IMessage 1; IFlags []; IBody "" "hello"; IEnd] ∧
  ∃ body folder ref, body = "hello" ∧ Storage.Postgres.pholds received ref body [] ∧
    (folder = "INBOX" → ∃ n m l1 l2, view selected !! n = Some m ∧ mm_Ref m = ref ∧ jw_out w5 = l1 ++ response bodies n m body ++ l2).
Proof.
  intros w5. split; [by vm_compute|].
  destruct (received_mail_readable (SS := store_spec) jw_out icfg incoming (Ok "hello") empty incoming received
    0 "alice@a.test" "alice" "a.test" receiving reading showing) as (body & folder & ref & Hb & _ & Hh & Hread).
  - repeat constructor. eexists _, _. split_and!; [by vm_compute|done|]. exists empty. by vm_compute.
  - intros ctx d w v. simpl. destruct (String.eqb_spec d "a.test"); [|done]. intros [= <-]. done.
  - constructor.
  - intros folder. by apply Forall_true.
  - by vm_compute.
  - by vm_compute.
  - by vm_compute.
  - exists body, folder, ref. assert (body = "hello") as -> by (vm_compute in Hb; congruence). split_and!; [done..|]. intros ->.
    destruct (Hread received [] NewSession "pw" logged_in received selected (mkSelectData allFlags allFlags 1 2 1) received bodies w5)
      as (n & m & l1 & l2 & Hn & Hm & _ & Ho); [|done|by vm_compute|by vm_compute|done|by vm_compute|].
    + apply received_inv.
    + exists n, m, l1, l2. split_and!; [done..|]. rewrite Ho.
      by assert (jw_out received = []) as -> by by vm_compute.
Defined.

(** ** A deactivation, in the world of [DirExample] *)
Module DeactivationExample.
Import DirExample IntegrityExample.
Definition off : DirW := snd (DeactivateVhost Background "v1" world).
Definition later : DirW := snd (CreateVhost old Background "acc" "a.test" off).
Definition caller : inboundSession := NewInboundSession (TCPAddr (Some "192.0.2.1")) "helo".
#[export] Instance dir_env : Env DirW := { env_metrics := unread; now := ret 0; uuid_NewString := ret "u" }.
#[export] Instance dir_store : MessageStore DirW := {
  s_Write _ v m _ := ret (Ok (mkRef v m "k"));
  s_Read _ _ := ret (Ok "body");
  s_List _ _ _ := ret (Ok []);
  s_ListVhost _ _ := ret (Ok []);
  s_UpdateFlags _ _ _ := ret (Ok tt);
  s_Delete _ _ := ret (Ok tt);
}.
End DeactivationExample.
Import DirExample IntegrityExample DeactivationExample.

(** Not even creating the domain again opens it: the attempt fails. *)
Lemma deactivated_vhost_closed_witness :
  let HD := Service old in
  snd (fst (Inbound_Rcpt caller "alice@a.test" world)) = Ok tt ∧
  is_Ok (fst (CreateVhost old Background "acc" "a.test" off)) = false ∧
  snd (fst (Inbound_Rcpt caller "alice@a.test" later)) = Err err_no_domain.
Proof.
  intros HD. split; [by vm_compute|]. split; [by vm_compute|].
  destruct (deactivated_vhost_closed good quiet (λ _, ret (Ok tt)) Background "v1" world off (Rotating old new) (Rotating old new) later)
    as (row & Hrow & Hid & Hclosed).
  - by intros s w.
  - split; [intros e [->| ->]; [by left|by right]|]. intros o n [= <- <-]. apply old_new.
  - apply world_integrity.
  - by vm_compute.
  - apply rtc_once. apply (ds_vhost _ _ (Rotating old new) old Background "acc" "a.test"). by left.
  - destruct (Hclosed old) as (_ & Hrcpt & _).
    assert (vr_Domain (row_data row) = "a.test") as Hdom.
    { apply elem_of_cons in Hrow as [->|[->|Hn%elem_of_nil]%elem_of_cons]; [done|by vm_compute in Hid|done]. }
    rewrite Hdom in Hrcpt. destruct (Inbound_Rcpt caller "alice@a.test" later) as [[s' r] w3] eqn:E.
    by apply (Hrcpt caller "alice@a.test" "alice" s' r w3 eq_refl) in E as [_ ->].
Defined.
