(* ===== verification/Process.v ===== *)
(** * The process (cmd/envelope/main.go, internal/db, internal/storage/migrations)

    What one binary becomes under a given environment and [--roles]: its roles,
    its database connections, the instances it starts and what backs each of
    them, and the master-key rotation mode.  [getenv] is the environment, gorm's
    Open and AutoMigrate, x509 and certmagic are parameters.  An
    [Instance] records an instance's configuration; [Direct] is a value built on
    the process's own connection, [Remote] a client of the internal API. *)

From stdpp Require Import gmap pretty.
From S2P Require Import Prelude Float64 Table Kms Directory Certificates Webhook ApiAuth Deliverer Retention.

(** ** Roles and flags *)

Definition roleAPI : string := "api".
Definition roleSMTPInbound : string := "smtp-inbound".
Definition roleSMTPSubmission : string := "smtp-submission".
Definition roleIMAP : string := "imap".
Definition roleDeliverer : string := "deliverer".
Definition allRoles : list string := [roleAPI; roleSMTPInbound; roleSMTPSubmission; roleIMAP; roleDeliverer].

Definition isKnownRole (r : string) : bool := existsb (String.eqb r) allRoles.

(** The loop over the comma-separated pieces. *)
Fixpoint parse_pieces (l : list string) (selected : gset string) : res (gset string) :=
  match l with
  | [] => Ok selected
  | r :: l =>
      let r := TrimSpace r in
      if String.eqb r "" then parse_pieces l selected
      else if negb (isKnownRole r) then Err (Errorf "unknown role %q (valid: %s)" [r; Join allRoles ", "])
      else parse_pieces l ({[r]} ∪ selected)
  end.

Definition parseRoles (csv : string) : res (gset string) :=
  match parse_pieces (SplitByte csv ","%char) ∅ with
  | Err e => Err e
  | Ok selected => if bool_decide (selected = ∅) then Err (ErrNew "--roles selected no roles") else Ok selected
  end.

Definition dbRoleForProcess (selected : gset string) : string :=
  match elements selected with [role] => role | _ => "" end.

(** ** The environment *)

Definition digit_of (c : ascii) : option Z :=
  let n := Z.of_N (Ascii.N_of_ascii c) in if (48 <=? n) && (n <=? 57) then Some (n - 48) else None.

Fixpoint parse_digits (s : string) (acc : Z) : option Z :=
  match s with
  | EmptyString => Some acc
  | String c s => d ← digit_of c; parse_digits s (acc * 10 + d)
  end.

(** [strconv.Atoi]: an optional sign, digits, the range of a 64-bit int. *)
Definition Atoi (s : string) : option Z :=
  let '(neg, digits) :=
    match s with
    | String "-" t => (true, t)
    | String "+" t => (false, t)
    | _ => (false, s)
    end in
  if String.eqb digits "" then None
  else
    n ← parse_digits digits 0;
    let n := if neg : bool then - n else n in
    if (- 2 ^ 63 <=? n) && (n <=? 2 ^ 63 - 1) then Some n else None.

(** [time.Duration(n) * time.Hour], in 64 bits. *)
Definition hours (n : Z) : Duration := (n * Hour + 2 ^ 63) mod 2 ^ 64 - 2 ^ 63.

(** [strconv.ParseFloat]; [None] is its error. *)
Class ParseFloat := strconv_ParseFloat : string → option float64.

Section Env.
Context (getenv : string → string) {PF : ParseFloat}.

(** [addrFromEnv] and internal/db's [envOrDefault]. *)
Definition addrFromEnv (key dflt : string) : string :=
  if negb (String.eqb (getenv key) "") then getenv key else dflt.

Definition floatEnv (key : string) (dflt : float64) : float64 :=
  if String.eqb (getenv key) "" then dflt else default dflt (strconv_ParseFloat (getenv key)).

Definition intEnv (key : string) (dflt : Z) : Z :=
  if String.eqb (getenv key) "" then dflt else default dflt (Atoi (getenv key)).

(** A role's suffix of a variable name. *)
Definition env_role (role : string) : string := ToUpper (replace_byte "-" "_" role).

Definition internalAPITokenEnvVar (role : string) : string := "ENVELOPE_INTERNAL_TOKEN_" +:+ env_role role.
Definition internalAPITokenFor (role : string) : string := getenv (internalAPITokenEnvVar role).

Definition internalAPITokens : gmap string string :=
  foldl (λ tokens role, let t := internalAPITokenFor role in
           if negb (String.eqb t "") then <[t := role]> tokens else tokens)
    ∅ [roleSMTPInbound; roleSMTPSubmission; roleIMAP].

Definition internalAPIActivated (selected : gset string) (role : string) : bool :=
  String.eqb (dbRoleForProcess selected) role && negb (String.eqb (internalAPITokenFor role) "").

Definition internalAPIURL : string := addrFromEnv "ENVELOPE_INTERNAL_API_URL" "http://127.0.0.1:8081".
Definition internalAPIAddr : string := addrFromEnv "ENVELOPE_INTERNAL_API_ADDR" ":8081".
Definition rspamdURLFromEnv : string := addrFromEnv "ENVELOPE_RSPAMD_URL" "http://localhost:11333".

(** ** Data source names (internal/db/db.go) *)

Definition buildDSN (user password : string) : string :=
  "host=" +:+ addrFromEnv "ENVELOPE_DB_HOST" "127.0.0.1" +:+
  " port=" +:+ addrFromEnv "ENVELOPE_DB_PORT" "5432" +:+
  " user=" +:+ user +:+ " password=" +:+ password +:+
  " dbname=" +:+ addrFromEnv "ENVELOPE_DB_NAME" "envelope" +:+
  " sslmode=" +:+ addrFromEnv "ENVELOPE_DB_SSLMODE" "disable".

Definition DSNFromEnv : string :=
  if negb (String.eqb (getenv "ENVELOPE_DB_DSN") "") then getenv "ENVELOPE_DB_DSN"
  else buildDSN (addrFromEnv "ENVELOPE_DB_USER" "envelope") (addrFromEnv "ENVELOPE_DB_PASSWORD" "envelope").

Definition DSNForRole (role : string) : string :=
  if negb (String.eqb (getenv "ENVELOPE_DB_DSN") "") then getenv "ENVELOPE_DB_DSN"
  else
    let user := getenv ("ENVELOPE_DB_USER_" +:+ env_role role) in
    let password := getenv ("ENVELOPE_DB_PASSWORD_" +:+ env_role role) in
    if String.eqb user "" || String.eqb password "" then DSNFromEnv else buildDSN user password.
End Env.

(** ** Migrations (internal/storage/migrations) *)

Section Migrations.
Context {W : Type} `{Db W, Table W accountRow, Table W vhostRow}.
Context (AutoMigrate : list string → M W (res unit)) (db_Exec : string → M W (res unit)).

Fixpoint run_steps (steps : list (string * M W (res unit))) : M W (res unit) :=
  match steps with
  | [] => ret (Ok tt)
  | (name, fn) :: steps =>
      let? _ := wrap (ErrorfW "migrations: %s: %w" [name]) fn in run_steps steps
  end.

(** The packages' own migrations: AutoMigrate of their tables, by [TableName];
    those with a backfill are in [Directory] and [ApiAuth]. *)
Definition queue_MigratePostgres : M W (res unit) := AutoMigrate ["queue_jobs"].
Definition webhook_MigratePostgres : M W (res unit) :=
  AutoMigrate ["webhook_subscriptions"; "webhook_delivery_attempts"; "webhook_deliveries"].
Definition storage_Migrate : M W (res unit) := AutoMigrate ["messages"].
Definition ratelimit_MigratePostgres : M W (res unit) := AutoMigrate ["rate_limit_buckets"].
Definition audit_MigratePostgres : M W (res unit) := AutoMigrate ["audit_log"].

(** [All]. *)
Definition All : M W (res unit) := run_steps [
  ("directory", Directory.Migrate db_Exec (AutoMigrate ["accounts"; "vhosts"; "mailboxes"; "dkim_keys"]));
  ("queue", queue_MigratePostgres);
  ("webhook", webhook_MigratePostgres);
  ("storage", storage_Migrate);
  ("ratelimit", ratelimit_MigratePostgres);
  ("apiauth", ApiAuth.MigratePostgres db_Exec (AutoMigrate ["api_tokens"]));
  ("audit", audit_MigratePostgres)].
End Migrations.

(** ** Instances *)

Inductive Backing := Direct | Remote (base token : string).

(** [acmeTLSConfig] with what its directory is reached through, or a
    certificate of the process's own. *)
Inductive TLSConfig := NoTLS | ACME (hosts : Backing) (email CA : string) | SelfSigned (cfg : tls_Config).

Inductive Instance :=
| IMetrics (addr : string)
| IAPI (admin : string) (capacity refill : float64)
| IWebhookDispatcher
| IInternalAPI (addr : string) (tokens : gmap string string)
| IRetentionPurger (defaultDays : Z) (interval : Duration)
| ISMTPInbound (addr domain : string) (tls : TLSConfig) (directory store queue rateLimiter webhooks : Backing)
    (rspamd : string) (ipCapacity ipRefill senderCapacity senderRefill : float64)
| ISMTPSubmission (addr domain : string) (tls : TLSConfig) (directory store queue quota webhooks : Backing)
| IIMAP (addr : string) (tls : TLSConfig) (directory store : Backing)
| IDeliverer (domain : string) (port concurrency : Z).

(** The type and name of an instance's platform; goose builds the API's. *)
Definition newInstance (i : Instance) : option string * string :=
  match i with
  | IMetrics _ => (Some "metrics", "metrics")
  | IAPI _ _ _ => (None, "envelope-api")
  | IWebhookDispatcher => (Some "webhook-dispatcher", "webhook-dispatcher")
  | IInternalAPI _ _ => (Some "internal-api", "internal-api")
  | IRetentionPurger _ _ => (Some "retention-purger", "retention-purger")
  | ISMTPInbound _ _ _ _ _ _ _ _ _ _ _ _ _ => (Some "smtp-inbound", roleSMTPInbound)
  | ISMTPSubmission _ _ _ _ _ _ _ _ => (Some "smtp-submission", roleSMTPSubmission)
  | IIMAP _ _ _ _ => (Some "imap", roleIMAP)
  | IDeliverer _ _ _ => (Some roleDeliverer, roleDeliverer)
  end.

(** How a run of [main] ends: with an error and exit code 1, after a
    rotation, or serving its instances. *)
Inductive Outcome := Exit1 (e : goerr) | Rotated (dkim secrets : Z) | Serving (instances : list Instance).

Section Main.
Context {W : Type} `{Db W, Table W accountRow, Table W vhostRow, Table W mailboxRow, Table W dkimKeyRow,
  Table W subscriptionRow, RandRead W, SHA256}.
Context (getenv : string → string) {PF : ParseFloat}.
Context (NewGCM : string → res AEAD).
(** gorm.Open on a DSN, the migration statements. *)
Context (gorm_Open : string → M W (res unit)).
Context (AutoMigrate : list string → M W (res unit)) (db_Exec : string → M W (res unit)).
Context {HE : Env W} {HX : CertSource W} {CM : CertMagic W}.

Definition Open (dsn : string) : M W (res unit) := wrap (ErrorfW "db: open: %w" []) (gorm_Open dsn).

Definition masterKeyFromEnv : res (Encryptor W) :=
  let v := getenv "ENVELOPE_MASTER_KEY" in
  if String.eqb v "" then Err (ErrNew "ENVELOPE_MASTER_KEY is required (TRD R1/NFR-SEC-3: encrypts DKIM keys and webhook secrets at rest) — generate one with: openssl rand -base64 32")
  else match Base64.DecodeString v with
       | Err e => Err (ErrorfW "ENVELOPE_MASTER_KEY must be base64-encoded: %w" [] e)
       | Ok key =>
           match NewAESGCMEncryptor NewGCM key with
           | Err e => Err (ErrorfW "ENVELOPE_MASTER_KEY: %w" [] e)
           | Ok enc => Ok enc
           end
       end.

(** The bootstrap admin credential; a failure to generate one exits. *)
Definition adminTokenFromEnv : M W (res string) :=
  let v := getenv "ENVELOPE_API_ADMIN_TOKEN" in
  if negb (String.eqb v "") then ret (Ok v)
  else let? g := GenerateToken in ret (Ok g.1).

(** The instances of the api role. *)
Definition api_instances : M W (res (list Instance)) :=
  let? admin := adminTokenFromEnv in
  ret (Ok [IAPI admin (floatEnv getenv "ENVELOPE_RATELIMIT_API_CAPACITY" (of_int 60))
             (floatEnv getenv "ENVELOPE_RATELIMIT_API_REFILL_PER_SECOND" (of_int 1));
           IWebhookDispatcher;
           IInternalAPI (internalAPIAddr getenv) (internalAPITokens getenv);
           IRetentionPurger (intEnv getenv "ENVELOPE_RETENTION_DEFAULT_DAYS" DefaultRetentionDays)
             (hours (intEnv getenv "ENVELOPE_RETENTION_SWEEP_INTERVAL_HOURS" (DefaultSweepInterval / Hour)))]).

(** The TLS configuration of the roles that listen for mail clients. *)
Definition tls_config (selected : gset string) (conn : bool) : M W (res TLSConfig) :=
  if bool_decide (roleSMTPInbound ∈ selected ∨ roleSMTPSubmission ∈ selected ∨ roleIMAP ∈ selected) then
    let email := getenv "ENVELOPE_ACME_EMAIL" in
    if negb (String.eqb email "") then
      let hosts := if conn then Direct
                   else Remote (internalAPIURL getenv) (internalAPITokenFor getenv (dbRoleForProcess selected)) in
      ret (Ok (ACME hosts email (acme_CA (W := W) getenv)))
    else
      let? cfg := wrap (ErrorfW "generate dev TLS cert: %w" []) (SelfSignedTLSConfig ["localhost"]) in ret (Ok (SelfSigned cfg))
  else ret (Ok NoTLS).

(** What an SMTP or IMAP role's dependencies are built on. *)
Definition backing (selected : gset string) (role : string) : Backing :=
  if internalAPIActivated getenv selected role
  then Remote (internalAPIURL getenv) (internalAPITokenFor getenv role) else Direct.

Definition inbound_instance (selected : gset string) (domain : string) (tls : TLSConfig) : Instance :=
  let b := backing selected roleSMTPInbound in
  ISMTPInbound (addrFromEnv getenv "ENVELOPE_SMTP_INBOUND_ADDR" ":25") domain tls b b Direct b b
    (rspamdURLFromEnv getenv)
    (floatEnv getenv "ENVELOPE_RATELIMIT_IP_CAPACITY" (of_int 20))
    (floatEnv getenv "ENVELOPE_RATELIMIT_IP_REFILL_PER_SECOND" (of_int 1))
    (floatEnv getenv "ENVELOPE_RATELIMIT_SENDER_CAPACITY" (of_int 10))
    (floatEnv getenv "ENVELOPE_RATELIMIT_SENDER_REFILL_PER_SECOND" (fdiv_int (of_int 1) 2)).

Definition submission_instance (selected : gset string) (domain : string) (tls : TLSConfig) : Instance :=
  let b := backing selected roleSMTPSubmission in
  ISMTPSubmission (addrFromEnv getenv "ENVELOPE_SMTP_SUBMISSION_ADDR" ":587") domain tls b b b b b.

Definition imap_instance (selected : gset string) (tls : TLSConfig) : Instance :=
  let b := backing selected roleIMAP in
  IIMAP (addrFromEnv getenv "ENVELOPE_IMAP_ADDR" ":993") tls b b.

Definition deliverer_instance (domain : string) : Instance :=
  IDeliverer domain (intEnv getenv "ENVELOPE_DELIVERER_SMTP_PORT" DefaultPort)
    (intEnv getenv "ENVELOPE_DELIVERER_PER_DOMAIN_CONCURRENCY" DefaultPerDomainConcurrency).

Definition when (b : bool) (l : list Instance) : list Instance := if b then l else [].

(** [conn] says whether the process has a database connection. *)
Definition buildInstances (selected : gset string) (conn : bool) : M W (res (list Instance)) :=
  let? _ := ret (if conn then match masterKeyFromEnv with Ok _ => Ok tt | Err e => Err e end else Ok tt) in
  let domain := addrFromEnv getenv "ENVELOPE_DOMAIN" "localhost" in
  let metrics := IMetrics (addrFromEnv getenv "ENVELOPE_METRICS_ADDR" ":9090") in
  let? api := (if bool_decide (roleAPI ∈ selected) then api_instances else ret (Ok [])) in
  let? tls := tls_config selected conn in
  ret (Ok ([metrics] ++ api ++
    when (bool_decide (roleSMTPInbound ∈ selected)) [inbound_instance selected domain tls] ++
    when (bool_decide (roleSMTPSubmission ∈ selected)) [submission_instance selected domain tls] ++
    when (bool_decide (roleIMAP ∈ selected)) [imap_instance selected tls] ++
    when (bool_decide (roleDeliverer ∈ selected)) [deliverer_instance domain])).

(** ** Master-key rotation *)

Definition rotateMasterKey (newKeyB64 : string) : M W (res (Z * Z)) :=
  match masterKeyFromEnv with
  | Err e => ret (Err e)
  | Ok oldEnc =>
      match Base64.DecodeString newKeyB64 with
      | Err e => ret (Err (ErrorfW "--rotate-master-key must be base64-encoded: %w" [] e))
      | Ok newKey =>
          match NewAESGCMEncryptor NewGCM newKey with
          | Err e => ret (Err (ErrorfW "--rotate-master-key: %w" [] e))
          | Ok newEnc =>
              let? _ := Open (DSNForRole getenv "migrator") in
              let? _ := wrap (ErrorfW "migrate before rotation: %w" []) (All AutoMigrate db_Exec) in
              let* dkim := RotateDKIMKeys Background oldEnc newEnc in
              match dkim with
              | (_, Some e) => ret (Err (ErrorfW "rotate dkim keys: %w" [] e))
              | (dkimRotated, None) =>
                  let* secrets := RotateSecrets Background oldEnc newEnc in
                  match secrets with
                  | (_, Some e) => ret (Err (ErrorfW "rotate webhook secrets: %w" [] e))
                  | (secretsRotated, None) => ret (Ok (dkimRotated, secretsRotated))
                  end
              end
          end
      end
  end.

(** ** main *)

Definition needsDirectDB (selected : gset string) : bool :=
  negb (internalAPIActivated getenv selected roleSMTPInbound ||
        internalAPIActivated getenv selected roleSMTPSubmission ||
        internalAPIActivated getenv selected roleIMAP).

Definition connect (selected : gset string) : M W (res bool) :=
  if needsDirectDB selected then
    let? _ := Open (DSNForRole getenv "migrator") in
    let? _ := All AutoMigrate db_Exec in
    let? _ := Open (DSNForRole getenv (dbRoleForProcess selected)) in
    ret (Ok true)
  else ret (Ok false).

Definition outcome {A} (f : A → Outcome) (m : M W (res A)) : M W Outcome :=
  let* r := m in ret (match r with Err e => Exit1 e | Ok a => f a end).

(** [rotateTo] and [roles] are the two flags. *)
Definition main (rotateTo roles : string) : M W Outcome :=
  if negb (String.eqb rotateTo "") then outcome (λ n, Rotated n.1 n.2) (rotateMasterKey rotateTo)
  else outcome Serving (
    match parseRoles roles with
    | Err e => ret (Err e)
    | Ok selected => let? conn := connect selected in buildInstances selected conn
    end).
End Main.

(** ** Facts *)

Lemma parse_pieces_spec l s r : parse_pieces l s = Ok r →
  ∀ x, x ∈ r ↔ x ∈ s ∨ (x ∈ TrimSpace <$> l ∧ x ≠ "" ∧ x ∈ allRoles).
Proof.
  revert s. induction l as [|p l IH]; intros s; simpl; [intros [= <-]; set_solver|].
  destruct (String.eqb_spec (TrimSpace p) "") as [He|Hne].
  - intros E x. rewrite (IH _ E). rewrite elem_of_cons. naive_solver.
  - destruct (isKnownRole (TrimSpace p)) eqn:Ek; simpl; [|done]. intros E x. rewrite (IH _ E).
    assert (Hk : TrimSpace p ∈ allRoles).
    { apply existsb_exists in Ek as (y & Hy%list_elem_of_In & Hxy%String.eqb_eq). by rewrite Hxy. }
    rewrite elem_of_cons, elem_of_union, elem_of_singleton. naive_solver.
Qed.

(** [--roles] selects exactly the roles named, which are known and not none. *)
Lemma parseRoles_spec csv selected : parseRoles csv = Ok selected →
  selected ≠ ∅ ∧ ∀ x, x ∈ selected ↔ x ∈ TrimSpace <$> SplitByte csv ","%char ∧ x ≠ "" ∧ x ∈ allRoles.
Proof.
  unfold parseRoles. destruct (parse_pieces _ _) as [s|e] eqn:E; [|done]. case_bool_decide; [done|].
  intros [= <-]. split; [done|]. intros x. rewrite (parse_pieces_spec _ _ _ E). set_solver.
Qed.

Lemma dbRole_singleton selected role : role ≠ "" → dbRoleForProcess selected = role → selected = {[role]}.
Proof.
  unfold dbRoleForProcess. intros Hne Hr. apply set_eq. intros x. rewrite elem_of_singleton.
  rewrite <-elem_of_elements. destruct (elements selected) as [|y [|z l]]; [congruence| |congruence].
  subst y. set_solver.
Qed.

(** The variables that hold credentials of the database or the master key. *)
Definition secret_var (key : string) : bool := String.eqb key "ENVELOPE_MASTER_KEY" || HasPrefix key "ENVELOPE_DB_".

(** What an instance reaches data through. *)
Definition tls_backing (t : TLSConfig) : list Backing := match t with ACME b _ _ => [b] | _ => [] end.

Definition used_backings (i : Instance) : list Backing :=
  match i with
  | IMetrics _ => []
  | IAPI _ _ _ | IWebhookDispatcher | IInternalAPI _ _ | IRetentionPurger _ _ | IDeliverer _ _ _ => [Direct]
  | ISMTPInbound _ _ tls d s _ r h _ _ _ _ _ => [d; s; r; h] ++ tls_backing tls   (* inbound uses no queue *)
  | ISMTPSubmission _ _ tls d s q u h => [d; s; q; u; h] ++ tls_backing tls
  | IIMAP _ tls d s => [d; s] ++ tls_backing tls
  end.

Section Isolation.
Context {W : Type} `{Db W, Table W accountRow, Table W vhostRow, Table W mailboxRow, Table W dkimKeyRow,
  Table W subscriptionRow, RandRead W, SHA256}.
Context (g g' : string → string) {PF : ParseFloat}.
Context (Hg : ∀ k, secret_var k = false → g' k = g k).
Context {HE : Env W} {HX : CertSource W} {CM : CertMagic W}.

Lemma addr_same k d : secret_var k = false → addrFromEnv g' k d = addrFromEnv g k d.
Proof. intros Hk. unfold addrFromEnv. by rewrite (Hg k Hk). Qed.
Lemma float_same k d : secret_var k = false → floatEnv g' k d = floatEnv g k d.
Proof. intros Hk. unfold floatEnv. by rewrite (Hg k Hk). Qed.
Lemma int_same k d : secret_var k = false → intEnv g' k d = intEnv g k d.
Proof. intros Hk. unfold intEnv. by rewrite (Hg k Hk). Qed.

Lemma token_var_public role : secret_var (internalAPITokenEnvVar role) = false.
Proof. unfold secret_var, internalAPITokenEnvVar, HasPrefix. by destruct (env_role role). Qed.

Lemma token_same role : internalAPITokenFor g' role = internalAPITokenFor g role.
Proof. unfold internalAPITokenFor. apply Hg, token_var_public. Qed.

Lemma activated_same selected role : internalAPIActivated g' selected role = internalAPIActivated g selected role.
Proof. unfold internalAPIActivated. by rewrite token_same. Qed.

Lemma backing_same selected role : backing g' selected role = backing g selected role.
Proof.
  unfold backing, internalAPIURL. rewrite activated_same, token_same. by rewrite addr_same by done.
Qed.

Lemma tls_same selected : tls_config (W := W) g' selected false = tls_config g selected false.
Proof.
  unfold tls_config, internalAPIURL, acme_CA. rewrite token_same, addr_same by done.
  by rewrite (Hg "ENVELOPE_ACME_EMAIL" eq_refl), (Hg "ENVELOPE_ACME_STAGING" eq_refl).
Qed.

(** Without a connection, nothing a process starts depends on those variables. *)
Lemma build_same (NewGCM NewGCM' : string → res AEAD) selected :
  roleAPI ∉ selected →
  buildInstances (W := W) g' NewGCM' selected false = buildInstances g NewGCM selected false.
Proof.
  intros Hapi. unfold buildInstances, inbound_instance, submission_instance, imap_instance, deliverer_instance, rspamdURLFromEnv.
  rewrite (bool_decide_eq_false_2 _ Hapi), tls_same, !backing_same.
  by rewrite !addr_same, !float_same, !int_same by done.
Qed.
End Isolation.

Section ProcessFacts.
Context {W : Type} `{Db W, Table W accountRow, Table W vhostRow, Table W mailboxRow, Table W dkimKeyRow,
  Table W subscriptionRow, RandRead W, SHA256}.
Context (g : string → string) {PF : ParseFloat} (NewGCM : string → res AEAD) (gorm_Open : string → M W (res unit)).
Context (AutoMigrate : list string → M W (res unit)) (db_Exec : string → M W (res unit)).
Context {HE : Env W} {HX : CertSource W} {CM : CertMagic W}.

(** The roles that can be served over the internal API, alone in a process
    and with their token set. *)
Definition remote_roles : list string := [roleSMTPInbound; roleSMTPSubmission; roleIMAP].

Lemma remote_role_cases role : role ∈ remote_roles → role = roleSMTPInbound ∨ role = roleSMTPSubmission ∨ role = roleIMAP.
Proof. unfold remote_roles. rewrite !elem_of_cons, elem_of_nil. tauto. Qed.

Lemma remote_not_api role : role ∈ remote_roles → roleAPI ∉ ({[role]} : gset string).
Proof. intros Hr%remote_role_cases He%elem_of_singleton. subst role. by destruct Hr as [Hr|[Hr|Hr]]. Qed.

Lemma selects_singleton role r : bool_decide (r ∈ ({[role]} : gset string)) = String.eqb r role.
Proof.
  destruct (String.eqb_spec r role) as [->|Hne]; [apply bool_decide_eq_true_2|apply bool_decide_eq_false_2]; set_solver.
Qed.

Lemma needsDirectDB_false selected : needsDirectDB g selected = false →
  ∃ role, role ∈ remote_roles ∧ selected = {[role]} ∧ internalAPIActivated g selected role = true ∧
    internalAPITokenFor g role ≠ "".
Proof.
  unfold needsDirectDB. intros Hn%negb_false_iff.
  assert (Hr : ∃ role, role ∈ remote_roles ∧ internalAPIActivated g selected role = true).
  { unfold remote_roles. apply orb_true_iff in Hn as [Hn|Hn]; [apply orb_true_iff in Hn as [Hn|Hn]|];
      eexists; (split; [|exact Hn]); rewrite !elem_of_cons; tauto. }
  destruct Hr as (role & Hin & Ha). exists role. pose proof Ha as Ha'.
  unfold internalAPIActivated in Ha'. apply andb_true_iff in Ha' as [Hd%String.eqb_eq Ht%negb_true_iff%String.eqb_neq].
  split_and!; [done| |done|done]. apply dbRole_singleton; [|done].
  intros ->. by repeat (apply elem_of_cons in Hin as [?|Hin]; [done|]); apply elem_of_nil in Hin.
Qed.

Lemma needsDirectDB_true selected role : needsDirectDB g selected = true → role ∈ remote_roles →
  backing g selected role = Direct.
Proof.
  unfold needsDirectDB, backing. intros Hn%negb_true_iff Hr.
  apply orb_false_iff in Hn as [Hn H3']. apply orb_false_iff in Hn as [H1' H2'].
  apply remote_role_cases in Hr.
  destruct Hr as [->|[->| ->]]; by rewrite ?H1', ?H2', ?H3'.
Qed.

Lemma tls_config_backing selected conn (w : W) t w' :
  tls_config g selected conn w = (Ok t, w') →
  ∀ b, b ∈ tls_backing t →
    b = if conn then Direct else Remote (internalAPIURL g) (internalAPITokenFor g (dbRoleForProcess selected)).
Proof.
  unfold tls_config, mtry, wrap, ret. case_bool_decide; [|intros [= <- _]; set_solver].
  case_match; [intros [= <- _]; set_solver|].
  destruct (SelfSignedTLSConfig _ w) as [[cfg|e] w1]; [|done]. intros [= <- _]. set_solver.
Qed.

(** An activated process serves the metrics and its one role, and reaches
    everything through the internal API with that role's token. *)
Lemma activated_instances selected (w : W) l w' : needsDirectDB g selected = false →
  buildInstances g NewGCM selected false w = (Ok l, w') →
  ∃ role addr i, role ∈ remote_roles ∧ selected = {[role]} ∧ internalAPITokenFor g role ≠ "" ∧
    l = [IMetrics addr; i] ∧ used_backings i ≠ [] ∧
    ∀ b, b ∈ used_backings i → b = Remote (internalAPIURL g) (internalAPITokenFor g role).
Proof.
  intros Hn. destruct (needsDirectDB_false _ Hn) as (role & Hin & -> & Hact & Htok).
  assert (Hdb : dbRoleForProcess {[role]} = role).
  { unfold dbRoleForProcess. by rewrite elements_singleton. }
  assert (Hb : backing g {[role]} role = Remote (internalAPIURL g) (internalAPITokenFor g role)).
  { unfold backing. by rewrite Hact. }
  unfold buildInstances, mtry, ret. rewrite (bool_decide_eq_false_2 (roleAPI ∈ _)).
  2:{ by apply remote_not_api. }
  destruct (tls_config g {[role]} false w) as [[t|e] w1] eqn:Et; [|done].
  pose proof (tls_config_backing _ _ _ _ _ Et) as Ht. rewrite Hdb in Ht. rewrite !selects_singleton.
  intros [= <- _]. exists role, (addrFromEnv g "ENVELOPE_METRICS_ADDR" ":9090").
  destruct (remote_role_cases _ Hin) as [->|[->| ->]]; cbn [String.eqb Ascii.eqb Bool.eqb when app]; eexists;
    (split; [exact Hin|split; [reflexivity|split; [exact Htok|split; [reflexivity|split; [discriminate|]]]]]);
    intros b; unfold inbound_instance, submission_instance, imap_instance; cbn [used_backings app]; rewrite Hb;
    rewrite !elem_of_cons; intros Hx; destruct_or? Hx; first [exact Hx|by apply Ht].
Qed.

(** NFR-SEC-5: a process that uses the internal API opens no connection, runs
    no statement and depends on neither a database credential nor the master
    key: with any other values of these variables and any other database it
    does the same. *)
Lemma activated_isolated (g' : string → string) NewGCM' gorm_Open' AutoMigrate' db_Exec' roles selected :
  (∀ k, secret_var k = false → g' k = g k) →
  parseRoles roles = Ok selected → needsDirectDB g selected = false →
  main (W := W) g' NewGCM' gorm_Open' AutoMigrate' db_Exec' "" roles
  = main g NewGCM gorm_Open AutoMigrate db_Exec "" roles.
Proof.
  intros Hg Hp Hn. unfold main. simpl. rewrite Hp.
  assert (Hn' : needsDirectDB g' selected = false).
  { rewrite <-Hn. unfold needsDirectDB. by rewrite !(activated_same g g' Hg). }
  unfold connect. rewrite Hn, Hn'. unfold outcome, mtry, ret, bind. simpl.
  rewrite (build_same g g' Hg NewGCM NewGCM'); [done|].
  destruct (needsDirectDB_false _ Hn) as (role & Hin & -> & _).
  by apply remote_not_api.
Qed.

(** Any other process has its own connection, and uses nothing else. *)
Lemma direct_instances selected (w : W) l w' : needsDirectDB g selected = true →
  buildInstances g NewGCM selected true w = (Ok l, w') →
  ∀ i b, i ∈ l → b ∈ used_backings i → b = Direct.
Proof.
  intros Hn. pose proof (λ role, needsDirectDB_true selected role Hn) as Hd.
  unfold buildInstances, mtry, ret. destruct (masterKeyFromEnv _ _) as [enc|e]; [|done].
  destruct ((if bool_decide (roleAPI ∈ selected) then api_instances g else λ w0, (Ok [], w0)) w) as [[api|e] w1] eqn:Ea; [|done].
  destruct (tls_config g selected true w1) as [[t|e] w2] eqn:Et; [|done].
  pose proof (tls_config_backing _ _ _ _ _ Et) as Ht. simpl in Ht. intros [= <- _] i b.
  assert (Hapi : ∀ j, j ∈ api → ∀ b, b ∈ used_backings j → b = Direct).
  { revert Ea. case_bool_decide; [|intros [= <- _]; set_solver].
    unfold api_instances, mtry, ret. destruct (adminTokenFromEnv g w) as [[a|e] w3]; [|done].
    intros [= <- _] j. rewrite !elem_of_cons, elem_of_nil. intros Hj. destruct_or? Hj; subst; set_solver. }
  unfold when, remote_roles in *.
  assert (H1' : backing g selected roleSMTPInbound = Direct) by (apply Hd; rewrite !elem_of_cons; tauto).
  assert (H2' : backing g selected roleSMTPSubmission = Direct) by (apply Hd; rewrite !elem_of_cons; tauto).
  assert (H3' : backing g selected roleIMAP = Direct) by (apply Hd; rewrite !elem_of_cons; tauto).
  simpl. rewrite elem_of_cons, !elem_of_app.
  intros Hi Hb. destruct_or? Hi; subst; try (by apply elem_of_nil in Hb); try (by eapply Hapi).
  all: case_bool_decide; [apply list_elem_of_singleton in Hi as ->|by apply elem_of_nil in Hi];
    simpl in Hb; rewrite ?H1', ?H2', ?H3' in Hb; rewrite ?elem_of_cons in Hb; destruct_or? Hb; try done; try (by apply elem_of_nil in Hb); by apply Ht.
Qed.
(** No two instances of a process share a name. *)
Lemma instances_distinct selected conn (w : W) l w' :
  buildInstances g NewGCM selected conn w = (Ok l, w') → NoDup (snd ∘ newInstance <$> l).
Proof.
  unfold buildInstances, mtry, ret. destruct (if conn then _ else _) as [x|e]; [|done].
  set (api := if bool_decide (roleAPI ∈ selected) then _ else _). destruct (api w) as [[la|e] w1] eqn:Ea; [|done].
  assert (Hn : snd ∘ newInstance <$> la = [] ∨
    snd ∘ newInstance <$> la = ["envelope-api"; "webhook-dispatcher"; "internal-api"; "retention-purger"]).
  { revert Ea. unfold api. case_bool_decide; [|intros [= <- _]; by left].
    unfold api_instances, mtry, ret. destruct (adminTokenFromEnv g w) as [[a|e] w2]; [|done]. intros [= <- _]. by right. }
  destruct (tls_config g selected conn w1) as [[t|e] w2]; [|done]. intros [= <- _].
  rewrite fmap_cons, !fmap_app. unfold when. destruct Hn as [-> | ->]; repeat case_bool_decide;
    apply (bool_decide_unpack _); by vm_compute.
Qed.
End ProcessFacts.

(** Rotation across both tables: whatever happens every secret stays readable
    under one of the two keys, so the tool can be run again; when it reports
    success every DKIM key and every subscription secret is under the new one. *)
Section Rotation.
Context {W : Type} `{Db W, Table W accountRow, Table W vhostRow, Table W mailboxRow, !Table W dkimKeyRow,
  !Table W subscriptionRow, !TableSpec W dkimKeyRow, !TableSpec W subscriptionRow, RandRead W, SHA256}.
Context `{!Separate W dkimKeyRow subscriptionRow, !Separate W subscriptionRow dkimKeyRow}.
Context (g : string → string) (NewGCM : string → res AEAD) (gorm_Open : string → M W (res unit)).
Context (AutoMigrate : list string → M W (res unit)) (db_Exec : string → M W (res unit)).
Context (oldEnc newEnc : Encryptor W) `{!EncryptorSpec newEnc, !KeySeparate oldEnc newEnc}.

Definition both_rotating s1 s2 (w : W) : Prop :=
  rot_inv dk_PrivateKeyPEM oldEnc newEnc s1 (tbl_rows (D := dkimKeyRow) w) ∧
  rot_inv sr_Secret oldEnc newEnc s2 (tbl_rows (D := subscriptionRow) w).

(** A rotation of one table leaves another alone. *)
Lemma rotate_separate {D1 D2} `{!Table W D1, !Table W D2, !TableSpec W D2, !Separate W D1 D2}
    col set_col txt ctx (w : W) r w' :
  (∀ p, Preserves (tbl_rows (D := D2)) (Encrypt newEnc p)) →
  rotate (D := D1) col set_col txt oldEnc newEnc ctx w = (r, w') → tbl_rows (D := D2) w' = tbl_rows w.
Proof.
  intros He. unfold rotate, bind. destruct (tbl_Find _ _ w) as [x w1] eqn:Ef.
  pose proof (preserves_eq (tbl_rows (D := D2)) _ _ _ _ Ef) as Hw1. rewrite <-Hw1. clear Hw1 Ef.
  destruct x as [rows|e]; [|by intros [= _ <-]]. generalize 0. revert w1.
  induction rows as [|row rows IH]; intros w1 n; simpl; [by intros [= _ <-]|].
  destruct (Base64.DecodeString _); [|by intros [= _ <-]].
  destruct (Decrypt oldEnc _).
  - unfold bind. destruct (Encrypt newEnc _ w1) as [y w2] eqn:Ee.
    rewrite <-(preserves_eq (tbl_rows (D := D2)) _ _ _ _ Ee).
    destruct y as [c|e]; [|by intros [= _ <-]].
    destruct (tbl_Updates _ _ _ w2) as [u w3] eqn:Eu.
    rewrite <-(preserves_eq (tbl_rows (D := D2)) _ _ _ _ Eu).
    destruct u; [apply IH|by intros [= _ <-]].
  - destruct (Decrypt newEnc _); [apply IH|by intros [= _ <-]].
Qed.

Lemma dkim_step s ctx (w : W) n e w' :
  (∀ p, Preserves (tbl_rows (D := dkimKeyRow)) (Encrypt newEnc p)) →
  rot_inv dk_PrivateKeyPEM oldEnc newEnc s (tbl_rows w) →
  RotateDKIMKeys ctx oldEnc newEnc w = ((n, e), w') →
  rot_inv dk_PrivateKeyPEM oldEnc newEnc s (tbl_rows w') ∧
  (e = None → Forall (under_new dk_PrivateKeyPEM oldEnc newEnc s) (tbl_rows w')).
Proof. intros He Hi E. eapply rotate_spec in E as (H1' & _ & H3'); done. Qed.

Lemma secret_step s ctx (w : W) n e w' :
  (∀ p, Preserves (tbl_rows (D := subscriptionRow)) (Encrypt newEnc p)) →
  rot_inv sr_Secret oldEnc newEnc s (tbl_rows w) →
  RotateSecrets ctx oldEnc newEnc w = ((n, e), w') →
  rot_inv sr_Secret oldEnc newEnc s (tbl_rows w') ∧
  (e = None → Forall (under_new sr_Secret oldEnc newEnc s) (tbl_rows w')).
Proof. intros He Hi E. eapply rotate_spec in E as (H1' & _ & H3'); done. Qed.

Lemma rotate_master_key_resumable newKeyB64 newKey s1 s2 (w : W) r w' :
  (∀ p, Preserves (tbl_rows (D := dkimKeyRow)) (Encrypt newEnc p)) →
  (∀ p, Preserves (tbl_rows (D := subscriptionRow)) (Encrypt newEnc p)) →
  (∀ d, Preserves (λ w, (tbl_rows (D := dkimKeyRow) w, tbl_rows (D := subscriptionRow) w)) (gorm_Open d)) →
  Preserves (λ w, (tbl_rows (D := dkimKeyRow) w, tbl_rows (D := subscriptionRow) w)) (All AutoMigrate db_Exec) →
  masterKeyFromEnv g NewGCM = Ok oldEnc → Base64.DecodeString newKeyB64 = Ok newKey →
  NewAESGCMEncryptor NewGCM newKey = Ok newEnc →
  both_rotating s1 s2 w →
  rotateMasterKey g NewGCM gorm_Open AutoMigrate db_Exec newKeyB64 w = (r, w') →
  both_rotating s1 s2 w' ∧
  (is_Ok r = true →
     Forall (under_new dk_PrivateKeyPEM oldEnc newEnc s1) (tbl_rows w') ∧
     Forall (under_new sr_Secret oldEnc newEnc s2) (tbl_rows w')).
Proof.
  intros He1 He2 Ho Ha Hold Hnew Hgcm [Hi1 Hi2]. unfold rotateMasterKey, Open, mtry, wrap, bind, ret.
  rewrite Hold, Hnew, Hgcm.
  destruct (gorm_Open _ w) as [o w1] eqn:Eo.
  pose proof (preserves_eq _ _ _ _ _ Eo) as Hw1. simpl in Hw1. injection Hw1 as Hd1 Hs1.
  destruct o as [[]|e]; simpl; [|intros [= <- <-]; split; [split; by rewrite ?Hd1, ?Hs1|done]].
  destruct (All AutoMigrate db_Exec w1) as [a w2] eqn:Ea.
  pose proof (preserves_eq _ _ _ _ _ Ea) as Hw2. simpl in Hw2. injection Hw2 as Hd2 Hs2.
  destruct a as [[]|e]; simpl; [|intros [= <- <-]; split; [split; by rewrite ?Hd2, ?Hd1, ?Hs2, ?Hs1|done]].
  destruct (RotateDKIMKeys Background oldEnc newEnc w2) as [[n1 e1] w3] eqn:E1.
  pose proof (rotate_separate (D2 := subscriptionRow) _ _ _ _ _ _ _ He2 E1) as Hs3.
  apply (dkim_step s1) in E1 as (Hi3 & Hn1); [|done|by rewrite Hd2, Hd1].
  destruct e1 as [e1|]; [intros [= <- <-]; split; [split; [done|by rewrite Hs3, Hs2, Hs1]|done]|].
  destruct (RotateSecrets Background oldEnc newEnc w3) as [[n2 e2] w4] eqn:E2.
  pose proof (rotate_separate (D2 := dkimKeyRow) _ _ _ _ _ _ _ He1 E2) as Hd4.
  apply (secret_step s2) in E2 as (Hi4 & Hn2); [|done|by rewrite Hs3, Hs2, Hs1].
  destruct e2 as [e2|]; intros [= <- <-]; (split; [split; [by rewrite Hd4|done]|]); [done|].
  intros _. rewrite Hd4. auto.
Qed.
End Rotation.
